(** * Publisher record verification engine: a shallow embedding

    This development embeds the pure core of
    [scripts/verify_publisher_record.mjs] (and of its later copy that adds the
    structured author parser) and proves properties of it.

    Conventions.
    - A JavaScript string is a [string]: one [ascii] per UTF-16 code unit, for
      the code units U+0000..U+00FF.  White space, case mapping and the
      regular-expression classes are the ECMAScript ones restricted to that
      range.
    - A function that can end in a thrown exception returns a [completion].
    - Regular expressions are kept as syntax trees ([re]) and run by one
      backtracking matcher with the ECMAScript priorities (leftmost start,
      greedy quantifiers tried longest first, alternatives left to right).
    - The WHATWG URL parser, the network and the browser are not part of the
      repository; they enter as parameters ([Platform], [World]). *)

From Stdlib Require Import Bool Arith Lia List NArith ZArith.
From Stdlib Require Import Strings.Ascii Strings.String.
Import ListNotations.
Open Scope string_scope.
Open Scope bool_scope.

Set Implicit Arguments.

(* ------------------------------------------------------------------ *)
(** ** Abrupt completions *)

Inductive exn : Type :=
| URIError        (* decodeURIComponent on a malformed escape *)
| RangeError      (* String.fromCodePoint above U+10FFFF *)
| BrowserError    (* a rejected browser-automation promise *)
| TypeError       (* iterating a value that is not iterable *)
| OutsideAlphabet (* a character reference above U+00FF, not representable here *).

Inductive completion (A : Type) : Type :=
| Normal (a : A)
| Throw (e : exn).

Arguments Normal {A} a.
Arguments Throw {A} e.

Definition bindC {A B} (c : completion A) (f : A -> completion B) : completion B :=
  match c with
  | Normal a => f a
  | Throw e => Throw e
  end.

Notation "x <- c ;; k" := (bindC c (fun x => k))
  (at level 61, c at next level, right associativity).

Definition returned {A} (c : completion A) : bool :=
  match c with Normal _ => true | Throw _ => false end.

(* ------------------------------------------------------------------ *)
(** ** Code units *)

Module Char.

Definition code (c : ascii) : nat := nat_of_ascii c.

Definition between (lo hi : nat) (c : ascii) : bool :=
  Nat.leb lo (code c) && Nat.leb (code c) hi.

Definition eq (d : ascii) (c : ascii) : bool := Ascii.eqb d c.

(** [\s], also the set removed by [String.prototype.trim]:
    TAB LF VT FF CR SPACE NBSP. *)
Definition space (c : ascii) : bool :=
  between 9 13 c || Nat.eqb (code c) 32 || Nat.eqb (code c) 160.

Definition digit (c : ascii) : bool := between 48 57 c.
Definition upper (c : ascii) : bool := between 65 90 c.
Definition lower (c : ascii) : bool := between 97 122 c.
Definition alpha (c : ascii) : bool := upper c || lower c.
Definition alnum (c : ascii) : bool := alpha c || digit c.
Definition hex (c : ascii) : bool :=
  digit c || between 65 70 c || between 97 102 c.

(** [\w] *)
Definition word (c : ascii) : bool := alnum c || Nat.eqb (code c) 95.

(** [.] without the s flag: anything but a line terminator. *)
Definition dot (c : ascii) : bool := negb (Nat.eqb (code c) 10 || Nat.eqb (code c) 13).

Definition any (_ : ascii) : bool := true.

(** Case mapping of ECMAScript on U+0000..U+00FF.  Lower-casing stays in the
    range.  Upper-casing leaves the range (or the length) for U+00B5, U+00DF
    and U+00FF; the program only upper-cases ASCII letters. *)
Definition to_lower (c : ascii) : ascii :=
  if upper c || between 192 214 c || between 216 222 c
  then ascii_of_nat (code c + 32) else c.

Definition to_upper (c : ascii) : ascii :=
  if lower c || between 224 246 c || between 248 254 c
  then ascii_of_nat (code c - 32) else c.

(** A pattern character under the [i] flag. *)
Definition ci (d : ascii) (c : ascii) : bool :=
  Ascii.eqb (to_lower d) (to_lower c) && (alpha d || Ascii.eqb d c).

Definition one_of (set : string) (c : ascii) : bool :=
  (fix mem (s : string) : bool :=
     match s with
     | EmptyString => false
     | String d s' => Ascii.eqb d c || mem s'
     end) set.

End Char.

(* ------------------------------------------------------------------ *)
(** ** String primitives of the host language *)

Module Str.

Fixpoint map (f : ascii -> ascii) (s : string) : string :=
  match s with
  | EmptyString => EmptyString
  | String c s' => String (f c) (map f s')
  end.

Definition toLowerCase : string -> string := map Char.to_lower.
Definition toUpperCase : string -> string := map Char.to_upper.

Fixpoint forallb (p : ascii -> bool) (s : string) : bool :=
  match s with
  | EmptyString => true
  | String c s' => p c && forallb p s'
  end.

Fixpoint existsb (p : ascii -> bool) (s : string) : bool :=
  match s with
  | EmptyString => false
  | String c s' => p c || existsb p s'
  end.

Fixpoint filter (p : ascii -> bool) (s : string) : string :=
  match s with
  | EmptyString => EmptyString
  | String c s' => if p c then String c (filter p s') else filter p s'
  end.

Fixpoint rev_onto (s acc : string) : string :=
  match s with
  | EmptyString => acc
  | String c s' => rev_onto s' (String c acc)
  end.

Definition rev (s : string) : string := rev_onto s EmptyString.

Fixpoint drop_while (p : ascii -> bool) (s : string) : string :=
  match s with
  | EmptyString => EmptyString
  | String c s' => if p c then drop_while p s' else s
  end.

Definition trimStart (s : string) : string := drop_while Char.space s.
Definition trimEnd (s : string) : string := rev (drop_while Char.space (rev s)).
Definition trim (s : string) : string := trimEnd (trimStart s).

Definition is_empty (s : string) : bool :=
  match s with EmptyString => true | _ => false end.

(** JavaScript truthiness of a string. *)
Definition truthy (s : string) : bool := negb (is_empty s).

(** [a || b] on strings. *)
Definition or_else (a b : string) : string := if truthy a then a else b.

Fixpoint take (n : nat) (s : string) : string :=
  match n, s with
  | S n', String c s' => String c (take n' s')
  | _, _ => EmptyString
  end.

Fixpoint drop (n : nat) (s : string) : string :=
  match n, s with
  | S n', String _ s' => drop n' s'
  | _, _ => s
  end.

Definition first_char (s : string) : string := take 1 s.

Fixpoint last_char (s : string) : option ascii :=
  match s with
  | EmptyString => None
  | String c EmptyString => Some c
  | String _ s' => last_char s'
  end.

Definition starts_with (p s : string) : bool := String.prefix p s.

Fixpoint includes_from (fuel : nat) (p s : string) : bool :=
  String.prefix p s ||
  match fuel, s with
  | S f, String _ s' => includes_from f p s'
  | _, _ => false
  end.

(** [s.includes(p)] *)
Definition includes (p s : string) : bool := includes_from (String.length s) p s.

Definition ends_with (p s : string) : bool := String.prefix (rev p) (rev s).

(** [parts.join(sep)] *)
Fixpoint join (sep : string) (parts : list string) : string :=
  match parts with
  | [] => EmptyString
  | [p] => p
  | p :: rest => p ++ sep ++ join sep rest
  end.

(** [s.split(c)] for a one-character separator. *)
Fixpoint split_char (sep : ascii) (s : string) (cur : string) : list string :=
  match s with
  | EmptyString => [rev cur]
  | String c s' =>
      if Ascii.eqb c sep then rev cur :: split_char sep s' EmptyString
      else split_char sep s' (String c cur)
  end.

Definition split (sep : ascii) (s : string) : list string :=
  split_char sep s EmptyString.

(** [s.indexOf(c) >= 0] *)
Definition has_char (c : ascii) (s : string) : bool := existsb (Ascii.eqb c) s.

Fixpoint index_of_char (c : ascii) (s : string) : option nat :=
  match s with
  | EmptyString => None
  | String d s' =>
      if Ascii.eqb c d then Some 0
      else match index_of_char c s' with Some n => Some (S n) | None => None end
  end.

End Str.

(** [.filter(Boolean)] on an array of strings. *)
Definition filterBoolean (l : list string) : list string :=
  List.filter Str.truthy l.

Definition mem_string (x : string) (l : list string) : bool :=
  List.existsb (String.eqb x) l.

(* ------------------------------------------------------------------ *)
(** ** Regular expressions *)

Module Re.

Inductive re : Type :=
| Eps
| Chr (p : ascii -> bool)          (* one code unit of a class *)
| Seq (a b : re)
| Alt (a b : re)                   (* a|b *)
| Star (a : re)                    (* a*  greedy *)
| Lazy (a : re)                    (* a*? *)
| Rep (lo hi : nat) (a : re)       (* a{lo,hi} greedy *)
| Grp (a : re)                     (* the capturing group *)
| Bol                              (* ^ *)
| Eol                              (* $ *)
| Wb                               (* \b *).

Definition Plus (a : re) : re := Seq a (Star a).
Definition Opt (a : re) : re := Alt a Eps.

(** A literal, case-sensitive or under the [i] flag. *)
Fixpoint lit (s : string) : re :=
  match s with
  | EmptyString => Eps
  | String c EmptyString => Chr (Char.eq c)
  | String c s' => Seq (Chr (Char.eq c)) (lit s')
  end.

Fixpoint liti (s : string) : re :=
  match s with
  | EmptyString => Eps
  | String c EmptyString => Chr (Char.ci c)
  | String c s' => Seq (Chr (Char.ci c)) (liti s')
  end.

Fixpoint seq (l : list re) : re :=
  match l with
  | [] => Eps
  | [a] => a
  | a :: l' => Seq a (seq l')
  end.

Fixpoint alt (l : list re) : re :=
  match l with
  | [] => Eps
  | [a] => a
  | a :: l' => Alt a (alt l')
  end.

Definition is_word (o : option ascii) : bool :=
  match o with Some c => Char.word c | None => false end.

Definition head (s : string) : option ascii :=
  match s with EmptyString => None | String c _ => Some c end.

Section Matcher.
Variable R : Type.

(** The state at a position: the code unit before it, the rest of the input
    and the text of the capturing group, when it has taken part. *)
Definition cont := option ascii -> string -> option string -> option R.

(** A matcher: from a state and a continuation to the first success. *)
Definition matcher := option ascii -> string -> option string -> cont -> option R.

Definition orelse (x : option R) (y : unit -> option R) : option R :=
  match x with Some r => Some r | None => y tt end.

(** An iteration that consumes nothing ends the repetition. *)
Definition shorter (s1 s : string) : bool :=
  Nat.ltb (String.length s1) (String.length s).

(** [a*]: one more [a] first, then the continuation. *)
Fixpoint star_loop (a : matcher) (k : cont) (fuel : nat) (prev : option ascii)
         (s : string) (cap : option string) : option R :=
  match fuel with
  | O => k prev s cap
  | S fuel' =>
      orelse
        (a prev s cap
           (fun p1 s1 c1 =>
              if shorter s1 s then star_loop a k fuel' p1 s1 c1 else None))
        (fun _ => k prev s cap)
  end.

(** [a*?]: the continuation first, then one more [a]. *)
Fixpoint lazy_loop (a : matcher) (k : cont) (fuel : nat) (prev : option ascii)
         (s : string) (cap : option string) : option R :=
  match fuel with
  | O => k prev s cap
  | S fuel' =>
      orelse
        (k prev s cap)
        (fun _ =>
           a prev s cap
             (fun p1 s1 c1 =>
                if shorter s1 s then lazy_loop a k fuel' p1 s1 c1 else None))
  end.

(** [a{lo,hi}]: up to [hi] times, as many as possible, at least [lo]. *)
Fixpoint rep_loop (a : matcher) (k : cont) (lo hi : nat) (prev : option ascii)
         (s : string) (cap : option string) : option R :=
  match hi with
  | O => k prev s cap
  | S hi' =>
      orelse
        (a prev s cap (fun p1 s1 c1 => rep_loop a k (Nat.pred lo) hi' p1 s1 c1))
        (fun _ => match lo with O => k prev s cap | S _ => None end)
  end.

Fixpoint run (r : re) (prev : option ascii) (s : string)
         (cap : option string) (k : cont) {struct r} : option R :=
  match r with
  | Eps => k prev s cap
  | Chr p =>
      match s with
      | String c s' => if p c then k (Some c) s' cap else None
      | EmptyString => None
      end
  | Seq a b => run a prev s cap (fun p1 s1 c1 => run b p1 s1 c1 k)
  | Alt a b => orelse (run a prev s cap k) (fun _ => run b prev s cap k)
  | Star a => star_loop (run a) k (String.length s) prev s cap
  | Lazy a => lazy_loop (run a) k (String.length s) prev s cap
  | Rep lo hi a => rep_loop (run a) k lo hi prev s cap
  | Grp a =>
      run a prev s cap
          (fun p1 s1 _ =>
             k p1 s1 (Some (Str.take (String.length s - String.length s1) s)))
  | Bol => match prev with None => k prev s cap | Some _ => None end
  | Eol => match s with EmptyString => k prev s cap | _ => None end
  | Wb =>
      if xorb (is_word prev) (is_word (head s)) then k prev s cap else None
  end.
End Matcher.

(** One match: the text before it, the matched text, the text after it and
    the capture. *)
Record hit : Type := Hit {
  before : string;
  matched : string;
  after : string;
  group : option string
}.

(** A match that starts exactly at the current position: the text consumed,
    the rest of the input and the capture. *)
Definition at_pos (r : re) (prev : option ascii) (s : string)
  : option (string * string * option string) :=
  match run r prev s None (fun _ s1 c1 => Some (s1, c1)) with
  | Some (s1, c1) => Some (Str.take (String.length s - String.length s1) s, s1, c1)
  | None => None
  end.

(** The leftmost match at or after the current position; [pre] is the text
    already passed, reversed. *)
Fixpoint search_from (r : re) (prev : option ascii) (s : string) (pre : string)
  : option hit :=
  match at_pos r prev s with
  | Some (m, rest, c) => Some (Hit (Str.rev pre) m rest c)
  | None =>
      match s with
      | EmptyString => None
      | String c s' => search_from r (Some c) s' (String c pre)
      end
  end.

(** [s.match(r)] without the g flag. *)
Definition exec (r : re) (s : string) : option hit :=
  search_from r None s EmptyString.

(** [r.test(s)] *)
Definition test (r : re) (s : string) : bool :=
  match exec r s with Some _ => true | None => false end.

(** [s.replace(r, f)] without the g flag; [f] sees the hit. *)
Definition replace_with (r : re) (f : hit -> string) (s : string) : string :=
  match exec r s with
  | Some h => before h ++ f h ++ after h
  | None => s
  end.

Definition replace (r : re) (by_ : string) (s : string) : string :=
  replace_with r (fun _ => by_) s.

(** [s.replace(r, f)] with the g flag.  After a match the scan resumes where
    the match ended; after an empty match it first copies one code unit. *)
Fixpoint replace_all_from (fuel : nat) (r : re) (f : hit -> string)
         (prev : option ascii) (s : string) : string :=
  match fuel with
  | O => s
  | S fuel' =>
      match search_from r prev s EmptyString with
      | None => s
      | Some h =>
          match matched h, after h with
          | EmptyString, EmptyString => before h ++ f h
          | EmptyString, String c rest =>
              before h ++ f h ++ String c
                (replace_all_from fuel' r f (Some c) rest)
          | String _ _, rest =>
              before h ++ f h ++
                replace_all_from fuel' r f (Str.last_char (matched h)) rest
          end
      end
  end.

Definition replace_all_with (r : re) (f : hit -> string) (s : string) : string :=
  replace_all_from (S (String.length s)) r f None s.

Definition replace_all (r : re) (by_ : string) (s : string) : string :=
  replace_all_with r (fun _ => by_) s.

(** [s.split(r)] for a pattern that never matches the empty string. *)
Fixpoint split_from (fuel : nat) (r : re) (prev : option ascii) (s : string)
  : list string :=
  match fuel with
  | O => [s]
  | S fuel' =>
      match search_from r prev s EmptyString with
      | None => [s]
      | Some h =>
          match matched h with
          | EmptyString => [s]
          | String _ _ =>
              before h ::
                split_from fuel' r (Str.last_char (matched h)) (after h)
          end
      end
  end.

Definition split (r : re) (s : string) : list string :=
  match s with
  | EmptyString => match exec r s with Some _ => [] | None => [s] end
  | _ => split_from (S (String.length s)) r None s
  end.

End Re.

Import Re.

(* ------------------------------------------------------------------ *)
(** ** decodeURIComponent

    The Decode operation of ECMAScript with an empty reserved set.  A
    malformed escape throws [URIError].  The result is a string of UTF-16
    code units, written here as numbers: a well-formed escape can stand for
    any code point up to U+10FFFF. *)

Module Uri.

Definition hex_val (c : ascii) : option nat :=
  let n := Char.code c in
  if Char.digit c then Some (n - 48)
  else if Char.between 65 70 c then Some (n - 55)
  else if Char.between 97 102 c then Some (n - 87)
  else None.

(** One escape [%XY] at the head of the input. *)
Definition octet (s : string) : option (nat * string) :=
  match s with
  | String p (String h1 (String h2 rest)) =>
      if Char.eq "%" p then
        match hex_val h1, hex_val h2 with
        | Some a, Some b => Some (16 * a + b, rest)
        | _, _ => None
        end
      else None
  | _ => None
  end.

Fixpoint octets (n : nat) (s : string) : option (list nat * string) :=
  match n with
  | O => Some ([], s)
  | S n' =>
      match octet s with
      | Some (b, rest) =>
          match octets n' rest with
          | Some (bs, rest') => Some (b :: bs, rest')
          | None => None
          end
      | None => None
      end
  end.

Definition within (lo hi n : nat) : bool := Nat.leb lo n && Nat.leb n hi.

(** The well-formed UTF-8 sequences (Unicode, table 3-7), by lead octet. *)
Definition well_formed (lead : nat) (tail : list nat) : bool :=
  match tail with
  | [b1] => within 194 223 lead && within 128 191 b1
  | [b1; b2] =>
      within 128 191 b2 &&
      ((Nat.eqb lead 224 && within 160 191 b1) ||
       (within 225 236 lead && within 128 191 b1) ||
       (Nat.eqb lead 237 && within 128 159 b1) ||
       (within 238 239 lead && within 128 191 b1))
  | [b1; b2; b3] =>
      within 128 191 b2 && within 128 191 b3 &&
      ((Nat.eqb lead 240 && within 144 191 b1) ||
       (within 241 243 lead && within 128 191 b1) ||
       (Nat.eqb lead 244 && within 128 143 b1))
  | _ => false
  end.

(** Number of octets announced by a lead octet of 128 or more; 0 when the
    octet cannot lead (a continuation octet, or more than four). *)
Definition announced (lead : nat) : nat :=
  if within 192 223 lead then 2
  else if within 224 239 lead then 3
  else if within 240 247 lead then 4
  else 0.

(** The code point of a well-formed sequence. *)
Definition code_point (lead : nat) (tail : list nat) : N :=
  match tail with
  | [b1] => N.of_nat (lead - 192) * 64 + N.of_nat (b1 - 128)
  | [b1; b2] =>
      N.of_nat (lead - 224) * 4096 + N.of_nat (b1 - 128) * 64 + N.of_nat (b2 - 128)
  | [b1; b2; b3] =>
      N.of_nat (lead - 240) * 262144 + N.of_nat (b1 - 128) * 4096
      + N.of_nat (b2 - 128) * 64 + N.of_nat (b3 - 128)
  | _ => 0
  end%N.

(** The UTF-16 code units of a code point: itself, or a surrogate pair. *)
Definition code_units (v : N) : list N :=
  if (v <? 65536)%N then [v]
  else [55296 + (v - 65536) / 1024; 56320 + (v - 65536) mod 1024]%N.

Fixpoint units_of (s : string) : list N :=
  match s with
  | EmptyString => []
  | String c s' => N_of_ascii c :: units_of s'
  end.

Fixpoint decode (fuel : nat) (s : string) : completion (list N) :=
  match fuel, s with
  | _, EmptyString => Normal []
  | O, _ => Normal (units_of s)
  | S fuel', String c s' =>
      if Char.eq "%" c then
        match octet s with
        | None => Throw URIError
        | Some (b, rest) =>
            if Nat.ltb b 128 then
              r <- decode fuel' rest ;; Normal (N.of_nat b :: r)
            else
              match announced b with
              | O => Throw URIError
              | S n =>
                  match octets n rest with
                  | None => Throw URIError
                  | Some (tail, rest') =>
                      if well_formed b tail then
                        r <- decode fuel' rest' ;;
                        Normal (code_units (code_point b tail) ++ r)%list
                      else Throw URIError
                  end
              end
        end
      else r <- decode fuel' s' ;; Normal (N_of_ascii c :: r)
  end.

Definition decodeURIComponent (s : string) : completion (list N) :=
  decode (String.length s) s.

End Uri.

Import Uri.

(* ------------------------------------------------------------------ *)
(** ** Text helpers of the script *)

Definition ws : re := Chr Char.space.

(** [cleanText]: [String(value).replace(/\s+/g, " ").trim()], the empty
    string for a falsy value. *)
Definition cleanText (value : string) : string :=
  Str.trim (Re.replace_all (Plus ws) " " value).

Fixpoint pickFirst (values : list string) : string :=
  match values with
  | [] => ""
  | v :: rest =>
      let cleaned := cleanText v in
      if Str.truthy cleaned then cleaned else pickFirst rest
  end.

Definition NOT_VERIFIED : string := "[Not verified]".

Definition isNotVerifiedValue (value : string) : bool :=
  let cleaned := cleanText value in
  negb (Str.truthy cleaned) || String.eqb (Str.toLowerCase cleaned) "[not verified]".

Definition ensureField (value : string) : string :=
  Str.or_else (cleanText value) NOT_VERIFIED.

Fixpoint uniqueStrings_from (values : list string) (seen : list string)
  : list string :=
  match values with
  | [] => []
  | value :: rest =>
      let cleaned := cleanText value in
      if negb (Str.truthy cleaned) then uniqueStrings_from rest seen
      else if mem_string cleaned seen then uniqueStrings_from rest seen
      else cleaned :: uniqueStrings_from rest (cleaned :: seen)
  end.

Definition uniqueStrings (values : list string) : list string :=
  uniqueStrings_from values [].

(* ------------------------------------------------------------------ *)
(** ** DOI normalisation *)

(** [/^https?:\/\/(?:dx\.)?doi\.org\//i] *)
Definition RE_DOI_URL_PREFIX : re :=
  seq [Bol; liti "http"; Opt (liti "s"); liti "://"; Opt (liti "dx.");
       liti "doi.org/"].

(** [/^doi:\s*/i] *)
Definition RE_DOI_LABEL : re := seq [Bol; liti "doi:"; Star ws].

(** The class [[-._;()/:A-Z0-9]] under the [i] flag. *)
Definition doi_char (c : ascii) : bool :=
  Char.one_of "-._;()/:" c || Char.alnum c.

(** [/10\.\d{4,9}\/[-._;()/:A-Z0-9]+/i] *)
Definition RE_DOI : re :=
  seq [liti "10."; Rep 4 9 (Chr Char.digit); liti "/"; Plus (Chr doi_char)].

(** The class [[)\],.;\s]]. *)
Definition doi_trailing (c : ascii) : bool :=
  Char.one_of ")],.;" c || Char.space c.

(** [/[)\],.;\s]+$/g] *)
Definition RE_DOI_TRAILING : re := seq [Plus (Chr doi_trailing); Eol].

Definition DOI_ORG : string := "https://doi.org/".

(** [\s] above U+00FF: the space separators, the line and paragraph
    separators and the byte order mark. *)
Definition wide_space (u : N) : bool :=
  ((u =? 5760) || ((8192 <=? u) && (u <=? 8202)) || (u =? 8232) || (u =? 8233)
   || (u =? 8239) || (u =? 8287) || (u =? 12288) || (u =? 65279))%N.

(** A decoded code unit as the patterns of [normalizeDoi] read it.  Their
    literals, [\d] and the class of the DOI characters are ASCII, also under
    the [i] flag, so that the only test they make of a code unit above
    U+00FF is [\s]: such a unit is written U+00A0 when it is white space and
    U+0080 when it is not.  No such unit is part of the text matched, which
    holds DOI characters only, so that the result is the one of the code. *)
Definition as_read (u : N) : ascii :=
  if (u <? 256)%N then ascii_of_N u
  else if wide_space u then ascii_of_nat 160
  else ascii_of_nat 128.

Fixpoint text_as_read (units : list N) : string :=
  match units with
  | [] => EmptyString
  | u :: rest => String (as_read u) (text_as_read rest)
  end.

Definition decoded (s : string) : completion string :=
  units <- decodeURIComponent s ;; Normal (text_as_read units).

Definition normalizeDoi (doiOrUrl : string) : completion string :=
  if negb (Str.truthy doiOrUrl) then Normal ""
  else
    raw <- decoded (Str.trim doiOrUrl) ;;
    let raw := Re.replace RE_DOI_URL_PREFIX "" raw in
    let raw := Re.replace RE_DOI_LABEL "" raw in
    match Re.exec RE_DOI raw with
    | None => Normal ""
    | Some m =>
        let doi := Re.replace_all RE_DOI_TRAILING "" (matched m) in
        Normal (DOI_ORG ++ Str.toLowerCase doi)
    end.

Definition extractDoiFromText (value : string) : string :=
  if negb (Str.truthy value) then ""
  else
    match Re.exec RE_DOI value with
    | Some m =>
        DOI_ORG ++ Str.toLowerCase (Re.replace_all RE_DOI_TRAILING "" (matched m))
    | None => ""
    end.

(* ------------------------------------------------------------------ *)
(** ** The URL class of the platform *)

(** What the script reads from [new URL(x)]. *)
Record URL : Type := MkURL {
  protocol : string;                       (* with its colon *)
  hostname : string;
  origin : string;
  pathname : string;
  searchParams : list (string * string);   (* entries, in order *)
  hash : string
}.

(** [parseURL x] is [None] where [new URL(x)] throws; [serializeParams] is
    [URLSearchParams.prototype.toString]. *)
Record Platform : Type := MkPlatform {
  parseURL : string -> option URL;
  serializeParams : list (string * string) -> string
}.

Definition params_has (k : string) (ps : list (string * string)) : bool :=
  List.existsb (fun kv => String.eqb (fst kv) k) ps.

Definition params_get (k : string) (ps : list (string * string)) : option string :=
  match List.find (fun kv => String.eqb (fst kv) k) ps with
  | Some kv => Some (snd kv)
  | None => None
  end.

Definition params_delete (k : string) (ps : list (string * string))
  : list (string * string) :=
  List.filter (fun kv => negb (String.eqb (fst kv) k)) ps.

(** [/(^|\.)host$/], with and without the [i] flag. *)
Definition host_re (h : string) : re := seq [Alt Bol (lit "."); lit h; Eol].
Definition host_re_i (h : string) : re := seq [Alt Bol (lit "."); liti h; Eol].

Definition dq : string := String (ascii_of_nat 34) EmptyString.

Record Policy : Type := MkPolicy {
  name : string;
  hostPattern : re;
  protected : bool;
  abstractSelectors : list string
}.

Definition DEFAULT_POLICY : Policy :=
  MkPolicy "default" (Star (Chr Char.dot)) false
    ["section.abstract"; "#abstract"; "div.abstract"; ".abstract"].

Definition DOMAIN_POLICIES : list Policy :=
  [ MkPolicy "informs" (host_re_i "pubsonline.informs.org") true
      ["section.abstract"; "#abstract"; "div.abstractSection";
       "div.hlFld-Abstract"; "div.NLM_abstract"];
    MkPolicy "sage" (host_re_i "journals.sagepub.com") true
      ["section.abstract"; "#abstract"; "div.abstractSection";
       "div.articeBody_abstract"];
    MkPolicy "wiley" (host_re_i "onlinelibrary.wiley.com") true
      ["section.article-section__abstract"; "section.abstract"; "#abstract"];
    MkPolicy "springer_link" (host_re_i "link.springer.com") true
      ["section#Abs1"; "section.Abstract"; ".Abstract";
       "section.c-article-section[id^=" ++ dq ++ "Abs" ++ dq ++ "]";
       "#Abs1-content"; "section.abstract"; "#abstract"];
    MkPolicy "sciencedirect" (host_re_i "sciencedirect.com") true
      ["#abstracts"; ".Abstracts"; "section.abstract"];
    MkPolicy "oup" (host_re_i "academic.oup.com") true
      ["section.abstract p"; "section.abstract"; "div.abstract";
       "section[data-widgetname=" ++ dq ++ "ArticleFulltext" ++ dq ++
         "] section.abstract"];
    MkPolicy "aom_atypon" (host_re_i "journals.aom.org") true
      ["div.hlFld-Abstract"; "div.abstractSection.abstractInFull";
       "section.abstract"; "#abstract"; "div.abstract"];
    MkPolicy "doi" (host_re_i "doi.org") false
      ["section.abstract"; "#abstract"; "div.abstract"; ".abstract"];
    DEFAULT_POLICY ].

Definition TRACKING_HOST_PATTERNS : list re :=
  List.map host_re_i
    ["el.aom.org"; "el.wiley.com"; "click.skem1.com"; "lnk.springernature.com";
     "links.springernature.com"; "link.mail.elsevier.com";
     "click.notification.elsevier.com"].

Definition AOM_DOI_JOURNAL_BY_PREFIX : list (string * string) :=
  [ ("amj", "Academy of Management Journal");
    ("amd", "Academy of Management Discoveries");
    ("amr", "Academy of Management Review");
    ("amp", "Academy of Management Perspectives");
    ("annals", "Academy of Management Annals");
    ("amle", "Academy of Management Learning & Education") ].

Section WithPlatform.
Variable P : Platform.

Definition policyForUrl (rawUrl : string) : Policy :=
  let host := match parseURL P rawUrl with
              | Some u => hostname u
              | None => ""
              end in
  match List.find (fun item => Re.test (hostPattern item) host) DOMAIN_POLICIES with
  | Some item => item
  | None => DEFAULT_POLICY
  end.

Definition hostForUrl (rawUrl : string) : string :=
  match parseURL P rawUrl with
  | Some u => hostname u
  | None => ""
  end.

Definition isTrackingUrl (rawUrl : string) : bool :=
  let host := hostForUrl rawUrl in
  List.existsb (fun pattern => Re.test pattern host) TRACKING_HOST_PATTERNS.

Definition maybeCanonicalArticleUrl (rawUrl : string) : string :=
  match parseURL P rawUrl with
  | Some u =>
      if Str.includes "/advance-article/doi/" (pathname u)
         || Str.includes "/article/doi/" (pathname u)
      then origin u ++ pathname u
      else rawUrl
  | None => rawUrl
  end.

(** [/10\.5465\/([a-z]+)\./i] *)
Definition RE_AOM_DOI : re :=
  seq [liti "10.5465/"; Grp (Plus (Chr Char.alpha)); liti "."].

(** [AOM_DOI_JOURNAL_BY_PREFIX[key] || ""] for a key of lower-case letters.
    The table is an object literal: besides its six names it answers the
    key [constructor], which it inherits, with the function [Object] (no
    other inherited property has a name of lower-case letters only).  The
    value is read through [cleanText] alone, which applies [String] to it;
    the function is written here as the text [String] gives. *)
Definition OBJECT_CONSTRUCTOR : string := "function Object() { [native code] }".

Definition journal_by_prefix (key : string) : string :=
  match List.find (fun kv => String.eqb (fst kv) key) AOM_DOI_JOURNAL_BY_PREFIX with
  | Some kv => snd kv
  | None => if String.eqb key "constructor" then OBJECT_CONSTRUCTOR else ""
  end.

Definition aomJournalFromDoi (doiUrl : string) : completion string :=
  doi <- normalizeDoi doiUrl ;;
  match Re.exec RE_AOM_DOI doi with
  | None => Normal ""
  | Some m =>
      let key := Str.toLowerCase (match group m with Some g => g | None => "" end) in
      Normal (journal_by_prefix key)
  end.

(** [/\s+In-Press$/i] *)
Definition RE_IN_PRESS : re := seq [Plus ws; liti "In-Press"; Eol].

Definition inferJournalFallback (journal pageTitle finalUrl doiUrl : string)
  : completion string :=
  let direct := cleanText journal in
  if Str.truthy direct then Normal direct
  else
    fromDoi <- aomJournalFromDoi doiUrl ;;
    if Str.truthy fromDoi then Normal fromDoi
    else
      let title := cleanText pageTitle in
      let maybeJournal :=
        if Str.includes "|" title
        then Re.replace RE_IN_PRESS ""
               (cleanText (Str.join "|" (List.tl (Str.split "|" title))))
        else "" in
      if Str.truthy maybeJournal then Normal maybeJournal
      else if Re.test (host_re_i "journals.aom.org") (hostForUrl finalUrl)
      then Normal "Academy of Management [Not verified]"
      else Normal "".

(* ---------------------------------------------------------------- *)
(** *** Link classifiers *)

(** The class [[-_/?=&%]]. *)
Definition link_sep : re := Star (Chr (Char.one_of "-_/?=&%")).

Definition HREF_UNSUBSCRIBE : list re := [liti "unsubscribe"; liti "removealert"].
Definition TEXT_UNSUBSCRIBE : list re := [seq [Wb; liti "unsubscribe"; Wb]].

Definition HREF_MANAGEMENT : list re :=
  [ seq [liti "manage"; link_sep; liti "alert"; Opt (liti "s")];
    seq [liti "alert"; link_sep; liti "preference"; Opt (liti "s")];
    seq [liti "email"; link_sep; Opt (seq [liti "notification"; link_sep]);
         liti "preference"; Opt (liti "s")];
    seq [liti "notification"; link_sep; liti "preference"; Opt (liti "s")] ].

Definition TEXT_MANAGEMENT : list re :=
  [ seq [Wb; liti "manage"; Plus ws; Opt (seq [liti "my"; Plus ws]);
         liti "alert"; Opt (liti "s"); Wb];
    seq [Wb; alt [liti "alert"; liti "email"; liti "notification"]; Plus ws;
         liti "preference"; Opt (liti "s"); Wb];
    seq [Wb; liti "manage"; Plus ws; liti "preference"; Opt (liti "s"); Wb] ].

Definition some_test (patterns : list re) (s : string) : bool :=
  List.existsb (fun pattern => Re.test pattern s) patterns.

Definition classifyUnsafeAlertManagementLink (rawUrl linkText : string)
  : option string :=
  let urlLower := Str.toLowerCase rawUrl in
  let textLower := Str.toLowerCase (cleanText linkText) in
  if negb (Str.truthy urlLower) && negb (Str.truthy textLower) then None
  else if some_test HREF_UNSUBSCRIBE urlLower || some_test TEXT_UNSUBSCRIBE textLower
  then Some "alert_unsubscribe_link"
  else if some_test HREF_MANAGEMENT urlLower || some_test TEXT_MANAGEMENT textLower
  then Some "alert_management_preferences_link"
  else None.

Definition classifyUnsupportedUrlScheme (rawUrl : string) : option string :=
  let value := cleanText rawUrl in
  if negb (Str.truthy value) then None
  else if Re.test (seq [Bol; lit "//"]) value then None
  else
    match parseURL P value with
    | Some u =>
        let scheme := Str.toLowerCase (protocol u) in
        if negb (Str.truthy scheme) || String.eqb scheme "http:"
           || String.eqb scheme "https:" || String.eqb scheme "file:"
        then None
        else Some "unsupported_url_scheme"
    | None => None
    end.

Definition classifyUnsafePreNavigationLink (rawUrl linkText : string)
  : option string :=
  match classifyUnsafeAlertManagementLink rawUrl linkText with
  | Some reason => Some reason
  | None => classifyUnsupportedUrlScheme rawUrl
  end.

(** [/^prefix/i] on a path. *)
Definition path_starts (prefix path : string) : bool :=
  Re.test (seq [Bol; liti prefix]) path.

Definition classifyKnownNonArticleLink (rawUrl : string) : option string :=
  match parseURL P rawUrl with
  | None => None
  | Some u =>
      let host := Str.toLowerCase (hostname u) in
      let pathName := Str.or_else (pathname u) "/" in
      let is_host h := Re.test (host_re h) host in
      let root := String.eqb pathName "/" || String.eqb pathName "" in
      let aom :=
        if is_host "journals.aom.org" then
          if path_starts "/doi/" pathName then Some None
          else if path_starts "/action/removealert" pathName
          then Some (Some "aom_alert_management_link")
          else if path_starts "/action/showlogin" pathName
                  || path_starts "/s/login" pathName
          then Some (Some "aom_login_link")
          else if path_starts "/action/" pathName
          then Some (Some "aom_non_article_action_link")
          else None
        else None in
      match aom with
      | Some verdict => verdict
      | None =>
      if is_host "myaccount.aom.org" then Some "aom_account_link"
      else if is_host "aom.org" && negb (is_host "journals.aom.org")
      then Some "aom_marketing_or_policy_link"
      else
      let wiley :=
        if is_host "onlinelibrary.wiley.com" then
          if path_starts "/doi/" pathName then Some None
          else if path_starts "/action/removealert" pathName
          then Some (Some "wiley_alert_management_link")
          else if path_starts "/action/" pathName
          then Some (Some "wiley_non_article_action_link")
          else if path_starts "/toc/" pathName
          then Some (Some "wiley_toc_or_issue_link")
          else if path_starts "/journal/" pathName
          then Some (Some "wiley_journal_home_link")
          else if root then Some (Some "wiley_marketing_or_home_link")
          else None
        else None in
      match wiley with
      | Some verdict => verdict
      | None =>
      let springer :=
        if is_host "link.springer.com" then
          if path_starts "/article/" pathName then Some None
          else if path_starts "/content/pdf/" pathName
                  || path_starts "/content/html/" pathName
          then Some (Some "springer_article_asset_link")
          else if path_starts "/journal/" pathName then
            if Re.test (seq [liti "/volumes-and-issues"; Alt (lit "/") Eol]) pathName
            then Some (Some "springer_toc_or_issue_link")
            else Some (Some "springer_journal_home_link")
          else if path_starts "/search" pathName
                  || path_starts "/collections/" pathName
          then Some (Some "springer_navigation_or_collection_link")
          else if path_starts "/account/" pathName
                  || path_starts "/myaccount/" pathName
          then Some (Some "springer_account_or_preferences_link")
          else if params_has "error" (searchParams u)
                  || params_has "code" (searchParams u)
          then Some (Some "springer_email_webview_link")
          else if root then Some (Some "springer_marketing_or_home_link")
          else None
        else None in
      match springer with
      | Some verdict => verdict
      | None =>
      if is_host "mail.google.com"
         && match params_get "view" (searchParams u) with
            | Some v => String.eqb v "lg"
            | None => false
            end
         && params_has "permmsgid" (searchParams u)
      then Some "gmail_message_webview_link"
      else if is_host "atypon.com" then Some "technology_partner_link"
      else None
      end end end
  end.

(* ---------------------------------------------------------------- *)
(** *** Run-scoped deduplication of final URLs *)

(** A query key that is dropped: [/^utm_/i], [/^mc_/i], [/^campaign$/i],
    [/^source$/i]. *)
Definition is_tracking_param (key : string) : bool :=
  Re.test (seq [Bol; liti "utm_"]) key
  || Re.test (seq [Bol; liti "mc_"]) key
  || Re.test (seq [Bol; liti "campaign"; Eol]) key
  || Re.test (seq [Bol; liti "source"; Eol]) key.

Definition normalizeFinalUrlForRunDedupe (rawUrl : string) : string :=
  match parseURL P (maybeCanonicalArticleUrl rawUrl) with
  | None => ""
  | Some u =>
      let dropParams :=
        List.filter is_tracking_param (List.map fst (searchParams u)) in
      let kept :=
        List.fold_left (fun ps key => params_delete key ps) dropParams
                       (searchParams u) in
      let query := serializeParams P kept in
      origin u ++ pathname u ++ (if Str.truthy query then "?" ++ query else "")
  end.

(** The set of final URLs seen in a run: a JavaScript [Set] of keys, or
    [null] when the caller passes none. *)
Definition SeenSet : Type := option (list string).

Definition shouldSkipDuplicateFinalUrl (seenFinalUrls : SeenSet)
           (rawUrl inputUrl : string) : bool :=
  match seenFinalUrls with
  | None => false
  | Some seen =>
      let key := normalizeFinalUrlForRunDedupe rawUrl in
      if negb (Str.truthy key) then false
      else if isTrackingUrl rawUrl then false
      else if String.eqb (normalizeFinalUrlForRunDedupe inputUrl) key then false
      else mem_string key seen
  end.

Definition rememberFinalUrl (seenFinalUrls : SeenSet) (rawUrl : string) : SeenSet :=
  match seenFinalUrls with
  | None => None
  | Some seen =>
      let key := normalizeFinalUrlForRunDedupe rawUrl in
      if negb (Str.truthy key) then Some seen
      else if mem_string key seen then Some seen
      else Some (seen ++ [key])%list
  end.

End WithPlatform.

(* ------------------------------------------------------------------ *)
(** ** Article-type classification *)

Definition INCLUDE_ARTICLE_TYPES : list string :=
  ["research-article"; "research-paper"; "editorial"].

Definition EXCLUDE_ARTICLE_TYPES : list string :=
  ["book-review"; "media-review"; "discussion"; "commentary"; "corrigendum";
   "erratum"; "retraction"; "interview"; "call-for-papers"; "announcement";
   "news"].

(** [POLICY_ARTICLE_TYPE_OVERRIDES[key]].  The table is a plain object, so the
    two lower-case names it inherits answer with a value that the loop over
    the overrides cannot iterate. *)
Definition policy_overrides (key : string) : completion (list (re * string)) :=
  if String.eqb key "springer_link" then
    Normal [ (seq [Wb; liti "original"; Star ws; liti "paper"; Wb], "research-article");
             (seq [Wb; liti "original"; Star ws; liti "article"; Wb], "research-article") ]
  else if String.eqb key "constructor" || String.eqb key "__proto__" then
    Throw TypeError
  else Normal [].

(** The chain of tests of [normalizeArticleTypeValue], in order. *)
Definition ARTICLE_TYPE_RULES : list (re * string) :=
  [ (seq [Wb; liti "editorial"; Star ws; Alt (liti "board") (liti "data"); Wb],
     "announcement");
    (Alt (seq [liti "book"; Star ws; liti "review"])
         (seq [liti "media"; Star ws; liti "review"]), "book-review");
    (seq [Wb; Alt (liti "editorial") (seq [liti "from the editor"; Opt (liti "s")]); Wb],
     "editorial");
    (seq [Wb; liti "discussion"; Wb], "discussion");
    (seq [Wb; alt [liti "commentary"; liti "perspective"; liti "opinion"]; Wb],
     "commentary");
    (seq [Wb; Alt (liti "corrigendum") (liti "corrigenda"); Wb], "corrigendum");
    (seq [Wb; Alt (liti "erratum") (liti "errata"); Wb], "erratum");
    (seq [Wb; Alt (liti "retraction") (liti "withdrawal"); Wb], "retraction");
    (seq [Wb; liti "interview"; Wb], "interview");
    (seq [Wb; liti "call"; Star ws; liti "for"; Star ws; liti "paper";
          Opt (liti "s"); Wb], "call-for-papers");
    (seq [Wb; Alt (liti "announcement") (liti "announcements"); Wb], "announcement");
    (seq [Wb; liti "news"; Wb], "news");
    (seq [Wb; alt [seq [liti "research"; Star ws; liti "paper"];
                   seq [liti "research"; Star ws; liti "article"];
                   seq [liti "original"; Star ws; liti "article"]]; Wb],
     "research-article");
    (seq [Wb; Alt (liti "scholarlyarticle") (liti "journalarticle"); Wb],
     "research-article");
    (seq [Wb; liti "article"; Wb], "research-article") ].

Record Normalized : Type := MkNormalized {
  normalized : string;
  matchedHint : string
}.

Definition first_rule (rules : list (re * string)) (text : string) : option string :=
  match List.find (fun rule => Re.test (fst rule) text) rules with
  | Some rule => Some (snd rule)
  | None => None
  end.

Definition normalizeArticleTypeValue (value policyName : string)
           (allowPolicyOverrides : bool) : completion Normalized :=
  let text := Str.toLowerCase (cleanText value) in
  if negb (Str.truthy text) then Normal (MkNormalized "" "")
  else
    overrides <- (if allowPolicyOverrides
                  then policy_overrides (Str.toLowerCase policyName)
                  else Normal []) ;;
    match first_rule overrides text with
    | Some n => Normal (MkNormalized n (cleanText value))
    | None =>
        match first_rule ARTICLE_TYPE_RULES text with
        | Some n => Normal (MkNormalized n (cleanText value))
        | None => Normal (MkNormalized "" "")
        end
    end.

(** A hint as the callers pass it: a bare string, or an object whose [value]
    may be undefined. *)
Inductive Hint : Type :=
| HintText (text : string)
| HintObject (value : option string) (sourceLabel : string).

(** [cleanText(hint.value ?? hint)]; an object without a value is rendered by
    [String] as the text below. *)
Definition hint_value (h : Hint) : string :=
  match h with
  | HintText t => cleanText t
  | HintObject (Some v) _ => cleanText v
  | HintObject None _ => "[object Object]"
  end.

Definition hint_label (dflt : string) (h : Hint) : string :=
  match h with
  | HintText _ => dflt
  | HintObject _ l => Str.or_else (cleanText (Str.or_else l dflt)) dflt
  end.

(** [!hint] *)
Definition hint_falsy (h : Hint) : bool :=
  match h with
  | HintText t => negb (Str.truthy t)
  | HintObject _ _ => false
  end.

Record CleanHint : Type := MkCleanHint {
  hvalue : string;
  hlabel : string
}.

Definition NUL : string := String (ascii_of_nat 0) EmptyString.

Definition hint_key (h : CleanHint) : string := hlabel h ++ NUL ++ hvalue h.

(** The two loops that clean the hints and drop repeats; they share [seen]. *)
Fixpoint collect_hints (dflt : string) (hints : list Hint) (seen : list string)
  : list CleanHint * list string :=
  match hints with
  | [] => ([], seen)
  | h :: rest =>
      if hint_falsy h then collect_hints dflt rest seen
      else
        let value := hint_value h in
        if negb (Str.truthy value) then collect_hints dflt rest seen
        else
          let c := MkCleanHint value (hint_label dflt h) in
          if mem_string (hint_key c) seen then collect_hints dflt rest seen
          else
            let (out, seen') := collect_hints dflt rest (hint_key c :: seen) in
            (c :: out, seen')
  end.

Record Classification : Type := MkClassification {
  c_articleType : string;
  c_ingestDecision : string;
  c_ingestReason : string;
  c_source : string;
  c_matchedHint : string
}.

Definition classifyOne (policyName : string) (hint : CleanHint)
           (allowPolicyOverrides : bool) : completion (option Classification) :=
  r <- normalizeArticleTypeValue (hvalue hint) policyName allowPolicyOverrides ;;
  let n := normalized r in
  if negb (Str.truthy n) then Normal None
  else if mem_string n EXCLUDE_ARTICLE_TYPES then
    Normal (Some (MkClassification n "exclude" ("excluded_by_type:" ++ n)
                    (hlabel hint) (Str.or_else (matchedHint r) (hvalue hint))))
  else if mem_string n INCLUDE_ARTICLE_TYPES then
    Normal (Some (MkClassification n "include" ("included_by_type:" ++ n)
                    (hlabel hint) (Str.or_else (matchedHint r) (hvalue hint))))
  else Normal None.

Fixpoint classify_first (policyName : string) (allowPolicyOverrides : bool)
         (hints : list CleanHint) : completion (option Classification) :=
  match hints with
  | [] => Normal None
  | hint :: rest =>
      c <- classifyOne policyName hint allowPolicyOverrides ;;
      match c with
      | Some classified => Normal (Some classified)
      | None => classify_first policyName allowPolicyOverrides rest
      end
  end.

Definition classifyArticleType (policyName : string)
           (rawTypeHints semanticHints : list Hint) : completion Classification :=
  let (rawHints, seen) := collect_hints "publisher_raw_type" rawTypeHints [] in
  let (semanticHintList, _) := collect_hints "title_heuristic" semanticHints seen in
  byRaw <- classify_first policyName true rawHints ;;
  match byRaw with
  | Some classified => Normal classified
  | None =>
      bySemantic <- classify_first policyName false semanticHintList ;;
      match bySemantic with
      | Some classified => Normal classified
      | None =>
          Normal (MkClassification NOT_VERIFIED "not_verified"
                    (match rawHints with
                     | [] => "article_type_unclear"
                     | _ => "article_type_unmapped_raw_hint"
                     end)
                    "none"
                    (match rawHints with
                     | [] => ""
                     | h :: _ => hvalue h
                     end))
      end
  end.

(* ------------------------------------------------------------------ *)
(** ** Author formatting of [scripts/verify_publisher_record.mjs] *)

(** [/\b(19|20)\d{2}\b/] *)
Definition RE_YEAR : re :=
  seq [Wb; Alt (lit "19") (lit "20"); Rep 2 2 (Chr Char.digit); Wb].

Definition parseYear (value : string) : string :=
  match Re.exec RE_YEAR value with
  | Some m => matched m
  | None => ""
  end.

(** [/^(dr|professor|prof|mr|mrs|ms)\.?\s+/i] *)
Definition RE_HONORIFIC_PREFIX : re :=
  seq [Bol;
       alt [liti "dr"; liti "professor"; liti "prof"; liti "mr"; liti "mrs"; liti "ms"];
       Opt (lit "."); Plus ws].

(** [/\s*,?\s*(ph\.?\s*d\.?|m\.?\s*d\.?|dba|mba|jd)\s*$/i] *)
Definition RE_DEGREE_SUFFIX : re :=
  seq [Star ws; Opt (lit ","); Star ws;
       alt [seq [liti "ph"; Opt (lit "."); Star ws; liti "d"; Opt (lit ".")];
            seq [liti "m"; Opt (lit "."); Star ws; liti "d"; Opt (lit ".")];
            liti "dba"; liti "mba"; liti "jd"];
       Star ws; Eol].

Definition stripAcademicHonorifics (name : string) : string :=
  Str.trim
    (Re.replace RE_DEGREE_SUFFIX ""
       (Re.replace RE_HONORIFIC_PREFIX "" (cleanText name))).

Definition hyphen : ascii := "-"%char.

(** [`${seg[0].toUpperCase()}.`] for a non-empty segment. *)
Definition initial_of (seg : string) : string :=
  Str.toUpperCase (Str.first_char seg) ++ ".".

Module Script.

(** One given name, already reduced to letters and hyphens, as initials. *)
Definition part_initials (part : string) : string :=
  if Str.has_char hyphen part then
    Str.join "-" (List.map initial_of (filterBoolean (Str.split hyphen part)))
  else initial_of part.

Definition formatApaAuthor (name : string) : string :=
  let cleaned := stripAcademicHonorifics name in
  if negb (Str.truthy cleaned) then ""
  else
    let parts := filterBoolean (Re.split (Plus ws) cleaned) in
    match parts with
    | [] => ""   (* not reached: a non-empty trimmed text has a part *)
    | [only] => only
    | _ =>
        let surname := List.last parts "" in
        let given := List.removelast parts in
        let initials :=
          Str.join " "
            (List.map part_initials
               (filterBoolean
                  (List.map (Str.filter (fun c => Char.alpha c || Char.eq hyphen c))
                            given))) in
        if Str.truthy initials then surname ++ ", " ++ initials else surname
    end.

End Script.

(** The join of the formatted names: one, two with [, &], or a list whose
    last element is introduced by [, &]. *)
Definition join_apa (deduped : list string) : string :=
  match deduped with
  | [] => ""
  | [a] => a
  | [a; b] => a ++ ", & " ++ b
  | _ => Str.join ", " (List.removelast deduped) ++ ", & " ++ List.last deduped ""
  end.

(** The loop shared by [formatApaAuthors] and [formatApaAuthorsFromStructured]:
    format, skip the empty results, keep the first of each lower-cased key. *)
Fixpoint dedupe_formatted (formatted : list string) (seen : list string)
  : list string :=
  match formatted with
  | [] => []
  | f :: rest =>
      if negb (Str.truthy f) then dedupe_formatted rest seen
      else
        let key := Str.toLowerCase f in
        if mem_string key seen then dedupe_formatted rest seen
        else f :: dedupe_formatted rest (key :: seen)
  end.

Module ScriptAuthors.

Definition formatApaAuthors (authors : list string) : string :=
  join_apa (dedupe_formatted (List.map Script.formatApaAuthor authors) []).

End ScriptAuthors.

(* ------------------------------------------------------------------ *)
(** ** Records *)

Record ErrorEntry : Type := MkErrorEntry {
  e_method : string;
  e_attempt : nat;
  e_rawTargetUrl : string;
  e_targetUrl : string;
  e_errorName : string;
  e_message : string;
  e_challengeSignals : list string;
  e_missingFields : list string;
  e_trackingResolutionError : string
}.

Record Tracking : Type := MkTracking {
  t_usedResolution : bool;
  t_sourceUrl : string;
  t_resolvedUrl : string;
  t_statusCode : option nat;
  t_error : string
}.

Record Retrieval : Type := MkRetrieval {
  r_mode : string;
  r_fetchedUrl : string;
  r_statusCode : option nat
}.

(** An output record.  The time stamp [verifiedAt] is left out. *)
Record Rec : Type := MkRec {
  sourceUrl : string;
  finalUrl : string;
  title : string;
  authors : list string;
  year : string;
  journal : string;
  volume : string;
  issue : string;
  pageRange : string;
  publishedOnline : string;
  doiUrl : string;
  abstract : string;
  citation : string;
  articleTypeRaw : string;
  articleType : string;
  ingestDecision : string;
  ingestReason : string;
  articleTypeClassificationSource : string;
  articleTypeMatchedHint : string;
  missingFields : list string;
  status : string;
  policy : option (string * bool);
  resolvedUrl : string;
  tracking : option Tracking;
  retrieval : option Retrieval;
  navigationResolved : option bool;
  errors : list ErrorEntry
}.

(** [record[key]] for the keys the script reads by name; any other key is
    undefined, which [cleanText] turns into the empty string. *)
Definition field (r : Rec) (key : string) : string :=
  if String.eqb key "title" then title r
  else if String.eqb key "doiUrl" then doiUrl r
  else if String.eqb key "journal" then journal r
  else if String.eqb key "year" then year r
  else if String.eqb key "abstract" then abstract r
  else if String.eqb key "citation" then citation r
  else "".

Definition REQUIRED_FIELDS : list string :=
  ["title"; "doiUrl"; "journal"; "year"; "abstract"; "citation"].

Definition requiredMissing (r : Rec) : list string :=
  List.filter (fun key => isNotVerifiedValue (field r key)) REQUIRED_FIELDS.

Definition set_citation (c : string) (r : Rec) : Rec :=
  MkRec (sourceUrl r) (finalUrl r) (title r) (authors r) (year r) (journal r)
        (volume r) (issue r) (pageRange r) (publishedOnline r) (doiUrl r)
        (abstract r) c (articleTypeRaw r) (articleType r) (ingestDecision r)
        (ingestReason r) (articleTypeClassificationSource r)
        (articleTypeMatchedHint r) (missingFields r) (status r) (policy r)
        (resolvedUrl r) (tracking r) (retrieval r) (navigationResolved r)
        (errors r).

Definition set_classification (c : Classification) (r : Rec) : Rec :=
  MkRec (sourceUrl r) (finalUrl r) (title r) (authors r) (year r) (journal r)
        (volume r) (issue r) (pageRange r) (publishedOnline r) (doiUrl r)
        (abstract r) (citation r) (articleTypeRaw r) (c_articleType c)
        (c_ingestDecision c) (c_ingestReason c)
        (Str.or_else (c_source c) "none") (Str.or_else (c_matchedHint c) "")
        (missingFields r) (status r) (policy r) (resolvedUrl r) (tracking r)
        (retrieval r) (navigationResolved r) (errors r).

Definition set_missing_and_status (missing : list string) (st : string) (r : Rec)
  : Rec :=
  MkRec (sourceUrl r) (finalUrl r) (title r) (authors r) (year r) (journal r)
        (volume r) (issue r) (pageRange r) (publishedOnline r) (doiUrl r)
        (abstract r) (citation r) (articleTypeRaw r) (articleType r)
        (ingestDecision r) (ingestReason r) (articleTypeClassificationSource r)
        (articleTypeMatchedHint r) missing st (policy r) (resolvedUrl r)
        (tracking r) (retrieval r) (navigationResolved r) (errors r).

(** The fields a retrieval path adds to a built record. *)
Definition set_provenance (pol : string * bool) (resolved : string)
           (tr : Tracking) (rt : option Retrieval) (nav : option bool) (r : Rec)
  : Rec :=
  MkRec (sourceUrl r) (finalUrl r) (title r) (authors r) (year r) (journal r)
        (volume r) (issue r) (pageRange r) (publishedOnline r) (doiUrl r)
        (abstract r) (citation r) (articleTypeRaw r) (articleType r)
        (ingestDecision r) (ingestReason r) (articleTypeClassificationSource r)
        (articleTypeMatchedHint r) (missingFields r) (status r) (Some pol)
        resolved (Some tr) rt nav (errors r).

(* ------------------------------------------------------------------ *)
(** ** Citation *)

Definition buildApaCitation (record : Rec) : string :=
  let authors := ScriptAuthors.formatApaAuthors (authors record) in
  let year := cleanText (year record) in
  let title := cleanText (title record) in
  let journal := cleanText (journal record) in
  let volume := cleanText (volume record) in
  let issue := cleanText (issue record) in
  let pageRange := cleanText (pageRange record) in
  let doiUrl := cleanText (doiUrl record) in
  if List.existsb isNotVerifiedValue [authors; year; title; journal; doiUrl]
  then NOT_VERIFIED
  else
    let hasVolume := negb (isNotVerifiedValue volume) in
    let hasIssue := negb (isNotVerifiedValue issue) in
    let hasPageRange := negb (isNotVerifiedValue pageRange) in
    let hasPublishedOnline := negb (isNotVerifiedValue (publishedOnline record)) in
    if negb hasVolume && negb hasIssue && negb hasPageRange && hasPublishedOnline
    then authors ++ " (" ++ year ++ "). " ++ title ++ ". " ++ journal
         ++ ". Advance online publication. " ++ doiUrl
    else
      let volumeIssue :=
        if hasVolume
        then (if hasIssue then volume ++ "(" ++ issue ++ ")" else volume)
        else "" in
      let publicationTail :=
        Str.join ", "
          ((if Str.truthy volumeIssue then [volumeIssue] else []) ++
           (if hasPageRange then [pageRange] else []))%list in
      if negb (Str.truthy publicationTail) then NOT_VERIFIED
      else authors ++ " (" ++ year ++ "). " ++ title ++ ". " ++ journal ++ ", "
           ++ publicationTail ++ ". " ++ doiUrl.

(* ------------------------------------------------------------------ *)
(** ** Abstract text: cleaning and choice *)

(** A global replace whose callback may throw; the first throw ends it. *)
Fixpoint replace_all_fromC (fuel : nat) (r : re) (f : hit -> completion string)
         (prev : option ascii) (s : string) : completion string :=
  match fuel with
  | O => Normal s
  | S fuel' =>
      match Re.search_from r prev s EmptyString with
      | None => Normal s
      | Some h =>
          by_ <- f h ;;
          match matched h, after h with
          | EmptyString, EmptyString => Normal (before h ++ by_)
          | EmptyString, String c rest =>
              tail <- replace_all_fromC fuel' r f (Some c) rest ;;
              Normal (before h ++ by_ ++ String c tail)
          | String _ _, rest =>
              tail <- replace_all_fromC fuel' r f (Str.last_char (matched h)) rest ;;
              Normal (before h ++ by_ ++ tail)
          end
      end
  end.

Definition replace_all_withC (r : re) (f : hit -> completion string) (s : string)
  : completion string :=
  replace_all_fromC (S (String.length s)) r f None s.

(** [Number.parseInt(digits, radix)] on a run of digits of that radix, as the
    mathematical value. *)
Definition digit_value (c : ascii) : N :=
  match Uri.hex_val c with Some n => N.of_nat n | None => 0%N end.

Fixpoint parse_digits (radix : N) (s : string) (acc : N) : N :=
  match s with
  | EmptyString => acc
  | String c s' => parse_digits radix s' (acc * radix + digit_value c)%N
  end.

(** The value is so large that the Number is Infinity. *)
Definition not_finite (v : N) : bool := (2 ^ 1024 - 2 ^ 970 <=? v)%N.

(** The callback of the two numeric-entity replacements. *)
Definition code_point_entity (radix : N) (h : hit) : completion string :=
  let v := parse_digits radix (match group h with Some g => g | None => "" end) 0%N in
  if not_finite v then Normal (matched h)
  else if (1114111 <? v)%N then Throw RangeError
  else if (255 <? v)%N then Throw OutsideAlphabet
  else Normal (String (ascii_of_N v) EmptyString).

Definition decodeHtmlEntities (value : string) : completion string :=
  let s := Re.replace_all (liti "&amp;") "&" value in
  let s := Re.replace_all (liti "&lt;") "<" s in
  let s := Re.replace_all (liti "&gt;") ">" s in
  let s := Re.replace_all (liti "&quot;") dq s in
  let s := Re.replace_all (Alt (liti "&#39;") (liti "&apos;")) "'" s in
  s <- replace_all_withC
         (seq [liti "&#x"; Grp (Plus (Chr Char.hex)); liti ";"])
         (code_point_entity 16) s ;;
  replace_all_withC
    (seq [lit "&#"; Grp (Plus (Chr Char.digit)); lit ";"])
    (code_point_entity 10) s.

Definition stripHtmlTags (value : string) : string :=
  let s := Re.replace_all
             (seq [liti "<script"; Lazy (Chr Char.any); liti "</script>"]) " " value in
  let s := Re.replace_all
             (seq [liti "<style"; Lazy (Chr Char.any); liti "</style>"]) " " s in
  Re.replace_all
    (seq [lit "<"; Plus (Chr (fun c => negb (Char.eq ">" c))); lit ">"]) " " s.

(** [/^abstract[:\s-]*/i] *)
Definition RE_ABSTRACT_LABEL : re :=
  seq [Bol; liti "abstract";
       Star (Chr (fun c => Char.one_of ":-" c || Char.space c))].

Definition normalizeAbstractText (value : string) : completion string :=
  decoded <- decodeHtmlEntities (stripHtmlTags value) ;;
  let cleaned := cleanText decoded in
  if negb (Str.truthy cleaned) then Normal ""
  else Normal (Str.trim (Re.replace RE_ABSTRACT_LABEL "" cleaned)).

(** [/(all rights reserved|cookie|javascript|privacy policy)/i] *)
Definition RE_BOILERPLATE : re :=
  alt [liti "all rights reserved"; liti "cookie"; liti "javascript";
       liti "privacy policy"].

(** [Array.prototype.sort] is stable; for a comparator that orders by a key
    the result is the stable order, computed here by insertion.  [before a b]
    says that the comparator puts [a] strictly before [b]. *)
Section Sort.
Variable A : Type.
Variable before : A -> A -> bool.

Fixpoint insert (x : A) (sorted : list A) : list A :=
  match sorted with
  | [] => [x]
  | y :: rest => if before y x then y :: insert x rest else x :: y :: rest
  end.

Fixpoint sort (l : list A) : list A :=
  match l with
  | [] => []
  | x :: rest => insert x (sort rest)
  end.
End Sort.

Fixpoint mapC {A B} (f : A -> completion B) (l : list A) : completion (list B) :=
  match l with
  | [] => Normal []
  | x :: rest =>
      y <- f x ;;
      ys <- mapC f rest ;;
      Normal (y :: ys)
  end.

(** The chooser of the lightweight fetch path. *)
Definition chooseBestAbstract (candidates : list string) : completion string :=
  texts <- mapC normalizeAbstractText candidates ;;
  let normalized := uniqueStrings texts in
  let filtered := List.filter (fun text => Nat.leb 80 (String.length text)) normalized in
  match filtered with
  | [] => Normal (List.hd "" normalized)
  | _ =>
      let scored :=
        sort (fun a b => Nat.ltb (String.length b) (String.length a))
             (List.filter (fun text => negb (Re.test RE_BOILERPLATE text)) filtered) in
      Normal (Str.or_else (List.hd "" scored) (List.hd "" filtered))
  end.

(** The cleaning step inside [chooseBestAbstractLocal]. *)
Definition cleanAbstractLocal (raw : string) : string :=
  Str.trim (Re.replace RE_ABSTRACT_LABEL "" (Re.replace_all (Plus ws) " " raw)).

Fixpoint normalize_local (candidates : list string) (seen : list string)
  : list string :=
  match candidates with
  | [] => []
  | raw :: rest =>
      let cleaned := cleanAbstractLocal raw in
      if negb (Str.truthy cleaned) then normalize_local rest seen
      else
        let key := Str.toLowerCase cleaned in
        if mem_string key seen then normalize_local rest seen
        else cleaned :: normalize_local rest (key :: seen)
  end.

(** [/\.\.\.$/] and the two stock prompts. *)
Definition RE_ELLIPSIS_END : re := seq [lit "..."; Eol].
Definition RE_CLICK_ARTICLE : re :=
  seq [Bol; liti "click on the article title to read more"; Opt (lit "."); Eol].
Definition RE_CLICK_ISSUE : re :=
  seq [Bol; liti "click on the title to browse this issue"; Opt (lit "."); Eol].

Open Scope Z_scope.

Definition abstract_score (text : string) : Z :=
  let score := Z.of_nat (String.length text) in
  let score := if Re.test RE_ELLIPSIS_END text then score - 120 else score in
  let score := if Re.test RE_CLICK_ARTICLE text then score - 200 else score in
  let score := if Re.test RE_CLICK_ISSUE text then score - 200 else score in
  score.

(** The comparator [b.score - a.score || b.text.length - a.text.length]. *)
Definition scored_before (a b : string * Z) : bool :=
  (snd b <? snd a)
  || ((snd b =? snd a)
      && Nat.ltb (String.length (fst b)) (String.length (fst a))).

Close Scope Z_scope.

(** The chooser that runs in the page on the browser path. *)
Definition chooseBestAbstractLocal (candidates : list string) : string :=
  let normalized := normalize_local candidates [] in
  match normalized with
  | [] => ""
  | _ =>
      let filtered :=
        List.filter (fun text => negb (Re.test RE_BOILERPLATE text)) normalized in
      let pool := match filtered with [] => normalized | _ => filtered end in
      let scored :=
        sort scored_before (List.map (fun text => (text, abstract_score text)) pool) in
      match scored with
      | [] => ""
      | top :: _ => fst top
      end
  end.

(* ------------------------------------------------------------------ *)
(** ** The record builder *)

(** The bag of values one page yields, as both extraction routines return it.
    The three typed hints are undefined on the lightweight fetch path. *)
Record Extracted : Type := MkExtracted {
  x_finalUrl : string;
  x_title : string;
  x_authors : list string;
  x_journal : string;
  x_publicationDate : string;
  x_volume : string;
  x_issue : string;
  x_pageRange : string;
  x_doiMeta : string;
  x_abstractText : string;
  x_articleTypeMetaHint : option string;
  x_articleTypeDomHint : option string;
  x_articleTypeJsonLdHint : option string;
  x_articleTypeHint : string;
  x_pageTitle : string
}.

(** [/\s+\|\s+Academy of Management .*$/i] *)
Definition RE_AOM_TITLE_SUFFIX : re :=
  seq [Plus ws; lit "|"; Plus ws; liti "Academy of Management ";
       Star (Chr Char.dot); Eol].

(** [a || b] where computing [b] may throw. *)
Definition or_elseC (a : string) (b : completion string) : completion string :=
  if Str.truthy a then Normal a else b.

Section RecordBuilder.
Variable P : Platform.

Definition buildRecordFromExtracted (extracted : Extracted)
           (sourceUrl policyName : string) : completion Rec :=
  fromMeta <- normalizeDoi (x_doiMeta extracted) ;;
  fromMetaOrFinal <-
    or_elseC fromMeta (normalizeDoi (extractDoiFromText (x_finalUrl extracted))) ;;
  doiUrl <- or_elseC fromMetaOrFinal (normalizeDoi (extractDoiFromText sourceUrl)) ;;
  let normalizedTitle :=
    Re.replace RE_AOM_TITLE_SUFFIX "" (cleanText (x_title extracted)) in
  inferredJournal <-
    inferJournalFallback P (x_journal extracted) (x_pageTitle extracted)
                         (x_finalUrl extracted) doiUrl ;;
  let year := parseYear (x_publicationDate extracted) in
  let normalized :=
    MkRec sourceUrl
          (Str.or_else (x_finalUrl extracted) sourceUrl)
          (ensureField normalizedTitle)
          (uniqueStrings (x_authors extracted))
          (ensureField year)
          (ensureField (Str.or_else inferredJournal (x_journal extracted)))
          (ensureField (x_volume extracted))
          (ensureField (x_issue extracted))
          (ensureField (x_pageRange extracted))
          (ensureField (x_publicationDate extracted))
          (ensureField doiUrl)
          (ensureField (x_abstractText extracted))
          NOT_VERIFIED
          (ensureField (x_articleTypeHint extracted))
          NOT_VERIFIED "not_verified" "article_type_unclear" "none" ""
          [] "" None "" None None None [] in
  classification <-
    classifyArticleType policyName
      [ HintObject (x_articleTypeMetaHint extracted) "publisher_raw_type";
        HintObject (x_articleTypeDomHint extracted) "publisher_dom_type";
        HintObject (x_articleTypeJsonLdHint extracted) "publisher_jsonld_type" ]
      [ HintObject (Some (x_title extracted)) "title_heuristic";
        HintObject (Some (x_pageTitle extracted)) "page_title_heuristic" ] ;;
  let normalized := set_classification classification normalized in
  let normalized := set_citation (buildApaCitation normalized) normalized in
  let missing := requiredMissing normalized in
  Normal (set_missing_and_status
            missing
            (match missing with [] => "verified" | _ => "not_verified" end)
            normalized).

Definition FIXED_MISSING : list string :=
  ["title"; "journal"; "year"; "abstract"; "citation"].

Definition buildVerificationFailureRecord (inputUrl : string) (policy : Policy)
           (errors : list ErrorEntry) : completion Rec :=
  doi <- normalizeDoi inputUrl ;;
  Normal (MkRec inputUrl inputUrl NOT_VERIFIED [] NOT_VERIFIED NOT_VERIFIED
                NOT_VERIFIED NOT_VERIFIED NOT_VERIFIED NOT_VERIFIED
                (ensureField doi) NOT_VERIFIED NOT_VERIFIED
                NOT_VERIFIED NOT_VERIFIED "not_verified" "verification_failed"
                "none" "" FIXED_MISSING "not_verified"
                (Some (Str.or_else (name policy) "default", protected policy))
                "" None None None errors).

(** What [resolveTrackedUrl] returns. *)
Record Resolved : Type := MkResolved {
  rs_inputUrl : string;
  rs_resolvedUrl : string;
  rs_usedTrackingResolution : bool;
  rs_trackingStatus : option nat;
  rs_trackingResolutionError : string
}.

(** [resolved.trackingStatus || null]: a status of 0 is falsy. *)
Definition status_or_null (st : option nat) : option nat :=
  match st with
  | Some 0 => None
  | other => other
  end.

Definition tracking_of (resolved : Resolved) : Tracking :=
  MkTracking (rs_usedTrackingResolution resolved) (rs_inputUrl resolved)
             (rs_resolvedUrl resolved) (status_or_null (rs_trackingStatus resolved))
             (rs_trackingResolutionError resolved).

Definition buildExcludedLinkRecord (inputUrl finalUrl : string) (policy : Policy)
           (reason : string) (resolvedTracking : option Resolved)
  : completion Rec :=
  fromFinal <- normalizeDoi finalUrl ;;
  maybeDoi <- or_elseC fromFinal (normalizeDoi inputUrl) ;;
  let final := Str.or_else finalUrl inputUrl in
  Normal (MkRec inputUrl final NOT_VERIFIED [] NOT_VERIFIED NOT_VERIFIED
                NOT_VERIFIED NOT_VERIFIED NOT_VERIFIED NOT_VERIFIED
                (ensureField maybeDoi) NOT_VERIFIED NOT_VERIFIED
                "non-article-link" "announcement" "exclude"
                (Str.or_else reason "non_article_link")
                "none" "" FIXED_MISSING "excluded"
                (Some (Str.or_else (name policy) "default", protected policy))
                final
                (Some match resolvedTracking with
                      | Some r =>
                          MkTracking (rs_usedTrackingResolution r)
                            (Str.or_else (rs_inputUrl r) inputUrl)
                            (Str.or_else (rs_resolvedUrl r) final)
                            (status_or_null (rs_trackingStatus r))
                            (rs_trackingResolutionError r)
                      | None => MkTracking false inputUrl final None ""
                      end)
                None None []).

End RecordBuilder.

(* ------------------------------------------------------------------ *)
(** ** The structured author parser of the later copy *)

Module Structured.

Definition AUTHOR_FAMILY_PARTICLES : list string :=
  ["da"; "de"; "del"; "della"; "der"; "di"; "du"; "la"; "le"; "van"; "von";
   "bin"; "ibn"; "al"; "el"; "st."; "st"].

(** [/\bterm\b/i], and [/\bterm\.?\b/i] for the abbreviations. *)
Definition term (t : string) : re := seq [Wb; liti t; Wb].
Definition abbreviation (t : string) : re := seq [Wb; liti t; Opt (lit "."); Wb].

Definition CORPORATE_AUTHOR_TERMS : list re :=
  [ term "association"; term "committee"; term "consortium"; term "university";
    term "center"; term "centre"; term "institute"; term "organization";
    term "group"; term "corporation"; abbreviation "corp"; abbreviation "inc";
    abbreviation "ltd"; term "llc"; term "plc" ].

(** [/^(jr|sr|ii|iii|iv|v)\.?$/i] *)
Definition AUTHOR_SUFFIX_RE : re :=
  seq [Bol;
       alt [liti "jr"; liti "sr"; liti "ii"; liti "iii"; liti "iv"; liti "v"];
       Opt (lit "."); Eol].

Definition comma_or_semicolon : re := Chr (Char.one_of ",;").

(** [/^[,;]+|[,;]+$/g] *)
Definition RE_TOKEN_EDGES : re :=
  Alt (seq [Bol; Plus comma_or_semicolon]) (seq [Plus comma_or_semicolon; Eol]).

Definition normalizeAuthorToken (token : string) : string :=
  cleanText (Re.replace_all RE_TOKEN_EDGES "" token).

Definition looksCorporateAuthorName (name : string) : bool :=
  let cleaned := cleanText name in
  if negb (Str.truthy cleaned) then false
  else List.existsb (fun pattern => Re.test pattern cleaned) CORPORATE_AUTHOR_TERMS.

Definition splitGivenTokens (raw : string) : list string :=
  filterBoolean (List.map normalizeAuthorToken (Re.split (Plus ws) (cleanText raw))).

(** [last.replace(/\.$/, "").replace(/^([a-z])/i, (m) => m.toUpperCase())] *)
Definition render_suffix (last : string) : string :=
  Re.replace_with (seq [Bol; Chr Char.alpha]) (fun h => Str.toUpperCase (matched h))
    (Re.replace (seq [lit "."; Eol]) "" last).

(** The tokens without a trailing suffix, and the suffix. *)
Definition extractAuthorSuffix (tokens : list string) : list string * string :=
  match tokens with
  | [] => ([], "")
  | _ =>
      let last := normalizeAuthorToken (List.last tokens "") in
      if negb (Str.truthy last) then (List.removelast tokens, "")
      else if Re.test AUTHOR_SUFFIX_RE last
      then (List.removelast tokens, render_suffix last)
      else (tokens, "")
  end.

Definition apostrophe : ascii := ascii_of_nat 39.

Definition initials_of_part (part : string) : string :=
  let cleaned :=
    Str.filter (fun c => Char.alpha c || Char.eq apostrophe c || Char.eq hyphen c)
               part in
  if negb (Str.truthy cleaned) then ""
  else if Str.has_char hyphen cleaned then
    Str.join "-" (List.map initial_of (filterBoolean (Str.split hyphen cleaned)))
  else initial_of cleaned.

Definition buildAuthorInitials (givenTokens : list string) : string :=
  Str.join " "
    (filterBoolean
       (List.map initials_of_part
          (filterBoolean (List.map Str.trim givenTokens)))).

Record Author : Type := MkAuthor {
  raw : string;
  family : string;
  given : list string;
  suffix : string;
  formattedApa : string;
  parseMode : string;
  source : string;
  confidence : string
}.

Record Options : Type := MkOptions {
  o_source : string;
  o_preferCommaSurnameFirst : bool
}.

Definition NO_OPTIONS : Options := MkOptions "" false.

(** The rendering, from the fields other than [formattedApa]. *)
Definition render (raw family : string) (given : list string)
           (suffix parseMode : string) : string :=
  let raw := stripAcademicHonorifics raw in
  let family := cleanText family in
  let given := filterBoolean (List.map normalizeAuthorToken given) in
  let suffix := cleanText suffix in
  let parseMode := cleanText parseMode in
  if String.eqb parseMode "corporate" || String.eqb parseMode "mononym"
  then Str.or_else raw family
  else if negb (Str.truthy family)
  then Str.or_else raw (buildAuthorInitials given)
  else
    let initials := buildAuthorInitials given in
    let rendered := if Str.truthy initials then family ++ ", " ++ initials else family in
    if Str.truthy suffix then rendered ++ ", " ++ suffix else rendered.

Definition formatApaAuthorFromStructured (a : Author) : string :=
  render (raw a) (family a) (given a) (suffix a) (parseMode a).

Definition normalizeStructuredAuthorCandidate (candidate : Author) (options : Options)
  : option Author :=
  let raw' := stripAcademicHonorifics (raw candidate) in
  let family' := cleanText (family candidate) in
  let givenRaw := filterBoolean (List.map normalizeAuthorToken (given candidate)) in
  let suffix' := cleanText (suffix candidate) in
  let parseMode' := Str.or_else (cleanText (parseMode candidate)) "structured" in
  let source' := cleanText (Str.or_else (source candidate) (o_source options)) in
  let confidence' := Str.or_else (cleanText (confidence candidate)) "high" in
  if negb (Str.truthy family') && match givenRaw with [] => true | _ => false end
     && negb (Str.truthy raw')
  then None
  else
    let raw'' := Str.or_else raw' (cleanText (Str.join " " (family' :: givenRaw))) in
    Some (MkAuthor raw'' family' givenRaw suffix'
                   (render raw'' family' givenRaw suffix' parseMode')
                   parseMode' source' confidence').

(** The walk from the token before the last one towards the front, moving
    particles into the family name; [before] is in reverse order. *)
Fixpoint collect_particles (before : list string) (familyTokens : list string)
  : list string * list string :=
  match before with
  | [] => ([], familyTokens)
  | token :: rest =>
      if mem_string (Str.toLowerCase token) AUTHOR_FAMILY_PARTICLES
      then collect_particles rest (token :: familyTokens)
      else (before, familyTokens)
  end.

(** The result of [parseAuthorName]: the author, if any, and the warnings. *)
Definition parseAuthorName (rawName : string) (options : Options)
  : option Author * list string :=
  let raw := stripAcademicHonorifics rawName in
  if negb (Str.truthy raw) then (None, [])
  else if looksCorporateAuthorName raw then
    (Some (MkAuthor raw "" [] "" raw "corporate" (cleanText (o_source options))
                    "medium"), [])
  else
    match Str.index_of_char "," raw with
    | Some commaIdx =>
        let family := cleanText (Str.take commaIdx raw) in
        let givenPart := cleanText (Str.drop (S commaIdx) raw) in
        let (tokens, suffix) := extractAuthorSuffix (splitGivenTokens givenPart) in
        (Some (MkAuthor raw family tokens suffix
                        (render raw family tokens suffix "comma_surname_first")
                        "comma_surname_first" (cleanText (o_source options)) "high"),
         [])
    | None =>
        let parts :=
          filterBoolean (List.map normalizeAuthorToken (Re.split (Plus ws) raw)) in
        match parts with
        | [only] =>
            (Some (MkAuthor raw "" [] "" only "mononym"
                            (cleanText (o_source options)) "low"),
             ["author_parse_low_confidence_mononym"])
        | _ =>
            let (tokens, suffix) := extractAuthorSuffix parts in
            let (givenRev, familyTokens) :=
              match List.rev tokens with
              | [] => ([], [""])          (* the last token is undefined *)
              | last :: before => collect_particles before [last]
              end in
            let givenTokens := List.rev givenRev in
            let family := cleanText (Str.join " " familyTokens) in
            (Some (MkAuthor raw family givenTokens suffix
                            (render raw family givenTokens suffix "space_given_first")
                            "space_given_first" (cleanText (o_source options))
                            "medium"),
             if Str.truthy family then [] else ["author_parse_missing_family_name"])
        end
    end.

Fixpoint parse_list (authorNames : list string) (options : Options)
         (seen : list string) : list Author * list string :=
  match authorNames with
  | [] => ([], [])
  | rawName :: rest =>
      let (author, authorWarnings) := parseAuthorName rawName options in
      let continue_with seen' keep :=
        let (parsed, warnings) := parse_list rest options seen' in
        (keep ++ parsed, authorWarnings ++ warnings)%list in
      match author with
      | None => continue_with seen []
      | Some a =>
          match normalizeStructuredAuthorCandidate a options with
          | None => continue_with seen []
          | Some n =>
              let key := Str.toLowerCase (formattedApa n ++ "||" ++ raw n) in
              if mem_string key seen then continue_with seen []
              else continue_with (key :: seen) [n]
          end
      end
  end.

Definition parseAuthorList (authorNames : list string) (options : Options)
  : list Author * list string :=
  let (parsed, warnings) := parse_list authorNames options [] in
  (parsed, uniqueStrings warnings).

Definition formatApaAuthorsFromStructured (authorObjs : list Author) : string :=
  join_apa (dedupe_formatted (List.map formatApaAuthorFromStructured authorObjs) []).

Definition formatApaAuthor (name : string) : string :=
  formatApaAuthorsFromStructured (fst (parseAuthorList [name] NO_OPTIONS)).

Definition formatApaAuthors (authors : list string) : string :=
  formatApaAuthorsFromStructured (fst (parseAuthorList authors NO_OPTIONS)).

End Structured.

(* ------------------------------------------------------------------ *)
(** ** The world outside the script *)

(** What the lightweight fetch path reads from the HTML it received, after the
    script's own reconciliation of meta tags, JSON-LD and preloaded state. *)
Record HtmlReading : Type := MkHtmlReading {
  h_ogUrl : string;
  h_title : string;
  h_authors : list string;
  h_journal : string;
  h_publicationDate : string;
  h_volume : string;
  h_issue : string;
  h_firstPage : string;
  h_lastPage : string;
  h_preloadedPage : string;
  h_doiMeta : string;
  h_abstractCandidates : list string;
  h_articleTypeHint : string;
  h_pageTitle : string
}.

(** What the browser path reads in the page before it chooses the abstract. *)
Record PageReading : Type := MkPageReading {
  p_title : string;
  p_authors : list string;
  p_journal : string;
  p_pubDate : string;
  p_volume : string;
  p_issue : string;
  p_firstPage : string;
  p_lastPage : string;
  p_doiMeta : string;
  p_abstractFromDom : string;
  p_abstractMetaCandidates : list string;
  p_articleTypeFromMeta : string;
  p_articleTypeFromDom : string;
  p_jsonLdType : string;
  p_locationHref : string;
  p_documentTitle : string
}.

Inductive FetchResult : Type :=
| FetchResponse (url : string) (status : nat)
| FetchFailed (message : string).

Inductive CurlResult : Type :=
| CurlFailed (message : string)
| CurlFetched (effectiveUrl : string) (statusCode : option nat)
              (challengeSignals : list string) (reading : HtmlReading).

Inductive EvalResult : Type :=
| EvalFailed (errorName message : string)
| EvalOk (reading : PageReading).

Inductive NavResult : Type :=
| NavFailed (errorName message : string)
| NavChallenge (signals : list string)
| NavLoaded (pageUrl : string) (evaluated : EvalResult).

(** The answers of the network and of the browser.  The first argument is the
    number of effects performed so far in the run, so that a retry may be
    answered differently. *)
Record World : Type := MkWorld {
  fetch : nat -> string -> FetchResult;
  curl : nat -> string -> CurlResult;
  open_page : nat -> bool;
  navigate : nat -> string -> NavResult;
  message_of : exn -> string
}.

Inductive Event : Type :=
| EvFetch (url : string)       (* tracked-link resolution *)
| EvCurl (url : string)        (* lightweight fetch *)
| EvOpenPage                   (* browser context and page *)
| EvGoto (url : string)        (* browser navigation *)
| EvSleep (ms : N).            (* back-off *)

Definition is_network (e : Event) : bool :=
  match e with
  | EvSleep _ => false
  | _ => true
  end.

Record Args : Type := MkArgs {
  maxRetries : nat;
  sciencedirectMode : string;
  skipTrackingResolution : bool
}.

(** The mutable state of a run: the set of final URLs and what was done. *)
Record St : Type := MkSt {
  seenFinalUrls : SeenSet;
  trace : list Event
}.

Definition exn_name (e : exn) : string :=
  match e with
  | URIError => "URIError"
  | RangeError => "RangeError"
  | TypeError => "TypeError"
  | BrowserError => "Error"
  | OutsideAlphabet => "Error"
  end.

Record Outcome : Type := MkOutcome {
  ok : bool;
  record : Rec
}.

Section Orchestrator.
Variable P : Platform.
Variable W : World.

Definition emit (e : Event) (st : St) : St :=
  MkSt (seenFinalUrls st) (trace st ++ [e])%list.

Definition remember (rawUrl : string) (st : St) : St :=
  MkSt (rememberFinalUrl P (seenFinalUrls st) rawUrl) (trace st).

Definition tick (st : St) : nat := List.length (trace st).

(** [/^\/action\/cookieAbsent$/i] *)
Definition RE_COOKIE_ABSENT : re := seq [Bol; liti "/action/cookieAbsent"; Eol].

Definition COOKIE_ABSENT_NOTE : string :=
  "Tracker pre-resolution landed on Wiley cookieAbsent endpoint; ignoring and falling back to browser navigation.".

Definition resolveTrackedUrl (inputUrl : string) (args : Args) (st : St)
  : Resolved * St :=
  if skipTrackingResolution args || negb (isTrackingUrl P inputUrl)
  then (MkResolved inputUrl inputUrl false None "", st)
  else
    let st' := emit (EvFetch inputUrl) st in
    match fetch W (tick st) inputUrl with
    | FetchFailed message => (MkResolved inputUrl inputUrl true None message, st')
    | FetchResponse url status =>
        let resolvedUrl := maybeCanonicalArticleUrl P (Str.or_else url inputUrl) in
        let resolvedHost := hostForUrl P resolvedUrl in
        let resolvedPath :=
          match parseURL P resolvedUrl with
          | Some u => pathname u
          | None => ""
          end in
        if Re.test (host_re_i "el.wiley.com") (hostForUrl P inputUrl)
           && Re.test (host_re_i "onlinelibrary.wiley.com") resolvedHost
           && Re.test RE_COOKIE_ABSENT resolvedPath
        then (MkResolved inputUrl inputUrl true (Some status) COOKIE_ABSENT_NOTE, st')
        else (MkResolved inputUrl resolvedUrl true (Some status) "", st')
    end.

Definition isScienceDirectLikeUrl (rawUrl : string) : bool :=
  Re.test (host_re_i "sciencedirect.com") (hostForUrl P rawUrl)
  || Re.test (liti "10.1016/") rawUrl.

(** [/\/science\/article\/pii\/([A-Za-z0-9]+)/i] *)
Definition RE_PII_PATH : re :=
  seq [liti "/science/article/pii/"; Grp (Plus (Chr Char.alnum))].

Definition scienceDirectPiiFromUrl (rawUrl : string) : string :=
  match parseURL P rawUrl with
  | None => ""
  | Some u =>
      let fromPath :=
        match Re.exec RE_PII_PATH (pathname u) with
        | Some m => match group m with Some g => g | None => "" end
        | None => ""
        end in
      if Str.truthy fromPath then fromPath
      else
        let get k := match params_get k (searchParams u) with
                     | Some v => v
                     | None => ""
                     end in
        let fromQuery := Str.or_else (get "_piikey") (get "pii") in
        if Str.truthy fromQuery then Str.filter Char.alnum fromQuery else ""
  end.

Definition canonicalScienceDirectArticleUrl (rawUrl : string) : string :=
  let pii := scienceDirectPiiFromUrl rawUrl in
  if negb (Str.truthy pii) then rawUrl
  else "https://www.sciencedirect.com/science/article/pii/" ++ pii.

(** The object [extractMetadataFromScienceDirectHtml] returns. *)
Definition extracted_of_html (reading : HtmlReading) (sourceUrl finalUrl : string)
  : completion Extracted :=
  abstractText <- chooseBestAbstract (h_abstractCandidates reading) ;;
  Normal (MkExtracted
            (Str.or_else (h_ogUrl reading) (Str.or_else finalUrl sourceUrl))
            (h_title reading) (h_authors reading) (h_journal reading)
            (h_publicationDate reading) (h_volume reading) (h_issue reading)
            (if Str.truthy (h_firstPage reading) && Str.truthy (h_lastPage reading)
             then h_firstPage reading ++ "-" ++ h_lastPage reading
             else Str.or_else (h_firstPage reading) (h_preloadedPage reading))
            (h_doiMeta reading) abstractText None None None
            (h_articleTypeHint reading) (h_pageTitle reading)).

(** The object the page evaluation of [extractMetadata] returns. *)
Definition extracted_of_page (reading : PageReading) : Extracted :=
  MkExtracted
    (p_locationHref reading) (p_title reading) (p_authors reading)
    (p_journal reading) (p_pubDate reading) (p_volume reading) (p_issue reading)
    (if Str.truthy (p_firstPage reading) && Str.truthy (p_lastPage reading)
     then p_firstPage reading ++ "-" ++ p_lastPage reading
     else p_firstPage reading)
    (p_doiMeta reading)
    (chooseBestAbstractLocal
       (p_abstractFromDom reading :: p_abstractMetaCandidates reading))
    (Some (p_articleTypeFromMeta reading))
    (Some (p_articleTypeFromDom reading))
    (Some (p_jsonLdType reading))
    (Str.or_else (p_articleTypeFromMeta reading)
       (Str.or_else (p_articleTypeFromDom reading) (p_jsonLdType reading)))
    (p_documentTitle reading).

Definition curl_error (fetchTarget errorName message : string)
           (signals : list string) : ErrorEntry :=
  MkErrorEntry "curl_sciencedirect" 0 "" fetchTarget errorName message signals [] "".

(** One pass of the loop of [verifyScienceDirectViaCurl] over a target. *)
Definition curl_one (sourceUrl : string) (policy : Policy) (resolved : Resolved)
           (fetchTarget : string) (st : St) : (Rec + ErrorEntry) * St :=
  let st' := emit (EvCurl fetchTarget) st in
  match curl W (tick st) fetchTarget with
  | CurlFailed message => (inr (curl_error fetchTarget "Error" message []), st')
  | CurlFetched effectiveUrl statusCode signals reading =>
      match signals with
      | _ :: _ =>
          (inr (curl_error fetchTarget "ChallengeError"
                  "ScienceDirect challenge page detected (curl path)" signals), st')
      | [] =>
          let final := Str.or_else effectiveUrl fetchTarget in
          match (extracted <- extracted_of_html reading sourceUrl final ;;
                 buildRecordFromExtracted P extracted sourceUrl (name policy)) with
          | Throw e =>
              (inr (curl_error fetchTarget (exn_name e) (message_of W e) []), st')
          | Normal built =>
              (inl (set_provenance (name policy, protected policy) final
                      (tracking_of resolved)
                      (Some (MkRetrieval "curl_sciencedirect" fetchTarget statusCode))
                      None built), st')
          end
      end
  end.

Fixpoint curl_loop (sourceUrl : string) (policy : Policy) (resolved : Resolved)
         (fetchTargets : list string) (errors : list ErrorEntry) (st : St)
  : (Rec + list ErrorEntry) * St :=
  match fetchTargets with
  | [] => (inr errors, st)
  | fetchTarget :: rest =>
      match curl_one sourceUrl policy resolved fetchTarget st with
      | (inl built, st') => (inl built, st')
      | (inr err, st') =>
          curl_loop sourceUrl policy resolved rest (errors ++ [err])%list st'
      end
  end.

Definition verifyScienceDirectViaCurl (sourceUrl targetUrl : string)
           (policy : Policy) (resolved : Resolved) (st : St)
  : (Rec + list ErrorEntry) * St :=
  curl_loop sourceUrl policy resolved
    (uniqueStrings [canonicalScienceDirectArticleUrl targetUrl; targetUrl;
                    canonicalScienceDirectArticleUrl sourceUrl; sourceUrl])
    [] st.

Definition backoffMs (attempt : nat) : N :=
  List.nth (Nat.min (attempt - 1) 2) [2000; 5000; 10000]%N 0%N.

Definition excluded (inputUrl finalUrl : string) (policy : Policy)
           (reason : string) (resolved : option Resolved) : completion Outcome :=
  built <- buildExcludedLinkRecord inputUrl finalUrl policy reason resolved ;;
  Normal (MkOutcome true built).

(** How one pass over a target ends: with the function's result, or with
    the next target (or attempt), carrying the errors and the last policy. *)
Inductive Step : Type :=
| Return (o : Outcome)
| Next (errors : list ErrorEntry) (lastPolicy : Policy).

(** What the [try] block of the browser path does once the page is open:
    it returns from the function, or what it throws is caught. *)
Inductive Tried : Type :=
| Returned (o : Outcome)
| Caught (errorName message : string) (signals : list string).

Definition caught_exn (e : exn) : Tried :=
  Caught (exn_name e) (message_of W e) [].

Definition browser_try (inputUrl targetUrl : string) (resolved : Resolved)
           (lastPolicy : Policy) (st : St) : Tried * Policy * St :=
  let st1 := emit (EvGoto targetUrl) st in
  match navigate W (tick st) targetUrl with
  | NavFailed errorName message => (Caught errorName message [], lastPolicy, st1)
  | NavChallenge signals =>
      (Caught "ChallengeError" "Challenge page detected" signals, lastPolicy, st1)
  | NavLoaded pageUrl evaluated =>
      let navigatedUrl := maybeCanonicalArticleUrl P (Str.or_else pageUrl targetUrl) in
      let landed := Str.or_else navigatedUrl targetUrl in
      let effectivePolicy := policyForUrl P landed in
      if shouldSkipDuplicateFinalUrl P (seenFinalUrls st1) landed inputUrl then
        match excluded inputUrl landed effectivePolicy
                       "duplicate_final_url_in_batch" (Some resolved) with
        | Normal o => (Returned o, effectivePolicy, st1)
        | Throw e => (caught_exn e, effectivePolicy, st1)
        end
      else
        match classifyKnownNonArticleLink P navigatedUrl with
        | Some nonArticleAfterNav =>
            let st2 := remember landed st1 in
            match excluded inputUrl landed effectivePolicy nonArticleAfterNav
                           (Some resolved) with
            | Normal o => (Returned o, effectivePolicy, st2)
            | Throw e => (caught_exn e, effectivePolicy, st2)
            end
        | None =>
            match evaluated with
            | EvalFailed errorName message =>
                (Caught errorName message [], effectivePolicy, st1)
            | EvalOk reading =>
                match buildRecordFromExtracted P (extracted_of_page reading)
                        inputUrl (name effectivePolicy) with
                | Throw e => (caught_exn e, effectivePolicy, st1)
                | Normal built =>
                    let rec_ :=
                      set_provenance
                        (name effectivePolicy, protected effectivePolicy)
                        landed (tracking_of resolved) None
                        (Some (Str.truthy navigatedUrl
                               && negb (String.eqb
                                          (normalizeFinalUrlForRunDedupe P navigatedUrl)
                                          (normalizeFinalUrlForRunDedupe P targetUrl))))
                        built in
                    (Returned (MkOutcome true rec_), effectivePolicy,
                     remember (Str.or_else (resolvedUrl rec_)
                                 (Str.or_else (finalUrl rec_) landed)) st1)
                end
            end
        end
  end.

(** The body of the loop over the targets, for one target. *)
Definition try_target (inputUrl : string) (args : Args) (attempt : nat)
           (rawTargetUrl : string) (errors : list ErrorEntry) (st : St)
  : completion Step * St :=
  match classifyUnsafePreNavigationLink P rawTargetUrl "" with
  | Some unsafeInputReason =>
      (o <- excluded inputUrl rawTargetUrl (policyForUrl P rawTargetUrl)
                     unsafeInputReason None ;;
       Normal (Return o), st)
  | None =>
      let (resolved, st) := resolveTrackedUrl rawTargetUrl args st in
      let targetUrl := rs_resolvedUrl resolved in
      let policy := policyForUrl P targetUrl in
      match classifyUnsafePreNavigationLink P targetUrl "" with
      | Some unsafeResolvedReason =>
          (o <- excluded inputUrl targetUrl policy unsafeResolvedReason
                         (Some resolved) ;;
           Normal (Return o), remember targetUrl st)
      | None =>
      if shouldSkipDuplicateFinalUrl P (seenFinalUrls st) targetUrl inputUrl then
        (o <- excluded inputUrl targetUrl policy "duplicate_final_url_in_batch"
                       (Some resolved) ;;
         Normal (Return o), st)
      else
      match classifyKnownNonArticleLink P targetUrl with
      | Some nonArticleReason =>
          (o <- excluded inputUrl targetUrl policy nonArticleReason (Some resolved) ;;
           Normal (Return o), remember targetUrl st)
      | None =>
      let shouldTryScienceDirectCurl :=
        negb (String.eqb (sciencedirectMode args) "browser")
        && (String.eqb (name policy) "sciencedirect"
            || isScienceDirectLikeUrl targetUrl
            || isScienceDirectLikeUrl rawTargetUrl
            || isScienceDirectLikeUrl inputUrl) in
      let push_curl errorName message signals missing :=
        MkErrorEntry "curl_sciencedirect" attempt rawTargetUrl targetUrl errorName
                     message signals missing
                     (rs_trackingResolutionError resolved) in
      (* The lightweight fetch: a result, or the errors to carry on with. *)
      let fast : (completion Outcome + list ErrorEntry) * St :=
        if shouldTryScienceDirectCurl then
          match verifyScienceDirectViaCurl inputUrl targetUrl policy resolved st with
          | (inl built, st') =>
              if String.eqb (status built) "verified"
                 || String.eqb (sciencedirectMode args) "curl"
                 || String.eqb (ingestDecision built) "exclude"
              then
                let landed :=
                  Str.or_else (resolvedUrl built)
                    (Str.or_else (finalUrl built) targetUrl) in
                if shouldSkipDuplicateFinalUrl P (seenFinalUrls st') landed inputUrl
                then (inl (excluded inputUrl landed (policyForUrl P landed)
                             "duplicate_final_url_in_batch" (Some resolved)), st')
                else (inl (Normal (MkOutcome true built)), remember landed st')
              else
                (inr (errors ++
                      [push_curl "IncompleteRecord"
                         "ScienceDirect curl path returned partial metadata; falling back to browser extraction."
                         [] (missingFields built)])%list, st')
          | (inr curlErrors, st') =>
              (inr (errors ++
                    List.map
                      (fun err =>
                         push_curl (Str.or_else (e_errorName err) "Error")
                           (Str.or_else (e_message err)
                              "ScienceDirect curl extraction failed")
                           (e_challengeSignals err) [])
                      curlErrors)%list, st')
          end
        else (inr errors, st) in
      match fast with
      | (inl result, st') => (o <- result ;; Normal (Return o), st')
      | (inr errors', st') =>
          if shouldTryScienceDirectCurl && String.eqb (sciencedirectMode args) "curl"
          then (Normal (Next errors' policy), st')
          else
            let st2 := emit EvOpenPage st' in
            if negb (open_page W (tick st')) then (Throw BrowserError, st2)
            else
              match browser_try inputUrl targetUrl resolved policy st2 with
              | (Returned o, _, st3) => (Normal (Return o), st3)
              | (Caught errorName message signals, lastPolicy, st3) =>
                  (Normal
                     (Next (errors' ++
                            [MkErrorEntry "" attempt rawTargetUrl targetUrl
                               errorName message signals []
                               (rs_trackingResolutionError resolved)])%list
                           lastPolicy), st3)
              end
      end
      end end
  end.

Fixpoint targets_loop (inputUrl : string) (args : Args) (attempt : nat)
         (targets : list string) (errors : list ErrorEntry)
         (lastPolicy : Policy) (st : St) : completion Step * St :=
  match targets with
  | [] => (Normal (Next errors lastPolicy), st)
  | rawTargetUrl :: rest =>
      match try_target inputUrl args attempt rawTargetUrl errors st with
      | (Normal (Next errors' lastPolicy'), st') =>
          targets_loop inputUrl args attempt rest errors' lastPolicy' st'
      | other => other
      end
  end.

Fixpoint attempts_loop (inputUrl : string) (args : Args) (targets : list string)
         (remaining attempt : nat) (errors : list ErrorEntry)
         (lastPolicy : Policy) (st : St) : completion Outcome * St :=
  match remaining with
  | O =>
      (built <- buildVerificationFailureRecord inputUrl lastPolicy errors ;;
       Normal (MkOutcome false built), st)
  | S remaining' =>
      match targets_loop inputUrl args attempt targets errors lastPolicy st with
      | (Normal (Return o), st') => (Normal o, st')
      | (Normal (Next errors' lastPolicy'), st') =>
          attempts_loop inputUrl args targets remaining' (S attempt) errors'
                        lastPolicy' (emit (EvSleep (backoffMs attempt)) st')
      | (Throw e, st') => (Throw e, st')
      end
  end.

Definition verifySingleUrl (inputUrl : string) (args : Args) (st : St)
  : completion Outcome * St :=
  match normalizeDoi inputUrl with
  | Throw e => (Throw e, st)
  | Normal canonical =>
      let targets := uniqueStrings [inputUrl; canonical] in
      attempts_loop inputUrl args targets (maxRetries args) 1 []
                    (policyForUrl P inputUrl) st
  end.

End Orchestrator.

(* ------------------------------------------------------------------ *)
(** ** A reference platform for plainly written URLs

    [plain_url] agrees with the WHATWG parser on absolute URLs written without
    credentials, port, dot segments, escapes, or characters that the parser
    would escape: [scheme://host/path?query#fragment] and [scheme:rest].  It
    is used to run the model on concrete inputs. *)

Module Plain.

Definition scheme_char (c : ascii) : bool := Char.alnum c || Char.one_of "+-." c.

(** The text before the first code unit of a class, and the text from it. *)
Fixpoint span (stop : ascii -> bool) (s : string) : string * string :=
  match s with
  | EmptyString => (EmptyString, EmptyString)
  | String c s' =>
      if stop c then (EmptyString, s)
      else let (a, b) := span stop s' in (String c a, b)
  end.

Definition pair_of (kv : string) : string * string :=
  let (k, v) := span (Char.eq "=") kv in (k, Str.drop 1 v).

Definition params_of (query : string) : list (string * string) :=
  List.map pair_of (filterBoolean (Str.split "&" (Str.drop 1 query))).

Definition special (scheme : string) : bool :=
  mem_string scheme ["http:"; "https:"; "file:"; "ftp:"; "ws:"; "wss:"].

Definition plain_url (x : string) : option URL :=
  let x := Str.trim x in
  let (scheme, rest) := span (fun c => negb (scheme_char c)) x in
  match scheme, rest with
  | String c0 _, String colon rest' =>
      if Char.alpha c0 && Char.eq ":" colon then
        let protocol := Str.toLowerCase scheme ++ ":" in
        let (body, fragment) := span (Char.eq "#") rest' in
        let (hier, query) := span (Char.eq "?") body in
        if Str.starts_with "//" hier then
          let (authority, path) := span (Char.eq "/") (Str.drop 2 hier) in
          let host := Str.toLowerCase authority in
          Some (MkURL protocol host
                      (if String.eqb protocol "file:" then "null"
                       else protocol ++ "//" ++ host)
                      (Str.or_else path "/") (params_of query) fragment)
        else if special protocol then None
        else Some (MkURL protocol "" "null" hier (params_of query) fragment)
      else None
  | _, _ => None
  end.

Definition plain_params (ps : list (string * string)) : string :=
  Str.join "&" (List.map (fun kv => fst kv ++ "=" ++ snd kv) ps).

Definition platform : Platform := MkPlatform plain_url plain_params.

End Plain.

(** Two URLs verified one after the other in the same run. *)
Definition run_two (P : Platform) (W : World) (args : Args) (a b : string) (st : St)
  : completion Outcome * completion Outcome * St :=
  let (ra, st1) := verifySingleUrl P W a args st in
  let (rb, st2) := verifySingleUrl P W b args st1 in
  (ra, rb, st2).

(* ------------------------------------------------------------------ *)
(** ** Sample pages and worlds *)

Module Sample.

Definition ABSTRACT : string :=
  "We study how things behave when they are observed over long periods of time and report three findings that matter to practice.".

(** A page that carries every field, read at the address [href]. *)
Definition article_page (href : string) : PageReading :=
  MkPageReading "A study of things" ["Jane Doe"; "Ludwig van Beethoven"]
    "Journal of Things" "2024-01-15" "12" "3" "1" "20" "10.1234/jot.2024.001"
    ABSTRACT [] "Research Article" "" "ScholarlyArticle" href
    "A study of things | Journal of Things".

(** Every address loads, as itself, and shows [article_page]; the tracked
    link of the sample resolves to the article. *)
Definition open_web : World :=
  MkWorld (fun _ _ => FetchResponse "https://pub.example/article/1" 200)
          (fun _ _ => CurlFailed "curl failed")
          (fun _ => true)
          (fun _ url => NavLoaded url (EvalOk (article_page url)))
          (fun _ => "error").

(** Nothing answers. *)
Definition offline : World :=
  MkWorld (fun _ _ => FetchFailed "fetch failed")
          (fun _ _ => CurlFailed "curl failed")
          (fun _ => true)
          (fun _ _ => NavFailed "Error" "net::ERR_INTERNET_DISCONNECTED")
          (fun _ => "error").

(** A full abstract of 253 code units and a teaser of 373 that ends in an
    ellipsis. *)
Definition FULL_ABSTRACT : string := ABSTRACT ++ " " ++ ABSTRACT.


Definition ARGS : Args := MkArgs 3 "auto" false.

Definition FRESH : St := MkSt (Some []) [].

Definition ARTICLE : string := "https://pub.example/article/1".
Definition TRACKED : string := "https://click.skem1.com/t/abc".
Definition FIXTURE : string := "file:///tmp/fixture.html".


Definition FIXTURE_RUN : completion Outcome * St :=
  Eval vm_compute in verifySingleUrl Plain.platform open_web FIXTURE ARGS FRESH.

Definition ARTICLE_RUN : completion Outcome * St :=
  Eval vm_compute in verifySingleUrl Plain.platform open_web ARTICLE ARGS FRESH.

Definition TRACKED_RESOLUTION : Resolved * St :=
  Eval vm_compute in
    resolveTrackedUrl Plain.platform open_web (cleanText TRACKED) ARGS (snd ARTICLE_RUN).

Definition ARTICLE_BUILT : completion Rec :=
  Eval vm_compute in
    buildRecordFromExtracted Plain.platform (extracted_of_page (article_page ARTICLE))
                             ARTICLE "default".

End Sample.


(* ------------------------------------------------------------------ *)
(** ** Statements used by the properties *)

(** A raw hint [h] of a call maps to the type [t] under a policy. *)
Definition maps_to (policyName : string) (value t : string) : Prop :=
  exists r, normalizeArticleTypeValue value policyName true = Normal r
            /\ normalized r = t.

(** Raw-type precedence, read for any raw hint of the call. *)
Definition raw_precedence_as_stated (policyName : string)
           (rawTypeHints semanticHints : list Hint) : Prop :=
  (exists h, In h rawTypeHints /\ hint_falsy h = false
             /\ maps_to policyName (hint_value h) "research-article") ->
  exists c, classifyArticleType policyName rawTypeHints semanticHints = Normal c
            /\ c_articleType c = "research-article"
            /\ c_ingestDecision c = "include".

(** The required-field gate on one record. *)
Definition gate (r : Rec) : Prop :=
  status r = "verified" <->
  (forall key, In key REQUIRED_FIELDS -> isNotVerifiedValue (field r key) = false).



(** The pre-navigation safety check, read as covering every URL whose text
    matches an unsubscribe or alert-management pattern or whose scheme is
    neither http nor https. *)
Definition unsafe_as_stated (P : Platform) (url : string) : Prop :=
  classifyUnsafeAlertManagementLink url "" <> None
  \/ exists u, parseURL P (cleanText url) = Some u
               /\ Str.toLowerCase (protocol u) <> "http:"
               /\ Str.toLowerCase (protocol u) <> "https:".

Definition safety_short_circuit_as_stated (P : Platform) (W : World)
           (inputUrl : string) (args : Args) (st : St) : Prop :=
  unsafe_as_stated P inputUrl ->
  exists o st',
    verifySingleUrl P W inputUrl args st = (Normal o, st')
    /\ status (record o) = "excluded"
    /\ List.existsb is_network (trace st') = false.







(** The accepted ways of writing a DOI in front of the token. *)
Definition DOI_PREFIXES : list string :=
  [ ""; "doi:"; "doi: "; "DOI:"; "http://dx.doi.org/"; "https://dx.doi.org/";
    "http://doi.org/"; "https://doi.org/" ].


Definition doi_token (registrant suffix : string) : string :=
  "10." ++ registrant ++ "/" ++ suffix.

(** The code unit before a position that follows [run_]. *)
Definition last_or (prev : option ascii) (run_ : string) : option ascii :=
  match Str.last_char run_ with
  | Some c => Some c
  | None => prev
  end.

(** The text does not start with a code unit of the class. *)
Definition stops (p : ascii -> bool) (rest : string) : Prop :=
  match rest with
  | EmptyString => True
  | String c _ => p c = false
  end.

(** The statement of C9: the names on which the two copies are compared. *)

(** A code unit of a plain word: no white space, no comma, no semicolon. *)
Definition word_char (c : ascii) : bool :=
  negb (Char.space c) && negb (Char.one_of ",;" c).

Definition plain_word (w : string) : Prop :=
  w <> "" /\ Str.forallb word_char w = true.

(** A given name that holds no apostrophe and, if it holds a hyphen, holds a
    letter too. *)
Definition plain_given (g : string) : bool :=
  negb (Str.has_char Structured.apostrophe g)
  && (Str.existsb Char.alpha g || negb (Str.has_char hyphen g)).

(** A personal name written given names first: once the honorifics are
    stripped it has no comma and no corporate term, and its words are two or
    more plain words, the last of which is no generational suffix, holds no
    vertical bar and does not follow a family particle. *)
Definition plain_author (name : string) (given : list string) (surname : string)
  : Prop :=
  Structured.looksCorporateAuthorName (stripAcademicHonorifics name) = false
  /\ Str.index_of_char "," (stripAcademicHonorifics name) = None
  /\ Re.split (Plus ws) (stripAcademicHonorifics name) = (given ++ [surname])%list
  /\ given <> []
  /\ Forall plain_word (given ++ [surname])
  /\ Forall (fun g => plain_given g = true) given
  /\ mem_string (Str.toLowerCase (List.last given ""))
                Structured.AUTHOR_FAMILY_PARTICLES = false
  /\ Re.test Structured.AUTHOR_SUFFIX_RE surname = false
  /\ Str.has_char "|" surname = false.

Definition plain_name (name : string) : Prop :=
  exists given surname, plain_author name given surname.

(** The two formatters agree on a list of names. *)
Definition copies_agree (authors : list string) : Prop :=
  Structured.formatApaAuthors authors = ScriptAuthors.formatApaAuthors authors.

(** The letters and hyphens of a given name, as the script keeps them. *)
Definition letters_and_hyphens (part : string) : string :=
  Str.filter (fun c => Char.alpha c || Char.eq hyphen c) part.

(** The rendering of a surname after given names, as the script writes it. *)
Definition surname_then_initials (given : list string) (surname : string) : string :=
  let initials :=
    Str.join " "
      (List.map Script.part_initials
         (filterBoolean (List.map letters_and_hyphens given))) in
  if Str.truthy initials then surname ++ ", " ++ initials else surname.

(** One name through the structured parser, as [parseAuthorList] takes it:
    parsed, then normalized. *)
Definition parsed_author (rawName : string) : option Structured.Author :=
  match fst (Structured.parseAuthorName rawName Structured.NO_OPTIONS) with
  | None => None
  | Some a => Structured.normalizeStructuredAuthorCandidate a Structured.NO_OPTIONS
  end.

(** The key under which [parseAuthorList] remembers an author. *)
Definition author_key (n : Structured.Author) : string :=
  Str.toLowerCase (Structured.formattedApa n ++ "||" ++ Structured.raw n).

(** What [parseAuthorList] has remembered is covered by what the formatter
    of the list has seen: each key is that of a formatted name without a
    vertical bar whose lower-case form is in [seenFormatted]. *)
Definition keys_covered (seenKeys seenFormatted : list string) : Prop :=
  forall k,
    In k seenKeys ->
    exists f r,
      k = Str.toLowerCase (f ++ "||" ++ r)
      /\ Str.has_char "|" f = false
      /\ In (Str.toLowerCase f) seenFormatted.

(** The texts a pattern accepts.  [accepts r prev m rest]: [r] matches the
    text [m] that follows the code unit [prev] and is followed by [rest]. *)
Inductive iterated (L : option ascii -> string -> string -> Prop)
  : nat -> option ascii -> string -> string -> Prop :=
| iterated_O : forall prev rest, iterated L 0 prev "" rest
| iterated_S : forall n prev m1 m2 rest,
    L prev m1 (m2 ++ rest) ->
    iterated L n (last_or prev m1) m2 rest ->
    iterated L (S n) prev (m1 ++ m2) rest.

Fixpoint accepts (r : re) (prev : option ascii) (m rest : string) : Prop :=
  match r with
  | Eps => m = ""
  | Chr p => exists c, m = String c "" /\ p c = true
  | Seq a b =>
      exists m1 m2,
        m = m1 ++ m2 /\ accepts a prev m1 (m2 ++ rest)
        /\ accepts b (last_or prev m1) m2 rest
  | Alt a b => accepts a prev m rest \/ accepts b prev m rest
  | Star a => exists n, iterated (accepts a) n prev m rest
  | Lazy a => exists n, iterated (accepts a) n prev m rest
  | Rep lo hi a =>
      exists n, Nat.min lo hi <= n <= hi /\ iterated (accepts a) n prev m rest
  | Grp a => accepts a prev m rest
  | Bol => m = "" /\ prev = None
  | Eol => m = "" /\ rest = ""
  | Wb => m = "" /\ xorb (Re.is_word prev) (Re.is_word (Re.head rest)) = true
  end.

(** Runs of a class replaced by one text: what [replace(/[class]+/g, by)]
    computes.  [in_run] tells that the code unit before belongs to a run
    already replaced. *)
Fixpoint squeeze (p : ascii -> bool) (by_ : string) (in_run : bool) (s : string)
  : string :=
  match s with
  | EmptyString => EmptyString
  | String c s' =>
      if p c then
        if in_run then squeeze p by_ true s' else by_ ++ squeeze p by_ true s'
      else String c (squeeze p by_ false s')
  end.

(** A tidy text: it neither starts nor ends with white space, and its only
    white space is single spaces between other code units. *)
Fixpoint single_spaced (s : string) : bool :=
  match s with
  | EmptyString => true
  | String c s' =>
      (if Char.space c
       then Ascii.eqb c " "
            && match s' with
               | EmptyString => false
               | String d _ => negb (Char.space d)
               end
       else true)
      && single_spaced s'
  end.

Definition tidy (s : string) : bool :=
  match s with
  | EmptyString => true
  | String c _ => negb (Char.space c) && single_spaced s
  end.

(** As [single_spaced], but a final space is allowed: the shape of a text
    whose runs of white space have been replaced by single spaces, before
    it is trimmed. *)
Fixpoint loosely_spaced (s : string) : bool :=
  match s with
  | EmptyString => true
  | String c s' =>
      (if Char.space c
       then Ascii.eqb c " "
            && match s' with
               | EmptyString => true
               | String d _ => negb (Char.space d)
               end
       else true)
      && loosely_spaced s'
  end.

(** A classification whose decision, type and reason go together. *)
Definition consistent (c : Classification) : Prop :=
  (c_ingestDecision c = "include"
   /\ (c_articleType c = "research-article" \/ c_articleType c = "editorial")
   /\ c_ingestReason c = "included_by_type:" ++ c_articleType c)
  \/ (c_ingestDecision c = "exclude"
      /\ In (c_articleType c) EXCLUDE_ARTICLE_TYPES
      /\ c_ingestReason c = "excluded_by_type:" ++ c_articleType c)
  \/ (c_ingestDecision c = "not_verified"
      /\ c_articleType c = NOT_VERIFIED
      /\ c_source c = "none").

(** Sample data for the properties below. *)
Module Fixture.

Definition RECORD : Rec :=
  MkRec "https://pub.example/article/1" "https://pub.example/article/1"
        "A study of things" ["Jane Doe"; "John Smith"] "2024" "Journal of Things"
        "12" "3" "1-20" "2024-01-15" "https://doi.org/10.1234/jot.2024.001"
        Sample.ABSTRACT NOT_VERIFIED "Research Article" "research-article"
        "include" "included_by_type:research-article" "publisher_raw_type"
        "Research Article" [] "" None "" None None None [].

End Fixture.

(** The form of the DOI URLs that [normalizeDoi] returns: [https://doi.org/10.],
    four to nine digits, a slash and a suffix over the DOI characters
    without upper case letters.  The suffix may be empty, which it is when
    the DOI that was read held closing punctuation only. *)
Definition normalized_doi (d : string) : Prop :=
  exists registrant kept,
    d = DOI_ORG ++ doi_token registrant kept
    /\ 4 <= String.length registrant <= 9
    /\ Str.forallb Char.digit registrant = true
    /\ Str.forallb doi_char kept = true
    /\ Str.existsb Char.upper kept = false.

(** A text field that is filled: not empty, and tidy. *)
Definition filled (v : string) : Prop := v <> "" /\ cleanText v = v.

(** What every record of the script satisfies, whichever builder made it. *)
Definition well_formed (inputUrl : string) (r : Rec) : Prop :=
  sourceUrl r = inputUrl
  /\ Forall filled
       [title r; year r; journal r; volume r; issue r; pageRange r;
        publishedOnline r; doiUrl r; abstract r; articleTypeRaw r]
  /\ citation r <> ""
  /\ (doiUrl r = NOT_VERIFIED \/ normalized_doi (doiUrl r))
  /\ (year r = NOT_VERIFIED
      \/ (String.length (year r) = 4 /\ Str.forallb Char.digit (year r) = true))
  /\ NoDup (authors r)
  /\ Forall filled (authors r)
  /\ (status r = "verified" \/ status r = "not_verified" \/ status r = "excluded")
  /\ (status r = "excluded" -> ingestDecision r = "exclude").

(** What a run has done, by kind of effect. *)
Definition is_fetch (e : Event) : bool :=
  match e with EvFetch _ => true | _ => false end.
Definition is_curl (e : Event) : bool :=
  match e with EvCurl _ => true | _ => false end.
Definition is_open (e : Event) : bool :=
  match e with EvOpenPage => true | _ => false end.
Definition is_goto (e : Event) : bool :=
  match e with EvGoto _ => true | _ => false end.
Definition is_sleep (e : Event) : bool :=
  match e with EvSleep _ => true | _ => false end.

Definition count (kind : Event -> bool) (done : list Event) : nat :=
  List.length (List.filter kind done).

Record Budget : Type := MkBudget {
  fetches : nat;
  curls : nat;
  pages : nat;
  navigations : nat;
  sleeps : nat
}.

Definition plus_budget (a b : Budget) : Budget :=
  MkBudget (fetches a + fetches b) (curls a + curls b) (pages a + pages b)
           (navigations a + navigations b) (sleeps a + sleeps b).

Definition times_budget (n : nat) (a : Budget) : Budget :=
  MkBudget (n * fetches a) (n * curls a) (n * pages a) (n * navigations a)
           (n * sleeps a).

Definition fits (a b : Budget) : Prop :=
  fetches a <= fetches b /\ curls a <= curls b /\ pages a <= pages b
  /\ navigations a <= navigations b /\ sleeps a <= sleeps b.

(** The set of final URLs only grows; no set stays no set. *)
Definition grows (a b : SeenSet) : Prop :=
  match a, b with
  | None, None => True
  | Some x, Some y => incl x y
  | _, _ => False
  end.

(** From [st] to [st'] the run has only added effects, within a budget, and
    has only added to the set of final URLs. *)
Definition spent (b : Budget) (st st' : St) : Prop :=
  (exists done,
      trace st' = (trace st ++ done)%list
      /\ count is_fetch done <= fetches b
      /\ count is_curl done <= curls b
      /\ count is_open done <= pages b
      /\ count is_goto done <= navigations b
      /\ count is_sleep done <= sleeps b)
  /\ grows (seenFinalUrls st) (seenFinalUrls st').

(** The effects one target may cost, and one attempt over [n] targets. *)
Definition PER_TARGET : Budget := MkBudget 1 4 1 1 0.
Definition per_attempt (n : nat) : Budget :=
  plus_budget (times_budget n PER_TARGET) (MkBudget 0 0 0 0 1).

(** The candidates among which the abstract is chosen in the page: the
    cleaned candidates without boilerplate terms, or all the cleaned
    candidates when each of them holds one. *)
Definition abstract_pool (candidates : list string) : list string :=
  let normalized := normalize_local candidates [] in
  let filtered :=
    List.filter (fun text => negb (Re.test RE_BOILERPLATE text)) normalized in
  match filtered with
  | [] => normalized
  | _ => filtered
  end.

(* ------------------------------------------------------------------ *)
(** ** Host names and domains *)

(** The code units of the domain names written in the host patterns. *)
Definition host_char (c : ascii) : bool :=
  Char.lower c || Char.digit c || Char.eq "." c || Char.eq "-" c.

(** [host] is [domain] or one of its subdomains, in any letter case. *)
Definition in_domain (domain host : string) : Prop :=
  Str.toLowerCase host = domain
  \/ exists sub, Str.toLowerCase host = sub ++ "." ++ domain.

(** The domains of [TRACKING_HOST_PATTERNS]. *)
Definition TRACKING_DOMAINS : list string :=
  ["el.aom.org"; "el.wiley.com"; "click.skem1.com"; "lnk.springernature.com";
   "links.springernature.com"; "link.mail.elsevier.com";
   "click.notification.elsevier.com"].

(** The policies of [DOMAIN_POLICIES] that are written for one domain, by
    name. *)
Definition PUBLISHER_DOMAINS : list (string * string) :=
  [ ("informs", "pubsonline.informs.org");
    ("sage", "journals.sagepub.com");
    ("wiley", "onlinelibrary.wiley.com");
    ("springer_link", "link.springer.com");
    ("sciencedirect", "sciencedirect.com");
    ("oup", "academic.oup.com");
    ("aom_atypon", "journals.aom.org");
    ("doi", "doi.org") ].

(** What is left of [s] after a prefix that is [d] up to letter case. *)
Fixpoint ci_strip (d s : string) : option string :=
  match d with
  | EmptyString => Some s
  | String x d' =>
      match s with
      | String c s' => if Char.ci x c then ci_strip d' s' else None
      | EmptyString => None
      end
  end.

Definition ci_whole (d s : string) : bool :=
  match ci_strip d s with
  | Some EmptyString => true
  | _ => false
  end.

(** [s] ends with a dot followed by [d], up to letter case. *)
Fixpoint has_dot_suffix (d s : string) : bool :=
  match s with
  | EmptyString => false
  | String c s' => (Char.eq "." c && ci_whole d s') || has_dot_suffix d s'
  end.

Definition found {A : Type} (o : option A) : bool :=
  match o with Some _ => true | None => false end.

(* ------------------------------------------------------------------ *)
(** ** The first code unit of a match *)

Definition every_code_unit (p : ascii -> bool) : bool :=
  List.forallb (fun n => p (ascii_of_nat n)) (List.seq 0 256).

(** A check on the pattern: every match of [r] starts with a code unit of
    the class [p]. *)
Fixpoint starts_in (p : ascii -> bool) (r : re) : bool :=
  match r with
  | Chr q => every_code_unit (fun c => implb (q c) (p c))
  | Seq a _ => starts_in p a
  | Alt a b => starts_in p a && starts_in p b
  | Grp a => starts_in p a
  | _ => false
  end.

(** The code units that start a tag or a character reference. *)
Definition markup (c : ascii) : bool := Char.one_of "<&" c.

(* ------------------------------------------------------------------ *)
(** ** The object literal behind a marker *)

(** [s.indexOf(p)] *)
Fixpoint index_of (p s : string) : option nat :=
  if String.prefix p s then Some 0
  else
    match s with
    | EmptyString => None
    | String _ s' =>
        match index_of p s' with
        | Some i => Some (S i)
        | None => None
        end
    end.

(** [s.indexOf(p, from)], with [from] inside [s]. *)
Definition index_of_from (p s : string) (from : nat) : option nat :=
  match index_of p (Str.drop from s) with
  | Some i => Some (from + i)
  | None => None
  end.

(** [s.slice(a, b)], with [a <= b] inside [s]. *)
Definition slice (a b : nat) (s : string) : string :=
  Str.take (b - a) (Str.drop a s).

Definition double_quote : ascii := ascii_of_nat 34.

(** The variables of the loop of [extractJsonObjectAfterMarker]; [quote]
    is [None] for the empty string. *)
Record Scanner : Type := MkScanner {
  depth : Z;
  inString : bool;
  quote : option ascii;
  escaped : bool
}.

Inductive Turn : Type :=
| Continue (st : Scanner)
| Return_.

(** One turn of the loop, at the code unit [ch]. *)
Definition turn (st : Scanner) (ch : ascii) : Turn :=
  if inString st then
    if escaped st then
      Continue (MkScanner (depth st) (inString st) (quote st) false)
    else if Char.eq "\" ch then
      Continue (MkScanner (depth st) (inString st) (quote st) true)
    else if match quote st with Some q => Ascii.eqb ch q | None => false end then
      Continue (MkScanner (depth st) false None (escaped st))
    else Continue st
  else if Char.eq double_quote ch || Char.eq "'" ch then
    Continue (MkScanner (depth st) true (Some ch) (escaped st))
  else if Char.eq "{" ch then
    Continue (MkScanner (depth st + 1) (inString st) (quote st) (escaped st))
  else if Char.eq "}" ch then
    let depth' := (depth st - 1)%Z in
    if (depth' =? 0)%Z then Return_
    else Continue (MkScanner depth' (inString st) (quote st) (escaped st))
  else Continue st.

(** The loop from index [i] on, over the rest [s] of the source: the index
    at which it returns. *)
Fixpoint scan (st : Scanner) (s : string) (i : nat) : option nat :=
  match s with
  | EmptyString => None
  | String ch s' =>
      match turn st ch with
      | Return_ => Some i
      | Continue st' => scan st' s' (S i)
      end
  end.

Definition extractJsonObjectAfterMarker (source marker : string) : option string :=
  match index_of marker source with
  | None => None
  | Some markerIndex =>
      match index_of_from "{" source (markerIndex + String.length marker) with
      | None => None
      | Some start =>
          match scan (MkScanner 0 false None false) (Str.drop start source) start with
          | Some i => Some (slice start (i + 1) source)
          | None => None
          end
      end
  end.

(** The opening braces of a text less its closing braces. *)
Fixpoint net (s : string) : Z :=
  match s with
  | EmptyString => 0
  | String c s' =>
      (if Char.eq "{" c then 1 else if Char.eq "}" c then -1 else 0) + net s'
  end%Z.

Definition quote_mark (c : ascii) : bool :=
  Char.eq double_quote c || Char.eq "'" c.

(* ------------------------------------------------------------------ *)
(** ** The worker pool *)

Module MapLimit.
Section Pool.
Variables Item R : Type.
Variable items : list Item.
Variable limit : nat.

(** What the promise [worker(item, index)] settles to.  The pool calls the
    worker once for an index, so that a function of the item and the index
    covers a worker whose outcome depends on the time of the call. *)
Variable worker : Item -> nat -> completion R.

(** An invocation of [runWorker]: suspended at its [await], returned, or
    ended by the exception of the worker. *)
Inductive Runner : Type :=
| Awaiting (index : nat)
| Returned
| Rejected (e : exn).

(** The variables of [mapLimit]; a hole of [results] is [None], and
    [rejection] is the first rejection among the runners, which is the one
    [Promise.all] passes on. *)
Record State : Type := MkState {
  results : list (option R);
  cursor : nat;
  runners : list Runner;
  rejection : option exn
}.

(** [runWorker] from the head of its loop to the next [await], or to its
    return. *)
Definition runWorker (cursor : nat) : Runner * nat :=
  let index := cursor in
  let cursor := cursor + 1 in
  if Nat.leb (List.length items) index then (Returned, cursor)
  else (Awaiting index, cursor).

(** [Array.from({ length }, () => runWorker())] *)
Fixpoint start (length cursor : nat) : list Runner * nat :=
  match length with
  | O => ([], cursor)
  | S length' =>
      let (runner, cursor) := runWorker cursor in
      let (rest, cursor) := start length' cursor in
      (runner :: rest, cursor)
  end.

Definition initial : State :=
  let (runners, cursor) := start (Nat.min limit (List.length items)) 0 in
  MkState (List.repeat None (List.length items)) cursor runners None.

(** [results[index] = value]; an index behind the end extends the array. *)
Fixpoint assign (index : nat) (value : R) (results : list (option R))
  : list (option R) :=
  match index, results with
  | O, [] => [Some value]
  | O, _ :: rest => Some value :: rest
  | S index', [] => None :: assign index' value []
  | S index', x :: rest => x :: assign index' value rest
  end.

Fixpoint replace (r : nat) (x : Runner) (l : list Runner) : list Runner :=
  match r, l with
  | _, [] => []
  | O, _ :: rest => x :: rest
  | S r', y :: rest => y :: replace r' x rest
  end.

(** The promise that runner [r] awaits settles, and the runner goes on to
    its next [await], to its return or to its end by the exception. *)
Definition settle (r : nat) (st : State) : option State :=
  match nth_error (runners st) r with
  | Some (Awaiting index) =>
      match nth_error items index with
      | Some item =>
          match worker item index with
          | Normal value =>
              let results := assign index value (results st) in
              let (runner, cursor) := runWorker (cursor st) in
              Some (MkState results cursor (replace r runner (runners st))
                            (rejection st))
          | Throw e =>
              Some (MkState (results st) (cursor st)
                            (replace r (Rejected e) (runners st))
                            (match rejection st with
                             | Some first => Some first
                             | None => Some e
                             end))
          end
      | None => None
      end
  | _ => None
  end.

(** The promises settle in the order of [schedule], which names the
    runners. *)
Fixpoint run (schedule : list nat) (st : State) : option State :=
  match schedule with
  | [] => Some st
  | r :: rest =>
      match settle r st with
      | Some st' => run rest st'
      | None => None
      end
  end.

Definition is_returned (x : Runner) : bool :=
  match x with Returned => true | _ => false end.

(** [await Promise.all(runners); return results]: what [mapLimit] has
    settled to in a state, if it has. *)
Definition settled (st : State) : option (completion (list (option R))) :=
  match rejection st with
  | Some e => Some (Throw e)
  | None =>
      if List.forallb is_returned (runners st) then Some (Normal (results st))
      else None
  end.

(** The indices of the worker calls in flight. *)
Definition in_flight (l : list Runner) : list nat :=
  List.flat_map (fun x => match x with Awaiting index => [index] | _ => [] end) l.

(** What holds of the pool after [steps] promises have settled: every
    index below the cursor has been taken by one runner, which awaits its
    worker still, has stored the value of the worker, or has ended by the
    exception of the worker. *)
Record Invariant (steps : nat) (st : State) : Prop := MkInvariant {
  inv_results : List.length (results st) = List.length items;
  inv_runners : List.length (runners st) = Nat.min limit (List.length items);
  inv_distinct : NoDup (in_flight (runners st));
  inv_steps :
    steps + List.length (in_flight (runners st))
    = Nat.min (cursor st) (List.length items);
  inv_bound :
    forall i, In i (in_flight (runners st)) ->
              i < Nat.min (cursor st) (List.length items);
  inv_taken :
    forall i, i < Nat.min (cursor st) (List.length items) ->
      In i (in_flight (runners st))
      \/ (exists item value,
             nth_error items i = Some item /\ worker item i = Normal value
             /\ nth_error (results st) i = Some (Some value))
      \/ (exists item e,
             nth_error items i = Some item /\ worker item i = Throw e
             /\ rejection st <> None);
  inv_returned : In Returned (runners st) -> List.length items <= cursor st;
  inv_rejected : forall e, In (Rejected e) (runners st) -> rejection st <> None;
  inv_rejection :
    forall e, rejection st = Some e ->
      exists i item, nth_error items i = Some item /\ worker item i = Throw e
}.

End Pool.
End MapLimit.

(** A paper of the proceedings of the Academy of Management, read at its
    address on the site of the Academy: the page names no journal, its title
    holds no vertical bar, and the table of the Academy's journals has no
    entry for the DOI prefix of the proceedings. *)
Module Proceedings.

Definition ARTICLE : string :=
  "https://journals.aom.org/doi/10.5465/AMPROC.2023.1abstract".

Definition page : PageReading :=
  MkPageReading "A study of things" ["Jane Doe"] "" "2023-07-24" "2023" "1" "" ""
    "10.5465/AMPROC.2023.1abstract" Sample.ABSTRACT [] "Research Article" ""
    "ScholarlyArticle" ARTICLE "A study of things".

Definition EXTRACTED : Extracted := Eval vm_compute in extracted_of_page page.

(** The site answers at the address of the paper. *)
Definition web : World :=
  MkWorld (fun _ _ => FetchFailed "fetch failed")
          (fun _ _ => CurlFailed "curl failed")
          (fun _ => true)
          (fun _ url => NavLoaded url (EvalOk page))
          (fun _ => "error").

End Proceedings.

(** The journal that [inferJournalFallback] writes for a page of the
    Academy's site when it knows the publisher but not the journal. *)
Definition PARTIAL_JOURNAL : string := "Academy of Management [Not verified]".


Definition excluded_as_duplicate (r : Rec) : Prop :=
  status r = "excluded" /\ ingestReason r = "duplicate_final_url_in_batch".

(** A record that names a resolved URL with the key [k], neither on a
    tracking host nor an unsafe link, is the exclusion of a duplicate. *)
Definition settled (P : Platform) (k : string) (r : Rec) : Prop :=
  resolvedUrl r <> "" ->
  normalizeFinalUrlForRunDedupe P (resolvedUrl r) = k ->
  isTrackingUrl P (resolvedUrl r) = false ->
  classifyUnsafePreNavigationLink P (resolvedUrl r) "" = None ->
  excluded_as_duplicate r.

(** Sites for the runs of two URLs. *)
Module Sites.

Definition SHORT_LINK : string := "https://pub.example/go/1".
Definition REPORT : string := "https://pub.example/unsubscribe-effects".
Definition REPORT_LINK : string := "https://pub.example/go/2".
Definition TRACKED_FIRST : string := "https://click.skem1.com/t/first".
Definition TRACKED_SECOND : string := "https://click.skem1.com/t/second".
Definition TRACKER_PAGE : string := "https://click.skem1.com/landing".

(** Where a navigation lands. *)
Definition landing (url : string) : string :=
  if String.eqb url SHORT_LINK then Sample.ARTICLE
  else if String.eqb url REPORT_LINK then REPORT
  else if String.eqb url TRACKED_FIRST || String.eqb url TRACKED_SECOND
  then TRACKER_PAGE
  else url.

(** Every address loads the sample article at the address where the
    navigation lands; the tracked link of the sample resolves to the report,
    and no other tracked link resolves. *)
Definition redirecting : World :=
  MkWorld (fun _ url =>
             if String.eqb url Sample.TRACKED then FetchResponse REPORT 200
             else FetchFailed "fetch failed")
          (fun _ _ => CurlFailed "curl failed")
          (fun _ => true)
          (fun _ url => NavLoaded (landing url)
                          (EvalOk (Sample.article_page (landing url))))
          (fun _ => "error").




End Sites.

(** What the model computes on runs of two URLs. *)
Module Runs.


Definition SHORT_LINK : completion Outcome * completion Outcome * St :=
  Eval vm_compute in
    run_two Plain.platform Sites.redirecting Sample.ARGS
            Sample.ARTICLE Sites.SHORT_LINK Sample.FRESH.




End Runs.

(* ------------------------------------------------------------------ *)
(** ** The reader of the input file

    [readInputUrls] walks the value that [JSON.parse] returns.  A number is
    kept by the text that [String] gives for it, which is all the reader
    asks of a number; it is falsy when that text is [0]. *)

Unset Elimination Schemes.

Inductive Json : Type :=
| JNull
| JBool (b : bool)
| JNumber (text : string)
| JString (s : string)
| JArray (items : list Json)
| JObject (fields : list (string * Json)).

Set Elimination Schemes.

Module Reader.

(** [!value] *)
Definition falsy (j : Json) : bool :=
  match j with
  | JNull => true
  | JBool b => negb b
  | JNumber t => String.eqb t "0"
  | JString s => negb (Str.truthy s)
  | JArray _ | JObject _ => false
  end.

(** [String(value)]: an array is the texts of its items joined by commas,
    with nothing for a [null]; an object is [[object Object]]. *)
Fixpoint text (j : Json) : string :=
  match j with
  | JNull => "null"
  | JBool true => "true"
  | JBool false => "false"
  | JNumber t => t
  | JString s => s
  | JArray items =>
      Str.join ","
        ((fix each (l : list Json) : list string :=
            match l with
            | [] => []
            | JNull :: rest => "" :: each rest
            | item :: rest => text item :: each rest
            end) items)
  | JObject _ => "[object Object]"
  end.

(** [object[key]]: of two members with the same name, [JSON.parse] keeps
    the later one; a name that is absent gives [undefined]. *)
Definition get (key : string) (fields : list (string * Json)) : option Json :=
  match List.find (fun kv => String.eqb (fst kv) key) (List.rev fields) with
  | Some kv => Some (snd kv)
  | None => None
  end.

(** [a || b] *)
Definition or_value (a b : option Json) : option Json :=
  match a with
  | Some j => if falsy j then b else a
  | None => b
  end.

(** [cleanText(value)] *)
Definition clean (value : option Json) : string :=
  match value with
  | Some j => if falsy j then "" else cleanText (text j)
  | None => ""
  end.

(** [Array.isArray(value)], and the items of the array. *)
Definition is_array (value : option Json) : bool :=
  match value with
  | Some (JArray _) => true
  | _ => false
  end.

Definition items_of (value : option Json) : list Json :=
  match value with
  | Some (JArray items) => items
  | _ => []
  end.

(** The two collections of [readInputUrls]: the array [urls] and the set
    [blockedByGuard], which is written and never read. *)
Record Reading : Type := MkReading {
  urls : list string;
  blockedByGuard : list string
}.

Definition block (note : string) (r : Reading) : Reading :=
  MkReading (urls r)
            (if mem_string note (blockedByGuard r) then blockedByGuard r
             else (blockedByGuard r ++ [note])%list).

Definition push (url : string) (r : Reading) : Reading :=
  MkReading (urls r ++ [url])%list (blockedByGuard r).

Section WithPlatform.
Variable P : Platform.

Definition pushUrl (value : option Json) (r : Reading) : Reading :=
  let url := clean value in
  if negb (Str.truthy url) then r
  else
    match classifyUnsafePreNavigationLink P url "" with
    | Some unsafeReason => block (url ++ "::" ++ unsafeReason) r
    | None => push url r
    end.

(** The address and the anchor text of an entry of [link_details]. *)
Definition detail_href (fields : list (string * Json)) : string :=
  clean (or_value (or_value (get "href" fields) (get "url" fields))
                  (Some (JString ""))).

Definition detail_text (fields : list (string * Json)) : string :=
  clean (or_value (or_value (get "text" fields) (get "anchorText" fields))
                  (Some (JString ""))).

Definition pushLinkDetail (entry : Json) (r : Reading) : Reading :=
  match entry with
  | JObject fields =>
      let href := detail_href fields in
      let text := detail_text fields in
      if negb (Str.truthy href) then r
      else
        match classifyUnsafePreNavigationLink P href text with
        | Some unsafeReason => block (href ++ "::" ++ unsafeReason) r
        | None => push href r
        end
  | JArray _ => r           (* an object without an address *)
  | _ => r                  (* no object *)
  end.

Definition each_url (values : list Json) (r : Reading) : Reading :=
  List.fold_left (fun r value => pushUrl (Some value) r) values r.

Definition each_detail (entries : list Json) (r : Reading) : Reading :=
  List.fold_left (fun r entry => pushLinkDetail entry r) entries r.

(** What [ingest] does with the member [key] of an object, given what it
    does with each member. *)
Definition ingest_member (key : string) (fields : list (string * Json))
           (inner : list (string * (Reading -> Reading))) (r : Reading) : Reading :=
  if is_array (get key fields) then
    match List.find (fun kf => String.eqb (fst kf) key) (List.rev inner) with
    | Some kf => snd kf r
    | None => r
    end
  else r.

(** The body of [ingest] for an object. *)
Definition ingest_object (fields : list (string * Json))
           (inner : list (string * (Reading -> Reading))) (r : Reading) : Reading :=
  let r := ingest_member "candidates" fields inner r in
  let hasEmbeddedLinks :=
    is_array (get "link_details" fields) || is_array (get "links" fields)
    || is_array (get "urls" fields) in
  let consumedLinkDetails := is_array (get "link_details" fields) in
  let r := if consumedLinkDetails
           then each_detail (items_of (get "link_details" fields)) r else r in
  let r := if negb hasEmbeddedLinks then pushUrl (get "url" fields) r else r in
  let r := pushUrl (get "href" fields) r in
  let r := pushUrl (get "sourceUrl" fields) r in
  let r := pushUrl (get "doiUrl" fields) r in
  let r := if is_array (get "urls" fields)
           then each_url (items_of (get "urls" fields)) r else r in
  let r := if negb consumedLinkDetails && is_array (get "links" fields)
           then each_url (items_of (get "links" fields)) r else r in
  let r := ingest_member "records" fields inner r in
  ingest_member "results" fields inner r.

Fixpoint ingest (node : Json) : Reading -> Reading :=
  match node with
  | JNull | JBool _ | JNumber _ => fun r => r
  | JString s => fun r => if Str.truthy s then pushUrl (Some node) r else r
  | JArray items =>
      (fix each (l : list Json) : Reading -> Reading :=
         match l with
         | [] => fun r => r
         | item :: rest => fun r => each rest (ingest item r)
         end) items
  | JObject fields =>
      ingest_object fields
        ((fix each (l : list (string * Json))
            : list (string * (Reading -> Reading)) :=
            match l with
            | [] => []
            | (key, value) :: rest => (key, ingest value) :: each rest
            end) fields)
  end.

(** [readInputUrls], from the parsed value on. *)
Definition readInputUrls (parsed : Json) : list string :=
  uniqueStrings (urls (ingest parsed (MkReading [] []))).

End WithPlatform.

End Reader.

(** An alert that lists one address twice: with its anchor text under
    [link_details], and bare under [urls]. *)
Module Alert.

Definition LINK : string := "https://pub.example/article/1".

Definition PARSED : Json :=
  JObject
    [ ("link_details",
       JArray [ JObject [ ("href", JString LINK); ("text", JString "Unsubscribe") ] ]);
      ("urls", JArray [ JString LINK ]) ].

Definition DETAILS_ONLY : Json :=
  JObject
    [ ("link_details",
       JArray [ JObject [ ("href", JString LINK); ("text", JString "Unsubscribe") ] ]) ].

End Alert.

(** A text without a malformed percent-escape. *)
Definition well_escaped (s : string) : Prop :=
  exists units, Uri.decodeURIComponent (Str.trim s) = Normal units.

(** Every address collected so far is clean and passes the check on its
    text; and a step of the reader that keeps it so. *)
Definition passes (P : Platform) (r : Reader.Reading) : Prop :=
  forall url,
    In url (Reader.urls r) ->
    classifyUnsafePreNavigationLink P url "" = None /\ cleanText url = url.

Definition keeps (P : Platform) (f : Reader.Reading -> Reader.Reading) : Prop :=
  forall r, passes P r -> passes P (f r).

(* === PROPERTIES === *)

Unset Implicit Arguments.

(* ------------------------------------------------------------------ *)
(** * Properties *)

(** ** Facts about strings *)

Lemma app_empty_r : forall s, s ++ "" = s.
Proof. induction s as [|c s IH]; [reflexivity|]. cbn. rewrite IH. reflexivity. Qed.

Lemma app_assoc_s : forall a b c : string, (a ++ b) ++ c = a ++ (b ++ c).
Proof.
  induction a as [|x a IH]; intros b c; [reflexivity|]. cbn. rewrite IH. reflexivity.
Qed.

Lemma str_length_app : forall a b, String.length (a ++ b) = String.length a + String.length b.
Proof.
  induction a as [|x a IH]; intros b; [reflexivity|]. cbn. rewrite IH. reflexivity.
Qed.

Lemma str_forallb_app :
  forall p a b, Str.forallb p (a ++ b) = Str.forallb p a && Str.forallb p b.
Proof.
  intros p. induction a as [|x a IH]; intros b; [reflexivity|].
  cbn. rewrite IH. apply andb_assoc.
Qed.

Lemma str_existsb_app :
  forall p a b, Str.existsb p (a ++ b) = Str.existsb p a || Str.existsb p b.
Proof.
  intros p. induction a as [|x a IH]; intros b; [reflexivity|].
  cbn. rewrite IH. apply orb_assoc.
Qed.

Lemma str_map_app :
  forall f a b, Str.map f (a ++ b) = Str.map f a ++ Str.map f b.
Proof.
  intros f. induction a as [|x a IH]; intros b; [reflexivity|].
  cbn. rewrite IH. reflexivity.
Qed.

Lemma str_length_map : forall f s, String.length (Str.map f s) = String.length s.
Proof.
  intros f. induction s as [|x s IH]; [reflexivity|]. cbn. rewrite IH. reflexivity.
Qed.

Lemma rev_onto_app : forall s acc, Str.rev_onto s acc = Str.rev s ++ acc.
Proof.
  unfold Str.rev. induction s as [|c s IH]; intros acc; [reflexivity|].
  cbn. rewrite IH. rewrite (IH (String c "")). rewrite app_assoc_s. reflexivity.
Qed.

Lemma rev_cons : forall c s, Str.rev (String c s) = Str.rev s ++ String c "".
Proof. intros c s. unfold Str.rev at 1. cbn. apply rev_onto_app. Qed.

Lemma str_rev_app : forall a b, Str.rev (a ++ b) = Str.rev b ++ Str.rev a.
Proof.
  induction a as [|c a IH]; intros b.
  - cbn. rewrite app_empty_r. reflexivity.
  - cbn [String.append]. rewrite !rev_cons. rewrite IH. apply app_assoc_s.
Qed.

Lemma rev_involutive_s : forall s, Str.rev (Str.rev s) = s.
Proof.
  induction s as [|c s IH]; [reflexivity|].
  rewrite rev_cons, str_rev_app, IH. reflexivity.
Qed.

Lemma take_all : forall s, Str.take (String.length s) s = s.
Proof. induction s as [|c s IH]; [reflexivity|]. cbn. rewrite IH. reflexivity. Qed.

Lemma take_app :
  forall a b, Str.take (String.length (a ++ b) - String.length b) (a ++ b) = a.
Proof.
  intros a b. rewrite str_length_app.
  replace (String.length a + String.length b - String.length b) with (String.length a)
    by lia.
  induction a as [|c a IH]; cbn.
  - destruct b; reflexivity.
  - rewrite IH. reflexivity.
Qed.

(** A string with a code unit outside a class splits at the last such unit. *)
Lemma split_at_last :
  forall p s,
    Str.existsb (fun c => negb (p c)) s = true ->
    exists init l tail,
      s = init ++ String l tail /\ p l = false /\ Str.forallb p tail = true.
Proof.
  intros p. induction s as [|c s IH]; [discriminate|].
  cbn. intros H.
  destruct (Str.existsb (fun c => negb (p c)) s) eqn:Hs.
  - destruct (IH eq_refl) as [init [l [tail [-> [Hl Ht]]]]].
    exists (String c init), l, tail. repeat split; assumption.
  - rewrite orb_false_r in H. apply negb_true_iff in H.
    exists "", c, s. repeat split; [exact H|].
    clear IH H. induction s as [|d s IH]; [reflexivity|].
    cbn in Hs. apply orb_false_iff in Hs. destruct Hs as [Hd Hs].
    apply negb_false_iff in Hd. cbn. rewrite Hd. exact (IH Hs).
Qed.

Lemma trim_identity :
  forall c s l,
    Char.space c = false -> Char.space l = false ->
    Str.trim (String c (s ++ String l "")) = String c (s ++ String l "").
Proof.
  intros c s l Hc Hl. unfold Str.trim, Str.trimStart, Str.trimEnd.
  cbn [Str.drop_while]. rewrite Hc.
  rewrite rev_cons, str_rev_app. cbn [Str.rev Str.rev_onto String.append].
  cbn [Str.drop_while]. rewrite Hl.
  change (String l (Str.rev s ++ String c ""))
    with (Str.rev (String l "") ++ (Str.rev s ++ String c "")).
  rewrite <- app_assoc_s. rewrite <- str_rev_app. rewrite <- rev_cons.
  apply rev_involutive_s.
Qed.


(** ** Facts about the matcher *)

Section MatcherFacts.
Variable R : Type.




End MatcherFacts.

(** A pattern that starts with the start-of-input anchor matches at the start
    of the text or nowhere. *)
Lemma search_after_start :
  forall r c s pre, Re.search_from (Seq Bol r) (Some c) s pre = None.
Proof.
  intros r c s. revert c. induction s as [|d s IH]; intros c pre.
  - reflexivity.
  - cbn [Re.search_from]. unfold Re.at_pos at 1. cbn [Re.run]. apply IH.
Qed.


(** ** DOI normalisation and malformed escapes *)

(** C10.  [normalizeDoi] does not return on every string: on a lone percent
    sign [decodeURIComponent] throws [URIError], and nothing in the function
    catches it. *)
Theorem normalizeDoi_throws_on_lone_percent :
  normalizeDoi "%" = Throw URIError
  /\ normalizeDoi "https://pub.example/a?q=100%" = Throw URIError
  /\ extractDoiFromText "%" = "".
Proof. repeat split; vm_compute; reflexivity. Qed.

(** C8.  The per-URL function lets an exception reach its caller: its first
    statement normalises the input URL outside every [try], so a URL with a
    malformed escape ends the call with [URIError], before any attempt and
    whatever the network would have answered. *)
Theorem verifySingleUrl_propagates_URIError :
  forall (P : Platform) (W : World) (args : Args) (st : St),
    verifySingleUrl P W "https://pub.example/a?q=100%" args st
    = (Throw URIError, st).
Proof.
  intros P W args st. unfold verifySingleUrl.
  replace (normalizeDoi "https://pub.example/a?q=100%") with (@Throw string URIError)
    by (vm_compute; reflexivity).
  reflexivity.
Qed.

(** ** Article-type precedence *)

Lemma classify_first_skips :
  forall policyName allow pre rest,
    (forall x, In x pre -> classifyOne policyName x allow = Normal None) ->
    classify_first policyName allow (pre ++ rest)
    = classify_first policyName allow rest.
Proof.
  intros policyName allow pre rest. induction pre as [|x pre IH]; intros Hpre.
  - reflexivity.
  - simpl. rewrite (Hpre x (or_introl eq_refl)). simpl.
    apply IH. intros y Hy. apply Hpre. right. exact Hy.
Qed.

Lemma classifyOne_research_article :
  forall policyName c allow r,
    normalizeArticleTypeValue (hvalue c) policyName allow = Normal r ->
    normalized r = "research-article" ->
    classifyOne policyName c allow
    = Normal (Some (MkClassification "research-article" "include"
                      "included_by_type:research-article" (hlabel c)
                      (Str.or_else (matchedHint r) (hvalue c)))).
Proof.
  intros policyName c allow r Hr Hn. unfold classifyOne. rewrite Hr. simpl.
  rewrite Hn. reflexivity.
Qed.

Lemma normalize_without_overrides :
  forall p q value,
    normalizeArticleTypeValue value p false = normalizeArticleTypeValue value q false.
Proof. intros p q value. reflexivity. Qed.

Lemma semantic_pass_ignores_policy :
  forall p q hints, classify_first p false hints = classify_first q false hints.
Proof.
  intros p q hints. induction hints as [|h hints IH]; [reflexivity|].
  cbn [classify_first]. unfold classifyOne.
  rewrite (normalize_without_overrides p q (hvalue h)). rewrite IH. reflexivity.
Qed.

(** C5, as stated, fails: with the raw hints "Commentary" (from the page) and
    "Research Article" (from JSON-LD), a raw hint maps to research-article,
    yet the classifier answers commentary, excluded: the raw hints are tried
    in the order supplied and the first that maps wins. *)
Lemma raw_precedence_counterexample :
  ~ raw_precedence_as_stated "default"
      [ HintObject (Some "Commentary") "publisher_dom_type";
        HintObject (Some "Research Article") "publisher_jsonld_type" ]
      [].
Proof.
  intros H.
  destruct H as [c [Hc [Ht _]]].
  - exists (HintObject (Some "Research Article") "publisher_jsonld_type").
    split; [right; left; reflexivity|].
    split; [reflexivity|].
    eexists. split; [vm_compute; reflexivity|reflexivity].
  - vm_compute in Hc. inversion Hc; subst c. discriminate Ht.
Qed.

(** ** The required-field gate *)

Lemma filter_empty_iff :
  forall (A : Type) (f : A -> bool) (l : list A),
    List.filter f l = [] <-> (forall x, In x l -> f x = false).
Proof.
  intros A f l. induction l as [|a l IH]; simpl.
  - split; [intros _ x []|reflexivity].
  - destruct (f a) eqn:Hfa.
    + split; [discriminate|].
      intros H. rewrite (H a (or_introl eq_refl)) in Hfa. discriminate.
    + rewrite IH. split.
      * intros H x [Hx|Hx]; [subst x; exact Hfa|apply H; exact Hx].
      * intros H x Hx. apply H. right. exact Hx.
Qed.

Lemma gate_of_status :
  forall n,
    gate (set_missing_and_status
            (requiredMissing n)
            (match requiredMissing n with [] => "verified" | _ => "not_verified" end)
            n).
Proof.
  intros n. unfold gate. cbn [status set_missing_and_status].
  assert (Hf : forall key,
             field (set_missing_and_status
                      (requiredMissing n)
                      (match requiredMissing n with
                       | [] => "verified" | _ => "not_verified" end) n) key
             = field n key) by reflexivity.
  split.
  - intros Hs key Hkey. rewrite Hf.
    destruct (requiredMissing n) eqn:Hm; [|discriminate Hs].
    unfold requiredMissing in Hm.
    apply (proj1 (filter_empty_iff _ _ _) Hm key Hkey).
  - intros Hall.
    assert (Hm : requiredMissing n = []).
    { unfold requiredMissing. apply filter_empty_iff. intros key Hkey.
      rewrite <- Hf. apply Hall. exact Hkey. }
    rewrite Hm. reflexivity.
Qed.

Lemma Normal_inj :
  forall (A : Type) (a b : A), Normal a = Normal b -> a = b.
Proof. intros A a b H. injection H as ->. reflexivity. Qed.

Lemma gate_of_builder :
  forall P extracted sourceUrl policyName r,
    buildRecordFromExtracted P extracted sourceUrl policyName = Normal r -> gate r.
Proof.
  intros P extracted sourceUrl policyName r.
  unfold buildRecordFromExtracted.
  destruct (normalizeDoi (x_doiMeta extracted)) as [d1|]; [|discriminate].
  cbn [bindC].
  destruct (or_elseC d1 _) as [d2|]; [|discriminate]. cbn [bindC].
  destruct (or_elseC d2 _) as [d3|]; [|discriminate]. cbn [bindC].
  destruct (inferJournalFallback P _ _ _ d3) as [j|]; [|discriminate]. cbn [bindC].
  destruct (classifyArticleType policyName _ _) as [c|]; [|discriminate]. cbn [bindC].
  intros H. apply Normal_inj in H. rewrite <- H. apply gate_of_status.
Qed.

Lemma gate_of_unverified_title :
  forall r, status r <> "verified" -> title r = NOT_VERIFIED -> gate r.
Proof.
  intros r Hs Ht. unfold gate. split; [intros H; contradiction|].
  intros Hall. specialize (Hall "title" (or_introl eq_refl)).
  unfold field in Hall. simpl in Hall. rewrite Ht in Hall.
  vm_compute in Hall. discriminate Hall.
Qed.

Lemma gate_of_excluded_record :
  forall inputUrl finalUrl policy reason resolved r,
    buildExcludedLinkRecord inputUrl finalUrl policy reason resolved = Normal r ->
    gate r.
Proof.
  intros inputUrl finalUrl policy reason resolved r. unfold buildExcludedLinkRecord.
  destruct (normalizeDoi finalUrl) as [d1|]; [|discriminate]. cbn [bindC].
  destruct (or_elseC d1 _) as [d2|]; [|discriminate]. cbn [bindC].
  intros H. injection H as <-.
  apply gate_of_unverified_title; [discriminate|reflexivity].
Qed.

Lemma gate_of_failure_record :
  forall inputUrl policy errors r,
    buildVerificationFailureRecord inputUrl policy errors = Normal r -> gate r.
Proof.
  intros inputUrl policy errors r. unfold buildVerificationFailureRecord.
  destruct (normalizeDoi inputUrl) as [d|]; [|discriminate]. cbn [bindC].
  intros H. injection H as <-.
  apply gate_of_unverified_title; [discriminate|reflexivity].
Qed.

Lemma gate_of_provenance :
  forall pol resolved tr rt nav r,
    gate r -> gate (set_provenance pol resolved tr rt nav r).
Proof. intros pol resolved tr rt nav r H. exact H. Qed.

Lemma gate_of_excluded :
  forall inputUrl finalUrl policy reason resolved o,
    excluded inputUrl finalUrl policy reason resolved = Normal o -> gate (record o).
Proof.
  intros inputUrl finalUrl policy reason resolved o. unfold excluded.
  destruct (buildExcludedLinkRecord _ _ _ _ _) as [r|] eqn:Hr; [|discriminate].
  cbn [bindC]. intros H. injection H as <-.
  exact (gate_of_excluded_record _ _ _ _ _ _ Hr).
Qed.

Section GateOfRun.
Variable P : Platform.
Variable W : World.

Lemma gate_of_curl_one :
  forall sourceUrl policy resolved fetchTarget st built st',
    curl_one P W sourceUrl policy resolved fetchTarget st = (inl built, st') ->
    gate built.
Proof.
  intros sourceUrl policy resolved fetchTarget st built st'. unfold curl_one.
  destruct (curl W (tick st) fetchTarget) as [m|eff sc sig reading]; [discriminate|].
  destruct sig; [|discriminate].
  destruct (extracted_of_html reading sourceUrl _) as [x|]; cbn [bindC];
    [|discriminate].
  destruct (buildRecordFromExtracted P x sourceUrl (name policy)) as [b|] eqn:Hb;
    [|discriminate].
  intros H. injection H as <- _. apply gate_of_provenance.
  exact (gate_of_builder _ _ _ _ _ Hb).
Qed.

Lemma gate_of_curl_loop :
  forall sourceUrl policy resolved fetchTargets errors st built st',
    curl_loop P W sourceUrl policy resolved fetchTargets errors st = (inl built, st') ->
    gate built.
Proof.
  intros sourceUrl policy resolved fetchTargets.
  induction fetchTargets as [|t rest IH]; intros errors st built st'; simpl.
  - discriminate.
  - destruct (curl_one P W sourceUrl policy resolved t st) as [[b|err] st1] eqn:H1.
    + intros H. injection H as <- _. exact (gate_of_curl_one _ _ _ _ _ _ _ H1).
    + apply IH.
Qed.

Lemma gate_of_browser_try :
  forall inputUrl targetUrl resolved lastPolicy st o pol st',
    browser_try P W inputUrl targetUrl resolved lastPolicy st = (Returned o, pol, st') ->
    gate (record o).
Proof.
  intros inputUrl targetUrl resolved lastPolicy st o pol st'. unfold browser_try.
  destruct (navigate W _ targetUrl) as [n m|sig|pageUrl evaluated];
    [discriminate|discriminate|].
  cbv zeta.
  destruct (shouldSkipDuplicateFinalUrl P _ _ inputUrl).
  - destruct (excluded _ _ _ _ _) as [o'|] eqn:Ho; [|discriminate].
    intros H. injection H as <- _ _. exact (gate_of_excluded _ _ _ _ _ _ Ho).
  - destruct (classifyKnownNonArticleLink P _) as [reason|].
    + destruct (excluded _ _ _ _ _) as [o'|] eqn:Ho; [|discriminate].
      intros H. injection H as <- _ _. exact (gate_of_excluded _ _ _ _ _ _ Ho).
    + destruct evaluated as [n m|reading]; [discriminate|].
      destruct (buildRecordFromExtracted P _ inputUrl _) as [b|] eqn:Hb;
        [|discriminate].
      intros H. injection H as <- _ _. cbn [record].
      apply gate_of_provenance. exact (gate_of_builder _ _ _ _ _ Hb).
Qed.

Lemma gate_of_try_target :
  forall inputUrl args attempt rawTargetUrl errors st o st',
    try_target P W inputUrl args attempt rawTargetUrl errors st
    = (Normal (Return o), st') ->
    gate (record o).
Proof.
  intros inputUrl args attempt rawTargetUrl errors st o st'. unfold try_target.
  destruct (classifyUnsafePreNavigationLink P rawTargetUrl "") as [reason|].
  { destruct (excluded _ _ _ _ _) as [o'|] eqn:Ho; cbn [bindC]; [|discriminate].
    intros H. injection H as <- _. exact (gate_of_excluded _ _ _ _ _ _ Ho). }
  destruct (resolveTrackedUrl P W rawTargetUrl args st) as [resolved st1].
  destruct (classifyUnsafePreNavigationLink P _ "") as [reason|].
  { destruct (excluded _ _ _ _ _) as [o'|] eqn:Ho; cbn [bindC]; [|discriminate].
    intros H. injection H as <- _. exact (gate_of_excluded _ _ _ _ _ _ Ho). }
  destruct (shouldSkipDuplicateFinalUrl P _ _ inputUrl).
  { destruct (excluded _ _ _ _ _) as [o'|] eqn:Ho; cbn [bindC]; [|discriminate].
    intros H. injection H as <- _. exact (gate_of_excluded _ _ _ _ _ _ Ho). }
  destruct (classifyKnownNonArticleLink P _) as [reason|].
  { destruct (excluded _ _ _ _ _) as [o'|] eqn:Ho; cbn [bindC]; [|discriminate].
    intros H. injection H as <- _. exact (gate_of_excluded _ _ _ _ _ _ Ho). }
  cbv zeta.
  match goal with
  | |- context [if ?b then match verifyScienceDirectViaCurl _ _ _ _ _ _ _ with _ => _ end
                else _] => destruct b eqn:Htry
  end.
  - unfold verifyScienceDirectViaCurl.
    destruct (curl_loop P W _ _ _ _ _ _) as [[built|curlErrors] st2] eqn:Hcurl.
    + destruct (String.eqb (status built) "verified" || _ || _).
      * destruct (shouldSkipDuplicateFinalUrl P _ _ inputUrl).
        -- destruct (excluded _ _ _ _ _) as [o'|] eqn:Ho; cbn; [|discriminate].
           intros H. injection H as <- _. exact (gate_of_excluded _ _ _ _ _ _ Ho).
        -- cbn. intros H. injection H as <- _.
           exact (gate_of_curl_loop _ _ _ _ _ _ _ _ Hcurl).
      * cbn [andb]. destruct (String.eqb (sciencedirectMode args) "curl");
          [discriminate|].
        destruct (open_page W _); cbn [negb]; [|discriminate].
        destruct (browser_try P W _ _ _ _ _) as [[[o'|n m sig] pol] st3] eqn:Hb;
          [|discriminate].
        intros H. injection H as <- _. exact (gate_of_browser_try _ _ _ _ _ _ _ _ Hb).
    + cbn [andb]. destruct (String.eqb (sciencedirectMode args) "curl");
        [discriminate|].
      destruct (open_page W _); cbn [negb]; [|discriminate].
      destruct (browser_try P W _ _ _ _ _) as [[[o'|n m sig] pol] st3] eqn:Hb;
        [|discriminate].
      intros H. injection H as <- _. exact (gate_of_browser_try _ _ _ _ _ _ _ _ Hb).
  - cbn [andb].
    destruct (open_page W _); cbn [negb]; [|discriminate].
    destruct (browser_try P W _ _ _ _ _) as [[[o'|n m sig] pol] st3] eqn:Hb;
      [|discriminate].
    intros H. injection H as <- _. exact (gate_of_browser_try _ _ _ _ _ _ _ _ Hb).
Qed.

Lemma gate_of_targets_loop :
  forall inputUrl args attempt targets errors lastPolicy st o st',
    targets_loop P W inputUrl args attempt targets errors lastPolicy st
    = (Normal (Return o), st') ->
    gate (record o).
Proof.
  intros inputUrl args attempt targets.
  induction targets as [|t rest IH]; intros errors lastPolicy st o st'; simpl.
  - discriminate.
  - destruct (try_target P W inputUrl args attempt t errors st)
      as [[[o'|errors' pol']|e] st1] eqn:Ht.
    + intros H. injection H as <- _. exact (gate_of_try_target _ _ _ _ _ _ _ _ Ht).
    + apply IH.
    + discriminate.
Qed.

Lemma gate_of_attempts_loop :
  forall inputUrl args targets remaining attempt errors lastPolicy st o st',
    attempts_loop P W inputUrl args targets remaining attempt errors lastPolicy st
    = (Normal o, st') ->
    gate (record o).
Proof.
  intros inputUrl args targets remaining.
  induction remaining as [|n IH]; intros attempt errors lastPolicy st o st'; simpl.
  - destruct (buildVerificationFailureRecord inputUrl lastPolicy errors) as [r|] eqn:Hr;
      cbn [bindC]; [|discriminate].
    intros H. injection H as <- _. exact (gate_of_failure_record _ _ _ _ Hr).
  - destruct (targets_loop P W inputUrl args attempt targets errors lastPolicy st)
      as [[[o'|errors' pol']|e] st1] eqn:Ht.
    + intros H. injection H as <- _. exact (gate_of_targets_loop _ _ _ _ _ _ _ _ _ Ht).
    + apply IH.
    + discriminate.
Qed.

End GateOfRun.

(** The required-field test as the script computes it.  A record made by the
    record builder has the status verified exactly when [isNotVerifiedValue] holds
    of none of title, doiUrl, journal, year, abstract and citation: when
    none of them, once cleaned, is empty or the mark [[Not verified]] in
    any letter case, a text that holds the mark after other words being no
    such value.  The same holds of every record that the per-URL function
    returns. *)
Theorem required_field_gate :
  forall (P : Platform) (W : World),
    (forall extracted sourceUrl policyName r,
        buildRecordFromExtracted P extracted sourceUrl policyName = Normal r ->
        (status r = "verified" <->
         forall key, In key REQUIRED_FIELDS ->
                     isNotVerifiedValue (field r key) = false))
    /\ (forall inputUrl args st o st',
           verifySingleUrl P W inputUrl args st = (Normal o, st') ->
           (status (record o) = "verified" <->
            forall key, In key REQUIRED_FIELDS ->
                        isNotVerifiedValue (field (record o) key) = false)).
Proof.
  intros P W. split.
  - intros extracted sourceUrl policyName r H.
    exact (gate_of_builder _ _ _ _ _ H).
  - intros inputUrl args st o st'. unfold verifySingleUrl.
    destruct (normalizeDoi inputUrl) as [canonical|]; [|discriminate].
    intros H. exact (gate_of_attempts_loop _ _ _ _ _ _ _ _ _ _ _ _ H).
Qed.

(** The gate at work on a page that carries every field. *)
Lemma required_field_gate_witness :
  exists r,
    buildRecordFromExtracted Plain.platform
      (extracted_of_page (Sample.article_page "https://pub.example/article/1"))
      "https://pub.example/article/1" "default" = Normal r
    /\ status r = "verified"
    /\ (forall key, In key REQUIRED_FIELDS ->
                    isNotVerifiedValue (field r key) = false).
Proof.
  lazymatch eval cbv delta [Sample.ARTICLE_BUILT] in Sample.ARTICLE_BUILT with
  | Normal ?r =>
      exists r;
      assert (Hr : buildRecordFromExtracted Plain.platform
                     (extracted_of_page
                        (Sample.article_page "https://pub.example/article/1"))
                     "https://pub.example/article/1" "default" = Normal r)
        by (vm_compute; reflexivity);
      split; [exact Hr|]; split; [reflexivity|];
      exact (proj1 (proj1 (required_field_gate Plain.platform Sample.open_web)
                      _ _ _ r Hr) eq_refl)
  end.
Defined.

(** ** Family-name particles *)


Lemma not_singleton :
  forall (A : Type) (front : list A) (x : A),
    front <> [] -> forall only, (front ++ [x])%list <> [only].
Proof.
  intros A front x Hne only H. destruct front as [|a front]; [contradiction|].
  destruct front; discriminate H.
Qed.

(** ** The pre-navigation safety check *)

Lemma nothing_to_classify :
  forall P, classifyUnsafePreNavigationLink P "" "" = None.
Proof. intros P. reflexivity. Qed.

Lemma excluded_returns :
  forall inputUrl finalUrl policy reason resolved d c,
    normalizeDoi finalUrl = Normal d ->
    normalizeDoi inputUrl = Normal c ->
    exists o,
      excluded inputUrl finalUrl policy reason resolved = Normal o
      /\ ok o = true
      /\ status (record o) = "excluded"
      /\ ingestDecision (record o) = "exclude"
      /\ ingestReason (record o) = Str.or_else reason "non_article_link"
      /\ sourceUrl (record o) = inputUrl
      /\ errors (record o) = [].
Proof.
  intros inputUrl finalUrl policy reason resolved d c Hd Hc.
  unfold excluded, buildExcludedLinkRecord. rewrite Hd. cbn [bindC].
  unfold or_elseC. rewrite Hc.
  destruct (Str.truthy d); cbn [bindC]; eexists; repeat split; reflexivity.
Qed.

(** The scheme test: it fires on an absolute URL whose scheme is something
    other than http, https and file. *)
Lemma unsupported_scheme_iff :
  forall P rawUrl,
    classifyUnsupportedUrlScheme P rawUrl = Some "unsupported_url_scheme" <->
    (Str.truthy (cleanText rawUrl) = true
     /\ Re.test (seq [Bol; lit "//"]) (cleanText rawUrl) = false
     /\ exists u, parseURL P (cleanText rawUrl) = Some u
                  /\ Str.truthy (Str.toLowerCase (protocol u)) = true
                  /\ String.eqb (Str.toLowerCase (protocol u)) "http:" = false
                  /\ String.eqb (Str.toLowerCase (protocol u)) "https:" = false
                  /\ String.eqb (Str.toLowerCase (protocol u)) "file:" = false).
Proof.
  intros P rawUrl. unfold classifyUnsupportedUrlScheme.
  destruct (Str.truthy (cleanText rawUrl)); cbn [negb].
  2:{ split; [discriminate|]. intros [H _]. discriminate H. }
  destruct (Re.test (seq [Bol; lit "//"]) (cleanText rawUrl)).
  { split; [discriminate|]. intros [_ [H _]]. discriminate H. }
  destruct (parseURL P (cleanText rawUrl)) as [u|].
  2:{ split; [discriminate|]. intros [_ [_ [u [H _]]]]. discriminate H. }
  destruct (Str.truthy (Str.toLowerCase (protocol u))) eqn:Ht; cbn [negb orb].
  2:{ split; [discriminate|].
      intros [_ [_ [u' [Hu [H _]]]]]. injection Hu as <-. rewrite Ht in H.
      discriminate H. }
  destruct (String.eqb (Str.toLowerCase (protocol u)) "http:") eqn:H1; cbn [orb].
  { split; [discriminate|].
    intros [_ [_ [u' [Hu [_ [H _]]]]]]. injection Hu as <-. rewrite H1 in H.
    discriminate H. }
  destruct (String.eqb (Str.toLowerCase (protocol u)) "https:") eqn:H2; cbn [orb].
  { split; [discriminate|].
    intros [_ [_ [u' [Hu [_ [_ [H _]]]]]]]. injection Hu as <-. rewrite H2 in H.
    discriminate H. }
  destruct (String.eqb (Str.toLowerCase (protocol u)) "file:") eqn:H3.
  { split; [discriminate|].
    intros [_ [_ [u' [Hu [_ [_ [_ H]]]]]]]. injection Hu as <-. rewrite H3 in H.
    discriminate H. }
  split; [|reflexivity].
  intros _. repeat split. exists u. repeat split; assumption.
Qed.

(** ** Run-scoped de-duplication *)



Lemma or_else_truthy :
  forall a b, Str.truthy a = true -> Str.or_else a b = a.
Proof. intros a b H. unfold Str.or_else. rewrite H. reflexivity. Qed.



Section RememberedOfRun.
Variable P : Platform.
Variable W : World.

Lemma resolvedUrl_of_curl_one :
  forall sourceUrl policy resolved fetchTarget st built st',
    curl_one P W sourceUrl policy resolved fetchTarget st = (inl built, st') ->
    seenFinalUrls st' = seenFinalUrls st.
Proof.
  intros sourceUrl policy resolved fetchTarget st built st'. unfold curl_one.
  destruct (curl W (tick st) fetchTarget) as [m|eff sc sig reading]; [discriminate|].
  destruct sig; [|discriminate].
  destruct (extracted_of_html reading sourceUrl _) as [x|]; cbn [bindC];
    [|discriminate].
  destruct (buildRecordFromExtracted P x sourceUrl (name policy)) as [b|];
    [|discriminate].
  intros H. injection H as _ <-. reflexivity.
Qed.






(** The second URL of a pair, once the key of its target is in the set. *)
Lemma duplicate_target_is_excluded :
  forall inputUrl args st seen resolved st1 canonical d,
    1 <= maxRetries args ->
    normalizeDoi inputUrl = Normal canonical ->
    classifyUnsafePreNavigationLink P (cleanText inputUrl) "" = None ->
    Str.truthy (cleanText inputUrl) = true ->
    resolveTrackedUrl P W (cleanText inputUrl) args st = (resolved, st1) ->
    seenFinalUrls st1 = Some seen ->
    classifyUnsafePreNavigationLink P (rs_resolvedUrl resolved) "" = None ->
    normalizeDoi (rs_resolvedUrl resolved) = Normal d ->
    Str.truthy (normalizeFinalUrlForRunDedupe P (rs_resolvedUrl resolved)) = true ->
    isTrackingUrl P (rs_resolvedUrl resolved) = false ->
    normalizeFinalUrlForRunDedupe P inputUrl
    <> normalizeFinalUrlForRunDedupe P (rs_resolvedUrl resolved) ->
    mem_string (normalizeFinalUrlForRunDedupe P (rs_resolvedUrl resolved)) seen = true ->
    exists o,
      verifySingleUrl P W inputUrl args st = (Normal o, st1)
      /\ status (record o) = "excluded"
      /\ ingestReason (record o) = "duplicate_final_url_in_batch".
Proof.
  intros inputUrl args st seen resolved st1 canonical d
         Hretries Hcanonical Hsafe Htruthy Hresolved Hseen Hsafe' Hd Hkey Htrack
         Hdiff Hmem.
  destruct (excluded_returns inputUrl (rs_resolvedUrl resolved)
              (policyForUrl P (rs_resolvedUrl resolved))
              "duplicate_final_url_in_batch" (Some resolved) d canonical
              Hd Hcanonical)
    as [o [Ho [_ [Hst [_ [Hreason _]]]]]].
  exists o. split; [|split; assumption].
  unfold verifySingleUrl. rewrite Hcanonical.
  unfold uniqueStrings. cbn [uniqueStrings_from]. rewrite Htruthy.
  cbn [negb mem_string List.existsb].
  destruct (maxRetries args) as [|n]; [inversion Hretries|].
  cbn [attempts_loop targets_loop]. unfold try_target.
  rewrite Hsafe, Hresolved, Hsafe'.
  unfold shouldSkipDuplicateFinalUrl. rewrite Hseen, Hkey, Htrack. cbn [negb].
  apply String.eqb_neq in Hdiff. rewrite Hdiff, Hmem, Ho. reflexivity.
Qed.

End RememberedOfRun.

Lemma resolveTrackedUrl_keeps_set :
  forall P W inputUrl args st resolved st',
    resolveTrackedUrl P W inputUrl args st = (resolved, st') ->
    seenFinalUrls st' = seenFinalUrls st.
Proof.
  intros P W inputUrl args st resolved st'. unfold resolveTrackedUrl.
  destruct (skipTrackingResolution args || negb (isTrackingUrl P inputUrl)).
  - intros H. injection H as _ <-. reflexivity.
  - destruct (fetch W (tick st) inputUrl) as [url status|message].
    + cbv zeta.
      destruct (Re.test _ _ && Re.test _ _ && Re.test _ _);
        intros H; injection H as _ <-; reflexivity.
    + intros H. injection H as _ <-. reflexivity.
Qed.

(** ** The choice of the abstract *)

Lemma insert_in :
  forall (A : Type) (before : A -> A -> bool) x y l,
    In y (insert before x l) -> y = x \/ In y l.
Proof.
  intros A before x y l. induction l as [|z l IH]; cbn [insert].
  - intros [H|[]]. left. symmetry. exact H.
  - destruct (before z x).
    + intros [H|H]; [right; left; exact H|].
      destruct (IH H) as [H'|H']; [left; exact H'|right; right; exact H'].
    + intros [H|H]; [left; symmetry; exact H|right; exact H].
Qed.

Lemma sort_in :
  forall (A : Type) (before : A -> A -> bool) y l,
    In y (sort before l) -> In y l.
Proof.
  intros A before y l. induction l as [|x l IH]; cbn [sort].
  - intros [].
  - intros H. destruct (insert_in _ _ _ _ _ H) as [H'|H'].
    + left. symmetry. exact H'.
    + right. apply IH. exact H'.
Qed.




Lemma normalize_local_in :
  forall candidates seen t,
    In t (normalize_local candidates seen) ->
    exists c, In c candidates /\ t = cleanAbstractLocal c.
Proof.
  intros candidates. induction candidates as [|c cs IH]; intros seen t;
    cbn [normalize_local].
  - intros [].
  - cbv zeta.
    destruct (negb (Str.truthy (cleanAbstractLocal c))).
    + intros H. destruct (IH _ _ H) as [c' [Hc' Ht]]. exists c'. split; [right|]; assumption.
    + destruct (mem_string (Str.toLowerCase (cleanAbstractLocal c)) seen).
      * intros H. destruct (IH _ _ H) as [c' [Hc' Ht]].
        exists c'. split; [right|]; assumption.
      * intros [H|H].
        -- exists c. split; [left; reflexivity|symmetry; exact H].
        -- destruct (IH _ _ H) as [c' [Hc' Ht]].
           exists c'. split; [right|]; assumption.
Qed.





(** ** Greedy repetition over a class *)

Section ClassRepetition.
Variable R : Type.
Variable p : ascii -> bool.

Lemma last_or_cons :
  forall prev c s, last_or (Some c) s = last_or prev (String c s).
Proof.
  intros prev c s. unfold last_or. cbn [Str.last_char].
  destruct s as [|d s']; [reflexivity|].
  destruct (Str.last_char (String d s')) eqn:H; [reflexivity|].
  exfalso. clear -H. revert d H. induction s' as [|e s' IH]; intros d H.
  - discriminate.
  - cbn [Str.last_char] in H. exact (IH e H).
Qed.

Lemma run_class_stops :
  forall prev rest cap (k : Re.cont R),
    stops p rest -> Re.run (Chr p) prev rest cap k = None.
Proof.
  intros prev rest cap k H. destruct rest as [|c rest']; [reflexivity|].
  cbn [Re.run]. cbn in H. rewrite H. reflexivity.
Qed.

Lemma run_class_hit :
  forall prev c s cap (k : Re.cont R),
    p c = true -> Re.run (Chr p) prev (String c s) cap k = k (Some c) s cap.
Proof. intros prev c s cap k H. cbn [Re.run]. rewrite H. reflexivity. Qed.

Lemma star_loop_step :
  forall (a : Re.matcher R) (k : Re.cont R) fuel prev s cap,
    Re.star_loop a k (S fuel) prev s cap
    = Re.orelse
        (a prev s cap
           (fun p1 s1 c1 =>
              if Re.shorter s1 s then Re.star_loop a k fuel p1 s1 c1 else None))
        (fun _ => k prev s cap).
Proof. reflexivity. Qed.

Lemma rep_loop_step :
  forall (a : Re.matcher R) (k : Re.cont R) lo hi prev s cap,
    Re.rep_loop a k lo (S hi) prev s cap
    = Re.orelse
        (a prev s cap (fun p1 s1 c1 => Re.rep_loop a k (Nat.pred lo) hi p1 s1 c1))
        (fun _ => match lo with O => k prev s cap | S _ => None end).
Proof. reflexivity. Qed.

Lemma shorter_tail : forall c s, Re.shorter s (String c s) = true.
Proof.
  intros c s. unfold Re.shorter. cbn [String.length]. apply Nat.ltb_lt. lia.
Qed.

(** [p*] over a run of the class that ends where the class stops: the
    continuation that succeeds there decides. *)
Lemma star_over_class :
  forall (k : Re.cont R) run_ rest x fuel prev cap,
    Str.forallb p run_ = true ->
    stops p rest ->
    String.length (run_ ++ rest) <= fuel ->
    k (last_or prev run_) rest cap = Some x ->
    Re.star_loop (Re.run (Chr p)) k fuel prev (run_ ++ rest) cap = Some x.
Proof.
  intros k run_. induction run_ as [|c r' IH]; intros rest x fuel prev cap Hall Hstop Hfuel Hk.
  - cbn [String.append]. destruct fuel as [|f].
    + exact Hk.
    + rewrite star_loop_step. rewrite (run_class_stops _ _ _ _ Hstop). exact Hk.
  - cbn [Str.forallb] in Hall. apply andb_true_iff in Hall. destruct Hall as [Hc Hall].
    cbn [String.append String.length] in *.
    destruct fuel as [|f]; [lia|].
    rewrite star_loop_step. rewrite (run_class_hit _ _ _ _ _ Hc).
    rewrite shorter_tail.
    rewrite (IH rest x f (Some c) cap Hall Hstop); [reflexivity|lia|].
    rewrite (last_or_cons prev). exact Hk.
Qed.

(** [p{lo,hi}] over such a run whose length is within the bounds. *)
Lemma rep_over_class :
  forall (k : Re.cont R) run_ rest x lo hi prev cap,
    Str.forallb p run_ = true ->
    stops p rest ->
    lo <= String.length run_ <= hi ->
    k (last_or prev run_) rest cap = Some x ->
    Re.rep_loop (Re.run (Chr p)) k lo hi prev (run_ ++ rest) cap = Some x.
Proof.
  intros k run_. induction run_ as [|c r' IH];
    intros rest x lo hi prev cap Hall Hstop Hlen Hk.
  - cbn [String.append String.length] in *. assert (lo = 0) by lia. subst lo.
    destruct hi as [|h].
    + exact Hk.
    + rewrite rep_loop_step. rewrite (run_class_stops _ _ _ _ Hstop). exact Hk.
  - cbn [Str.forallb] in Hall. apply andb_true_iff in Hall. destruct Hall as [Hc Hall].
    cbn [String.append String.length] in *.
    destruct hi as [|h]; [lia|].
    rewrite rep_loop_step. rewrite (run_class_hit _ _ _ _ _ Hc).
    rewrite (IH rest x (Nat.pred lo) h (Some c) cap Hall Hstop); [reflexivity|lia|].
    rewrite (last_or_cons prev). exact Hk.
Qed.

(** [p*$] fails on a text with a code unit outside the class. *)
Lemma star_to_end_fails :
  forall (k : Re.cont R) s fuel prev cap,
    Str.existsb (fun c => negb (p c)) s = true ->
    Re.star_loop (Re.run (Chr p)) (fun p1 s1 c1 => Re.run Eol p1 s1 c1 k)
                 fuel prev s cap = None.
Proof.
  intros k s. induction s as [|c s' IH]; intros fuel prev cap H; [discriminate|].
  cbn [Str.existsb] in H.
  destruct fuel as [|f]; [reflexivity|].
  rewrite star_loop_step.
  destruct (p c) eqn:Hc.
  - rewrite (run_class_hit _ _ _ _ _ Hc). rewrite shorter_tail.
    cbn [negb orb] in H. rewrite (IH f (Some c) cap H). reflexivity.
  - assert (Hstop : stops p (String c s')) by exact Hc.
    rewrite (run_class_stops _ _ _ _ Hstop). reflexivity.
Qed.

End ClassRepetition.

(** ** Facts about the classes of the DOI pattern *)

Ltac by_code_unit :=
  let c := fresh "c" in
  intros c; destruct c as [[|] [|] [|] [|] [|] [|] [|] [|]];
  vm_compute; intros; first [reflexivity | discriminate].

Lemma digit_is_no_percent : forall c, Char.digit c = true -> Char.eq "%" c = false.
Proof. by_code_unit. Qed.

Lemma doi_char_is_no_percent : forall c, doi_char c = true -> Char.eq "%" c = false.
Proof. by_code_unit. Qed.

Lemma doi_char_is_no_space : forall c, doi_char c = true -> Char.space c = false.
Proof. by_code_unit. Qed.

Lemma digit_is_lower_case : forall c, Char.digit c = true -> Char.to_lower c = c.
Proof. by_code_unit. Qed.


Lemma doi_char_to_lower : forall c, doi_char c = true -> doi_char (Char.to_lower c) = true.
Proof. by_code_unit. Qed.

Lemma doi_trailing_to_lower :
  forall c, doi_trailing c = false -> doi_trailing (Char.to_lower c) = false.
Proof. by_code_unit. Qed.

Lemma to_lower_idempotent : forall c, Char.to_lower (Char.to_lower c) = Char.to_lower c.
Proof. by_code_unit. Qed.

Lemma to_lower_is_not_upper : forall c, Char.upper (Char.to_lower c) = false.
Proof. by_code_unit. Qed.

Lemma forallb_excludes :
  forall (p q : ascii -> bool) s,
    (forall c, p c = true -> q c = false) ->
    Str.forallb p s = true -> Str.existsb q s = false.
Proof.
  intros p q s H. induction s as [|c s IH]; [reflexivity|].
  cbn. intros Hall. apply andb_true_iff in Hall. destruct Hall as [Hc Hall].
  rewrite (H c Hc), (IH Hall). reflexivity.
Qed.

Lemma forallb_map :
  forall (p q : ascii -> bool) f s,
    (forall c, p c = true -> q (f c) = true) ->
    Str.forallb p s = true -> Str.forallb q (Str.map f s) = true.
Proof.
  intros p q f s H. induction s as [|c s IH]; [reflexivity|].
  cbn. intros Hall. apply andb_true_iff in Hall. destruct Hall as [Hc Hall].
  rewrite (H c Hc), (IH Hall). reflexivity.
Qed.

Lemma map_fixes :
  forall (p : ascii -> bool) f s,
    (forall c, p c = true -> f c = c) ->
    Str.forallb p s = true -> Str.map f s = s.
Proof.
  intros p f s H. induction s as [|c s IH]; [reflexivity|].
  cbn. intros Hall. apply andb_true_iff in Hall. destruct Hall as [Hc Hall].
  rewrite (H c Hc), (IH Hall). reflexivity.
Qed.

Lemma map_idempotent :
  forall f s, (forall c, f (f c) = f c) -> Str.map f (Str.map f s) = Str.map f s.
Proof.
  intros f s H. induction s as [|c s IH]; [reflexivity|].
  cbn. rewrite H, IH. reflexivity.
Qed.

Lemma map_excludes :
  forall (q : ascii -> bool) f s,
    (forall c, q (f c) = false) -> Str.existsb q (Str.map f s) = false.
Proof.
  intros q f s H. induction s as [|c s IH]; [reflexivity|].
  cbn. rewrite H, IH. reflexivity.
Qed.

(** Without a percent sign there is nothing to decode. *)
Lemma as_read_code_unit : forall c, as_read (N_of_ascii c) = c.
Proof.
  intros c. unfold as_read.
  replace (N_of_ascii c <? 256)%N with true
    by (symmetry; apply N.ltb_lt; apply N_ascii_bounded).
  apply ascii_N_embedding.
Qed.

Lemma decode_plain :
  forall s,
    Str.existsb (Char.eq "%") s = false -> decoded s = Normal s.
Proof.
  intros s Hs. unfold decoded, decodeURIComponent.
  assert (H : forall fuel, String.length s <= fuel ->
                exists units, Uri.decode fuel s = Normal units
                              /\ text_as_read units = s).
  { induction s as [|c s IH]; intros fuel Hfuel.
    - exists []. destruct fuel; split; reflexivity.
    - cbn [Str.existsb] in Hs. apply orb_false_iff in Hs. destruct Hs as [Hc Hs].
      destruct fuel as [|f]; [cbn [String.length] in Hfuel; lia|].
      cbn [String.length] in Hfuel.
      destruct (IH Hs f ltac:(lia)) as [units [Hunits Htext]].
      exists (N_of_ascii c :: units). cbn [Uri.decode]. rewrite Hc, Hunits.
      split; [reflexivity|]. cbn [text_as_read]. rewrite as_read_code_unit, Htext.
      reflexivity. }
  destruct (H (String.length s) (Nat.le_refl _)) as [units [-> Htext]].
  cbn [bindC]. rewrite Htext. reflexivity.
Qed.

Lemma last_char_split :
  forall s l, Str.last_char s = Some l -> exists init, s = init ++ String l "".
Proof.
  induction s as [|c s IH]; intros l H; [discriminate|].
  destruct s as [|d s'].
  - cbn in H. injection H as <-. exists "". reflexivity.
  - cbn [Str.last_char] in H. destruct (IH l H) as [init Hinit].
    exists (String c init). cbn [String.append]. rewrite <- Hinit. reflexivity.
Qed.

Lemma last_char_app :
  forall a c b, Str.last_char (a ++ String c b) = Str.last_char (String c b).
Proof.
  induction a as [|x a IH]; intros c b; [reflexivity|].
  cbn [String.append]. rewrite <- (IH c b).
  destruct (a ++ String c b) eqn:H; [|reflexivity].
  destruct a; discriminate H.
Qed.

(** [trim] leaves a text that neither starts nor ends with white space. *)
Lemma trim_keeps :
  forall s c l,
    Re.head s = Some c -> Char.space c = false ->
    Str.last_char s = Some l -> Char.space l = false ->
    Str.trim s = s.
Proof.
  intros s c l Hhead Hc Hlast Hl.
  destruct (last_char_split s l Hlast) as [init ->].
  destruct init as [|c' init].
  - cbn in Hhead. injection Hhead as <-.
    unfold Str.trim, Str.trimStart, Str.trimEnd. cbn. rewrite Hl. cbn.
    rewrite Hl. reflexivity.
  - cbn in Hhead. injection Hhead as <-. apply trim_identity; assumption.
Qed.

(** ** The patterns of [normalizeDoi] on a DOI token *)

Lemma run_seq :
  forall (R : Type) a b prev s cap (k : Re.cont R),
    Re.run (Seq a b) prev s cap k
    = Re.run a prev s cap (fun p1 s1 c1 => Re.run b p1 s1 c1 k).
Proof. reflexivity. Qed.

Lemma run_rep :
  forall (R : Type) lo hi a prev s cap (k : Re.cont R),
    Re.run (Rep lo hi a) prev s cap k = Re.rep_loop (Re.run a) k lo hi prev s cap.
Proof. reflexivity. Qed.

Lemma run_star :
  forall (R : Type) a prev s cap (k : Re.cont R),
    Re.run (Star a) prev s cap k
    = Re.star_loop (Re.run a) k (String.length s) prev s cap.
Proof. reflexivity. Qed.

Lemma star_over_all :
  forall (R : Type) (p : ascii -> bool) (k : Re.cont R) s x fuel prev cap,
    Str.forallb p s = true ->
    String.length s <= fuel ->
    k (last_or prev s) "" cap = Some x ->
    Re.star_loop (Re.run (Chr p)) k fuel prev s cap = Some x.
Proof.
  intros R p k s x fuel prev cap Hall Hfuel Hk.
  rewrite <- (app_empty_r s).
  apply star_over_class; [exact Hall|exact I|rewrite app_empty_r; exact Hfuel|exact Hk].
Qed.

Lemma search_hit_here :
  forall r prev s pre m rest c,
    Re.at_pos r prev s = Some (m, rest, c) ->
    Re.search_from r prev s pre = Some (Re.Hit (Str.rev pre) m rest c).
Proof.
  intros r prev s pre m rest c H. destruct s; cbn [Re.search_from]; rewrite H; reflexivity.
Qed.

Lemma search_miss_here :
  forall r prev c s pre,
    Re.at_pos r prev (String c s) = None ->
    Re.search_from r prev (String c s) pre
    = Re.search_from r (Some c) s (String c pre).
Proof. intros r prev c s pre H. cbn [Re.search_from]. rewrite H. reflexivity. Qed.

Lemma nonempty_of_existsb :
  forall p s, Str.existsb p s = true -> exists c s', s = String c s'.
Proof. intros p s H. destruct s as [|c s']; [discriminate|]. eauto. Qed.

Ltac consume :=
  repeat (first [ rewrite run_seq
                | rewrite run_class_hit by reflexivity ];
          cbv beta).

(** The DOI pattern matches a whole token, from its first code unit. *)
Lemma at_pos_doi_token :
  forall registrant suffix,
    4 <= String.length registrant <= 9 ->
    Str.forallb Char.digit registrant = true ->
    Str.forallb doi_char suffix = true ->
    suffix <> "" ->
    Re.at_pos RE_DOI None (doi_token registrant suffix)
    = Some (doi_token registrant suffix, "", None).
Proof.
  intros registrant suffix Hlen Hdigits Hchars Hne.
  unfold Re.at_pos.
  assert (Hrun : Re.run RE_DOI None (doi_token registrant suffix) None
                        (fun _ s1 c1 => Some (s1, c1)) = Some ("", None)).
  { unfold RE_DOI, doi_token, Plus. cbn [seq liti String.append].
    consume. rewrite run_rep.
    apply rep_over_class; [exact Hdigits|reflexivity|exact Hlen|].
    cbv beta. consume.
    destruct suffix as [|c s']; [contradiction|].
    cbn [Str.forallb] in Hchars. apply andb_true_iff in Hchars.
    destruct Hchars as [Hc Hs'].
    rewrite (run_class_hit _ _ _ _ _ _ _ Hc). cbv beta. rewrite run_star.
    apply star_over_all; [exact Hs'|lia|reflexivity]. }
  rewrite Hrun. cbn [String.length]. rewrite Nat.sub_0_r, take_all. reflexivity.
Qed.

Lemma exec_doi_token :
  forall registrant suffix,
    4 <= String.length registrant <= 9 ->
    Str.forallb Char.digit registrant = true ->
    Str.forallb doi_char suffix = true ->
    suffix <> "" ->
    Re.exec RE_DOI (doi_token registrant suffix)
    = Some (Re.Hit "" (doi_token registrant suffix) "" None).
Proof.
  intros registrant suffix Hlen Hdigits Hchars Hne. unfold Re.exec.
  apply (search_hit_here RE_DOI None _ "").
  apply at_pos_doi_token; assumption.
Qed.

(** The pattern of trailing punctuation, at one position. *)
Lemma at_pos_trailing_none :
  forall prev s,
    Str.existsb (fun c => negb (doi_trailing c)) s = true ->
    Re.at_pos RE_DOI_TRAILING prev s = None.
Proof.
  intros prev s H. unfold Re.at_pos, RE_DOI_TRAILING, Plus. cbn [seq].
  rewrite !run_seq.
  destruct s as [|c s']; [discriminate|].
  destruct (doi_trailing c) eqn:Hc.
  - rewrite (run_class_hit _ _ _ _ _ _ _ Hc). cbv beta. rewrite run_star.
    cbn [Str.existsb] in H. rewrite Hc in H. cbn [negb orb] in H.
    rewrite (star_to_end_fails _ doi_trailing _ s' _ _ _ H). reflexivity.
  - assert (Hstop : stops doi_trailing (String c s')) by exact Hc.
    rewrite (run_class_stops _ _ _ _ _ _ Hstop). reflexivity.
Qed.

Lemma at_pos_trailing_all :
  forall prev c s,
    Str.forallb doi_trailing (String c s) = true ->
    Re.at_pos RE_DOI_TRAILING prev (String c s) = Some (String c s, "", None).
Proof.
  intros prev c s H. cbn [Str.forallb] in H. apply andb_true_iff in H.
  destruct H as [Hc Hs].
  unfold Re.at_pos.
  assert (Hrun : Re.run RE_DOI_TRAILING prev (String c s) None
                        (fun _ s1 c1 => Some (s1, c1)) = Some ("", None)).
  { unfold RE_DOI_TRAILING, Plus. cbn [seq]. rewrite !run_seq.
    rewrite (run_class_hit _ _ _ _ _ _ _ Hc). cbv beta. rewrite run_star.
    apply star_over_all; [exact Hs|lia|reflexivity]. }
  rewrite Hrun. cbn [String.length]. rewrite Nat.sub_0_r.
  change (S (String.length s)) with (String.length (String c s)).
  rewrite take_all. reflexivity.
Qed.

Lemma at_pos_trailing_empty :
  forall prev, Re.at_pos RE_DOI_TRAILING prev "" = None.
Proof. intros prev. reflexivity. Qed.

(** The search for trailing punctuation in a text whose last code unit
    outside the class is [l]. *)
Lemma search_trailing :
  forall body l junk prev pre,
    doi_trailing l = false ->
    Str.forallb doi_trailing junk = true ->
    Re.search_from RE_DOI_TRAILING prev (body ++ String l junk) pre
    = match junk with
      | EmptyString => None
      | _ => Some (Re.Hit (Str.rev pre ++ body ++ String l "") junk "" None)
      end.
Proof.
  intros body. induction body as [|c body IH]; intros l junk prev pre Hl Hjunk.
  - cbn [String.append]. rewrite search_miss_here.
    + destruct junk as [|j junk'].
      * reflexivity.
      * rewrite (search_hit_here _ _ _ _ _ _ _ (at_pos_trailing_all _ _ _ Hjunk)).
        rewrite rev_cons. reflexivity.
    + apply at_pos_trailing_none. cbn [Str.existsb]. rewrite Hl. reflexivity.
  - cbn [String.append]. rewrite search_miss_here.
    + rewrite (IH l junk (Some c) (String c pre) Hl Hjunk).
      destruct junk; [reflexivity|].
      rewrite rev_cons. rewrite app_assoc_s. reflexivity.
    + apply at_pos_trailing_none. cbn [Str.existsb].
      rewrite str_existsb_app. cbn [Str.existsb]. rewrite Hl.
      cbn [negb orb]. rewrite !orb_true_r. reflexivity.
Qed.

(** Trailing punctuation is removed, and nothing else. *)
Lemma strip_trailing :
  forall body l junk,
    doi_trailing l = false ->
    Str.forallb doi_trailing junk = true ->
    Re.replace_all RE_DOI_TRAILING "" (body ++ String l junk) = body ++ String l "".
Proof.
  intros body l junk Hl Hjunk.
  unfold Re.replace_all, Re.replace_all_with. cbn [Re.replace_all_from].
  rewrite (search_trailing body l junk None "" Hl Hjunk).
  destruct junk as [|j junk'].
  - reflexivity.
  - cbn [Re.matched Re.after Re.before Str.rev Str.rev_onto String.append].
    destruct (String.length (body ++ String l (String j junk'))) as [|n];
      cbn [Re.replace_all_from]; rewrite ?at_pos_trailing_empty;
      cbn [Re.search_from]; rewrite ?at_pos_trailing_empty; rewrite app_empty_r;
      reflexivity.
Qed.

Lemma replace_at_start :
  forall r pre t c,
    Re.run (Seq Bol r) None (pre ++ t) None (fun _ s1 c1 => Some (s1, c1))
    = Some (t, c) ->
    Re.replace (Seq Bol r) "" (pre ++ t) = t.
Proof.
  intros r pre t c H. unfold Re.replace, Re.replace_with, Re.exec.
  rewrite (search_hit_here (Seq Bol r) None (pre ++ t) "" pre t c).
  - reflexivity.
  - unfold Re.at_pos. rewrite H. rewrite take_app. reflexivity.
Qed.

Lemma replace_misses_start :
  forall r s,
    Re.run (Seq Bol r) None s None (fun _ s1 c1 => Some (s1, c1)) = None ->
    Re.replace (Seq Bol r) "" s = s.
Proof.
  intros r s H. unfold Re.replace, Re.replace_with, Re.exec.
  destruct s as [|c s'].
  - cbn [Re.search_from]. unfold Re.at_pos. rewrite H. reflexivity.
  - rewrite search_miss_here; [|unfold Re.at_pos; rewrite H; reflexivity].
    rewrite search_after_start. reflexivity.
Qed.

(** The two prefix patterns leave the token, whatever the accepted way of
    writing the DOI. *)
Lemma strip_prefixes :
  forall pre rest,
    In pre DOI_PREFIXES ->
    Re.replace RE_DOI_LABEL ""
      (Re.replace RE_DOI_URL_PREFIX "" (pre ++ "10." ++ rest))
    = "10." ++ rest.
Proof.
  intros pre rest Hpre.
  change RE_DOI_URL_PREFIX
    with (Seq Bol (seq [liti "http"; Opt (liti "s"); liti "://"; Opt (liti "dx.");
                        liti "doi.org/"])).
  change RE_DOI_LABEL with (Seq Bol (seq [liti "doi:"; Star ws])).
  assert (Hbare : Re.replace (Seq Bol (seq [liti "doi:"; Star ws])) "" ("10." ++ rest)
                  = "10." ++ rest)
    by (apply replace_misses_start; vm_compute; reflexivity).
  cbn [DOI_PREFIXES In] in Hpre.
  destruct Hpre as [<-|[<-|[<-|[<-|[<-|[<-|[<-|[<-|[]]]]]]]]].
  - rewrite (replace_misses_start _ ("" ++ "10." ++ rest))
      by (vm_compute; reflexivity).
    exact Hbare.
  - rewrite (replace_misses_start _ ("doi:" ++ "10." ++ rest))
      by (vm_compute; reflexivity).
    apply (replace_at_start _ "doi:" ("10." ++ rest) None). vm_compute. reflexivity.
  - rewrite (replace_misses_start _ ("doi: " ++ "10." ++ rest))
      by (vm_compute; reflexivity).
    apply (replace_at_start _ "doi: " ("10." ++ rest) None).
    cbv -[Re.shorter]. rewrite shorter_tail. reflexivity.
  - rewrite (replace_misses_start _ ("DOI:" ++ "10." ++ rest))
      by (vm_compute; reflexivity).
    apply (replace_at_start _ "DOI:" ("10." ++ rest) None). vm_compute. reflexivity.
  - rewrite (replace_at_start _ "http://dx.doi.org/" ("10." ++ rest) None)
      by (vm_compute; reflexivity).
    exact Hbare.
  - rewrite (replace_at_start _ "https://dx.doi.org/" ("10." ++ rest) None)
      by (vm_compute; reflexivity).
    exact Hbare.
  - rewrite (replace_at_start _ "http://doi.org/" ("10." ++ rest) None)
      by (vm_compute; reflexivity).
    exact Hbare.
  - rewrite (replace_at_start _ "https://doi.org/" ("10." ++ rest) None)
      by (vm_compute; reflexivity).
    exact Hbare.
Qed.

Lemma prefix_facts :
  forall pre t,
    In pre DOI_PREFIXES ->
    Str.existsb (Char.eq "%") pre = false
    /\ exists c, Re.head (pre ++ String "1" t) = Some c /\ Char.space c = false.
Proof.
  intros pre t Hpre. cbn [DOI_PREFIXES In] in Hpre.
  destruct Hpre as [<-|[<-|[<-|[<-|[<-|[<-|[<-|[<-|[]]]]]]]]];
    (split; [reflexivity|eexists; split; reflexivity]).
Qed.

Lemma forallb_last :
  forall (q : ascii -> bool) s z,
    Str.forallb q s = true -> Str.last_char s = Some z -> q z = true.
Proof.
  intros q s z Hall Hlast. destruct (last_char_split s z Hlast) as [init ->].
  rewrite str_forallb_app in Hall. apply andb_true_iff in Hall.
  destruct Hall as [_ Hz]. cbn in Hz. rewrite andb_true_r in Hz. exact Hz.
Qed.

Lemma last_char_defined :
  forall c s, exists z, Str.last_char (String c s) = Some z.
Proof.
  intros c s. revert c. induction s as [|d s IH]; intros c.
  - exists c. reflexivity.
  - cbn [Str.last_char]. apply IH.
Qed.

Lemma lower_of_token :
  forall registrant suffix,
    Str.forallb Char.digit registrant = true ->
    Str.toLowerCase (doi_token registrant suffix)
    = doi_token registrant (Str.toLowerCase suffix).
Proof.
  intros registrant suffix Hdigits. unfold doi_token, Str.toLowerCase.
  rewrite !str_map_app.
  rewrite (map_fixes Char.digit Char.to_lower registrant digit_is_lower_case Hdigits).
  reflexivity.
Qed.

(** What [normalizeDoi] makes of a DOI token behind an accepted prefix. *)
Lemma normalizeDoi_of_token :
  forall pre registrant body l junk,
    In pre DOI_PREFIXES ->
    4 <= String.length registrant <= 9 ->
    Str.forallb Char.digit registrant = true ->
    Str.forallb doi_char (body ++ String l junk) = true ->
    doi_trailing l = false ->
    Str.forallb doi_trailing junk = true ->
    normalizeDoi (pre ++ doi_token registrant (body ++ String l junk))
    = Normal (DOI_ORG ++ doi_token registrant (Str.toLowerCase (body ++ String l ""))).
Proof.
  intros pre registrant body l junk Hpre Hlen Hdigits Hchars Hl Hjunk.
  set (suffix := body ++ String l junk) in *.
  assert (Hne : suffix <> "") by (unfold suffix; destruct body; discriminate).
  destruct (prefix_facts pre (String "0" (String "." (registrant ++ "/" ++ suffix))) Hpre)
    as [Hpercent [c [Hhead Hc]]].
  set (x := pre ++ doi_token registrant suffix).
  assert (Htrim : Str.trim x = x).
  { destruct (last_char_defined l junk) as [z Hz].
    assert (Hlast : Str.last_char x = Some z).
    { unfold x, doi_token, suffix. rewrite <- !app_assoc_s.
      rewrite last_char_app. exact Hz. }
    apply (trim_keeps x c z Hhead Hc Hlast).
    apply doi_char_is_no_space.
    unfold suffix in Hchars. rewrite str_forallb_app in Hchars.
    apply andb_true_iff in Hchars. destruct Hchars as [_ Htail].
    exact (forallb_last doi_char _ z Htail Hz). }
  assert (Hplain : Str.existsb (Char.eq "%") x = false).
  { unfold x, doi_token. rewrite !str_existsb_app. rewrite Hpercent.
    rewrite (forallb_excludes _ _ _ digit_is_no_percent Hdigits).
    rewrite (forallb_excludes _ _ _ doi_char_is_no_percent Hchars).
    reflexivity. }
  unfold normalizeDoi.
  assert (Htruthy : Str.truthy x = true).
  { unfold x, doi_token. destruct pre; reflexivity. }
  rewrite Htruthy. cbn [negb]. rewrite Htrim. rewrite (decode_plain x Hplain).
  cbn [bindC]. unfold x at 1. unfold doi_token at 1.
  rewrite (strip_prefixes pre (registrant ++ "/" ++ suffix) Hpre).
  change ("10." ++ registrant ++ "/" ++ suffix) with (doi_token registrant suffix).
  rewrite (exec_doi_token registrant suffix Hlen Hdigits Hchars Hne).
  cbn [Re.matched]. f_equal. f_equal.
  unfold doi_token at 1. unfold suffix.
  rewrite <- !app_assoc_s.
  rewrite (strip_trailing _ l junk Hl Hjunk).
  rewrite !app_assoc_s.
  change ("10." ++ registrant ++ "/" ++ body ++ String l "")
    with (doi_token registrant (body ++ String l "")).
  apply lower_of_token. exact Hdigits.
Qed.

(** ** DOI normalization is idempotent *)



(** ** The two copies of the author formatter *)

(** *** Patterns that find nothing *)

Section NoHit.
Variable r : re.
Variable Q : string -> Prop.
Hypothesis Q_tail : forall c t, Q (String c t) -> Q t.
Hypothesis Q_miss : forall prev t, Q t -> Re.at_pos r prev t = None.

Lemma search_misses :
  forall s prev pre, Q s -> Re.search_from r prev s pre = None.
Proof.
  induction s as [|c s IH]; intros prev pre HQ; cbn [Re.search_from];
    rewrite (Q_miss prev _ HQ); [reflexivity|].
  apply IH. exact (Q_tail c s HQ).
Qed.

Lemma replace_all_misses :
  forall by_ s, Q s -> Re.replace_all r by_ s = s.
Proof.
  intros by_ s HQ. unfold Re.replace_all, Re.replace_all_with.
  cbn [Re.replace_all_from]. rewrite (search_misses s None "" HQ). reflexivity.
Qed.

Lemma split_misses :
  forall s, Q s -> s <> "" -> Re.split r s = [s].
Proof.
  intros s HQ Hs. destruct s as [|c s]; [contradiction|].
  unfold Re.split. cbn [Re.split_from].
  rewrite (search_misses _ None "" HQ). reflexivity.
Qed.
End NoHit.

Lemma free_tail :
  forall p c t, Str.existsb p (String c t) = false -> Str.existsb p t = false.
Proof. intros p c t H. cbn in H. apply orb_false_iff in H. apply H. Qed.

Lemma plus_misses :
  forall p prev t,
    Str.existsb p t = false -> Re.at_pos (Plus (Chr p)) prev t = None.
Proof.
  intros p prev t H. unfold Re.at_pos. destruct t as [|c t]; [reflexivity|].
  cbn in H. apply orb_false_iff in H. destruct H as [Hc _].
  cbn. rewrite Hc. reflexivity.
Qed.

Lemma edges_miss :
  forall prev t,
    Str.existsb (Char.one_of ",;") t = false ->
    Re.at_pos Structured.RE_TOKEN_EDGES prev t = None.
Proof.
  intros prev t H. unfold Re.at_pos. destruct t as [|c t].
  - destruct prev; reflexivity.
  - cbn in H. apply orb_false_iff in H. destruct H as [Hc _].
    destruct prev; cbn; rewrite Hc; reflexivity.
Qed.

Lemma trim_free :
  forall w, Str.existsb Char.space w = false -> Str.trim w = w.
Proof.
  intros w H. destruct w as [|c w]; [reflexivity|].
  destruct (last_char_defined c w) as [z Hz].
  apply (trim_keeps _ c z); [reflexivity| |exact Hz|].
  - cbn in H. apply orb_false_iff in H. apply H.
  - destruct (last_char_split _ z Hz) as [init Hinit]. rewrite Hinit in H.
    rewrite str_existsb_app in H. apply orb_false_iff in H. destruct H as [_ H].
    cbn in H. apply orb_false_iff in H. apply H.
Qed.

Lemma cleanText_free :
  forall w, Str.existsb Char.space w = false -> cleanText w = w.
Proof.
  intros w H. unfold cleanText, ws.
  rewrite (replace_all_misses (Plus (Chr Char.space))
             (fun t => Str.existsb Char.space t = false)
             (free_tail Char.space)
             (fun prev t Ht => plus_misses Char.space prev t Ht) " " w H).
  apply trim_free. exact H.
Qed.

Lemma word_char_is_no_space : forall c, word_char c = true -> Char.space c = false.
Proof. by_code_unit. Qed.

Lemma word_char_is_no_edge :
  forall c, word_char c = true -> Char.one_of ",;" c = false.
Proof. by_code_unit. Qed.

Lemma plain_word_free :
  forall w, plain_word w ->
    Str.existsb Char.space w = false /\ Str.existsb (Char.one_of ",;") w = false.
Proof.
  intros w [_ H]. split.
  - exact (forallb_excludes _ _ _ word_char_is_no_space H).
  - exact (forallb_excludes _ _ _ word_char_is_no_edge H).
Qed.

Lemma normalizeAuthorToken_plain :
  forall w, plain_word w -> Structured.normalizeAuthorToken w = w.
Proof.
  intros w Hw. destruct (plain_word_free w Hw) as [Hspace Hedge].
  unfold Structured.normalizeAuthorToken.
  rewrite (replace_all_misses Structured.RE_TOKEN_EDGES
             (fun t => Str.existsb (Char.one_of ",;") t = false)
             (free_tail (Char.one_of ",;")) edges_miss "" w Hedge).
  apply cleanText_free. exact Hspace.
Qed.

Lemma truthy_plain : forall w, plain_word w -> Str.truthy w = true.
Proof. intros w [Hw _]. destruct w; [contradiction|reflexivity]. Qed.

Lemma filterBoolean_plain :
  forall l, Forall plain_word l -> filterBoolean l = l.
Proof.
  induction 1 as [|w l Hw _ IH]; [reflexivity|].
  unfold filterBoolean in *. cbn [List.filter].
  rewrite (truthy_plain w Hw), IH. reflexivity.
Qed.

Lemma map_normalize_plain :
  forall l, Forall plain_word l -> List.map Structured.normalizeAuthorToken l = l.
Proof.
  induction 1 as [|w l Hw _ IH]; [reflexivity|].
  cbn [List.map]. rewrite (normalizeAuthorToken_plain w Hw), IH. reflexivity.
Qed.

Lemma map_trim_plain :
  forall l, Forall plain_word l -> List.map Str.trim l = l.
Proof.
  induction 1 as [|w l Hw _ IH]; [reflexivity|].
  cbn [List.map]. rewrite (trim_free w (proj1 (plain_word_free w Hw))), IH.
  reflexivity.
Qed.

(** *** Initials *)

Lemma truthy_app_r : forall a b, Str.truthy b = true -> Str.truthy (a ++ b) = true.
Proof. intros a b H. destruct a; [exact H|reflexivity]. Qed.

Lemma truthy_app_l : forall a b, Str.truthy a = true -> Str.truthy (a ++ b) = true.
Proof. intros a b H. destruct a; [discriminate H|reflexivity]. Qed.

Lemma initial_of_truthy : forall seg, Str.truthy (initial_of seg) = true.
Proof. intros seg. unfold initial_of. apply truthy_app_r. reflexivity. Qed.

Lemma join_truthy :
  forall sep l,
    l <> [] -> Forall (fun x => Str.truthy x = true) l ->
    Str.truthy (Str.join sep l) = true.
Proof.
  intros sep l Hl Hall. destruct Hall as [|x l Hx Hall]; [contradiction|].
  destruct l as [|y l]; [exact Hx|].
  change (Str.join sep (x :: y :: l)) with (x ++ sep ++ Str.join sep (y :: l)).
  apply truthy_app_l. exact Hx.
Qed.

Lemma rev_truthy : forall s, Str.truthy s = true -> Str.truthy (Str.rev s) = true.
Proof.
  intros s H. destruct s as [|c s]; [discriminate H|].
  rewrite rev_cons. apply truthy_app_r. reflexivity.
Qed.

(** A text with a code unit other than the separator has a non-empty piece. *)
Lemma split_has_piece :
  forall sep s cur,
    Str.existsb (fun c => negb (Ascii.eqb c sep)) s = true \/ Str.truthy cur = true ->
    filterBoolean (Str.split_char sep s cur) <> [].
Proof.
  intros sep. induction s as [|c s IH]; intros cur H.
  - destruct H as [H|H]; [discriminate H|].
    cbn. rewrite (rev_truthy cur H). discriminate.
  - cbn [Str.split_char]. destruct (Ascii.eqb c sep) eqn:Hc.
    + unfold filterBoolean. cbn [List.filter].
      destruct (Str.truthy (Str.rev cur)) eqn:Hcur; [discriminate|].
      apply IH. left. destruct H as [H|H].
      * cbn in H. rewrite Hc in H. exact H.
      * rewrite (rev_truthy cur H) in Hcur. discriminate Hcur.
    + apply IH. right. reflexivity.
Qed.

Lemma filterBoolean_truthy :
  forall l, Forall (fun x => Str.truthy x = true) (filterBoolean l).
Proof.
  induction l as [|x l IH]; [constructor|].
  unfold filterBoolean in *. cbn [List.filter].
  destruct (Str.truthy x) eqn:Hx; [constructor; assumption|exact IH].
Qed.

Lemma alpha_is_no_hyphen : forall c, Char.alpha c = true -> Ascii.eqb c hyphen = false.
Proof. by_code_unit. Qed.

Lemma existsb_weaken :
  forall (p q : ascii -> bool) s,
    (forall c, p c = true -> q c = true) ->
    Str.existsb p s = true -> Str.existsb q s = true.
Proof.
  intros p q s H. induction s as [|c s IH]; [discriminate|].
  cbn. intros Hs. apply orb_true_iff in Hs. apply orb_true_iff.
  destruct Hs as [Hc|Hs]; [left; apply H; exact Hc|right; apply IH; exact Hs].
Qed.

Lemma part_initials_truthy :
  forall x,
    Str.truthy x = true ->
    Str.existsb Char.alpha x || negb (Str.has_char hyphen x) = true ->
    Str.truthy (Script.part_initials x) = true.
Proof.
  intros x Hx H. unfold Script.part_initials.
  destruct (Str.has_char hyphen x) eqn:Hh; [|apply initial_of_truthy].
  cbn [negb] in H. rewrite orb_false_r in H.
  apply join_truthy.
  - intros Hnil. apply map_eq_nil in Hnil. revert Hnil.
    apply split_has_piece. left.
    apply (existsb_weaken Char.alpha); [|exact H].
    intros c Hc. rewrite (alpha_is_no_hyphen c Hc). reflexivity.
  - apply Forall_map. apply Forall_forall. intros seg _. apply initial_of_truthy.
Qed.

Lemma existsb_filter :
  forall (p q : ascii -> bool) s,
    (forall c, q c = true -> p c = true) ->
    Str.existsb q (Str.filter p s) = Str.existsb q s.
Proof.
  intros p q s H. induction s as [|c s IH]; [reflexivity|].
  cbn. destruct (p c) eqn:Hp.
  - cbn. rewrite IH. reflexivity.
  - destruct (q c) eqn:Hq; [rewrite (H c Hq) in Hp; discriminate Hp|].
    rewrite IH. reflexivity.
Qed.

Lemma filter_without_apostrophe :
  forall s,
    Str.has_char Structured.apostrophe s = false ->
    Str.filter (fun c => Char.alpha c || Char.eq Structured.apostrophe c
                         || Char.eq hyphen c) s
    = letters_and_hyphens s.
Proof.
  unfold letters_and_hyphens, Str.has_char, Char.eq.
  induction s as [|c s IH]; [reflexivity|].
  cbn [Str.filter Str.existsb]. intros H.
  apply orb_false_iff in H. destruct H as [Hc Hs].
  rewrite Hc, orb_false_r, (IH Hs). reflexivity.
Qed.

(** On a plain given name the two copies compute the same initials, and the
    script's are not empty when it keeps the name. *)
Lemma initials_of_plain_given :
  forall g,
    plain_given g = true ->
    Structured.initials_of_part g
    = (if Str.truthy (letters_and_hyphens g)
       then Script.part_initials (letters_and_hyphens g) else "")
    /\ (Str.truthy (letters_and_hyphens g) = true ->
        Str.truthy (Script.part_initials (letters_and_hyphens g)) = true).
Proof.
  intros g Hg. unfold plain_given in Hg. apply andb_true_iff in Hg.
  destruct Hg as [Hap Hletter]. apply negb_true_iff in Hap. split.
  - unfold Structured.initials_of_part. cbv zeta.
    rewrite (filter_without_apostrophe g Hap).
    destruct (Str.truthy (letters_and_hyphens g)); reflexivity.
  - intros Hx. apply part_initials_truthy; [exact Hx|].
    unfold letters_and_hyphens, Str.has_char.
    rewrite !existsb_filter; [exact Hletter| |].
    + intros c Hc. unfold Char.eq. rewrite Hc. apply orb_true_r.
    + intros c Hc. rewrite Hc. reflexivity.
Qed.

Lemma initials_agree :
  forall given,
    Forall (fun g => plain_given g = true) given ->
    filterBoolean (List.map Structured.initials_of_part given)
    = List.map Script.part_initials
        (filterBoolean (List.map letters_and_hyphens given)).
Proof.
  induction 1 as [|g given Hg _ IH]; [reflexivity|].
  destruct (initials_of_plain_given g Hg) as [Heq Htruthy].
  unfold filterBoolean in *. cbn [List.map List.filter]. rewrite Heq.
  destruct (Str.truthy (letters_and_hyphens g)) eqn:Hx.
  - rewrite (Htruthy eq_refl). cbn [List.map]. rewrite IH. reflexivity.
  - cbn. exact IH.
Qed.

Lemma buildAuthorInitials_plain :
  forall given,
    Forall plain_word given ->
    Forall (fun g => plain_given g = true) given ->
    Structured.buildAuthorInitials given
    = Str.join " "
        (List.map Script.part_initials
           (filterBoolean (List.map letters_and_hyphens given))).
Proof.
  intros given Hwords Hgiven. unfold Structured.buildAuthorInitials.
  rewrite (map_trim_plain given Hwords), (filterBoolean_plain given Hwords).
  rewrite (initials_agree given Hgiven). reflexivity.
Qed.

(** *** The formatted name holds no vertical bar *)

Lemma forallb_filter :
  forall (p : ascii -> bool) s, Str.forallb p (Str.filter p s) = true.
Proof.
  intros p. induction s as [|c s IH]; [reflexivity|].
  cbn. destruct (p c) eqn:Hc; [cbn; rewrite Hc; exact IH|exact IH].
Qed.

Lemma forallb_rev_onto :
  forall (p : ascii -> bool) s acc,
    Str.forallb p s = true -> Str.forallb p acc = true ->
    Str.forallb p (Str.rev_onto s acc) = true.
Proof.
  intros p. induction s as [|c s IH]; intros acc Hs Hacc; [exact Hacc|].
  cbn in Hs. apply andb_true_iff in Hs. destruct Hs as [Hc Hs].
  cbn [Str.rev_onto]. apply IH; [exact Hs|]. cbn. rewrite Hc. exact Hacc.
Qed.

Lemma split_forallb :
  forall (p : ascii -> bool) sep s cur,
    Str.forallb p s = true -> Str.forallb p cur = true ->
    Forall (fun seg => Str.forallb p seg = true) (Str.split_char sep s cur).
Proof.
  intros p sep. induction s as [|c s IH]; intros cur Hs Hcur.
  - constructor; [|constructor]. apply forallb_rev_onto; [exact Hcur|reflexivity].
  - cbn in Hs. apply andb_true_iff in Hs. destruct Hs as [Hc Hs].
    cbn [Str.split_char]. destruct (Ascii.eqb c sep).
    + constructor.
      * apply forallb_rev_onto; [exact Hcur|reflexivity].
      * apply IH; [exact Hs|reflexivity].
    + apply IH; [exact Hs|]. cbn. rewrite Hc. exact Hcur.
Qed.

Lemma forallb_take :
  forall (p : ascii -> bool) n s,
    Str.forallb p s = true -> Str.forallb p (Str.take n s) = true.
Proof.
  intros p. induction n as [|n IH]; intros s H; [destruct s; reflexivity|].
  destruct s as [|c s]; [reflexivity|].
  cbn in H. apply andb_true_iff in H. destruct H as [Hc Hs].
  cbn. rewrite Hc. apply IH. exact Hs.
Qed.

Lemma forallb_map_excludes :
  forall (p q : ascii -> bool) f s,
    (forall c, p c = true -> q (f c) = false) ->
    Str.forallb p s = true -> Str.existsb q (Str.map f s) = false.
Proof.
  intros p q f s H. induction s as [|c s IH]; [reflexivity|].
  cbn. intros Hs. apply andb_true_iff in Hs. destruct Hs as [Hc Hs].
  rewrite (H c Hc), (IH Hs). reflexivity.
Qed.

Lemma join_excludes :
  forall (q : ascii -> bool) sep l,
    Str.existsb q sep = false ->
    Forall (fun x => Str.existsb q x = false) l ->
    Str.existsb q (Str.join sep l) = false.
Proof.
  intros q sep l Hsep Hall. induction Hall as [|x l Hx Hall IH]; [reflexivity|].
  destruct l as [|y l]; [exact Hx|].
  change (Str.join sep (x :: y :: l)) with (x ++ sep ++ Str.join sep (y :: l)).
  rewrite !str_existsb_app, Hx, Hsep, IH. reflexivity.
Qed.

Lemma initial_is_no_bar :
  forall c, Char.alpha c || Char.eq hyphen c = true ->
            Ascii.eqb "|" (Char.to_upper c) = false.
Proof. by_code_unit. Qed.

Lemma initial_of_no_bar :
  forall seg,
    Str.forallb (fun c => Char.alpha c || Char.eq hyphen c) seg = true ->
    Str.has_char "|" (initial_of seg) = false.
Proof.
  intros seg H. unfold Str.has_char, initial_of, Str.toUpperCase, Str.first_char.
  rewrite str_existsb_app.
  rewrite (forallb_map_excludes _ (Ascii.eqb "|") Char.to_upper _ initial_is_no_bar
             (forallb_take _ 1 seg H)).
  reflexivity.
Qed.

Lemma Forall_filterBoolean :
  forall (P : string -> Prop) l, Forall P l -> Forall P (filterBoolean l).
Proof.
  intros P l H. induction H as [|x l Hx _ IH]; [constructor|].
  unfold filterBoolean in *. cbn [List.filter].
  destruct (Str.truthy x); [constructor; assumption|exact IH].
Qed.

Lemma part_initials_no_bar :
  forall x,
    Str.forallb (fun c => Char.alpha c || Char.eq hyphen c) x = true ->
    Str.has_char "|" (Script.part_initials x) = false.
Proof.
  intros x H. unfold Script.part_initials.
  destruct (Str.has_char hyphen x); [|apply initial_of_no_bar; exact H].
  apply join_excludes; [reflexivity|].
  apply Forall_map. apply Forall_filterBoolean.
  eapply Forall_impl; [|exact (split_forallb _ hyphen x "" H eq_refl)].
  intros seg Hseg. apply initial_of_no_bar. exact Hseg.
Qed.

Lemma surname_then_initials_no_bar :
  forall given surname,
    Str.has_char "|" surname = false ->
    Str.has_char "|" (surname_then_initials given surname) = false.
Proof.
  intros given surname Hs. unfold surname_then_initials. cbv zeta.
  match goal with |- context [Str.truthy ?i] => set (initials := i) end.
  assert (Hi : Str.has_char "|" initials = false).
  { apply join_excludes; [reflexivity|].
    apply Forall_map. apply Forall_filterBoolean. apply Forall_map.
    apply Forall_forall. intros g _. apply part_initials_no_bar.
    apply forallb_filter. }
  destruct (Str.truthy initials); [|exact Hs].
  unfold Str.has_char in *. rewrite !str_existsb_app, Hs, Hi. reflexivity.
Qed.

Lemma surname_then_initials_truthy :
  forall given surname,
    Str.truthy surname = true ->
    Str.truthy (surname_then_initials given surname) = true.
Proof.
  intros given surname Hs. unfold surname_then_initials. cbv zeta.
  match goal with
  | |- context [if Str.truthy ?i then _ else _] => destruct (Str.truthy i)
  end; [apply truthy_app_l|]; exact Hs.
Qed.

(** *** One name through each copy *)

Lemma split_of_empty : Re.split (Plus ws) "" = [""].
Proof. vm_compute. reflexivity. Qed.

Lemma plain_author_truthy :
  forall name given surname,
    plain_author name given surname ->
    Str.truthy (stripAcademicHonorifics name) = true.
Proof.
  intros name given surname [_ [_ [Hsplit [Hne _]]]].
  destruct (stripAcademicHonorifics name); [|reflexivity].
  rewrite split_of_empty in Hsplit.
  destruct given as [|g [|g' given]]; [contradiction|discriminate|discriminate].
Qed.

Lemma plain_author_words :
  forall name given surname,
    plain_author name given surname ->
    Forall plain_word given /\ plain_word surname.
Proof.
  intros name given surname [_ [_ [_ [_ [Hwords _]]]]].
  apply Forall_app in Hwords. destruct Hwords as [Hg Hs].
  split; [exact Hg|]. inversion Hs; assumption.
Qed.

Lemma script_of_plain_author :
  forall name given surname,
    plain_author name given surname ->
    Script.formatApaAuthor name = surname_then_initials given surname.
Proof.
  intros name given surname Hplain.
  assert (Htruthy := plain_author_truthy name given surname Hplain).
  destruct Hplain as [_ [_ [Hsplit [Hne [Hwords _]]]]].
  unfold Script.formatApaAuthor. cbv zeta.
  rewrite Htruthy. cbn [negb]. rewrite Hsplit.
  rewrite (filterBoolean_plain _ Hwords).
  assert (Hlast : List.last (given ++ [surname]) "" = surname) by apply last_last.
  assert (Hinit : List.removelast (given ++ [surname]) = given)
    by apply removelast_last.
  remember (given ++ [surname])%list as parts eqn:Hparts.
  destruct parts as [|a [|b l]].
  - destruct given; discriminate Hparts.
  - destruct given as [|g [|g' given]]; [contradiction|discriminate|discriminate].
  - cbv beta match. rewrite Hlast, Hinit. reflexivity.
Qed.

Lemma render_plain :
  forall raw given surname,
    Forall plain_word given -> plain_word surname ->
    Forall (fun g => plain_given g = true) given ->
    Structured.render raw surname given "" "space_given_first"
    = surname_then_initials given surname.
Proof.
  intros raw given surname Hwords Hsurname Hgiven.
  unfold Structured.render. cbv zeta.
  replace (cleanText "space_given_first") with "space_given_first"
    by (vm_compute; reflexivity).
  replace (cleanText "") with "" by (vm_compute; reflexivity).
  rewrite (cleanText_free surname (proj1 (plain_word_free surname Hsurname))).
  rewrite (map_normalize_plain given Hwords), (filterBoolean_plain given Hwords).
  rewrite (buildAuthorInitials_plain given Hwords Hgiven).
  rewrite (truthy_plain surname Hsurname).
  reflexivity.
Qed.

Lemma extractAuthorSuffix_keeps :
  forall tokens,
    tokens <> [] ->
    plain_word (List.last tokens "") ->
    Re.test Structured.AUTHOR_SUFFIX_RE (List.last tokens "") = false ->
    Structured.extractAuthorSuffix tokens = (tokens, "").
Proof.
  intros tokens Hne Hword Hsuffix. unfold Structured.extractAuthorSuffix.
  destruct tokens as [|t tokens]; [contradiction|]. cbv zeta.
  rewrite (normalizeAuthorToken_plain _ Hword), (truthy_plain _ Hword), Hsuffix.
  reflexivity.
Qed.

Lemma collect_particles_stops :
  forall given familyTokens,
    given <> [] ->
    mem_string (Str.toLowerCase (List.last given ""))
               Structured.AUTHOR_FAMILY_PARTICLES = false ->
    Structured.collect_particles (List.rev given) familyTokens
    = (List.rev given, familyTokens).
Proof.
  intros given familyTokens Hne Hparticle.
  destruct (exists_last Hne) as [init [l ->]].
  rewrite last_last in Hparticle. rewrite rev_unit.
  cbn [Structured.collect_particles]. rewrite Hparticle. reflexivity.
Qed.

Lemma structured_of_plain_author :
  forall name given surname,
    plain_author name given surname ->
    exists n,
      parsed_author name = Some n
      /\ Structured.formattedApa n = surname_then_initials given surname
      /\ Structured.formatApaAuthorFromStructured n = Structured.formattedApa n.
Proof.
  intros name given surname Hplain.
  assert (Htruthy := plain_author_truthy name given surname Hplain).
  destruct (plain_author_words name given surname Hplain) as [Hgwords Hsword].
  destruct Hplain
    as [Hcorp [Hcomma [Hsplit [Hne [Hwords [Hgiven [Hparticle [Hsuffix _]]]]]]]].
  assert (Hlast : List.last (given ++ [surname]) "" = surname) by apply last_last.
  assert (Hrev : List.rev (given ++ [surname]) = surname :: List.rev given)
    by apply rev_unit.
  assert (Hkeep : Structured.extractAuthorSuffix (given ++ [surname])
                  = ((given ++ [surname])%list, "")).
  { apply extractAuthorSuffix_keeps.
    - destruct given; discriminate.
    - rewrite Hlast. exact Hsword.
    - rewrite Hlast. exact Hsuffix. }
  unfold parsed_author, Structured.parseAuthorName. cbv zeta.
  rewrite Htruthy. cbn [negb]. rewrite Hcorp, Hcomma, Hsplit.
  rewrite (map_normalize_plain _ Hwords), (filterBoolean_plain _ Hwords).
  rewrite Hkeep, Hrev.
  rewrite (collect_particles_stops given [surname] Hne Hparticle).
  rewrite rev_involutive.
  remember (given ++ [surname])%list as parts eqn:Hparts.
  assert (Hfamily : cleanText (Str.join " " [surname]) = surname).
  { cbn [Str.join]. apply cleanText_free.
    exact (proj1 (plain_word_free surname Hsword)). }
  destruct parts as [|a [|b l]];
    [destruct given; discriminate Hparts
    |destruct given as [|g [|g' given']]; [contradiction|discriminate|discriminate]
    |].
  cbv beta match. cbn [fst]. rewrite Hfamily.
  unfold Structured.normalizeStructuredAuthorCandidate. cbv zeta.
  cbn [Structured.raw Structured.family Structured.given Structured.suffix
       Structured.parseMode Structured.source Structured.confidence].
  rewrite (cleanText_free surname (proj1 (plain_word_free surname Hsword))).
  rewrite (truthy_plain surname Hsword). cbn [negb andb].
  eexists. split; [reflexivity|].
  cbn [Structured.formattedApa]. split.
  - rewrite (map_normalize_plain given Hgwords), (filterBoolean_plain given Hgwords).
    replace (cleanText "") with "" by (vm_compute; reflexivity).
    replace (Str.or_else (cleanText "space_given_first") "structured")
      with "space_given_first" by (vm_compute; reflexivity).
    apply render_plain; assumption.
  - reflexivity.
Qed.

(** *** Lists of names *)

Lemma mem_string_In : forall x l, mem_string x l = true <-> In x l.
Proof.
  intros x l. unfold mem_string. rewrite existsb_exists. split.
  - intros [y [Hy He]]. apply String.eqb_eq in He. subst y. exact Hy.
  - intros H. exists x. split; [exact H|apply String.eqb_refl].
Qed.

Lemma parse_list_step :
  forall name rest seen,
    fst (Structured.parse_list (name :: rest) Structured.NO_OPTIONS seen)
    = match parsed_author name with
      | None => fst (Structured.parse_list rest Structured.NO_OPTIONS seen)
      | Some n =>
          if mem_string (author_key n) seen
          then fst (Structured.parse_list rest Structured.NO_OPTIONS seen)
          else n :: fst (Structured.parse_list rest Structured.NO_OPTIONS
                           (author_key n :: seen))
      end.
Proof.
  intros name rest seen. cbn [Structured.parse_list]. unfold parsed_author, author_key.
  destruct (Structured.parseAuthorName name Structured.NO_OPTIONS) as [[a|] w];
    cbn [fst].
  - destruct (Structured.normalizeStructuredAuthorCandidate a Structured.NO_OPTIONS)
      as [n|].
    + destruct (mem_string _ seen).
      * destruct (Structured.parse_list rest Structured.NO_OPTIONS seen). reflexivity.
      * destruct (Structured.parse_list rest Structured.NO_OPTIONS _). reflexivity.
    + destruct (Structured.parse_list rest Structured.NO_OPTIONS seen). reflexivity.
  - destruct (Structured.parse_list rest Structured.NO_OPTIONS seen). reflexivity.
Qed.

Lemma before_bar :
  forall a a' x x',
    Str.has_char "|" a = false -> Str.has_char "|" a' = false ->
    a ++ String "|" x = a' ++ String "|" x' -> a = a'.
Proof.
  unfold Str.has_char.
  induction a as [|c a IH]; intros a' x x' Ha Ha' H; destruct a' as [|c' a'].
  - reflexivity.
  - cbn in H. injection H as Hc _. subst c'. cbn in Ha'. discriminate Ha'.
  - cbn in H. injection H as Hc _. subst c. cbn in Ha. discriminate Ha.
  - cbn in H. injection H as Hc H. subst c'.
    cbn in Ha, Ha'. apply orb_false_iff in Ha. apply orb_false_iff in Ha'.
    f_equal. exact (IH a' x x' (proj2 Ha) (proj2 Ha') H).
Qed.

Lemma to_lower_keeps_no_bar :
  forall c, Ascii.eqb "|" c = false -> Ascii.eqb "|" (Char.to_lower c) = false.
Proof. by_code_unit. Qed.

Lemma lower_no_bar :
  forall f, Str.has_char "|" f = false -> Str.has_char "|" (Str.toLowerCase f) = false.
Proof.
  unfold Str.has_char, Str.toLowerCase. induction f as [|c f IH]; [reflexivity|].
  cbn [Str.existsb Str.map]. intros H.
  apply orb_false_iff in H. destruct H as [Hc Hf].
  rewrite (to_lower_keeps_no_bar c Hc), (IH Hf). reflexivity.
Qed.

Lemma key_decides_formatted :
  forall f r f' r',
    Str.has_char "|" f = false -> Str.has_char "|" f' = false ->
    Str.toLowerCase (f ++ "||" ++ r) = Str.toLowerCase (f' ++ "||" ++ r') ->
    Str.toLowerCase f = Str.toLowerCase f'.
Proof.
  intros f r f' r' Hf Hf' H. unfold Str.toLowerCase in H.
  rewrite !str_map_app in H.
  exact (before_bar _ _ _ _ (lower_no_bar f Hf) (lower_no_bar f' Hf') H).
Qed.

Lemma keys_covered_more :
  forall seenKeys seenFormatted x,
    keys_covered seenKeys seenFormatted ->
    keys_covered seenKeys (x :: seenFormatted).
Proof.
  intros seenKeys seenFormatted x H k Hk.
  destruct (H k Hk) as [f [r [Hkey [Hbar Hin]]]].
  exists f, r. repeat split; [exact Hkey|exact Hbar|right; exact Hin].
Qed.

Lemma keys_covered_add :
  forall seenKeys seenFormatted n,
    keys_covered seenKeys seenFormatted ->
    Str.has_char "|" (Structured.formattedApa n) = false ->
    In (Str.toLowerCase (Structured.formattedApa n)) seenFormatted ->
    keys_covered (author_key n :: seenKeys) seenFormatted.
Proof.
  intros seenKeys seenFormatted n H Hbar Hin k [<-|Hk]; [|exact (H k Hk)].
  exists (Structured.formattedApa n), (Structured.raw n).
  repeat split; assumption.
Qed.

(** The authors that [parseAuthorList] keeps, once formatted and deduplicated,
    are the script's formatted names, deduplicated. *)
Lemma parsed_list_formats_alike :
  forall names,
    Forall plain_name names ->
    forall seenKeys seenFormatted,
      keys_covered seenKeys seenFormatted ->
      dedupe_formatted
        (List.map Structured.formatApaAuthorFromStructured
           (fst (Structured.parse_list names Structured.NO_OPTIONS seenKeys)))
        seenFormatted
      = dedupe_formatted (List.map Script.formatApaAuthor names) seenFormatted.
Proof.
  induction 1 as [|name rest [given [surname Hplain]] _ IH];
    intros seenKeys seenFormatted Hcov; [reflexivity|].
  destruct (structured_of_plain_author name given surname Hplain)
    as [n [Hn [Hformatted Hrender]]].
  assert (Hscript := script_of_plain_author name given surname Hplain).
  destruct (plain_author_words name given surname Hplain) as [_ Hsword].
  assert (Htruthy := surname_then_initials_truthy given surname
                       (truthy_plain surname Hsword)).
  assert (Hbar : Str.has_char "|" (Structured.formattedApa n) = false).
  { rewrite Hformatted. apply surname_then_initials_no_bar.
    destruct Hplain as [_ [_ [_ [_ [_ [_ [_ [_ Hb]]]]]]]]. exact Hb. }
  rewrite parse_list_step, Hn. cbn [List.map]. rewrite Hscript.
  rewrite <- Hformatted in Htruthy |- *.
  cbn [dedupe_formatted]. rewrite Htruthy. cbn [negb]. cbv zeta.
  destruct (mem_string (author_key n) seenKeys) eqn:Hkey.
  - apply mem_string_In in Hkey.
    destruct (Hcov _ Hkey) as [f' [r' [Heq [Hbar' Hin]]]].
    unfold author_key in Heq.
    rewrite <- (key_decides_formatted _ _ _ _ Hbar Hbar' Heq) in Hin.
    apply mem_string_In in Hin. rewrite Hin.
    apply IH. exact Hcov.
  - cbn [List.map dedupe_formatted]. rewrite Hrender, Htruthy. cbn [negb]. cbv zeta.
    destruct (mem_string (Str.toLowerCase (Structured.formattedApa n)) seenFormatted)
      eqn:Hseen.
    + apply IH. apply keys_covered_add; [exact Hcov|exact Hbar|].
      apply mem_string_In. exact Hseen.
    + f_equal. apply IH. apply keys_covered_add.
      * apply keys_covered_more. exact Hcov.
      * exact Hbar.
      * left. reflexivity.
Qed.

(** C9, as stated, fails: the script takes the last word for the surname,
    the later copy keeps the particle with it. *)
Lemma copies_disagree_on_particle :
  ScriptAuthors.formatApaAuthors ["Ludwig van Beethoven"] = "Beethoven, L. V."
  /\ Structured.formatApaAuthors ["Ludwig van Beethoven"] = "van Beethoven, L."
  /\ ~ copies_agree ["Ludwig van Beethoven"].
Proof.
  split; [vm_compute; reflexivity|].
  split; [vm_compute; reflexivity|].
  unfold copies_agree. vm_compute. discriminate.
Qed.

(** C9, amended.  The two copies return the same string on every list of
    personal names written given names first: names that, once the
    honorifics are stripped, hold no comma and no corporate term and are
    made of two or more words without commas or semicolons, where the last
    word is no generational suffix, holds no vertical bar and does not
    follow a family particle, and where no given name holds an apostrophe
    or hyphens without a letter. *)
Theorem copies_agree_on_plain_names :
  forall authors,
    Forall plain_name authors ->
    Structured.formatApaAuthors authors = ScriptAuthors.formatApaAuthors authors.
Proof.
  intros authors Hplain.
  unfold Structured.formatApaAuthors, ScriptAuthors.formatApaAuthors,
    Structured.formatApaAuthorsFromStructured, Structured.parseAuthorList.
  f_equal.
  assert (H := parsed_list_formats_alike authors Hplain [] []
                 (fun k (Hk : In k []) => match Hk with end)).
  destruct (Structured.parse_list authors Structured.NO_OPTIONS []) as [parsed warnings].
  exact H.
Qed.

(** C9, amended, at a list of three names, two of which differ by case only. *)
Lemma copies_agree_on_plain_names_witness :
  Structured.formatApaAuthors ["Jane Q. Smith"; "Dr. Jean-Paul Sartre"; "jane q. smith"]
  = ScriptAuthors.formatApaAuthors
      ["Jane Q. Smith"; "Dr. Jean-Paul Sartre"; "jane q. smith"].
Proof.
  apply (copies_agree_on_plain_names
           ["Jane Q. Smith"; "Dr. Jean-Paul Sartre"; "jane q. smith"]).
  repeat constructor.
  - exists ["Jane"; "Q."], "Smith". unfold plain_author.
    repeat split; try discriminate; try (vm_compute; reflexivity);
      repeat constructor; try discriminate.
  - exists ["Jean-Paul"], "Sartre". unfold plain_author.
    repeat split; try discriminate; try (vm_compute; reflexivity);
      repeat constructor; try discriminate.
  - exists ["jane"; "q."], "smith". unfold plain_author.
    repeat split; try discriminate; try (vm_compute; reflexivity);
      repeat constructor; try discriminate.
Defined.

(** ** The matcher accepts only what the pattern describes *)

Lemma last_or_empty : forall prev, last_or prev "" = prev.
Proof. reflexivity. Qed.

Lemma last_or_app :
  forall prev a b, last_or (last_or prev a) b = last_or prev (a ++ b).
Proof.
  intros prev a b. unfold last_or. destruct b as [|c b].
  - cbn [Str.last_char]. rewrite app_empty_r.
    destruct (Str.last_char a); reflexivity.
  - rewrite last_char_app. destruct (last_char_defined c b) as [z ->]. reflexivity.
Qed.

Section Soundness.
Variable R : Type.

Definition sound_at (r : re) : Prop :=
  forall prev s cap (k : Re.cont R) x,
    Re.run r prev s cap k = Some x ->
    exists m s1 c1,
      s = m ++ s1 /\ accepts r prev m s1 /\ k (last_or prev m) s1 c1 = Some x.

Lemma orelse_inv :
  forall (a : option R) b x,
    Re.orelse a b = Some x -> a = Some x \/ (a = None /\ b tt = Some x).
Proof. intros [y|] b x H; cbn in H; [left; exact H|right; split; [reflexivity|exact H]]. Qed.

Lemma star_loop_sound :
  forall a, sound_at a ->
    forall fuel prev s cap (k : Re.cont R) x,
      Re.star_loop (Re.run a) k fuel prev s cap = Some x ->
      exists n m s1 c1,
        s = m ++ s1 /\ iterated (accepts a) n prev m s1
        /\ k (last_or prev m) s1 c1 = Some x.
Proof.
  intros a Ha. induction fuel as [|fuel IH]; intros prev s cap k x H.
  - exists 0, "", s, cap. repeat split; [constructor|exact H].
  - rewrite star_loop_step in H. apply orelse_inv in H. destruct H as [H|[_ H]].
    + apply Ha in H. destruct H as [m1 [s1 [c1 [Hs [Hm1 Hk]]]]].
      destruct (Re.shorter s1 s); [|discriminate Hk].
      apply IH in Hk. destruct Hk as [n [m2 [s2 [c2 [Hs1 [Hit Hk]]]]]].
      exists (S n), (m1 ++ m2), s2, c2. subst s1.
      split; [rewrite app_assoc_s; exact Hs|].
      split; [constructor; assumption|].
      rewrite <- last_or_app. exact Hk.
    + exists 0, "", s, cap. repeat split; [constructor|exact H].
Qed.

Lemma lazy_loop_sound :
  forall a, sound_at a ->
    forall fuel prev s cap (k : Re.cont R) x,
      Re.lazy_loop (Re.run a) k fuel prev s cap = Some x ->
      exists n m s1 c1,
        s = m ++ s1 /\ iterated (accepts a) n prev m s1
        /\ k (last_or prev m) s1 c1 = Some x.
Proof.
  intros a Ha. induction fuel as [|fuel IH]; intros prev s cap k x H.
  - exists 0, "", s, cap. repeat split; [constructor|exact H].
  - cbn [Re.lazy_loop] in H. apply orelse_inv in H. destruct H as [H|[_ H]].
    + exists 0, "", s, cap. repeat split; [constructor|exact H].
    + apply Ha in H. destruct H as [m1 [s1 [c1 [Hs [Hm1 Hk]]]]].
      destruct (Re.shorter s1 s); [|discriminate Hk].
      apply IH in Hk. destruct Hk as [n [m2 [s2 [c2 [Hs1 [Hit Hk]]]]]].
      exists (S n), (m1 ++ m2), s2, c2. subst s1.
      split; [rewrite app_assoc_s; exact Hs|].
      split; [constructor; assumption|].
      rewrite <- last_or_app. exact Hk.
Qed.

Lemma rep_loop_sound :
  forall a, sound_at a ->
    forall hi lo prev s cap (k : Re.cont R) x,
      Re.rep_loop (Re.run a) k lo hi prev s cap = Some x ->
      exists n m s1 c1,
        Nat.min lo hi <= n <= hi /\ s = m ++ s1
        /\ iterated (accepts a) n prev m s1
        /\ k (last_or prev m) s1 c1 = Some x.
Proof.
  intros a Ha. induction hi as [|hi IH]; intros lo prev s cap k x H.
  - exists 0, "", s, cap. repeat split; [lia|lia|constructor|exact H].
  - rewrite rep_loop_step in H. apply orelse_inv in H. destruct H as [H|[_ H]].
    + apply Ha in H. destruct H as [m1 [s1 [c1 [Hs [Hm1 Hk]]]]].
      apply IH in Hk. destruct Hk as [n [m2 [s2 [c2 [Hn [Hs1 [Hit Hk]]]]]]].
      exists (S n), (m1 ++ m2), s2, c2. subst s1.
      split; [lia|].
      split; [rewrite app_assoc_s; exact Hs|].
      split; [constructor; assumption|].
      rewrite <- last_or_app. exact Hk.
    + destruct lo as [|lo]; [|discriminate H].
      exists 0, "", s, cap. repeat split; [lia|lia|constructor|exact H].
Qed.

Lemma run_sound : forall r, sound_at r.
Proof.
  induction r as [|p|a IHa b IHb|a IHa b IHb|a IHa|a IHa|lo hi a IHa|a IHa| | |];
    intros prev s cap k x H.
  - exists "", s, cap. repeat split. exact H.
  - cbn [Re.run] in H. destruct s as [|c s]; [discriminate H|].
    destruct (p c) eqn:Hc; [|discriminate H].
    exists (String c ""), s, cap. split; [reflexivity|].
    split; [exists c; split; [reflexivity|exact Hc]|exact H].
  - rewrite run_seq in H. apply IHa in H.
    destruct H as [m1 [s1 [c1 [Hs [Hm1 H]]]]].
    apply IHb in H. destruct H as [m2 [s2 [c2 [Hs1 [Hm2 H]]]]].
    exists (m1 ++ m2), s2, c2. subst s1.
    split; [rewrite app_assoc_s; exact Hs|].
    split; [exists m1, m2; repeat split; assumption|].
    rewrite <- last_or_app. exact H.
  - cbn [Re.run] in H. apply orelse_inv in H. destruct H as [H|[_ H]].
    + apply IHa in H. destruct H as [m [s1 [c1 [Hs [Hm H]]]]].
      exists m, s1, c1. repeat split; [exact Hs|left; exact Hm|exact H].
    + apply IHb in H. destruct H as [m [s1 [c1 [Hs [Hm H]]]]].
      exists m, s1, c1. repeat split; [exact Hs|right; exact Hm|exact H].
  - rewrite run_star in H. apply (star_loop_sound a IHa) in H.
    destruct H as [n [m [s1 [c1 [Hs [Hit H]]]]]].
    exists m, s1, c1. repeat split; [exact Hs|exists n; exact Hit|exact H].
  - cbn [Re.run] in H. apply (lazy_loop_sound a IHa) in H.
    destruct H as [n [m [s1 [c1 [Hs [Hit H]]]]]].
    exists m, s1, c1. repeat split; [exact Hs|exists n; exact Hit|exact H].
  - rewrite run_rep in H. apply (rep_loop_sound a IHa) in H.
    destruct H as [n [m [s1 [c1 [Hn [Hs [Hit H]]]]]]].
    exists m, s1, c1. repeat split; [exact Hs|exists n; split; assumption|exact H].
  - cbn [Re.run] in H. apply IHa in H.
    destruct H as [m [s1 [c1 [Hs [Hm H]]]]].
    exists m, s1, (Some (Str.take (String.length s - String.length s1) s)).
    repeat split; [exact Hs|exact Hm|exact H].
  - cbn [Re.run] in H. destruct prev; [discriminate H|].
    exists "", s, cap. repeat split. exact H.
  - cbn [Re.run] in H. destruct s; [|discriminate H].
    exists "", "", cap. repeat split. exact H.
  - cbn [Re.run] in H.
    destruct (xorb (Re.is_word prev) (Re.is_word (Re.head s))) eqn:Hw;
      [|discriminate H].
    exists "", s, cap. repeat split; [exact Hw|exact H].
Qed.
End Soundness.

(** A match at the current position, and the leftmost match: the consumed
    text is accepted by the pattern where it stands. *)
Lemma at_pos_sound :
  forall r prev s m rest c,
    Re.at_pos r prev s = Some (m, rest, c) ->
    s = m ++ rest /\ accepts r prev m rest.
Proof.
  intros r prev s m rest c H. unfold Re.at_pos in H.
  destruct (Re.run r prev s None (fun _ s1 c1 => Some (s1, c1)))
    as [[s1 c1]|] eqn:Hrun; [|discriminate H].
  apply run_sound in Hrun. destruct Hrun as [m' [s1' [c1' [Hs [Hm Hk]]]]].
  injection Hk as <- <-. subst s. rewrite take_app in H.
  injection H as <- <- <-. split; [reflexivity|exact Hm].
Qed.

Lemma search_sound :
  forall r s prev pre h,
    Re.search_from r prev s pre = Some h ->
    exists skipped,
      s = skipped ++ Re.matched h ++ Re.after h
      /\ Re.before h = Str.rev pre ++ skipped
      /\ accepts r (last_or prev skipped) (Re.matched h) (Re.after h).
Proof.
  intros r. induction s as [|c s IH]; intros prev pre h H.
  - cbn [Re.search_from] in H.
    destruct (Re.at_pos r prev "") as [[[m rest] cap]|] eqn:Hat; [|discriminate H].
    injection H as <-. apply at_pos_sound in Hat. destruct Hat as [Hs Hm].
    exists "". cbn [Re.matched Re.after Re.before].
    repeat split; [exact Hs|rewrite app_empty_r; reflexivity|exact Hm].
  - cbn [Re.search_from] in H.
    destruct (Re.at_pos r prev (String c s)) as [[[m rest] cap]|] eqn:Hat.
    + injection H as <-. apply at_pos_sound in Hat. destruct Hat as [Hs Hm].
      exists "". cbn [Re.matched Re.after Re.before].
      repeat split; [exact Hs|rewrite app_empty_r; reflexivity|exact Hm].
    + apply IH in H. destruct H as [skipped [Hs [Hb Hm]]].
      exists (String c skipped). split; [cbn; rewrite <- Hs; reflexivity|].
      split.
      * rewrite Hb. rewrite rev_cons. rewrite app_assoc_s. reflexivity.
      * rewrite <- (last_or_cons prev). exact Hm.
Qed.

Lemma exec_sound :
  forall r s h,
    Re.exec r s = Some h ->
    s = Re.before h ++ Re.matched h ++ Re.after h
    /\ accepts r (last_or None (Re.before h)) (Re.matched h) (Re.after h).
Proof.
  intros r s h H. unfold Re.exec in H. apply search_sound in H.
  destruct H as [skipped [Hs [Hb Hm]]]. cbn in Hb. subst skipped.
  split; assumption.
Qed.

(** *** What the usual building blocks accept *)

Lemma iterated_class :
  forall p n prev m rest,
    iterated (accepts (Chr p)) n prev m rest ->
    Str.forallb p m = true /\ String.length m = n.
Proof.
  intros p n prev m rest H. induction H as [|n prev m1 m2 rest [c [-> Hc]] _ [IH1 IH2]].
  - split; reflexivity.
  - cbn. rewrite Hc, IH1, IH2. split; reflexivity.
Qed.

Lemma accepts_star_class :
  forall p prev m rest,
    accepts (Star (Chr p)) prev m rest -> Str.forallb p m = true.
Proof. intros p prev m rest [n H]. exact (proj1 (iterated_class p n prev m rest H)). Qed.

Lemma accepts_plus_class :
  forall p prev m rest,
    accepts (Plus (Chr p)) prev m rest -> Str.forallb p m = true /\ m <> "".
Proof.
  intros p prev m rest [m1 [m2 [-> [[c [-> Hc]] H]]]].
  apply accepts_star_class in H. cbn. rewrite Hc, H. split; [reflexivity|discriminate].
Qed.

Lemma accepts_rep_class :
  forall p lo hi prev m rest,
    accepts (Rep lo hi (Chr p)) prev m rest ->
    Str.forallb p m = true /\ Nat.min lo hi <= String.length m <= hi.
Proof.
  intros p lo hi prev m rest [n [Hn H]].
  destruct (iterated_class p n prev m rest H) as [Hall Hlen].
  rewrite Hlen. split; assumption.
Qed.

Lemma accepts_lit :
  forall s prev m rest, accepts (lit s) prev m rest -> m = s.
Proof.
  induction s as [|d s IH]; intros prev m rest H.
  - exact H.
  - destruct s as [|e s].
    + destruct H as [c [-> Hc]]. unfold Char.eq in Hc.
      apply Ascii.eqb_eq in Hc. subst c. reflexivity.
    + destruct H as [m1 [m2 [-> [[c [-> Hc]] H]]]].
      unfold Char.eq in Hc. apply Ascii.eqb_eq in Hc. subst c.
      apply IH in H. subst m2. reflexivity.
Qed.

(** Under the [i] flag the accepted text is the literal up to letter case. *)
Lemma ci_lower : forall d c, Char.ci d c = true -> Char.to_lower c = Char.to_lower d.
Proof.
  intros d c H. unfold Char.ci in H. apply andb_true_iff in H. destruct H as [H _].
  apply Ascii.eqb_eq in H. symmetry. exact H.
Qed.

Lemma accepts_liti :
  forall s prev m rest,
    accepts (liti s) prev m rest -> Str.toLowerCase m = Str.toLowerCase s.
Proof.
  induction s as [|d s IH]; intros prev m rest H.
  - cbn in H. subst m. reflexivity.
  - destruct s as [|e s].
    + destruct H as [c [-> Hc]]. cbn. rewrite (ci_lower d c Hc). reflexivity.
    + destruct H as [m1 [m2 [-> [[c [-> Hc]] H]]]].
      apply IH in H. unfold Str.toLowerCase in *.
      cbn [String.append Str.map]. rewrite (ci_lower d c Hc). f_equal. exact H.
Qed.

Lemma ci_exact :
  forall d c, Char.alpha d = false -> Char.ci d c = true -> c = d.
Proof.
  intros d c Hd H. unfold Char.ci in H. rewrite Hd in H. cbn [orb] in H.
  apply andb_true_iff in H. destruct H as [_ H]. apply Ascii.eqb_eq in H.
  symmetry. exact H.
Qed.

Lemma accepts_liti_exact :
  forall s prev m rest,
    Str.existsb Char.alpha s = false ->
    accepts (liti s) prev m rest -> m = s.
Proof.
  induction s as [|d s IH]; intros prev m rest Hs H.
  - exact H.
  - cbn [Str.existsb] in Hs. apply orb_false_iff in Hs. destruct Hs as [Hd Hs].
    destruct s as [|e s].
    + destruct H as [c [-> Hc]]. rewrite (ci_exact d c Hd Hc). reflexivity.
    + destruct H as [m1 [m2 [-> [[c [-> Hc]] H]]]].
      rewrite (ci_exact d c Hd Hc). apply (IH _ _ _ Hs) in H. subst m2. reflexivity.
Qed.

(** ** parseYear *)

Lemma parseYear_cases :
  forall value,
    parseYear value = ""
    \/ exists before century c d after,
         value = before ++ parseYear value ++ after
         /\ parseYear value = century ++ String c (String d "")
         /\ (century = "19" \/ century = "20")
         /\ Char.digit c = true /\ Char.digit d = true
         /\ Re.is_word (last_or None before) = false
         /\ Re.is_word (Re.head after) = false.
Proof.
  intros value. unfold parseYear.
  destruct (Re.exec RE_YEAR value) as [h|] eqn:Hexec; [right|left; reflexivity].
  apply exec_sound in Hexec. destruct Hexec as [Hvalue Hacc].
  destruct h as [before m after g]. cbn [Re.before Re.matched Re.after] in *.
  unfold RE_YEAR in Hacc. cbn [seq] in Hacc.
  destruct Hacc as [m1 [m' [-> [[-> Hw1] Hacc]]]].
  cbn [String.append] in *. rewrite last_or_empty in Hacc.
  destruct Hacc as [century [m'' [-> [Hcentury Hacc]]]].
  destruct Hacc as [digits [m3 [-> [Hdigits [-> Hw2]]]]].
  rewrite app_empty_r in *.
  apply accepts_rep_class in Hdigits. destruct Hdigits as [Hall Hlen].
  cbn [Nat.min] in Hlen.
  destruct digits as [|c [|d [|e digits]]]; cbn [String.length] in Hlen; try lia.
  cbn [Str.forallb] in Hall. apply andb_true_iff in Hall. destruct Hall as [Hc Hall].
  apply andb_true_iff in Hall. destruct Hall as [Hd _].
  assert (Hcent : century = "19" \/ century = "20").
  { destruct Hcentury as [H|H]; apply accepts_lit in H; [left|right]; exact H. }
  exists before, century, c, d, after.
  split; [exact Hvalue|]. split; [reflexivity|]. split; [exact Hcent|].
  split; [exact Hc|]. split; [exact Hd|].
  split.
  - assert (Hh : Re.is_word (Re.head ((century ++ String c (String d "")) ++ after))
                 = true)
      by (destruct Hcent as [-> | ->]; reflexivity).
    rewrite Hh in Hw1. destruct (Re.is_word (last_or None before)); [discriminate Hw1|].
    reflexivity.
  - assert (Hl : Re.is_word (last_or (last_or (last_or None before) century)
                               (String c (String d ""))) = true).
    { unfold last_or at 1. cbn [Str.last_char Re.is_word].
      unfold Char.word, Char.alnum. rewrite Hd. rewrite orb_true_r. reflexivity. }
    rewrite Hl in Hw2. destruct (Re.is_word (Re.head after)); [discriminate Hw2|].
    reflexivity.
Qed.

(** [parseYear] returns the empty string or a year that stands in the value:
    [19] or [20] and two digits, with no word character on either side. *)
Theorem parseYear_shape :
  forall value,
    parseYear value = ""
    \/ exists before century c d after,
         value = before ++ parseYear value ++ after
         /\ parseYear value = century ++ String c (String d "")
         /\ (century = "19" \/ century = "20")
         /\ Char.digit c = true /\ Char.digit d = true
         /\ Re.is_word (last_or None before) = false
         /\ Re.is_word (Re.head after) = false.
Proof. exact parseYear_cases. Qed.

(** ** The shape of a normalized DOI *)

Lemma accepts_RE_DOI :
  forall prev m rest,
    accepts RE_DOI prev m rest ->
    exists registrant suffix,
      m = doi_token registrant suffix
      /\ 4 <= String.length registrant <= 9
      /\ Str.forallb Char.digit registrant = true
      /\ Str.forallb doi_char suffix = true
      /\ suffix <> "".
Proof.
  intros prev m rest H. unfold RE_DOI in H. cbn [seq] in H.
  destruct H as [m1 [m' [-> [H1 H]]]].
  destruct H as [registrant [m'' [-> [H2 H]]]].
  destruct H as [m3 [suffix [-> [H3 H4]]]].
  apply accepts_liti_exact in H1; [|reflexivity]. subst m1.
  apply accepts_rep_class in H2. destruct H2 as [Hdigits Hlen].
  apply accepts_liti_exact in H3; [|reflexivity]. subst m3.
  apply accepts_plus_class in H4. destruct H4 as [Hchars Hne].
  exists registrant, suffix. unfold doi_token.
  repeat split; try assumption; cbn [Nat.min] in Hlen; lia.
Qed.

Lemma all_of_none :
  forall (p : ascii -> bool) s,
    Str.existsb (fun c => negb (p c)) s = false -> Str.forallb p s = true.
Proof.
  intros p. induction s as [|c s IH]; [reflexivity|].
  cbn. intros H. apply orb_false_iff in H. destruct H as [Hc Hs].
  apply negb_false_iff in Hc. rewrite Hc, (IH Hs). reflexivity.
Qed.

(** Trimming the closing punctuation of a DOI token stops at the slash. *)
Lemma strip_trailing_token :
  forall registrant suffix,
    exists kept junk,
      suffix = kept ++ junk
      /\ Str.forallb doi_trailing junk = true
      /\ Re.replace_all RE_DOI_TRAILING "" (doi_token registrant suffix)
         = doi_token registrant kept
      /\ (kept = "" \/ exists body l, kept = body ++ String l ""
                                      /\ doi_trailing l = false).
Proof.
  intros registrant suffix.
  destruct (Str.existsb (fun c => negb (doi_trailing c)) suffix) eqn:Hsome.
  - destruct (split_at_last doi_trailing suffix Hsome)
      as [init [l [junk [-> [Hl Hjunk]]]]].
    exists (init ++ String l ""), junk.
    split; [rewrite app_assoc_s; reflexivity|].
    split; [exact Hjunk|]. split.
    + unfold doi_token. rewrite <- !app_assoc_s.
      rewrite (strip_trailing _ l junk Hl Hjunk). rewrite !app_assoc_s. reflexivity.
    + right. exists init, l. split; [reflexivity|exact Hl].
  - apply all_of_none in Hsome. exists "", suffix.
    split; [reflexivity|]. split; [exact Hsome|]. split; [|left; reflexivity].
    unfold doi_token.
    change ("10." ++ registrant ++ "/" ++ suffix)
      with ("10." ++ registrant ++ String "/" suffix).
    rewrite <- !app_assoc_s.
    rewrite (strip_trailing _ "/" suffix eq_refl Hsome).
    rewrite !app_assoc_s. reflexivity.
Qed.

(** What both DOI functions return for a match of the DOI pattern. *)
Lemma canonical_of_match :
  forall prev m rest,
    accepts RE_DOI prev m rest ->
    exists registrant kept,
      Str.toLowerCase (Re.replace_all RE_DOI_TRAILING "" m)
      = doi_token registrant kept
      /\ 4 <= String.length registrant <= 9
      /\ Str.forallb Char.digit registrant = true
      /\ Str.forallb doi_char kept = true
      /\ Str.existsb Char.upper kept = false
      /\ (kept <> "" ->
          normalizeDoi (DOI_ORG ++ doi_token registrant kept)
          = Normal (DOI_ORG ++ doi_token registrant kept)).
Proof.
  intros prev m rest H.
  destruct (accepts_RE_DOI prev m rest H)
    as [registrant [suffix [-> [Hlen [Hdigits [Hchars _]]]]]].
  destruct (strip_trailing_token registrant suffix)
    as [kept [junk [-> [_ [Hstrip Hkept]]]]].
  rewrite Hstrip. rewrite (lower_of_token registrant kept Hdigits).
  rewrite str_forallb_app in Hchars. apply andb_true_iff in Hchars.
  destruct Hchars as [Hchars _].
  assert (Hlow : Str.forallb doi_char (Str.toLowerCase kept) = true)
    by exact (forallb_map doi_char doi_char Char.to_lower kept doi_char_to_lower Hchars).
  exists registrant, (Str.toLowerCase kept).
  split; [reflexivity|]. split; [exact Hlen|]. split; [exact Hdigits|].
  split; [exact Hlow|].
  split; [exact (map_excludes Char.upper Char.to_lower kept to_lower_is_not_upper)|].
  intros Hne. destruct Hkept as [->|[body [l [-> Hl]]]]; [contradiction Hne; reflexivity|].
  assert (Hsplit : Str.toLowerCase (body ++ String l "")
                   = Str.toLowerCase body ++ String (Char.to_lower l) "")
    by (unfold Str.toLowerCase; rewrite str_map_app; reflexivity).
  rewrite Hsplit in Hlow |- *.
  rewrite (normalizeDoi_of_token DOI_ORG registrant (Str.toLowerCase body)
             (Char.to_lower l) "").
  - rewrite <- Hsplit. unfold Str.toLowerCase.
    rewrite (map_idempotent Char.to_lower _ to_lower_idempotent). reflexivity.
  - unfold DOI_PREFIXES, DOI_ORG. cbn [In]. tauto.
  - exact Hlen.
  - exact Hdigits.
  - exact Hlow.
  - apply doi_trailing_to_lower. exact Hl.
  - reflexivity.
Qed.

Lemma normalizeDoi_cases :
  forall x y,
    normalizeDoi x = Normal y ->
    y = ""
    \/ exists registrant kept,
         y = DOI_ORG ++ doi_token registrant kept
         /\ 4 <= String.length registrant <= 9
         /\ Str.forallb Char.digit registrant = true
         /\ Str.forallb doi_char kept = true
         /\ Str.existsb Char.upper kept = false
         /\ (kept <> "" -> normalizeDoi y = Normal y).
Proof.
  intros x y H. unfold normalizeDoi in H.
  destruct (negb (Str.truthy x)); [left; apply Normal_inj in H; symmetry; exact H|].
  destruct (decoded (Str.trim x)) as [raw|e]; [|discriminate H].
  cbn [bindC] in H. cbv zeta in H.
  destruct (Re.exec RE_DOI _) as [h|] eqn:Hexec;
    [|left; apply Normal_inj in H; symmetry; exact H].
  apply Normal_inj in H. subst y. right.
  apply exec_sound in Hexec. destruct Hexec as [_ Hacc].
  destruct (canonical_of_match _ _ _ Hacc)
    as [registrant [kept [Heq [Hlen [Hdigits [Hchars [Hupper Hfix]]]]]]].
  exists registrant, kept. rewrite Heq.
  split; [reflexivity|]. split; [exact Hlen|]. split; [exact Hdigits|].
  split; [exact Hchars|]. split; [exact Hupper|exact Hfix].
Qed.

(** Whatever the input, [normalizeDoi] returns the empty string or the
    canonical form: [https://doi.org/10.], four to nine digits, a slash and a
    suffix over the DOI characters without upper case letters; and unless
    that suffix is empty, the result is a fixed point of [normalizeDoi]. *)
Theorem normalizeDoi_returns_canonical :
  forall x y,
    normalizeDoi x = Normal y ->
    y = ""
    \/ exists registrant kept,
         y = DOI_ORG ++ doi_token registrant kept
         /\ 4 <= String.length registrant <= 9
         /\ Str.forallb Char.digit registrant = true
         /\ Str.forallb doi_char kept = true
         /\ Str.existsb Char.upper kept = false
         /\ (kept <> "" -> normalizeDoi y = Normal y).
Proof. exact normalizeDoi_cases. Qed.

Lemma normalizeDoi_returns_canonical_witness :
  "https://doi.org/10.5465/amj.2020.0001" = ""
  \/ exists registrant kept,
       "https://doi.org/10.5465/amj.2020.0001" = DOI_ORG ++ doi_token registrant kept
       /\ 4 <= String.length registrant <= 9
       /\ Str.forallb Char.digit registrant = true
       /\ Str.forallb doi_char kept = true
       /\ Str.existsb Char.upper kept = false
       /\ (kept <> "" ->
           normalizeDoi "https://doi.org/10.5465/amj.2020.0001"
           = Normal "https://doi.org/10.5465/amj.2020.0001").
Proof.
  apply (normalizeDoi_returns_canonical "see doi: 10.5465/AMJ.2020.0001, p. 3").
  vm_compute. reflexivity.
Defined.

(** [extractDoiFromText] never throws, and what it returns is accepted
    unchanged by [normalizeDoi], unless the DOI has lost its whole suffix. *)
Theorem extractDoiFromText_is_normalized :
  forall value,
    extractDoiFromText value = ""
    \/ (exists registrant, extractDoiFromText value = DOI_ORG ++ doi_token registrant "")
    \/ normalizeDoi (extractDoiFromText value) = Normal (extractDoiFromText value).
Proof.
  intros value. unfold extractDoiFromText.
  destruct (negb (Str.truthy value)); [left; reflexivity|].
  destruct (Re.exec RE_DOI value) as [h|] eqn:Hexec; [|left; reflexivity].
  right. apply exec_sound in Hexec. destruct Hexec as [_ Hacc].
  destruct (canonical_of_match _ _ _ Hacc)
    as [registrant [kept [Heq [_ [_ [_ [_ Hfix]]]]]]].
  rewrite Heq. destruct kept as [|c kept].
  - left. exists registrant. reflexivity.
  - right. apply Hfix. discriminate.
Qed.

(** ** cleanText *)

(** *** [replace(/[class]+/g, by)] *)

Section ReplaceRuns.
Variable p : ascii -> bool.
Variable by_ : string.

Lemma at_pos_plus_run :
  forall c run_ rest prev,
    p c = true -> Str.forallb p run_ = true -> stops p rest ->
    Re.at_pos (Plus (Chr p)) prev (String c run_ ++ rest)
    = Some (String c run_, rest, None).
Proof.
  intros c run_ rest prev Hc Hrun Hstop. unfold Re.at_pos, Plus.
  rewrite run_seq. cbn [String.append]. rewrite (run_class_hit _ p _ _ _ _ _ Hc).
  rewrite run_star.
  rewrite (star_over_class _ p _ run_ rest (rest, None) _ (Some c) None Hrun Hstop
             (le_n _) eq_refl).
  change (String c (run_ ++ rest)) with (String c run_ ++ rest).
  rewrite take_app. reflexivity.
Qed.

Lemma at_pos_plus_miss :
  forall c s prev, p c = false -> Re.at_pos (Plus (Chr p)) prev (String c s) = None.
Proof. intros c s prev Hc. unfold Re.at_pos. cbn. rewrite Hc. reflexivity. Qed.

Lemma search_plus :
  forall skip c run_ rest prev pre,
    Str.existsb p skip = false ->
    p c = true -> Str.forallb p run_ = true -> stops p rest ->
    Re.search_from (Plus (Chr p)) prev (skip ++ String c run_ ++ rest) pre
    = Some (Re.Hit (Str.rev pre ++ skip) (String c run_) rest None).
Proof.
  induction skip as [|d skip IH]; intros c run_ rest prev pre Hskip Hc Hrun Hstop.
  - cbn [String.append]. rewrite app_empty_r.
    apply search_hit_here.
    exact (at_pos_plus_run c run_ rest prev Hc Hrun Hstop).
  - cbn [Str.existsb] in Hskip. apply orb_false_iff in Hskip. destruct Hskip as [Hd Hskip].
    cbn [String.append].
    rewrite search_miss_here by (apply at_pos_plus_miss; exact Hd).
    change (String c (run_ ++ rest)) with (String c run_ ++ rest).
    rewrite (IH c run_ rest (Some d) (String d pre) Hskip Hc Hrun Hstop).
    rewrite rev_cons, app_assoc_s. reflexivity.
Qed.

(** A text holds no code unit of the class, or a first run of it. *)
Lemma first_run :
  forall s,
    Str.existsb p s = false
    \/ exists skip c run_ rest,
         s = skip ++ String c run_ ++ rest
         /\ Str.existsb p skip = false
         /\ p c = true /\ Str.forallb p run_ = true /\ stops p rest.
Proof.
  induction s as [|c s IH]; [left; reflexivity|].
  destruct (p c) eqn:Hc.
  - right. clear IH.
    assert (Hrun : exists run_ rest,
               s = run_ ++ rest /\ Str.forallb p run_ = true /\ stops p rest).
    { clear c Hc. induction s as [|d s IH].
      - exists "", "". repeat split.
      - destruct (p d) eqn:Hd.
        + destruct IH as [run_ [rest [-> [Hrun Hstop]]]].
          exists (String d run_), rest. cbn. rewrite Hd, Hrun. repeat split. exact Hstop.
        + exists "", (String d s). repeat split. exact Hd. }
    destruct Hrun as [run_ [rest [-> [Hrun Hstop]]]].
    exists "", c, run_, rest. repeat split; assumption.
  - destruct IH as [IH|[skip [d [run_ [rest [-> [Hskip [Hd [Hrun Hstop]]]]]]]]].
    + left. cbn. rewrite Hc, IH. reflexivity.
    + right. exists (String c skip), d, run_, rest.
      split; [reflexivity|]. split; [cbn; rewrite Hc, Hskip; reflexivity|].
      repeat split; assumption.
Qed.

Lemma squeeze_free :
  forall s, Str.existsb p s = false -> squeeze p by_ false s = s.
Proof.
  induction s as [|c s IH]; [reflexivity|].
  cbn. intros H. apply orb_false_iff in H. destruct H as [Hc Hs].
  rewrite Hc, (IH Hs). reflexivity.
Qed.

Lemma squeeze_skip :
  forall skip x,
    Str.existsb p skip = false ->
    squeeze p by_ false (skip ++ x) = skip ++ squeeze p by_ false x.
Proof.
  induction skip as [|c skip IH]; intros x H; [reflexivity|].
  cbn [Str.existsb] in H. apply orb_false_iff in H. destruct H as [Hc Hs].
  cbn [String.append squeeze]. rewrite Hc, (IH x Hs). reflexivity.
Qed.

Lemma squeeze_in_run :
  forall run_ rest,
    Str.forallb p run_ = true -> stops p rest ->
    squeeze p by_ true (run_ ++ rest) = squeeze p by_ false rest.
Proof.
  induction run_ as [|c run_ IH]; intros rest Hrun Hstop.
  - cbn [String.append]. destruct rest as [|d rest]; [reflexivity|].
    cbn in Hstop. cbn [squeeze]. rewrite Hstop. reflexivity.
  - cbn [Str.forallb] in Hrun. apply andb_true_iff in Hrun. destruct Hrun as [Hc Hrun].
    cbn [String.append squeeze]. rewrite Hc. exact (IH rest Hrun Hstop).
Qed.

Lemma replace_all_from_squeeze :
  forall fuel s prev,
    String.length s < fuel ->
    Re.replace_all_from fuel (Plus (Chr p)) (fun _ => by_) prev s
    = squeeze p by_ false s.
Proof.
  induction fuel as [|fuel IH]; intros s prev Hfuel; [lia|].
  cbn [Re.replace_all_from].
  destruct (first_run s) as [Hfree|[skip [c [run_ [rest [-> [Hskip [Hc [Hrun Hstop]]]]]]]]].
  - rewrite (search_misses (Plus (Chr p)) (fun t => Str.existsb p t = false)
               (free_tail p) (fun prev0 t Ht => plus_misses p prev0 t Ht)
               s prev "" Hfree).
    symmetry. apply squeeze_free. exact Hfree.
  - rewrite (search_plus skip c run_ rest prev "" Hskip Hc Hrun Hstop).
    cbn [Re.matched Re.after Re.before Str.rev Str.rev_onto String.append].
    rewrite IH.
    + rewrite (squeeze_skip skip _ Hskip). cbn [String.append squeeze]. rewrite Hc.
      rewrite (squeeze_in_run run_ rest Hrun Hstop). reflexivity.
    + rewrite str_length_app in Hfuel. cbn [String.append String.length] in Hfuel.
      rewrite str_length_app in Hfuel. lia.
Qed.

(** [s.replace(/[class]+/g, by)] replaces every maximal run of the class. *)
Lemma replace_all_runs :
  forall s, Re.replace_all (Plus (Chr p)) by_ s = squeeze p by_ false s.
Proof.
  intros s. unfold Re.replace_all, Re.replace_all_with.
  apply replace_all_from_squeeze. lia.
Qed.
End ReplaceRuns.

(** *** Trimming *)

Lemma drop_while_all :
  forall (p : ascii -> bool) a b,
    Str.forallb p a = true -> Str.drop_while p (a ++ b) = Str.drop_while p b.
Proof.
  intros p. induction a as [|c a IH]; intros b H; [reflexivity|].
  cbn [Str.forallb] in H. apply andb_true_iff in H. destruct H as [Hc Ha].
  cbn [String.append Str.drop_while]. rewrite Hc. exact (IH b Ha).
Qed.

Lemma drop_while_some :
  forall (p : ascii -> bool) a b,
    Str.forallb p a = false ->
    Str.drop_while p (a ++ b) = Str.drop_while p a ++ b.
Proof.
  intros p. induction a as [|c a IH]; intros b H; [discriminate H|].
  cbn [Str.forallb] in H. cbn [String.append Str.drop_while].
  destruct (p c); [|reflexivity]. cbn [andb] in H. exact (IH b H).
Qed.

Lemma forallb_rev :
  forall (p : ascii -> bool) s, Str.forallb p (Str.rev s) = Str.forallb p s.
Proof.
  intros p. induction s as [|c s IH]; [reflexivity|].
  rewrite rev_cons, str_forallb_app, IH. cbn. rewrite andb_true_r. apply andb_comm.
Qed.

(** [trimEnd], read from the front. *)
Lemma trimEnd_cons :
  forall c s,
    Str.trimEnd (String c s)
    = if Str.forallb Char.space s
      then (if Char.space c then "" else String c "")
      else String c (Str.trimEnd s).
Proof.
  intros c s. unfold Str.trimEnd. rewrite rev_cons.
  destruct (Str.forallb Char.space s) eqn:Hs.
  - rewrite drop_while_all by (rewrite forallb_rev; exact Hs).
    cbn [Str.drop_while]. destruct (Char.space c); reflexivity.
  - rewrite drop_while_some by (rewrite forallb_rev; exact Hs).
    rewrite str_rev_app. reflexivity.
Qed.

Lemma trimEnd_empty_iff :
  forall s, Str.trimEnd s = "" <-> Str.forallb Char.space s = true.
Proof.
  induction s as [|c s IH]; [split; reflexivity|].
  rewrite trimEnd_cons. cbn [Str.forallb].
  destruct (Str.forallb Char.space s); destruct (Char.space c); cbn;
    split; intros H; try reflexivity; discriminate H.
Qed.

Lemma trimEnd_head :
  forall c s,
    Char.space c = false -> exists t, Str.trimEnd (String c s) = String c t.
Proof.
  intros c s Hc. rewrite trimEnd_cons, Hc.
  destruct (Str.forallb Char.space s); eexists; reflexivity.
Qed.

Lemma drop_while_stops :
  forall (p : ascii -> bool) s, stops p (Str.drop_while p s).
Proof.
  intros p. induction s as [|c s IH]; [exact I|].
  cbn [Str.drop_while]. destruct (p c) eqn:Hc; [exact IH|exact Hc].
Qed.

Lemma forallb_drop_while :
  forall (p : ascii -> bool) s,
    Str.forallb p (Str.drop_while p s) = Str.forallb p s.
Proof.
  intros p. induction s as [|c s IH]; [reflexivity|].
  cbn [Str.drop_while Str.forallb]. destruct (p c) eqn:Hc; [exact IH|].
  cbn. rewrite Hc. reflexivity.
Qed.

Lemma trim_empty_iff :
  forall s, Str.trim s = "" <-> Str.forallb Char.space s = true.
Proof.
  intros s. unfold Str.trim, Str.trimStart.
  rewrite trimEnd_empty_iff, forallb_drop_while. reflexivity.
Qed.

(** *** The shape of a cleaned text *)

Lemma squeeze_loosely_spaced :
  forall s in_run,
    loosely_spaced (squeeze Char.space " " in_run s) = true
    /\ stops Char.space (squeeze Char.space " " true s).
Proof.
  induction s as [|c s IH]; intros in_run; [split; [reflexivity|exact I]|].
  destruct (IH true) as [Htrue Hstop]. destruct (IH false) as [Hfalse _].
  cbn [squeeze]. destruct (Char.space c) eqn:Hc.
  - split; [|exact Hstop]. destruct in_run; [exact Htrue|].
    cbn [String.append loosely_spaced].
    change (Char.space " ") with true. cbn [Ascii.eqb Bool.eqb andb].
    rewrite Htrue. destruct (squeeze Char.space " " true s); [reflexivity|].
    cbn in Hstop. rewrite Hstop. reflexivity.
  - split; [|exact Hc]. cbn [loosely_spaced]. rewrite Hc. exact Hfalse.
Qed.

Lemma loosely_spaced_tail :
  forall c s, loosely_spaced (String c s) = true -> loosely_spaced s = true.
Proof. intros c s H. cbn in H. apply andb_true_iff in H. apply H. Qed.

Lemma loosely_spaced_drop_while :
  forall s, loosely_spaced s = true ->
            loosely_spaced (Str.drop_while Char.space s) = true.
Proof.
  induction s as [|c s IH]; intros H; [reflexivity|].
  cbn [Str.drop_while]. destruct (Char.space c); [|exact H].
  apply IH. exact (loosely_spaced_tail c s H).
Qed.

Lemma single_spaced_trimEnd :
  forall s, loosely_spaced s = true -> single_spaced (Str.trimEnd s) = true.
Proof.
  induction s as [|c s IH]; intros H; [reflexivity|].
  assert (Hs := loosely_spaced_tail c s H).
  rewrite trimEnd_cons. destruct (Str.forallb Char.space s) eqn:Hall.
  - destruct (Char.space c) eqn:Hc; [reflexivity|]. cbn. rewrite Hc. reflexivity.
  - cbn [single_spaced]. rewrite (IH Hs), andb_true_r.
    destruct (Char.space c) eqn:Hc; [|reflexivity].
    cbn [loosely_spaced] in H. rewrite Hc in H.
    apply andb_true_iff in H. destruct H as [H _].
    apply andb_true_iff in H. destruct H as [Heq Hnext].
    rewrite Heq. destruct s as [|d s]; [discriminate Hall|].
    apply negb_true_iff in Hnext.
    destruct (trimEnd_head d s Hnext) as [t ->]. rewrite Hnext. reflexivity.
Qed.

Lemma tidy_trim :
  forall u, loosely_spaced u = true -> tidy (Str.trim u) = true.
Proof.
  intros u Hu. unfold Str.trim, Str.trimStart.
  assert (Ha := loosely_spaced_drop_while u Hu).
  assert (Hstop := drop_while_stops Char.space u).
  destruct (Str.drop_while Char.space u) as [|c a]; [reflexivity|].
  cbn in Hstop. assert (Hss := single_spaced_trimEnd _ Ha).
  destruct (trimEnd_head c a Hstop) as [t Ht]. rewrite Ht in Hss |- *.
  unfold tidy. rewrite Hstop, Hss. reflexivity.
Qed.

Lemma cleanText_squeeze :
  forall s, cleanText s = Str.trim (squeeze Char.space " " false s).
Proof. intros s. unfold cleanText, ws. rewrite replace_all_runs. reflexivity. Qed.

(** [cleanText] returns a tidy text. *)
Lemma cleanText_tidy : forall s, tidy (cleanText s) = true.
Proof.
  intros s. rewrite cleanText_squeeze. apply tidy_trim.
  exact (proj1 (squeeze_loosely_spaced s false)).
Qed.

Lemma single_spaced_loosely :
  forall s, single_spaced s = true -> loosely_spaced s = true.
Proof.
  induction s as [|c s IH]; [reflexivity|].
  cbn [single_spaced loosely_spaced]. intros H.
  apply andb_true_iff in H. destruct H as [Hc Hs]. rewrite (IH Hs), andb_true_r.
  destruct (Char.space c); [|reflexivity].
  apply andb_true_iff in Hc. destruct Hc as [-> Hnext].
  destruct s; [discriminate Hnext|exact Hnext].
Qed.

Lemma squeeze_fixes_loosely_spaced :
  forall s, loosely_spaced s = true -> squeeze Char.space " " false s = s.
Proof.
  induction s as [|c s IH]; intros H; [reflexivity|].
  assert (Hs := loosely_spaced_tail c s H).
  cbn [squeeze]. cbn [loosely_spaced] in H.
  destruct (Char.space c) eqn:Hc; [|rewrite (IH Hs); reflexivity].
  apply andb_true_iff in H. destruct H as [H _].
  apply andb_true_iff in H. destruct H as [Heq Hnext].
  apply Ascii.eqb_eq in Heq. subst c. cbn [String.append]. f_equal.
  destruct s as [|d s]; [reflexivity|].
  apply negb_true_iff in Hnext. cbn [squeeze]. rewrite Hnext.
  specialize (IH Hs). cbn [squeeze] in IH. rewrite Hnext in IH. exact IH.
Qed.

Lemma single_spaced_last :
  forall s z,
    single_spaced s = true -> Str.last_char s = Some z -> Char.space z = false.
Proof.
  induction s as [|c s IH]; intros z H Hz; [discriminate Hz|].
  cbn [single_spaced] in H. apply andb_true_iff in H. destruct H as [Hc Hs].
  destruct s as [|d s].
  - cbn in Hz. injection Hz as <-.
    destruct (Char.space c); [|reflexivity].
    apply andb_true_iff in Hc. destruct Hc as [_ Hc]. discriminate Hc.
  - apply (IH z Hs). exact Hz.
Qed.

(** [cleanText] leaves a tidy text as it is. *)
Lemma cleanText_fixes_tidy : forall t, tidy t = true -> cleanText t = t.
Proof.
  intros t Ht. rewrite cleanText_squeeze. destruct t as [|c t]; [reflexivity|].
  unfold tidy in Ht. apply andb_true_iff in Ht. destruct Ht as [Hc Hss].
  apply negb_true_iff in Hc.
  rewrite (squeeze_fixes_loosely_spaced _ (single_spaced_loosely _ Hss)).
  destruct (last_char_defined c t) as [z Hz].
  apply (trim_keeps _ c z); [reflexivity|exact Hc|exact Hz|].
  exact (single_spaced_last _ z Hss Hz).
Qed.

Lemma squeeze_all_space :
  forall s in_run,
    Str.forallb Char.space (squeeze Char.space " " in_run s)
    = Str.forallb Char.space s.
Proof.
  induction s as [|c s IH]; intros in_run; [reflexivity|].
  cbn [squeeze Str.forallb]. destruct (Char.space c) eqn:Hc.
  - destruct in_run; [apply IH|]. cbn [String.append Str.forallb].
    change (Char.space " ") with true. cbn [andb]. apply IH.
  - cbn [Str.forallb]. rewrite Hc. reflexivity.
Qed.

Lemma cleanText_empty_iff :
  forall s, cleanText s = "" <-> Str.forallb Char.space s = true.
Proof.
  intros s. rewrite cleanText_squeeze, trim_empty_iff, squeeze_all_space.
  reflexivity.
Qed.

(** [cleanText] returns a tidy text (no white space at either end, single
    spaces as the only white space inside), cleaning twice is cleaning once,
    and the result is empty exactly for a text of white space only. *)
Theorem cleanText_normal_form :
  forall s,
    tidy (cleanText s) = true
    /\ cleanText (cleanText s) = cleanText s
    /\ (cleanText s = "" <-> Str.forallb Char.space s = true).
Proof.
  intros s. split; [apply cleanText_tidy|].
  split; [apply cleanText_fixes_tidy; apply cleanText_tidy|apply cleanText_empty_iff].
Qed.

(** [cleanText] changes nothing in a text that is tidy already. *)
Theorem tidy_text_is_unchanged :
  forall t, tidy t = true -> cleanText t = t.
Proof. exact cleanText_fixes_tidy. Qed.

Lemma tidy_text_is_unchanged_witness :
  cleanText "Academy of Management Journal" = "Academy of Management Journal".
Proof.
  apply (tidy_text_is_unchanged "Academy of Management Journal").
  vm_compute. reflexivity.
Defined.

(** ** The helpers built on cleanText *)

Lemma cleanText_idempotent : forall s, cleanText (cleanText s) = cleanText s.
Proof. intros s. apply cleanText_fixes_tidy. apply cleanText_tidy. Qed.

Lemma ensureField_cases :
  forall value,
    ensureField value <> ""
    /\ cleanText (ensureField value) = ensureField value
    /\ isNotVerifiedValue (ensureField value) = isNotVerifiedValue value.
Proof.
  intros value. unfold ensureField, Str.or_else, isNotVerifiedValue. cbv zeta.
  destruct (Str.truthy (cleanText value)) eqn:Htruthy.
  - rewrite cleanText_idempotent, Htruthy.
    split; [destruct (cleanText value); [discriminate Htruthy|discriminate]|].
    split; reflexivity.
  - split; [discriminate|]. split; [vm_compute; reflexivity|].
    replace (cleanText NOT_VERIFIED) with NOT_VERIFIED by (vm_compute; reflexivity).
    reflexivity.
Qed.

(** [ensureField] never returns a blank: its result is tidy, is not empty,
    and is a not-verified value exactly when the value it was given is. *)
Theorem ensureField_keeps_verification :
  forall value,
    ensureField value <> ""
    /\ cleanText (ensureField value) = ensureField value
    /\ isNotVerifiedValue (ensureField value) = isNotVerifiedValue value.
Proof. exact ensureField_cases. Qed.

Lemma mem_string_false : forall x l, mem_string x l = false <-> ~ In x l.
Proof.
  intros x l. split.
  - intros H Hin. apply mem_string_In in Hin. rewrite Hin in H. discriminate H.
  - intros H. destruct (mem_string x l) eqn:E; [|reflexivity].
    apply mem_string_In in E. contradiction.
Qed.

Lemma truthy_iff : forall s, Str.truthy s = true <-> s <> "".
Proof. intros [|c s]; split; intros H; try reflexivity; try discriminate; contradiction. Qed.

Lemma uniqueStrings_from_In :
  forall values seen x,
    In x (uniqueStrings_from values seen)
    <-> x <> "" /\ ~ In x seen /\ exists v, In v values /\ cleanText v = x.
Proof.
  induction values as [|v values IH]; intros seen x.
  - cbn. split; [contradiction|]. intros [_ [_ [w [[] _]]]].
  - cbn [uniqueStrings_from]. cbv zeta.
    destruct (Str.truthy (cleanText v)) eqn:Htruthy; cbn [negb].
    + destruct (mem_string (cleanText v) seen) eqn:Hseen.
      * rewrite IH. apply mem_string_In in Hseen. split.
        -- intros [Hx [Hn [w [Hw Hc]]]].
           repeat split; [exact Hx|exact Hn|exists w; split; [right; exact Hw|exact Hc]].
        -- intros [Hx [Hn [w [[<-|Hw] Hc]]]].
           ++ subst x. contradiction.
           ++ repeat split; [exact Hx|exact Hn|exists w; split; assumption].
      * apply mem_string_false in Hseen. cbn [In]. rewrite IH. split.
        -- intros [<-|[Hx [Hn [w [Hw Hc]]]]].
           ++ repeat split; [apply truthy_iff; exact Htruthy|exact Hseen|].
              exists v. split; [left; reflexivity|reflexivity].
           ++ repeat split; [exact Hx|intros H; apply Hn; right; exact H|].
              exists w. split; [right; exact Hw|exact Hc].
        -- intros [Hx [Hn [w [[<-|Hw] Hc]]]]; [left; exact Hc|].
           destruct (string_dec (cleanText v) x) as [Heq|Hne]; [left; exact Heq|].
           right. repeat split; [exact Hx| |exists w; split; assumption].
           intros [H|H]; [contradiction|contradiction].
    + rewrite IH. split.
      * intros [Hx [Hn [w [Hw Hc]]]].
        repeat split; [exact Hx|exact Hn|exists w; split; [right; exact Hw|exact Hc]].
      * intros [Hx [Hn [w [[<-|Hw] Hc]]]].
        -- subst x. apply truthy_iff in Hx. rewrite Hx in Htruthy. discriminate.
        -- repeat split; [exact Hx|exact Hn|exists w; split; assumption].
Qed.

Lemma uniqueStrings_from_NoDup :
  forall values seen, NoDup (uniqueStrings_from values seen).
Proof.
  induction values as [|v values IH]; intros seen; [constructor|].
  cbn [uniqueStrings_from]. cbv zeta.
  destruct (negb (Str.truthy (cleanText v))); [apply IH|].
  destruct (mem_string (cleanText v) seen); [apply IH|].
  constructor; [|apply IH].
  rewrite uniqueStrings_from_In. intros [_ [Hn _]]. apply Hn. left. reflexivity.
Qed.

Lemma uniqueStrings_from_fixes :
  forall l seen,
    NoDup l ->
    (forall x, In x l -> x <> "" /\ cleanText x = x /\ ~ In x seen) ->
    uniqueStrings_from l seen = l.
Proof.
  induction l as [|x l IH]; intros seen Hnd Hall; [reflexivity|].
  inversion Hnd as [|? ? Hx Hl]; subst.
  destruct (Hall x (or_introl eq_refl)) as [Hne [Hclean Hseen]].
  cbn [uniqueStrings_from]. cbv zeta. rewrite Hclean.
  apply truthy_iff in Hne. rewrite Hne. cbn [negb].
  apply mem_string_false in Hseen. rewrite Hseen. f_equal.
  apply IH; [exact Hl|]. intros y Hy.
  destruct (Hall y (or_intror Hy)) as [Hyne [Hyc Hys]].
  repeat split; [exact Hyne|exact Hyc|].
  intros [<-|H]; [contradiction|contradiction].
Qed.

(** [uniqueStrings] returns, without repetition, exactly the non-empty
    cleaned values of its input, and applying it twice changes nothing. *)
Theorem uniqueStrings_spec :
  forall values,
    NoDup (uniqueStrings values)
    /\ (forall x, In x (uniqueStrings values)
                  <-> x <> "" /\ exists v, In v values /\ cleanText v = x)
    /\ uniqueStrings (uniqueStrings values) = uniqueStrings values.
Proof.
  intros values. unfold uniqueStrings.
  split; [apply uniqueStrings_from_NoDup|]. split.
  - intros x. rewrite uniqueStrings_from_In. split.
    + intros [Hx [_ H]]. split; assumption.
    + intros [Hx H]. repeat split; [exact Hx|intros []|exact H].
  - apply uniqueStrings_from_fixes; [apply uniqueStrings_from_NoDup|].
    intros x Hx. apply uniqueStrings_from_In in Hx.
    destruct Hx as [Hne [_ [v [_ <-]]]].
    repeat split; [exact Hne|apply cleanText_idempotent|intros []].
Qed.

(** [pickFirst] returns the first of the values that [uniqueStrings] keeps. *)
Theorem pickFirst_is_first_unique :
  forall values, pickFirst values = List.hd "" (uniqueStrings values).
Proof.
  unfold uniqueStrings. induction values as [|v values IH]; [reflexivity|].
  cbn [pickFirst uniqueStrings_from]. cbv zeta.
  destruct (Str.truthy (cleanText v)); [reflexivity|exact IH].
Qed.


(** ** The classification is consistent *)

Lemma first_rule_in :
  forall rules text n,
    first_rule rules text = Some n -> In n (List.map snd rules).
Proof.
  intros rules text n H. unfold first_rule in H.
  destruct (List.find _ rules) as [rule|] eqn:Hfind; [|discriminate H].
  injection H as <-. apply find_some in Hfind. apply in_map. apply Hfind.
Qed.

Lemma policy_overrides_types :
  forall key overrides n,
    policy_overrides key = Normal overrides ->
    In n (List.map snd overrides) -> n = "research-article".
Proof.
  intros key overrides n H Hn. unfold policy_overrides in H.
  destruct (String.eqb key "springer_link").
  - apply Normal_inj in H. subst overrides. cbn in Hn.
    destruct Hn as [<-|[<-|[]]]; reflexivity.
  - destruct (String.eqb key "constructor" || String.eqb key "__proto__");
      [discriminate H|].
    apply Normal_inj in H. subst overrides. destruct Hn.
Qed.

(** The types [normalizeArticleTypeValue] can name. *)
Lemma normalized_types :
  forall value policyName allow r,
    normalizeArticleTypeValue value policyName allow = Normal r ->
    normalized r = ""
    \/ In (normalized r) (List.map snd ARTICLE_TYPE_RULES).
Proof.
  intros value policyName allow r H. unfold normalizeArticleTypeValue in H.
  cbv zeta in H.
  destruct (negb (Str.truthy (Str.toLowerCase (cleanText value))));
    [apply Normal_inj in H; subst r; left; reflexivity|].
  destruct (if allow then policy_overrides (Str.toLowerCase policyName) else Normal [])
    as [overrides|e] eqn:Hov; [|discriminate H].
  cbn [bindC] in H.
  destruct (first_rule overrides _) as [n|] eqn:Hfirst.
  - apply Normal_inj in H. subst r. cbn [normalized]. right.
    apply first_rule_in in Hfirst.
    destruct allow.
    + rewrite (policy_overrides_types _ _ _ Hov Hfirst). cbn. tauto.
    + apply Normal_inj in Hov. subst overrides. destruct Hfirst.
  - destruct (first_rule ARTICLE_TYPE_RULES _) as [n|] eqn:Hrule;
      apply Normal_inj in H; subst r; cbn [normalized]; [right|left; reflexivity].
    exact (first_rule_in _ _ _ Hrule).
Qed.

Lemma classifyOne_consistent :
  forall policyName hint allow c,
    classifyOne policyName hint allow = Normal (Some c) -> consistent c.
Proof.
  intros policyName hint allow c H. unfold classifyOne in H.
  destruct (normalizeArticleTypeValue (hvalue hint) policyName allow) as [r|e] eqn:Hr;
    [|discriminate H].
  cbn [bindC] in H. cbv zeta in H.
  destruct (negb (Str.truthy (normalized r))); [discriminate H|].
  destruct (mem_string (normalized r) EXCLUDE_ARTICLE_TYPES) eqn:Hex.
  - apply Normal_inj in H. injection H as <-. right. left.
    cbn [c_ingestDecision c_articleType c_ingestReason].
    split; [reflexivity|]. split; [apply mem_string_In; exact Hex|reflexivity].
  - destruct (mem_string (normalized r) INCLUDE_ARTICLE_TYPES) eqn:Hin;
      [|discriminate H].
    apply Normal_inj in H. injection H as <-. left.
    cbn [c_ingestDecision c_articleType c_ingestReason].
    split; [reflexivity|]. split; [|reflexivity].
    destruct (normalized_types _ _ _ _ Hr) as [Hn|Hn].
    + rewrite Hn in Hin. discriminate Hin.
    + cbn in Hn.
      repeat (destruct Hn as [Hn|Hn];
              [rewrite <- Hn in Hin |- *;
               first [discriminate Hin | left; reflexivity | right; reflexivity]|]).
      destruct Hn.
Qed.

Lemma classify_first_consistent :
  forall policyName allow hints c,
    classify_first policyName allow hints = Normal (Some c) -> consistent c.
Proof.
  intros policyName allow. induction hints as [|hint rest IH]; intros c H.
  - discriminate H.
  - cbn [classify_first] in H.
    destruct (classifyOne policyName hint allow) as [[c'|]|e] eqn:Hone;
      cbn [bindC] in H; [| |discriminate H].
    + apply Normal_inj in H. injection H as <-.
      exact (classifyOne_consistent _ _ _ _ Hone).
    + exact (IH c H).
Qed.

(** Whatever the hints, the classification returned is consistent: an
    include decision goes with research-article or editorial, an exclude
    decision with one of the excluded types, and the reason names the type;
    otherwise nothing is decided and the type is not verified. *)
Theorem classification_is_consistent :
  forall policyName rawTypeHints semanticHints c,
    classifyArticleType policyName rawTypeHints semanticHints = Normal c ->
    consistent c.
Proof.
  intros policyName rawTypeHints semanticHints c H. unfold classifyArticleType in H.
  destruct (collect_hints "publisher_raw_type" rawTypeHints []) as [rawHints seen].
  destruct (collect_hints "title_heuristic" semanticHints seen) as [semanticList seen'].
  destruct (classify_first policyName true rawHints) as [[c1|]|e] eqn:Hraw;
    cbn [bindC] in H; [| |discriminate H].
  - apply Normal_inj in H. subst c1. exact (classify_first_consistent _ _ _ _ Hraw).
  - destruct (classify_first policyName false semanticList) as [[c2|]|e] eqn:Hsem;
      cbn [bindC] in H; [| |discriminate H].
    + apply Normal_inj in H. subst c2.
      exact (classify_first_consistent _ _ _ _ Hsem).
    + apply Normal_inj in H. subst c. right. right. repeat split.
Qed.

Lemma classification_is_consistent_witness :
  consistent
    (MkClassification "commentary" "exclude" "excluded_by_type:commentary"
       "title_heuristic" "A Perspective on Things").
Proof.
  apply (classification_is_consistent "default" []
           [HintObject (Some "A Perspective on Things") "title_heuristic"]).
  vm_compute. reflexivity.
Defined.

(** ** The citation *)

Lemma isNotVerifiedValue_cleanText :
  forall v, isNotVerifiedValue (cleanText v) = isNotVerifiedValue v.
Proof. intros v. unfold isNotVerifiedValue. rewrite cleanText_idempotent. reflexivity. Qed.

Lemma NOT_VERIFIED_is_not_verified : isNotVerifiedValue NOT_VERIFIED = true.
Proof. vm_compute. reflexivity. Qed.

(** A citation is written only for a record whose authors, year, title,
    journal and DOI are all verified and that has a volume, a page range or
    a date of online publication. *)
Theorem citation_needs_core_fields :
  forall r,
    isNotVerifiedValue (buildApaCitation r) = false ->
    isNotVerifiedValue (ScriptAuthors.formatApaAuthors (authors r)) = false
    /\ isNotVerifiedValue (year r) = false
    /\ isNotVerifiedValue (title r) = false
    /\ isNotVerifiedValue (journal r) = false
    /\ isNotVerifiedValue (doiUrl r) = false
    /\ (isNotVerifiedValue (volume r) = false
        \/ isNotVerifiedValue (pageRange r) = false
        \/ isNotVerifiedValue (publishedOnline r) = false).
Proof.
  intros r H. unfold buildApaCitation in H. cbv zeta in H.
  destruct (List.existsb isNotVerifiedValue _) eqn:Hcore;
    [rewrite NOT_VERIFIED_is_not_verified in H; discriminate H|].
  cbn [List.existsb] in Hcore. rewrite !isNotVerifiedValue_cleanText in Hcore.
  apply orb_false_iff in Hcore. destruct Hcore as [Ha Hcore].
  apply orb_false_iff in Hcore. destruct Hcore as [Hy Hcore].
  apply orb_false_iff in Hcore. destruct Hcore as [Ht Hcore].
  apply orb_false_iff in Hcore. destruct Hcore as [Hj Hcore].
  apply orb_false_iff in Hcore. destruct Hcore as [Hd _].
  repeat (split; [assumption|]).
  rewrite !isNotVerifiedValue_cleanText in H.
  destruct (isNotVerifiedValue (volume r)); [|left; reflexivity].
  destruct (isNotVerifiedValue (pageRange r)); [|right; left; reflexivity].
  destruct (isNotVerifiedValue (publishedOnline r)); [|right; right; reflexivity].
  exfalso. cbn [negb andb] in H.
  destruct (isNotVerifiedValue (issue r)); cbn in H;
    rewrite NOT_VERIFIED_is_not_verified in H; discriminate H.
Qed.

Lemma citation_needs_core_fields_witness :
  isNotVerifiedValue (ScriptAuthors.formatApaAuthors (authors Fixture.RECORD)) = false
  /\ isNotVerifiedValue (year Fixture.RECORD) = false
  /\ isNotVerifiedValue (title Fixture.RECORD) = false
  /\ isNotVerifiedValue (journal Fixture.RECORD) = false
  /\ isNotVerifiedValue (doiUrl Fixture.RECORD) = false
  /\ (isNotVerifiedValue (volume Fixture.RECORD) = false
      \/ isNotVerifiedValue (pageRange Fixture.RECORD) = false
      \/ isNotVerifiedValue (publishedOnline Fixture.RECORD) = false).
Proof.
  apply (citation_needs_core_fields Fixture.RECORD). vm_compute. reflexivity.
Defined.

(** ** Authors: names already listed add nothing *)

Lemma dedupe_formatted_app :
  forall a b seen,
    exists seen',
      dedupe_formatted (a ++ b) seen
      = (dedupe_formatted a seen ++ dedupe_formatted b seen')%list
      /\ (forall k, In k seen -> In k seen')
      /\ (forall f, In f a -> Str.truthy f = true -> In (Str.toLowerCase f) seen').
Proof.
  induction a as [|f a IH]; intros b seen.
  - exists seen. repeat split; [tauto|intros f []].
  - cbn [List.app dedupe_formatted]. cbv zeta.
    destruct (Str.truthy f) eqn:Hf; cbn [negb].
    + destruct (mem_string (Str.toLowerCase f) seen) eqn:Hseen.
      * destruct (IH b seen) as [seen' [Heq [Hmono Hkeys]]].
        exists seen'. split; [exact Heq|]. split; [exact Hmono|].
        intros g [<-|Hg] Hgt; [|exact (Hkeys g Hg Hgt)].
        apply Hmono. apply mem_string_In. exact Hseen.
      * destruct (IH b (Str.toLowerCase f :: seen)) as [seen' [Heq [Hmono Hkeys]]].
        exists seen'. split; [cbn [List.app]; rewrite Heq; reflexivity|].
        split; [intros k Hk; apply Hmono; right; exact Hk|].
        intros g [<-|Hg] Hgt; [apply Hmono; left; reflexivity|exact (Hkeys g Hg Hgt)].
    + destruct (IH b seen) as [seen' [Heq [Hmono Hkeys]]].
      exists seen'. split; [exact Heq|]. split; [exact Hmono|].
      intros g [<-|Hg] Hgt; [rewrite Hgt in Hf; discriminate Hf|exact (Hkeys g Hg Hgt)].
Qed.

Lemma dedupe_formatted_seen :
  forall b seen,
    (forall f, In f b -> Str.truthy f = false \/ In (Str.toLowerCase f) seen) ->
    dedupe_formatted b seen = [].
Proof.
  induction b as [|f b IH]; intros seen H; [reflexivity|].
  cbn [dedupe_formatted]. cbv zeta.
  destruct (H f (or_introl eq_refl)) as [Hf|Hf].
  - rewrite Hf. cbn [negb]. apply IH. intros g Hg. apply H. right. exact Hg.
  - destruct (Str.truthy f); cbn [negb].
    + apply mem_string_In in Hf. rewrite Hf. apply IH.
      intros g Hg. apply H. right. exact Hg.
    + apply IH. intros g Hg. apply H. right. exact Hg.
Qed.

(** Names that format to nothing, or to a string that differs only by letter
    case from that of a name already listed, leave the author string as it
    is. *)
Theorem repeated_authors_add_nothing :
  forall authors more,
    (forall name, In name more ->
       Script.formatApaAuthor name = ""
       \/ exists earlier,
            In earlier authors
            /\ Str.toLowerCase (Script.formatApaAuthor name)
               = Str.toLowerCase (Script.formatApaAuthor earlier)) ->
    ScriptAuthors.formatApaAuthors (authors ++ more)
    = ScriptAuthors.formatApaAuthors authors.
Proof.
  intros authors more H. unfold ScriptAuthors.formatApaAuthors. rewrite map_app.
  destruct (dedupe_formatted_app (List.map Script.formatApaAuthor authors)
              (List.map Script.formatApaAuthor more) [])
    as [seen' [Heq [_ Hkeys]]].
  rewrite Heq.
  rewrite (dedupe_formatted_seen (List.map Script.formatApaAuthor more) seen');
    [rewrite app_nil_r; reflexivity|].
  intros f Hf. apply in_map_iff in Hf. destruct Hf as [name [<- Hname]].
  destruct (H name Hname) as [Hempty|[earlier [Hin Hkey]]].
  - left. rewrite Hempty. reflexivity.
  - destruct (Str.truthy (Script.formatApaAuthor name)) eqn:Ht; [|left; reflexivity].
    right. rewrite Hkey. apply Hkeys.
    + apply in_map. exact Hin.
    + destruct (Script.formatApaAuthor earlier) eqn:He; [|reflexivity].
      destruct (Script.formatApaAuthor name); [discriminate Ht|discriminate Hkey].
Qed.

Lemma repeated_authors_add_nothing_witness :
  ScriptAuthors.formatApaAuthors (["Jane Q. Smith"; "John Doe"] ++ ["JANE Q. SMITH"; " "])
  = ScriptAuthors.formatApaAuthors ["Jane Q. Smith"; "John Doe"].
Proof.
  apply (repeated_authors_add_nothing ["Jane Q. Smith"; "John Doe"]
           ["JANE Q. SMITH"; " "]).
  intros name [<-|[<-|[]]].
  - right. exists "Jane Q. Smith". split; [left; reflexivity|vm_compute; reflexivity].
  - left. vm_compute. reflexivity.
Defined.

(** ** The set of final URLs: what is stored is found *)

Section SeenSet.
Variable P : Platform.

Lemma remember_stores :
  forall seen url,
    Str.truthy (normalizeFinalUrlForRunDedupe P url) = true ->
    exists seen',
      rememberFinalUrl P (Some seen) url = Some seen'
      /\ In (normalizeFinalUrlForRunDedupe P url) seen'
      /\ (forall k, In k seen -> In k seen').
Proof.
  intros seen url Hkey. unfold rememberFinalUrl. cbv zeta. rewrite Hkey. cbn [negb].
  destruct (mem_string _ seen) eqn:Hmem.
  - exists seen. split; [reflexivity|]. split; [apply mem_string_In; exact Hmem|tauto].
  - eexists. split; [reflexivity|].
    split; [apply in_or_app; right; left; reflexivity|].
    intros k Hk. apply in_or_app. left. exact Hk.
Qed.

(** Once a URL is remembered, another input that arrives at a URL of the
    same key is skipped, unless it arrives on a tracking host or the key is
    that of the input itself; nothing is skipped whose key was not
    remembered; and remembering twice is remembering once. *)
Theorem remembered_url_is_skipped :
  forall seen first second inputUrl,
    Str.truthy (normalizeFinalUrlForRunDedupe P first) = true ->
    normalizeFinalUrlForRunDedupe P second = normalizeFinalUrlForRunDedupe P first ->
    isTrackingUrl P second = false ->
    normalizeFinalUrlForRunDedupe P inputUrl <> normalizeFinalUrlForRunDedupe P first ->
    shouldSkipDuplicateFinalUrl P (rememberFinalUrl P (Some seen) first)
                                second inputUrl = true
    /\ rememberFinalUrl P (rememberFinalUrl P (Some seen) first) first
       = rememberFinalUrl P (Some seen) first
    /\ (forall other,
          shouldSkipDuplicateFinalUrl P (Some seen) other inputUrl = true ->
          In (normalizeFinalUrlForRunDedupe P other) seen).
Proof.
  intros seen first second inputUrl Hkey Hsame Htrack Hown.
  destruct (remember_stores seen first Hkey) as [seen' [Hrem [Hin _]]].
  rewrite Hrem. split; [|split].
  - unfold shouldSkipDuplicateFinalUrl. cbv zeta.
    rewrite Hsame, Hkey, Htrack. cbn [negb].
    apply String.eqb_neq in Hown. rewrite Hown.
    apply mem_string_In. exact Hin.
  - unfold rememberFinalUrl at 1. cbv zeta. rewrite Hkey. cbn [negb].
    apply mem_string_In in Hin. rewrite Hin. reflexivity.
  - intros other H. unfold shouldSkipDuplicateFinalUrl in H. cbv zeta in H.
    destruct (negb (Str.truthy _)); [discriminate H|].
    destruct (isTrackingUrl P other); [discriminate H|].
    destruct (String.eqb _ _); [discriminate H|].
    apply mem_string_In. exact H.
Qed.
End SeenSet.

Lemma remembered_url_is_skipped_witness :
  shouldSkipDuplicateFinalUrl Plain.platform
    (rememberFinalUrl Plain.platform (Some []) "https://pub.example/article/1")
    "https://pub.example/article/1?utm_source=alert#abstract"
    "https://click.skem1.com/t/abc" = true
  /\ rememberFinalUrl Plain.platform
       (rememberFinalUrl Plain.platform (Some []) "https://pub.example/article/1")
       "https://pub.example/article/1"
     = rememberFinalUrl Plain.platform (Some []) "https://pub.example/article/1"
  /\ (forall other,
        shouldSkipDuplicateFinalUrl Plain.platform (Some []) other
          "https://click.skem1.com/t/abc" = true ->
        In (normalizeFinalUrlForRunDedupe Plain.platform other) []).
Proof.
  apply (remembered_url_is_skipped Plain.platform []
           "https://pub.example/article/1"
           "https://pub.example/article/1?utm_source=alert#abstract"
           "https://click.skem1.com/t/abc").
  - vm_compute. reflexivity.
  - vm_compute. reflexivity.
  - vm_compute. reflexivity.
  - vm_compute. discriminate.
Defined.

(** ** Every record is well formed *)

Lemma filled_ensureField : forall v, filled (ensureField v).
Proof.
  intros v. destruct (ensureField_cases v) as [Hne [Hclean _]]. split; assumption.
Qed.

Lemma filled_NOT_VERIFIED : filled NOT_VERIFIED.
Proof. split; [discriminate|vm_compute; reflexivity]. Qed.

Lemma canonical_has_no_space :
  forall d, normalized_doi d -> Str.existsb Char.space d = false.
Proof.
  intros d [registrant [kept [-> [_ [Hdigits [Hchars _]]]]]].
  unfold doi_token. rewrite !str_existsb_app.
  rewrite (forallb_excludes Char.digit Char.space registrant).
  - rewrite (forallb_excludes _ _ _ doi_char_is_no_space Hchars). reflexivity.
  - intros c Hc. apply doi_char_is_no_space. unfold doi_char, Char.alnum.
    rewrite Hc. rewrite !orb_true_r. reflexivity.
  - exact Hdigits.
Qed.

Lemma normalizeDoi_empty_or_canonical :
  forall x y, normalizeDoi x = Normal y -> y = "" \/ normalized_doi y.
Proof.
  intros x y H. destruct (normalizeDoi_cases x y H)
    as [->|[registrant [kept [Hy [Hlen [Hdigits [Hchars [Hupper _]]]]]]]];
    [left; reflexivity|right].
  exists registrant, kept. repeat split; try assumption; apply Hlen.
Qed.

Lemma or_elseC_empty_or_canonical :
  forall a x y,
    (a = "" \/ normalized_doi a) ->
    or_elseC a (normalizeDoi x) = Normal y -> y = "" \/ normalized_doi y.
Proof.
  intros a x y Ha H. unfold or_elseC in H. destruct (Str.truthy a).
  - apply Normal_inj in H. subst y. exact Ha.
  - exact (normalizeDoi_empty_or_canonical x y H).
Qed.

Lemma ensureField_doi :
  forall d,
    (d = "" \/ normalized_doi d) ->
    ensureField d = NOT_VERIFIED \/ normalized_doi (ensureField d).
Proof.
  intros d [->|Hd]; [left; reflexivity|right].
  unfold ensureField, Str.or_else.
  rewrite (cleanText_free d (canonical_has_no_space d Hd)).
  destruct Hd as [registrant [kept [-> H]]]. cbn [Str.truthy Str.is_empty negb String.append DOI_ORG].
  exists registrant, kept. split; [reflexivity|exact H].
Qed.

Lemma ensureField_year :
  forall value,
    ensureField (parseYear value) = NOT_VERIFIED
    \/ (String.length (ensureField (parseYear value)) = 4
        /\ Str.forallb Char.digit (ensureField (parseYear value)) = true).
Proof.
  intros value.
  destruct (parseYear_cases value)
    as [->|[before [century [c [d [after [_ [-> [Hcent [Hc [Hd _]]]]]]]]]]];
    [left; reflexivity|right].
  assert (Hplain : Str.existsb Char.space (century ++ String c (String d "")) = false).
  { rewrite str_existsb_app. cbn [Str.existsb].
    assert (Hs : forall x, Char.digit x = true -> Char.space x = false)
      by (intros x Hx; apply doi_char_is_no_space; unfold doi_char, Char.alnum;
          rewrite Hx; rewrite !orb_true_r; reflexivity).
    rewrite (Hs c Hc), (Hs d Hd). destruct Hcent as [-> | ->]; reflexivity. }
  unfold ensureField, Str.or_else. rewrite (cleanText_free _ Hplain).
  destruct Hcent as [-> | ->]; cbn; rewrite Hc, Hd; split; reflexivity.
Qed.

Lemma buildApaCitation_not_empty : forall r, buildApaCitation r <> "".
Proof.
  intros r. unfold buildApaCitation. cbv zeta.
  assert (Hne : forall a b, a ++ " (" ++ b <> "").
  { intros a b. destruct a; discriminate. }
  destruct (List.existsb _ _); [discriminate|].
  destruct (_ && _ && _ && _); [apply Hne|].
  destruct (negb _); [discriminate|apply Hne].
Qed.

Lemma filled_unique :
  forall values, Forall filled (uniqueStrings values).
Proof.
  intros values. apply Forall_forall. intros x Hx. unfold uniqueStrings in Hx.
  apply uniqueStrings_from_In in Hx. destruct Hx as [Hne [_ [v [_ <-]]]].
  split; [exact Hne|apply cleanText_idempotent].
Qed.

Lemma well_formed_built :
  forall P extracted sourceUrl policyName r,
    buildRecordFromExtracted P extracted sourceUrl policyName = Normal r ->
    well_formed sourceUrl r.
Proof.
  intros P extracted src policyName r.
  unfold buildRecordFromExtracted.
  destruct (normalizeDoi (x_doiMeta extracted)) as [d1|] eqn:H1; [|discriminate].
  cbn [bindC].
  destruct (or_elseC d1 _) as [d2|] eqn:H2; [|discriminate]. cbn [bindC].
  destruct (or_elseC d2 _) as [d3|] eqn:H3; [|discriminate]. cbn [bindC].
  destruct (inferJournalFallback P _ _ _ d3) as [j|]; [|discriminate]. cbn [bindC].
  destruct (classifyArticleType policyName _ _) as [c|]; [|discriminate]. cbn [bindC].
  intros H. apply Normal_inj in H. rewrite <- H. clear H.
  assert (Hd3 : d3 = "" \/ normalized_doi d3).
  { apply (or_elseC_empty_or_canonical _ _ _
             (or_elseC_empty_or_canonical _ _ _
                (normalizeDoi_empty_or_canonical _ _ H1) H2) H3). }
  unfold well_formed.
  cbn [set_missing_and_status set_citation set_classification sourceUrl title year
       journal volume issue pageRange publishedOnline doiUrl abstract articleTypeRaw
       citation authors status ingestDecision].
  split; [reflexivity|].
  split; [repeat (constructor; [apply filled_ensureField|]); constructor|].
  split; [apply buildApaCitation_not_empty|].
  split; [apply ensureField_doi; exact Hd3|].
  split; [apply ensureField_year|].
  split; [apply uniqueStrings_from_NoDup|].
  split; [apply filled_unique|].
  split.
  - destruct (requiredMissing _); [left; reflexivity|right; left; reflexivity].
  - destruct (requiredMissing _); discriminate.
Qed.

Lemma well_formed_excluded_record :
  forall inputUrl finalUrl policy reason resolved r,
    buildExcludedLinkRecord inputUrl finalUrl policy reason resolved = Normal r ->
    well_formed inputUrl r.
Proof.
  intros inputUrl finalUrl policy reason resolved r. unfold buildExcludedLinkRecord.
  destruct (normalizeDoi finalUrl) as [d1|] eqn:H1; [|discriminate]. cbn [bindC].
  destruct (or_elseC d1 _) as [d2|] eqn:H2; [|discriminate]. cbn [bindC].
  intros H. apply Normal_inj in H. rewrite <- H. clear H.
  assert (Hd2 := or_elseC_empty_or_canonical _ _ _
                   (normalizeDoi_empty_or_canonical _ _ H1) H2).
  unfold well_formed.
  cbn [sourceUrl title year journal volume issue pageRange publishedOnline doiUrl
       abstract articleTypeRaw citation authors status ingestDecision].
  split; [reflexivity|].
  split.
  { repeat (constructor;
            [first [apply filled_NOT_VERIFIED | apply filled_ensureField
                   | split; [discriminate|vm_compute; reflexivity]]|]).
    constructor. }
  split; [discriminate|].
  split; [apply ensureField_doi; exact Hd2|].
  split; [left; reflexivity|].
  split; [constructor|]. split; [constructor|].
  split; [right; right; reflexivity|reflexivity].
Qed.

Lemma well_formed_failure_record :
  forall inputUrl policy errors r,
    buildVerificationFailureRecord inputUrl policy errors = Normal r ->
    well_formed inputUrl r.
Proof.
  intros inputUrl policy errors r. unfold buildVerificationFailureRecord.
  destruct (normalizeDoi inputUrl) as [d|] eqn:H1; [|discriminate]. cbn [bindC].
  intros H. apply Normal_inj in H. rewrite <- H. clear H.
  unfold well_formed.
  cbn [sourceUrl title year journal volume issue pageRange publishedOnline doiUrl
       abstract articleTypeRaw citation authors status ingestDecision].
  split; [reflexivity|].
  split.
  { repeat (constructor;
            [first [apply filled_NOT_VERIFIED | apply filled_ensureField]|]).
    constructor. }
  split; [discriminate|].
  split; [apply ensureField_doi; exact (normalizeDoi_empty_or_canonical _ _ H1)|].
  split; [left; reflexivity|].
  split; [constructor|]. split; [constructor|].
  split; [right; left; reflexivity|discriminate].
Qed.

(** A property of records that the three builders establish and that the
    provenance fields do not touch holds of every record the run returns. *)
Section RecordsOfRun.
Variable P : Platform.
Variable W : World.
Variable Q : string -> Rec -> Prop.
Hypothesis Q_built :
  forall extracted sourceUrl policyName r,
    buildRecordFromExtracted P extracted sourceUrl policyName = Normal r ->
    Q sourceUrl r.
Hypothesis Q_excluded :
  forall inputUrl finalUrl policy reason resolved r,
    buildExcludedLinkRecord inputUrl finalUrl policy reason resolved = Normal r ->
    Q inputUrl r.
Hypothesis Q_failure :
  forall inputUrl policy errors r,
    buildVerificationFailureRecord inputUrl policy errors = Normal r ->
    Q inputUrl r.
Hypothesis Q_provenance :
  forall inputUrl pol resolved tr rt nav r,
    Q inputUrl r -> Q inputUrl (set_provenance pol resolved tr rt nav r).

Lemma Q_of_excluded :
  forall inputUrl finalUrl policy reason resolved o,
    excluded inputUrl finalUrl policy reason resolved = Normal o ->
    Q inputUrl (record o).
Proof.
  intros inputUrl finalUrl policy reason resolved o. unfold excluded.
  destruct (buildExcludedLinkRecord _ _ _ _ _) as [r|] eqn:Hr; [|discriminate].
  cbn [bindC]. intros H. injection H as <-.
  exact (Q_excluded _ _ _ _ _ _ Hr).
Qed.

Lemma Q_of_curl_one :
  forall sourceUrl policy resolved fetchTarget st built st',
    curl_one P W sourceUrl policy resolved fetchTarget st = (inl built, st') ->
    Q sourceUrl built.
Proof.
  intros sourceUrl policy resolved fetchTarget st built st'. unfold curl_one.
  destruct (curl W (tick st) fetchTarget) as [m|eff sc sig reading]; [discriminate|].
  destruct sig; [|discriminate].
  destruct (extracted_of_html reading sourceUrl _) as [x|]; cbn [bindC];
    [|discriminate].
  destruct (buildRecordFromExtracted P x sourceUrl (name policy)) as [b|] eqn:Hb;
    [|discriminate].
  intros H. injection H as <- _. apply Q_provenance.
  exact (Q_built _ _ _ _ Hb).
Qed.

Lemma Q_of_curl_loop :
  forall sourceUrl policy resolved fetchTargets errors st built st',
    curl_loop P W sourceUrl policy resolved fetchTargets errors st = (inl built, st') ->
    Q sourceUrl built.
Proof.
  intros sourceUrl policy resolved fetchTargets.
  induction fetchTargets as [|t rest IH]; intros errors st built st'; simpl.
  - discriminate.
  - destruct (curl_one P W sourceUrl policy resolved t st) as [[b|err] st1] eqn:H1.
    + intros H. injection H as <- _. exact (Q_of_curl_one _ _ _ _ _ _ _ H1).
    + apply IH.
Qed.

Lemma Q_of_browser_try :
  forall inputUrl targetUrl resolved lastPolicy st o pol st',
    browser_try P W inputUrl targetUrl resolved lastPolicy st = (Returned o, pol, st') ->
    Q inputUrl (record o).
Proof.
  intros inputUrl targetUrl resolved lastPolicy st o pol st'. unfold browser_try.
  destruct (navigate W _ targetUrl) as [n m|sig|pageUrl evaluated];
    [discriminate|discriminate|].
  cbv zeta.
  destruct (shouldSkipDuplicateFinalUrl P _ _ inputUrl).
  - destruct (excluded _ _ _ _ _) as [o'|] eqn:Ho; [|discriminate].
    intros H. injection H as <- _ _. exact (Q_of_excluded _ _ _ _ _ _ Ho).
  - destruct (classifyKnownNonArticleLink P _) as [reason|].
    + destruct (excluded _ _ _ _ _) as [o'|] eqn:Ho; [|discriminate].
      intros H. injection H as <- _ _. exact (Q_of_excluded _ _ _ _ _ _ Ho).
    + destruct evaluated as [n m|reading]; [discriminate|].
      destruct (buildRecordFromExtracted P _ inputUrl _) as [b|] eqn:Hb;
        [|discriminate].
      intros H. injection H as <- _ _. cbn [record].
      apply Q_provenance. exact (Q_built _ _ _ _ Hb).
Qed.

Lemma Q_of_try_target :
  forall inputUrl args attempt rawTargetUrl errors st o st',
    try_target P W inputUrl args attempt rawTargetUrl errors st
    = (Normal (Return o), st') ->
    Q inputUrl (record o).
Proof.
  intros inputUrl args attempt rawTargetUrl errors st o st'. unfold try_target.
  destruct (classifyUnsafePreNavigationLink P rawTargetUrl "") as [reason|].
  { destruct (excluded _ _ _ _ _) as [o'|] eqn:Ho; cbn [bindC]; [|discriminate].
    intros H. injection H as <- _. exact (Q_of_excluded _ _ _ _ _ _ Ho). }
  destruct (resolveTrackedUrl P W rawTargetUrl args st) as [resolved st1].
  destruct (classifyUnsafePreNavigationLink P _ "") as [reason|].
  { destruct (excluded _ _ _ _ _) as [o'|] eqn:Ho; cbn [bindC]; [|discriminate].
    intros H. injection H as <- _. exact (Q_of_excluded _ _ _ _ _ _ Ho). }
  destruct (shouldSkipDuplicateFinalUrl P _ _ inputUrl).
  { destruct (excluded _ _ _ _ _) as [o'|] eqn:Ho; cbn [bindC]; [|discriminate].
    intros H. injection H as <- _. exact (Q_of_excluded _ _ _ _ _ _ Ho). }
  destruct (classifyKnownNonArticleLink P _) as [reason|].
  { destruct (excluded _ _ _ _ _) as [o'|] eqn:Ho; cbn [bindC]; [|discriminate].
    intros H. injection H as <- _. exact (Q_of_excluded _ _ _ _ _ _ Ho). }
  cbv zeta.
  match goal with
  | |- context [if ?b then match verifyScienceDirectViaCurl _ _ _ _ _ _ _ with _ => _ end
                else _] => destruct b eqn:Htry
  end.
  - unfold verifyScienceDirectViaCurl.
    destruct (curl_loop P W _ _ _ _ _ _) as [[built|curlErrors] st2] eqn:Hcurl.
    + destruct (String.eqb (status built) "verified" || _ || _).
      * destruct (shouldSkipDuplicateFinalUrl P _ _ inputUrl).
        -- destruct (excluded _ _ _ _ _) as [o'|] eqn:Ho; cbn; [|discriminate].
           intros H. injection H as <- _. exact (Q_of_excluded _ _ _ _ _ _ Ho).
        -- cbn. intros H. injection H as <- _.
           exact (Q_of_curl_loop _ _ _ _ _ _ _ _ Hcurl).
      * cbn [andb]. destruct (String.eqb (sciencedirectMode args) "curl");
          [discriminate|].
        destruct (open_page W _); cbn [negb]; [|discriminate].
        destruct (browser_try P W _ _ _ _ _) as [[[o'|n m sig] pol] st3] eqn:Hb;
          [|discriminate].
        intros H. injection H as <- _. exact (Q_of_browser_try _ _ _ _ _ _ _ _ Hb).
    + cbn [andb]. destruct (String.eqb (sciencedirectMode args) "curl");
        [discriminate|].
      destruct (open_page W _); cbn [negb]; [|discriminate].
      destruct (browser_try P W _ _ _ _ _) as [[[o'|n m sig] pol] st3] eqn:Hb;
        [|discriminate].
      intros H. injection H as <- _. exact (Q_of_browser_try _ _ _ _ _ _ _ _ Hb).
  - cbn [andb].
    destruct (open_page W _); cbn [negb]; [|discriminate].
    destruct (browser_try P W _ _ _ _ _) as [[[o'|n m sig] pol] st3] eqn:Hb;
      [|discriminate].
    intros H. injection H as <- _. exact (Q_of_browser_try _ _ _ _ _ _ _ _ Hb).
Qed.

Lemma Q_of_targets_loop :
  forall inputUrl args attempt targets errors lastPolicy st o st',
    targets_loop P W inputUrl args attempt targets errors lastPolicy st
    = (Normal (Return o), st') ->
    Q inputUrl (record o).
Proof.
  intros inputUrl args attempt targets.
  induction targets as [|t rest IH]; intros errors lastPolicy st o st'; simpl.
  - discriminate.
  - destruct (try_target P W inputUrl args attempt t errors st)
      as [[[o'|errors' pol']|e] st1] eqn:Ht.
    + intros H. injection H as <- _. exact (Q_of_try_target _ _ _ _ _ _ _ _ Ht).
    + apply IH.
    + discriminate.
Qed.

Lemma Q_of_attempts_loop :
  forall inputUrl args targets remaining attempt errors lastPolicy st o st',
    attempts_loop P W inputUrl args targets remaining attempt errors lastPolicy st
    = (Normal o, st') ->
    Q inputUrl (record o).
Proof.
  intros inputUrl args targets remaining.
  induction remaining as [|n IH]; intros attempt errors lastPolicy st o st'; simpl.
  - destruct (buildVerificationFailureRecord inputUrl lastPolicy errors) as [r|] eqn:Hr;
      cbn [bindC]; [|discriminate].
    intros H. injection H as <- _. exact (Q_failure _ _ _ _ Hr).
  - destruct (targets_loop P W inputUrl args attempt targets errors lastPolicy st)
      as [[[o'|errors' pol']|e] st1] eqn:Ht.
    + intros H. injection H as <- _. exact (Q_of_targets_loop _ _ _ _ _ _ _ _ _ Ht).
    + apply IH.
    + discriminate.
Qed.

Lemma Q_of_verifySingleUrl :
  forall inputUrl args st o st',
    verifySingleUrl P W inputUrl args st = (Normal o, st') ->
    Q inputUrl (record o).
Proof.
  intros inputUrl args st o st'. unfold verifySingleUrl.
  destruct (normalizeDoi inputUrl) as [canonical|e]; [|discriminate].
  apply Q_of_attempts_loop.
Qed.
End RecordsOfRun.

(** Every record that [buildRecordFromExtracted] builds and every record that
    [verifySingleUrl] returns is well formed: it carries the input URL, its
    text fields are filled and tidy, its DOI is the not-verified mark or
    [https://doi.org/10.] followed by four to nine digits, a slash and a
    suffix, which may be empty, over the DOI characters without upper case
    letters, its year is the mark or four digits, its authors are distinct
    and not blank, its status is one of the three the script knows, and an
    excluded record has the exclude decision. *)
Theorem records_are_well_formed :
  forall (P : Platform) (W : World),
    (forall extracted sourceUrl policyName r,
        buildRecordFromExtracted P extracted sourceUrl policyName = Normal r ->
        well_formed sourceUrl r)
    /\ (forall inputUrl args st o st',
           verifySingleUrl P W inputUrl args st = (Normal o, st') ->
           well_formed inputUrl (record o)).
Proof.
  intros P W. split; [apply well_formed_built|].
  apply (Q_of_verifySingleUrl P W well_formed).
  - apply well_formed_built.
  - apply well_formed_excluded_record.
  - apply well_formed_failure_record.
  - intros inputUrl pol resolved tr rt nav r H. exact H.
Qed.

Lemma records_are_well_formed_witness :
  exists o st',
    verifySingleUrl Plain.platform Sample.open_web Sample.ARTICLE Sample.ARGS
                    Sample.FRESH = (Normal o, st')
    /\ well_formed Sample.ARTICLE (record o).
Proof.
  lazymatch eval cbv delta [Sample.ARTICLE_RUN] in Sample.ARTICLE_RUN with
  | (Normal ?o, ?s) =>
      exists o, s;
      assert (Hr : verifySingleUrl Plain.platform Sample.open_web Sample.ARTICLE
                     Sample.ARGS Sample.FRESH = (Normal o, s))
        by (vm_compute; reflexivity);
      split; [exact Hr|];
      exact (proj2 (records_are_well_formed Plain.platform Sample.open_web)
               _ _ _ _ _ Hr)
  end.
Defined.

(** ** What a run costs *)

Lemma grows_refl : forall a, grows a a.
Proof. intros [x|]; [apply incl_refl|exact I]. Qed.

Lemma grows_trans : forall a b c, grows a b -> grows b c -> grows a c.
Proof.
  intros [x|] [y|] [z|]; cbn; try tauto. intros H1 H2. exact (incl_tran H1 H2).
Qed.

Lemma count_app :
  forall kind a b, count kind (a ++ b) = count kind a + count kind b.
Proof. intros kind a b. unfold count. rewrite filter_app, length_app. reflexivity. Qed.

Lemma spent_refl : forall b st, spent b st st.
Proof.
  intros b st. split; [|apply grows_refl].
  exists []. rewrite app_nil_r. cbn. repeat split; lia.
Qed.

Lemma spent_trans :
  forall a b st1 st2 st3,
    spent a st1 st2 -> spent b st2 st3 -> spent (plus_budget a b) st1 st3.
Proof.
  intros a b st1 st2 st3 [[d1 [H1 B1]] G1] [[d2 [H2 B2]] G2].
  split; [|exact (grows_trans _ _ _ G1 G2)].
  exists (d1 ++ d2)%list. rewrite H2, H1, app_assoc. rewrite !count_app. cbn.
  repeat split; try reflexivity; lia.
Qed.

Lemma spent_fits :
  forall a b st st', spent a st st' -> fits a b -> spent b st st'.
Proof.
  intros a b st st' [[d [H B]] G] F. unfold fits in F.
  split; [|exact G]. exists d. repeat split; try exact H; lia.
Qed.

Lemma spent_emit :
  forall e st,
    spent (MkBudget (if is_fetch e then 1 else 0) (if is_curl e then 1 else 0)
                    (if is_open e then 1 else 0) (if is_goto e then 1 else 0)
                    (if is_sleep e then 1 else 0))
          st (emit e st).
Proof.
  intros e st. split; [|apply grows_refl].
  exists [e]. split; [reflexivity|]. destruct e; cbn; repeat split; lia.
Qed.

Lemma spent_remember :
  forall P url b st, spent b st (remember P url st).
Proof.
  intros P url b st. split.
  - exists []. cbn [remember trace]. rewrite app_nil_r. cbn. repeat split; lia.
  - cbn [remember seenFinalUrls]. unfold rememberFinalUrl.
    destruct (seenFinalUrls st) as [seen|]; [|exact I]. cbv zeta.
    destruct (negb _); [apply incl_refl|].
    destruct (mem_string _ seen); [apply incl_refl|].
    apply incl_appl. apply incl_refl.
Qed.

Ltac state_of H := apply (f_equal snd) in H; cbn [snd] in H; subst.

Ltac within_budget :=
  unfold fits, per_attempt; unfold PER_TARGET;
  cbn [fetches curls pages navigations sleeps plus_budget times_budget
       is_fetch is_curl is_open is_goto is_sleep]; first [lia | nia].

Section CostOfRun.
Variable P : Platform.
Variable W : World.

Lemma cost_of_resolve :
  forall inputUrl args st r st',
    resolveTrackedUrl P W inputUrl args st = (r, st') ->
    spent (MkBudget 1 0 0 0 0) st st'.
Proof.
  intros inputUrl args st r st' H. unfold resolveTrackedUrl in H.
  destruct (_ || _); [state_of H; apply spent_refl|].
  cbv zeta in H.
  assert (He := spent_emit (EvFetch inputUrl) st).
  destruct (fetch W _ inputUrl); [|state_of H; exact He].
  destruct (_ && _ && _); state_of H; exact He.
Qed.

Lemma cost_of_curl_one :
  forall sourceUrl policy resolved fetchTarget st x st',
    curl_one P W sourceUrl policy resolved fetchTarget st = (x, st') ->
    spent (MkBudget 0 1 0 0 0) st st'.
Proof.
  intros sourceUrl policy resolved fetchTarget st x st' H. unfold curl_one in H.
  cbv zeta in H. assert (He := spent_emit (EvCurl fetchTarget) st).
  destruct (curl W _ fetchTarget) as [m|eff sc sig reading]; [state_of H; exact He|].
  destruct sig; [|state_of H; exact He].
  destruct (bindC _ _); state_of H; exact He.
Qed.

Lemma cost_of_curl_loop :
  forall sourceUrl policy resolved fetchTargets errors st x st',
    curl_loop P W sourceUrl policy resolved fetchTargets errors st = (x, st') ->
    spent (MkBudget 0 (List.length fetchTargets) 0 0 0) st st'.
Proof.
  intros sourceUrl policy resolved fetchTargets.
  induction fetchTargets as [|t rest IH]; intros errors st x st' H.
  - cbn in H. state_of H. apply spent_refl.
  - cbn [curl_loop] in H.
    destruct (curl_one P W sourceUrl policy resolved t st) as [[b|err] st1] eqn:H1;
      apply cost_of_curl_one in H1.
    + state_of H. apply (spent_fits _ _ _ _ H1). cbn. unfold fits. cbn. lia.
    + apply IH in H. apply (spent_fits _ _ _ _ (spent_trans _ _ _ _ _ H1 H)).
      unfold fits. cbn. lia.
Qed.

Lemma uniqueStrings_from_length :
  forall values seen,
    List.length (uniqueStrings_from values seen) <= List.length values.
Proof.
  induction values as [|v values IH]; intros seen; [apply le_n|].
  cbn [uniqueStrings_from List.length]. cbv zeta.
  destruct (negb _); [specialize (IH seen); lia|].
  destruct (mem_string _ seen); [specialize (IH seen); lia|].
  cbn [List.length]. specialize (IH (cleanText v :: seen)). lia.
Qed.

Lemma cost_of_curl_path :
  forall sourceUrl targetUrl policy resolved st x st',
    verifyScienceDirectViaCurl P W sourceUrl targetUrl policy resolved st = (x, st') ->
    spent (MkBudget 0 4 0 0 0) st st'.
Proof.
  intros sourceUrl targetUrl policy resolved st x st' H.
  unfold verifyScienceDirectViaCurl in H. apply cost_of_curl_loop in H.
  apply (spent_fits _ _ _ _ H). unfold fits. cbn [fetches curls pages navigations sleeps].
  assert (Hlen := uniqueStrings_from_length
                    [canonicalScienceDirectArticleUrl P targetUrl; targetUrl;
                     canonicalScienceDirectArticleUrl P sourceUrl; sourceUrl] []).
  unfold uniqueStrings. cbn [List.length] in Hlen. lia.
Qed.

Lemma cost_of_browser_try :
  forall inputUrl targetUrl resolved lastPolicy st x st',
    browser_try P W inputUrl targetUrl resolved lastPolicy st = (x, st') ->
    spent (MkBudget 0 0 0 1 0) st st'.
Proof.
  intros inputUrl targetUrl resolved lastPolicy st x st' H. unfold browser_try in H.
  cbv zeta in H. assert (He := spent_emit (EvGoto targetUrl) st).
  assert (Hr : forall url,
             spent (MkBudget 0 0 0 1 0) st (remember P url (emit (EvGoto targetUrl) st))).
  { intros url.
    apply (spent_fits _ _ _ _ (spent_trans _ _ _ _ _ He
                                 (spent_remember P url (MkBudget 0 0 0 0 0) _))).
    unfold fits. cbn. lia. }
  destruct (navigate W _ targetUrl) as [n m|sig|pageUrl evaluated];
    [state_of H; exact He|state_of H; exact He|].
  destruct (shouldSkipDuplicateFinalUrl P _ _ inputUrl).
  - destruct (excluded _ _ _ _ _); state_of H; exact He.
  - destruct (classifyKnownNonArticleLink P _).
    + destruct (excluded _ _ _ _ _); state_of H; apply Hr.
    + destruct evaluated as [n m|reading]; [state_of H; exact He|].
      destruct (buildRecordFromExtracted P _ inputUrl _);
        [state_of H; apply Hr|state_of H; exact He].
Qed.

Lemma cost_of_browser_part :
  forall inputUrl targetUrl resolved policy (errors : list ErrorEntry) attempt
         rawTargetUrl st (x : completion Step) st',
    (let st2 := emit EvOpenPage st in
     if negb (open_page W (tick st)) then (Throw BrowserError, st2)
     else
       match browser_try P W inputUrl targetUrl resolved policy st2 with
       | (Returned o, _, st3) => (Normal (Return o), st3)
       | (Caught errorName message signals, lastPolicy, st3) =>
           (Normal
              (Next (errors ++
                     [MkErrorEntry "" attempt rawTargetUrl targetUrl
                        errorName message signals []
                        (rs_trackingResolutionError resolved)])%list
                    lastPolicy), st3)
       end) = (x, st') ->
    spent (MkBudget 0 0 1 1 0) st st'.
Proof.
  intros inputUrl targetUrl resolved policy errors attempt rawTargetUrl st x st' H.
  cbv zeta in H. assert (He := spent_emit EvOpenPage st).
  destruct (negb (open_page W (tick st))).
  - state_of H. apply (spent_fits _ _ _ _ He). within_budget.
  - destruct (browser_try P W _ _ _ _ _) as [[[o'|n m sig] pol] st3] eqn:Hb;
      apply cost_of_browser_try in Hb; state_of H;
      apply (spent_fits _ _ _ _ (spent_trans _ _ _ _ _ He Hb)); within_budget.
Qed.

Lemma cost_of_try_target :
  forall inputUrl args attempt rawTargetUrl errors st x st',
    try_target P W inputUrl args attempt rawTargetUrl errors st = (x, st') ->
    spent PER_TARGET st st'.
Proof.
  intros inputUrl args attempt rawTargetUrl errors st x st' H. unfold try_target in H.
  destruct (classifyUnsafePreNavigationLink P rawTargetUrl "") as [reason|];
    [state_of H; apply spent_refl|].
  destruct (resolveTrackedUrl P W rawTargetUrl args st) as [resolved st1] eqn:Hres.
  apply cost_of_resolve in Hres.
  assert (Hrem : forall url, spent PER_TARGET st (remember P url st1)).
  { intros url.
    apply (spent_fits _ _ _ _ (spent_trans _ _ _ _ _ Hres
                                 (spent_remember P url (MkBudget 0 0 0 0 0) _))).
    within_budget. }
  assert (Hst1 : spent PER_TARGET st st1)
    by (apply (spent_fits _ _ _ _ Hres); within_budget).
  destruct (classifyUnsafePreNavigationLink P _ "") as [reason|];
    [state_of H; apply Hrem|].
  destruct (shouldSkipDuplicateFinalUrl P _ _ inputUrl); [state_of H; exact Hst1|].
  destruct (classifyKnownNonArticleLink P _) as [reason|]; [state_of H; apply Hrem|].
  cbv zeta in H.
  match type of H with
  | context [if ?b then match verifyScienceDirectViaCurl _ _ _ _ _ _ _ with _ => _ end
             else _] => destruct b eqn:Htry
  end.
  - destruct (verifyScienceDirectViaCurl P W _ _ _ _ _) as [[built|curlErrors] st2]
      eqn:Hcurl; apply cost_of_curl_path in Hcurl.
    + destruct (String.eqb (status built) "verified" || _ || _).
      * destruct (shouldSkipDuplicateFinalUrl P _ _ inputUrl); state_of H.
        -- apply (spent_fits _ _ _ _ (spent_trans _ _ _ _ _ Hres Hcurl)). within_budget.
        -- apply (spent_fits _ _ _ _
                    (spent_trans _ _ _ _ _ (spent_trans _ _ _ _ _ Hres Hcurl)
                       (spent_remember P _ (MkBudget 0 0 0 0 0) _))).
           within_budget.
      * cbn [andb] in H. destruct (String.eqb (sciencedirectMode args) "curl").
        -- state_of H.
           apply (spent_fits _ _ _ _ (spent_trans _ _ _ _ _ Hres Hcurl)). within_budget.
        -- apply cost_of_browser_part in H.
           apply (spent_fits _ _ _ _
                    (spent_trans _ _ _ _ _ (spent_trans _ _ _ _ _ Hres Hcurl) H)).
           within_budget.
    + cbn [andb] in H. destruct (String.eqb (sciencedirectMode args) "curl").
      * state_of H.
        apply (spent_fits _ _ _ _ (spent_trans _ _ _ _ _ Hres Hcurl)). within_budget.
      * apply cost_of_browser_part in H.
        apply (spent_fits _ _ _ _
                 (spent_trans _ _ _ _ _ (spent_trans _ _ _ _ _ Hres Hcurl) H)).
        within_budget.
  - cbn [andb] in H. apply cost_of_browser_part in H.
    apply (spent_fits _ _ _ _ (spent_trans _ _ _ _ _ Hres H)). within_budget.
Qed.

Lemma cost_of_targets_loop :
  forall inputUrl args attempt targets errors lastPolicy st x st',
    targets_loop P W inputUrl args attempt targets errors lastPolicy st = (x, st') ->
    spent (times_budget (List.length targets) PER_TARGET) st st'.
Proof.
  intros inputUrl args attempt targets.
  induction targets as [|t rest IH]; intros errors lastPolicy st x st' H.
  - cbn in H. state_of H. apply spent_refl.
  - cbn [targets_loop] in H.
    destruct (try_target P W inputUrl args attempt t errors st)
      as [[[o'|errors' pol']|e] st1] eqn:Ht; apply cost_of_try_target in Ht.
    + state_of H. apply (spent_fits _ _ _ _ Ht). cbn [List.length]. within_budget.
    + apply IH in H. apply (spent_fits _ _ _ _ (spent_trans _ _ _ _ _ Ht H)).
      cbn [List.length]. within_budget.
    + state_of H. apply (spent_fits _ _ _ _ Ht). cbn [List.length]. within_budget.
Qed.

Lemma cost_of_attempts_loop :
  forall inputUrl args targets remaining attempt errors lastPolicy st x st',
    attempts_loop P W inputUrl args targets remaining attempt errors lastPolicy st
    = (x, st') ->
    spent (times_budget remaining (per_attempt (List.length targets))) st st'.
Proof.
  intros inputUrl args targets remaining.
  induction remaining as [|n IH]; intros attempt errors lastPolicy st x st' H.
  - cbn in H. state_of H. apply spent_refl.
  - cbn [attempts_loop] in H.
    destruct (targets_loop P W inputUrl args attempt targets errors lastPolicy st)
      as [[[o'|errors' pol']|e] st1] eqn:Ht; apply cost_of_targets_loop in Ht.
    + state_of H. apply (spent_fits _ _ _ _ Ht). within_budget.
    + apply IH in H.
      apply (spent_fits _ _ _ _
               (spent_trans _ _ _ _ _
                  (spent_trans _ _ _ _ _ Ht (spent_emit (EvSleep (backoffMs attempt)) st1))
                  H)).
      cbn [is_fetch is_curl is_open is_goto is_sleep]. within_budget.
    + state_of H. apply (spent_fits _ _ _ _ Ht). within_budget.
Qed.

Lemma cost_of_verifySingleUrl :
  forall inputUrl args st x st',
    verifySingleUrl P W inputUrl args st = (x, st') ->
    spent (times_budget (maxRetries args) (per_attempt 2)) st st'.
Proof.
  intros inputUrl args st x st' H. unfold verifySingleUrl in H.
  destruct (normalizeDoi inputUrl) as [canonical|e]; [|state_of H; apply spent_refl].
  cbv zeta in H. apply cost_of_attempts_loop in H.
  apply (spent_fits _ _ _ _ H).
  assert (Hlen := uniqueStrings_from_length [inputUrl; canonical] []).
  unfold uniqueStrings. cbn [List.length] in Hlen.
  unfold fits, per_attempt; unfold PER_TARGET.
  cbn [fetches curls pages navigations sleeps plus_budget times_budget].
  repeat split; apply Nat.mul_le_mono_l; lia.
Qed.
End CostOfRun.

(** Whatever the network answers, one call of [verifySingleUrl] performs at
    most two tracked-link resolutions, eight lightweight fetches, two page
    openings and two navigations per attempt and one back-off sleep per
    attempt, for at most [maxRetries] attempts; what it has done before is
    kept, and the set of final URLs only grows. *)
Theorem verifySingleUrl_stays_within_budget :
  forall (P : Platform) (W : World) inputUrl args st x st',
    verifySingleUrl P W inputUrl args st = (x, st') ->
    spent (MkBudget (maxRetries args * 2) (maxRetries args * 8)
                    (maxRetries args * 2) (maxRetries args * 2)
                    (maxRetries args))
          st st'.
Proof.
  intros P W inputUrl args st x st' H.
  apply (spent_fits _ _ _ _ (cost_of_verifySingleUrl P W _ _ _ _ _ H)).
  within_budget.
Qed.

Lemma verifySingleUrl_stays_within_budget_witness :
  spent (MkBudget (3 * 2) (3 * 8) (3 * 2) (3 * 2) 3)
        Sample.FRESH (snd Sample.ARTICLE_RUN).
Proof.
  apply (verifySingleUrl_stays_within_budget Plain.platform Sample.open_web
           Sample.ARTICLE Sample.ARGS Sample.FRESH (fst Sample.ARTICLE_RUN)).
  vm_compute. reflexivity.
Defined.

(** ** Giving up *)

Section GivingUp.
Variable P : Platform.
Variable W : World.

Lemma ok_of_excluded :
  forall inputUrl finalUrl policy reason resolved o,
    excluded inputUrl finalUrl policy reason resolved = Normal o -> ok o = true.
Proof.
  intros inputUrl finalUrl policy reason resolved o. unfold excluded.
  destruct (buildExcludedLinkRecord _ _ _ _ _) as [r|]; [|discriminate].
  cbn [bindC]. intros H. injection H as <-. reflexivity.
Qed.

Lemma ok_of_browser_try :
  forall inputUrl targetUrl resolved lastPolicy st o pol st',
    browser_try P W inputUrl targetUrl resolved lastPolicy st = (Returned o, pol, st') ->
    ok o = true.
Proof.
  intros inputUrl targetUrl resolved lastPolicy st o pol st'. unfold browser_try.
  destruct (navigate W _ targetUrl) as [n m|sig|pageUrl evaluated];
    [discriminate|discriminate|].
  cbv zeta.
  destruct (shouldSkipDuplicateFinalUrl P _ _ inputUrl).
  - destruct (excluded _ _ _ _ _) as [o'|] eqn:Ho; [|discriminate].
    intros H. injection H as <- _ _. exact (ok_of_excluded _ _ _ _ _ _ Ho).
  - destruct (classifyKnownNonArticleLink P _) as [reason|].
    + destruct (excluded _ _ _ _ _) as [o'|] eqn:Ho; [|discriminate].
      intros H. injection H as <- _ _. exact (ok_of_excluded _ _ _ _ _ _ Ho).
    + destruct evaluated as [n m|reading]; [discriminate|].
      destruct (buildRecordFromExtracted P _ inputUrl _) as [b|]; [|discriminate].
      intros H. injection H as <- _ _. reflexivity.
Qed.

Lemma ok_of_browser_part :
  forall inputUrl targetUrl resolved policy (errors : list ErrorEntry) attempt
         rawTargetUrl st o st',
    (let st2 := emit EvOpenPage st in
     if negb (open_page W (tick st)) then (Throw BrowserError, st2)
     else
       match browser_try P W inputUrl targetUrl resolved policy st2 with
       | (Returned o, _, st3) => (Normal (Return o), st3)
       | (Caught errorName message signals, lastPolicy, st3) =>
           (Normal
              (Next (errors ++
                     [MkErrorEntry "" attempt rawTargetUrl targetUrl
                        errorName message signals []
                        (rs_trackingResolutionError resolved)])%list
                    lastPolicy), st3)
       end) = (Normal (Return o), st') ->
    ok o = true.
Proof.
  intros inputUrl targetUrl resolved policy errors attempt rawTargetUrl st o st'.
  cbv zeta. destruct (negb (open_page W (tick st))); [discriminate|].
  destruct (browser_try P W _ _ _ _ _) as [[[o'|n m sig] pol] st3] eqn:Hb;
    [|discriminate].
  intros H. injection H as <- _. exact (ok_of_browser_try _ _ _ _ _ _ _ _ Hb).
Qed.

Lemma ok_of_try_target :
  forall inputUrl args attempt rawTargetUrl errors st o st',
    try_target P W inputUrl args attempt rawTargetUrl errors st
    = (Normal (Return o), st') ->
    ok o = true.
Proof.
  intros inputUrl args attempt rawTargetUrl errors st o st'. unfold try_target.
  destruct (classifyUnsafePreNavigationLink P rawTargetUrl "") as [reason|].
  { destruct (excluded _ _ _ _ _) as [o'|] eqn:Ho; cbn [bindC]; [|discriminate].
    intros H. injection H as <- _. exact (ok_of_excluded _ _ _ _ _ _ Ho). }
  destruct (resolveTrackedUrl P W rawTargetUrl args st) as [resolved st1].
  destruct (classifyUnsafePreNavigationLink P _ "") as [reason|].
  { destruct (excluded _ _ _ _ _) as [o'|] eqn:Ho; cbn [bindC]; [|discriminate].
    intros H. injection H as <- _. exact (ok_of_excluded _ _ _ _ _ _ Ho). }
  destruct (shouldSkipDuplicateFinalUrl P _ _ inputUrl).
  { destruct (excluded _ _ _ _ _) as [o'|] eqn:Ho; cbn [bindC]; [|discriminate].
    intros H. injection H as <- _. exact (ok_of_excluded _ _ _ _ _ _ Ho). }
  destruct (classifyKnownNonArticleLink P _) as [reason|].
  { destruct (excluded _ _ _ _ _) as [o'|] eqn:Ho; cbn [bindC]; [|discriminate].
    intros H. injection H as <- _. exact (ok_of_excluded _ _ _ _ _ _ Ho). }
  cbv zeta.
  match goal with
  | |- context [if ?b then match verifyScienceDirectViaCurl _ _ _ _ _ _ _ with _ => _ end
                else _] => destruct b eqn:Htry
  end.
  - destruct (verifyScienceDirectViaCurl P W _ _ _ _ _) as [[built|curlErrors] st2].
    + destruct (String.eqb (status built) "verified" || _ || _).
      * destruct (shouldSkipDuplicateFinalUrl P _ _ inputUrl).
        -- destruct (excluded _ _ _ _ _) as [o'|] eqn:Ho; cbn; [|discriminate].
           intros H. injection H as <- _. exact (ok_of_excluded _ _ _ _ _ _ Ho).
        -- cbn. intros H. injection H as <- _. reflexivity.
      * cbn [andb]. destruct (String.eqb (sciencedirectMode args) "curl");
          [discriminate|].
        apply ok_of_browser_part.
    + cbn [andb]. destruct (String.eqb (sciencedirectMode args) "curl");
        [discriminate|].
      apply ok_of_browser_part.
  - cbn [andb]. apply ok_of_browser_part.
Qed.

Lemma ok_of_targets_loop :
  forall inputUrl args attempt targets errors lastPolicy st o st',
    targets_loop P W inputUrl args attempt targets errors lastPolicy st
    = (Normal (Return o), st') ->
    ok o = true.
Proof.
  intros inputUrl args attempt targets.
  induction targets as [|t rest IH]; intros errors lastPolicy st o st'; simpl.
  - discriminate.
  - destruct (try_target P W inputUrl args attempt t errors st)
      as [[[o'|errors' pol']|e] st1] eqn:Ht.
    + intros H. injection H as <- _. exact (ok_of_try_target _ _ _ _ _ _ _ _ Ht).
    + apply IH.
    + discriminate.
Qed.

Lemma no_sleep_in_targets_loop :
  forall inputUrl args attempt targets errors lastPolicy st x st',
    targets_loop P W inputUrl args attempt targets errors lastPolicy st = (x, st') ->
    exists done,
      trace st' = (trace st ++ done)%list /\ List.filter is_sleep done = [].
Proof.
  intros inputUrl args attempt targets errors lastPolicy st x st' H.
  apply cost_of_targets_loop in H. destruct H as [[done [Htrace [_ [_ [_ [_ Hs]]]]]] _].
  exists done. split; [exact Htrace|].
  unfold count in Hs. cbn [times_budget sleeps PER_TARGET] in Hs.
  destruct (List.filter is_sleep done); [reflexivity|cbn in Hs; lia].
Qed.

Lemma failure_of_attempts_loop :
  forall inputUrl args targets remaining attempt errors lastPolicy st o st',
    attempts_loop P W inputUrl args targets remaining attempt errors lastPolicy st
    = (Normal o, st') ->
    ok o = false ->
    status (record o) = "not_verified"
    /\ ingestReason (record o) = "verification_failed"
    /\ exists done,
         trace st' = (trace st ++ done)%list
         /\ List.filter is_sleep done
            = List.map (fun a => EvSleep (backoffMs a)) (List.seq attempt remaining).
Proof.
  intros inputUrl args targets remaining.
  induction remaining as [|n IH]; intros attempt errors lastPolicy st o st' H Hok.
  - cbn [attempts_loop] in H. unfold buildVerificationFailureRecord in H.
    destruct (normalizeDoi inputUrl) as [d|]; [|discriminate H].
    cbn [bindC] in H. injection H as <- <-. cbn [record status ingestReason].
    split; [reflexivity|]. split; [reflexivity|].
    exists []. rewrite app_nil_r. split; reflexivity.
  - cbn [attempts_loop] in H.
    destruct (targets_loop P W inputUrl args attempt targets errors lastPolicy st)
      as [[[o'|errors' pol']|e] st1] eqn:Ht.
    + injection H as <- _. rewrite (ok_of_targets_loop _ _ _ _ _ _ _ _ _ Ht) in Hok.
      discriminate Hok.
    + destruct (no_sleep_in_targets_loop _ _ _ _ _ _ _ _ _ Ht) as [d1 [Ht1 Hs1]].
      destruct (IH _ _ _ _ _ _ H Hok) as [Hstatus [Hreason [d2 [Ht2 Hs2]]]].
      split; [exact Hstatus|]. split; [exact Hreason|].
      exists (d1 ++ [EvSleep (backoffMs attempt)] ++ d2)%list. split.
      * rewrite Ht2. cbn [emit trace]. rewrite Ht1. rewrite <- !app_assoc. reflexivity.
      * rewrite !filter_app, Hs1, Hs2. reflexivity.
    + discriminate H.
Qed.
End GivingUp.

(** [verifySingleUrl] reports a failure only after [maxRetries] attempts,
    each followed by its back-off sleep, the last one included; the record
    it then returns is not verified, with the reason verification_failed. *)
Theorem failure_comes_after_all_attempts :
  forall (P : Platform) (W : World) inputUrl args st o st',
    verifySingleUrl P W inputUrl args st = (Normal o, st') ->
    ok o = false ->
    status (record o) = "not_verified"
    /\ ingestReason (record o) = "verification_failed"
    /\ exists done,
         trace st' = (trace st ++ done)%list
         /\ List.filter is_sleep done
            = List.map (fun a => EvSleep (backoffMs a))
                       (List.seq 1 (maxRetries args)).
Proof.
  intros P W inputUrl args st o st' H Hok. unfold verifySingleUrl in H.
  destruct (normalizeDoi inputUrl) as [canonical|e]; [|discriminate H].
  exact (failure_of_attempts_loop P W _ _ _ _ _ _ _ _ _ _ H Hok).
Qed.

Lemma failure_comes_after_all_attempts_witness :
  exists o st',
    verifySingleUrl Plain.platform Sample.offline Sample.ARTICLE Sample.ARGS
                    Sample.FRESH = (Normal o, st')
    /\ status (record o) = "not_verified"
    /\ ingestReason (record o) = "verification_failed"
    /\ exists done,
         trace st' = (trace Sample.FRESH ++ done)%list
         /\ List.filter is_sleep done
            = [EvSleep 2000; EvSleep 5000; EvSleep 10000].
Proof.
  lazymatch eval vm_compute in
    (verifySingleUrl Plain.platform Sample.offline Sample.ARTICLE Sample.ARGS
                     Sample.FRESH) with
  | (Normal ?o, ?s) =>
      exists o, s;
      assert (Hr : verifySingleUrl Plain.platform Sample.offline Sample.ARTICLE
                     Sample.ARGS Sample.FRESH = (Normal o, s))
        by (vm_compute; reflexivity);
      split; [exact Hr|];
      exact (failure_comes_after_all_attempts Plain.platform Sample.offline
               _ _ _ _ _ Hr eq_refl)
  end.
Defined.

(** ** The choice of the abstract *)

(** The first element of a sorted list is beaten by no other, when the
    comparator is a strict order whose complement is transitive. *)
Section SortedHead.
Variable A : Type.
Variable before : A -> A -> bool.
Hypothesis before_asym : forall a b, before a b = true -> before b a = false.
Hypothesis before_neg_trans :
  forall a b c, before a b = false -> before b c = false -> before a c = false.

Lemma before_irrefl : forall a, before a a = false.
Proof.
  intros a. destruct (before a a) eqn:H; [|reflexivity].
  rewrite (before_asym a a H) in H. discriminate H.
Qed.

Lemma insert_head :
  forall x l h rest,
    insert before x l = h :: rest ->
    (forall y, In y l -> match l with
                         | [] => True
                         | h0 :: _ => before y h0 = false
                         end) ->
    forall y, In y (x :: l) -> before y h = false.
Proof.
  intros x l h rest Hins Hl y Hy. destruct l as [|h0 l'].
  - cbn in Hins. injection Hins as <- _. destruct Hy as [<-|[]]. apply before_irrefl.
  - cbn [insert] in Hins. destruct (before h0 x) eqn:Hb.
    + injection Hins as <- _. destruct Hy as [<-|Hy].
      * exact (before_asym _ _ Hb).
      * exact (Hl y Hy).
    + injection Hins as <- _. destruct Hy as [<-|Hy]; [apply before_irrefl|].
      exact (before_neg_trans _ _ _ (Hl y Hy) Hb).
Qed.

Lemma in_insert :
  forall x y l, In y (x :: l) -> In y (insert before x l).
Proof.
  intros x y. induction l as [|w l IH]; intros H; [exact H|].
  cbn [insert]. destruct (before w x).
  - destruct H as [H|[H|H]].
    + right. apply IH. left. exact H.
    + left. exact H.
    + right. apply IH. right. exact H.
  - exact H.
Qed.

Lemma in_sort : forall y l, In y l -> In y (sort before l).
Proof.
  intros y. induction l as [|x l IH]; intros H; [exact H|].
  cbn [sort]. apply in_insert. destruct H as [H|H]; [left; exact H|right; exact (IH H)].
Qed.

Lemma sort_head :
  forall l h rest,
    sort before l = h :: rest ->
    In h l /\ forall y, In y l -> before y h = false.
Proof.
  induction l as [|x l IH]; intros h rest H; [discriminate H|].
  cbn [sort] in H. split.
  - apply (sort_in _ before h (x :: l)). cbn [sort]. rewrite H. left. reflexivity.
  - assert (Hsorted : forall y, In y (sort before l) ->
                        match sort before l with
                        | [] => True
                        | h0 :: _ => before y h0 = false
                        end).
    { destruct (sort before l) as [|h0 r0] eqn:Hs; [intros y []|].
      destruct (IH h0 r0 eq_refl) as [_ Hmax]. intros y Hy. apply Hmax.
      apply (sort_in _ before y l). rewrite Hs. exact Hy. }
    intros y Hy. apply (insert_head x (sort before l) h rest H Hsorted y).
    destruct Hy as [Hy|Hy]; [left; exact Hy|right; exact (in_sort y l Hy)].
Qed.
End SortedHead.

Lemma scored_before_asym :
  forall a b, scored_before a b = true -> scored_before b a = false.
Proof.
  intros a b H. unfold scored_before in *.
  apply orb_true_iff in H. apply orb_false_iff.
  destruct H as [H|H].
  - apply Z.ltb_lt in H. split; [apply Z.ltb_ge; lia|].
    apply andb_false_iff. left. apply Z.eqb_neq. lia.
  - apply andb_true_iff in H. destruct H as [He Hl].
    apply Z.eqb_eq in He. apply Nat.ltb_lt in Hl.
    split; [apply Z.ltb_ge; lia|].
    apply andb_false_iff. right. apply Nat.ltb_ge. lia.
Qed.

Lemma scored_before_neg_trans :
  forall a b c,
    scored_before a b = false -> scored_before b c = false ->
    scored_before a c = false.
Proof.
  intros a b c H1 H2. unfold scored_before in *.
  apply orb_false_iff in H1. destruct H1 as [H1 H1'].
  apply orb_false_iff in H2. destruct H2 as [H2 H2'].
  apply Z.ltb_ge in H1. apply Z.ltb_ge in H2.
  apply orb_false_iff. split; [apply Z.ltb_ge; lia|].
  apply andb_false_iff.
  destruct (Z.eqb_spec (snd c) (snd a)) as [He|Hne]; [right|left; reflexivity].
  assert (Hbc : snd c = snd b) by lia. assert (Hab : snd b = snd a) by lia.
  apply andb_false_iff in H1'. apply andb_false_iff in H2'.
  destruct H1' as [H1'|H1']; [apply Z.eqb_neq in H1'; lia|].
  destruct H2' as [H2'|H2']; [apply Z.eqb_neq in H2'; lia|].
  apply Nat.ltb_ge in H1'. apply Nat.ltb_ge in H2'. apply Nat.ltb_ge. lia.
Qed.

Lemma normalize_local_empty :
  forall candidates seen,
    normalize_local candidates seen = [] ->
    forall c, In c candidates ->
      cleanAbstractLocal c = ""
      \/ In (Str.toLowerCase (cleanAbstractLocal c)) seen.
Proof.
  induction candidates as [|c0 candidates IH]; intros seen H c Hc; [destruct Hc|].
  cbn [normalize_local] in H. cbv zeta in H.
  destruct (Str.truthy (cleanAbstractLocal c0)) eqn:Ht; cbn [negb] in H.
  - destruct (mem_string _ seen) eqn:Hm; [|discriminate H].
    destruct Hc as [<-|Hc]; [right; apply mem_string_In; exact Hm|].
    exact (IH seen H c Hc).
  - destruct Hc as [<-|Hc]; [left; destruct (cleanAbstractLocal c0);
                              [reflexivity|discriminate Ht]|].
    exact (IH seen H c Hc).
Qed.

Lemma normalize_local_truthy :
  forall candidates seen t,
    In t (normalize_local candidates seen) -> t <> "".
Proof.
  induction candidates as [|c candidates IH]; intros seen t H; [destruct H|].
  cbn [normalize_local] in H. cbv zeta in H.
  destruct (Str.truthy (cleanAbstractLocal c)) eqn:Ht; cbn [negb] in H;
    [|exact (IH _ _ H)].
  destruct (mem_string _ seen); [exact (IH _ _ H)|].
  destruct H as [<-|H]; [apply truthy_iff; exact Ht|exact (IH _ _ H)].
Qed.

Lemma abstract_pool_in :
  forall candidates t,
    In t (abstract_pool candidates) -> In t (normalize_local candidates []).
Proof.
  intros candidates t. unfold abstract_pool. cbv zeta.
  destruct (List.filter _ (normalize_local candidates [])) as [|f fs] eqn:Hf;
    [tauto|].
  intros H. rewrite <- Hf in H. apply filter_In in H. apply H.
Qed.

Lemma chooseBestAbstractLocal_unfolded :
  forall candidates,
    chooseBestAbstractLocal candidates
    = match sort scored_before
              (List.map (fun text => (text, abstract_score text))
                        (abstract_pool candidates)) with
      | [] => ""
      | top :: _ => fst top
      end.
Proof.
  intros candidates. unfold chooseBestAbstractLocal, abstract_pool. cbv zeta.
  destruct (normalize_local candidates []); reflexivity.
Qed.

(** The abstract chosen in the page.  With no candidate left after cleaning
    it is empty.  Otherwise it is taken from the pool (the cleaned
    candidates without boilerplate terms, or all of them when each holds
    one), no text of the pool has a higher score, and none has the same
    score and a greater length; the texts of the pool are non-empty cleaned
    candidates. *)
Theorem chooseBestAbstractLocal_is_best :
  forall candidates,
    match abstract_pool candidates with
    | [] =>
        chooseBestAbstractLocal candidates = ""
        /\ forall c, In c candidates -> cleanAbstractLocal c = ""
    | _ :: _ =>
        In (chooseBestAbstractLocal candidates) (abstract_pool candidates)
        /\ (forall t,
              In t (abstract_pool candidates) ->
              (abstract_score t
               <= abstract_score (chooseBestAbstractLocal candidates))%Z
              /\ (abstract_score t
                  = abstract_score (chooseBestAbstractLocal candidates) ->
                  String.length t
                  <= String.length (chooseBestAbstractLocal candidates)))
        /\ (forall t,
              In t (abstract_pool candidates) ->
              t <> "" /\ exists c, In c candidates /\ t = cleanAbstractLocal c)
        /\ (forall t u,
              In t (abstract_pool candidates) ->
              In u (normalize_local candidates []) ->
              Re.test RE_BOILERPLATE t = true -> Re.test RE_BOILERPLATE u = true)
    end.
Proof.
  intros candidates. rewrite chooseBestAbstractLocal_unfolded.
  destruct (abstract_pool candidates) as [|p0 pool] eqn:Hpool.
  - split; [reflexivity|]. intros c Hc.
    assert (Hn : normalize_local candidates [] = []).
    { unfold abstract_pool in Hpool. cbv zeta in Hpool.
      destruct (List.filter _ (normalize_local candidates [])); [exact Hpool|].
      discriminate Hpool. }
    destruct (normalize_local_empty candidates [] Hn c Hc) as [H|[]]. exact H.
  - set (scored := List.map (fun text => (text, abstract_score text)) (p0 :: pool)).
    destruct (sort scored_before scored) as [|top rest] eqn:Hsort.
    { exfalso.
      assert (Hin : In (p0, abstract_score p0) (sort scored_before scored))
        by (apply in_sort; left; reflexivity).
      rewrite Hsort in Hin. destruct Hin. }
    destruct (sort_head _ scored_before scored_before_asym scored_before_neg_trans
                scored top rest Hsort) as [Htop Hmax].
    apply in_map_iff in Htop. destruct Htop as [t0 [<- Ht0]]. cbn [fst].
    split; [exact Ht0|]. split; [|split].
    + intros t Ht.
      assert (Hb := Hmax (t, abstract_score t)
                      (in_map (fun text => (text, abstract_score text)) _ t Ht)).
      unfold scored_before in Hb. cbn [fst snd] in Hb.
      apply orb_false_iff in Hb. destruct Hb as [Hlt Heq].
      apply Z.ltb_ge in Hlt. split; [exact Hlt|].
      intros He. apply andb_false_iff in Heq. destruct Heq as [Heq|Heq].
      * apply Z.eqb_neq in Heq. contradiction Heq. symmetry. exact He.
      * apply Nat.ltb_ge in Heq. exact Heq.
    + intros t Ht. rewrite <- Hpool in Ht. apply abstract_pool_in in Ht.
      split; [exact (normalize_local_truthy _ _ _ Ht)|].
      exact (normalize_local_in _ _ _ Ht).
    + intros t u Ht Hu Hb. unfold abstract_pool in Hpool. cbv zeta in Hpool.
      destruct (List.filter _ (normalize_local candidates [])) as [|f fs] eqn:Hf.
      * destruct (Re.test RE_BOILERPLATE u) eqn:Hub; [reflexivity|].
        assert (Hin : In u (List.filter
                              (fun text => negb (Re.test RE_BOILERPLATE text))
                              (normalize_local candidates [])))
          by (apply filter_In; split; [exact Hu|rewrite Hub; reflexivity]).
        rewrite Hf in Hin. destruct Hin.
      * rewrite <- Hpool, <- Hf in Ht. apply filter_In in Ht.
        destruct Ht as [_ Ht]. rewrite Hb in Ht. discriminate Ht.
Qed.

Lemma longer_asym :
  forall a b : string,
    Nat.ltb (String.length b) (String.length a) = true ->
    Nat.ltb (String.length a) (String.length b) = false.
Proof. intros a b H. apply Nat.ltb_lt in H. apply Nat.ltb_ge. lia. Qed.

Lemma longer_neg_trans :
  forall a b c : string,
    Nat.ltb (String.length b) (String.length a) = false ->
    Nat.ltb (String.length c) (String.length b) = false ->
    Nat.ltb (String.length c) (String.length a) = false.
Proof.
  intros a b c H1 H2. apply Nat.ltb_ge in H1. apply Nat.ltb_ge in H2.
  apply Nat.ltb_ge. lia.
Qed.

(** The abstract chosen on the lightweight fetch path is empty or one of the
    cleaned candidates; when a candidate has 80 code units or more, so has
    the abstract chosen; and when such a candidate holds no boilerplate
    term, neither does the abstract chosen, which is then at least as
    long. *)
Theorem chooseBestAbstract_is_longest :
  forall candidates texts,
    mapC normalizeAbstractText candidates = Normal texts ->
    exists chosen,
      chooseBestAbstract candidates = Normal chosen
      /\ (chosen = "" \/ In chosen (uniqueStrings texts))
      /\ forall t,
           In t (uniqueStrings texts) -> 80 <= String.length t ->
           80 <= String.length chosen
           /\ (Re.test RE_BOILERPLATE t = false ->
               Re.test RE_BOILERPLATE chosen = false
               /\ String.length t <= String.length chosen).
Proof.
  intros candidates texts Htexts. unfold chooseBestAbstract. rewrite Htexts.
  cbn [bindC]. cbv zeta.
  set (normalized := uniqueStrings texts).
  set (long := fun text : string => Nat.leb 80 (String.length text)).
  set (clean := fun text : string => negb (Re.test RE_BOILERPLATE text)).
  destruct (List.filter long normalized) as [|f0 fs] eqn:Hlong.
  - eexists. split; [reflexivity|]. split.
    + destruct normalized; [left; reflexivity|right; left; reflexivity].
    + intros t Ht Hlen. exfalso.
      assert (Hin : In t (List.filter long normalized))
        by (apply filter_In; split; [exact Ht|apply Nat.leb_le; exact Hlen]).
      rewrite Hlong in Hin. destruct Hin.
  - set (before := fun a b : string => Nat.ltb (String.length b) (String.length a)).
    assert (Hf0 : In f0 normalized /\ 80 <= String.length f0).
    { assert (Hin : In f0 (List.filter long normalized))
        by (rewrite Hlong; left; reflexivity).
      apply filter_In in Hin. destruct Hin as [Hin Hl].
      split; [exact Hin|apply Nat.leb_le; exact Hl]. }
    destruct (sort before (List.filter clean (f0 :: fs))) as [|top rest] eqn:Hsort.
    + eexists. split; [reflexivity|]. cbn [List.hd Str.or_else Str.truthy Str.is_empty negb].
      split; [right; apply Hf0|]. intros t Ht Hlen. split; [apply Hf0|].
      intros Hclean. exfalso.
      assert (Hin : In t (sort before (List.filter clean (f0 :: fs)))).
      { apply in_sort. apply filter_In. split.
        - rewrite <- Hlong. apply filter_In. split; [exact Ht|apply Nat.leb_le; exact Hlen].
        - unfold clean. rewrite Hclean. reflexivity. }
      rewrite Hsort in Hin. destruct Hin.
    + destruct (sort_head _ before longer_asym longer_neg_trans _ top rest Hsort)
        as [Htop Hmax].
      apply filter_In in Htop. destruct Htop as [Htop Hclean].
      rewrite <- Hlong in Htop. apply filter_In in Htop. destruct Htop as [Hin Hl].
      apply Nat.leb_le in Hl.
      assert (Htruthy : Str.truthy top = true)
        by (destruct top; [cbn in Hl; lia|reflexivity]).
      exists top. cbn [List.hd]. unfold Str.or_else. rewrite Htruthy.
      split; [reflexivity|]. split; [right; exact Hin|].
      intros t Ht Hlen. split; [exact Hl|]. intros Htclean.
      split; [unfold clean in Hclean; apply negb_true_iff in Hclean; exact Hclean|].
      assert (Hb : before t top = false).
      { apply Hmax. apply filter_In. split.
        - rewrite <- Hlong. apply filter_In. split; [exact Ht|apply Nat.leb_le; exact Hlen].
        - unfold clean. rewrite Htclean. reflexivity. }
      unfold before in Hb. apply Nat.ltb_ge in Hb. exact Hb.
Qed.

Lemma chooseBestAbstract_is_longest_witness :
  exists chosen,
    chooseBestAbstract [Sample.ABSTRACT ++ "..."; "<p>" ++ Sample.FULL_ABSTRACT ++ "</p>"]
    = Normal chosen
    /\ (chosen = ""
        \/ In chosen (uniqueStrings [Sample.ABSTRACT ++ "..."; Sample.FULL_ABSTRACT]))
    /\ forall t,
         In t (uniqueStrings [Sample.ABSTRACT ++ "..."; Sample.FULL_ABSTRACT]) ->
         80 <= String.length t ->
         80 <= String.length chosen
         /\ (Re.test RE_BOILERPLATE t = false ->
             Re.test RE_BOILERPLATE chosen = false
             /\ String.length t <= String.length chosen).
Proof.
  apply (chooseBestAbstract_is_longest
           [Sample.ABSTRACT ++ "..."; "<p>" ++ Sample.FULL_ABSTRACT ++ "</p>"]
           [Sample.ABSTRACT ++ "..."; Sample.FULL_ABSTRACT]).
  vm_compute. reflexivity.
Defined.

(* ------------------------------------------------------------------ *)
(** ** Host patterns *)

Lemma host_char_is_lower_case :
  forall d, host_char d = true -> Char.to_lower d = d.
Proof. by_code_unit. Qed.

Lemma lowered_letter_or_same :
  forall c,
    Ascii.eqb (Char.to_lower c) c
    || Char.alpha (Char.to_lower c)
    || negb (host_char (Char.to_lower c)) = true.
Proof. by_code_unit. Qed.

Lemma host_char_ci :
  forall d c, host_char d = true -> Char.ci d c = Ascii.eqb d (Char.to_lower c).
Proof.
  intros d c Hd. unfold Char.ci. rewrite (host_char_is_lower_case d Hd).
  destruct (Char.alpha d) eqn:Halpha; [apply andb_true_r|]. cbn [orb].
  destruct (Ascii.eqb d c) eqn:Hdc.
  - apply Ascii.eqb_eq in Hdc. subst c.
    rewrite (host_char_is_lower_case d Hd). rewrite Ascii.eqb_refl. reflexivity.
  - rewrite andb_false_r. symmetry. apply Ascii.eqb_neq. intros Heq.
    pose proof (lowered_letter_or_same c) as H. rewrite <- Heq in H.
    rewrite Halpha, Hd in H. cbn [negb] in H. rewrite !orb_false_r in H.
    rewrite H in Hdc. discriminate Hdc.
Qed.

Lemma dot_is_lower_case : forall c, Char.to_lower c = "."%char -> c = "."%char.
Proof. by_code_unit. Qed.

Lemma ci_whole_cons :
  forall x d c s,
    ci_whole (String x d) (String c s) = Char.ci x c && ci_whole d s.
Proof.
  intros x d c s. unfold ci_whole. cbn [ci_strip].
  destruct (Char.ci x c); reflexivity.
Qed.

Lemma ci_whole_lower :
  forall d, Str.forallb host_char d = true ->
  forall s, ci_whole d s = String.eqb (Str.toLowerCase s) d.
Proof.
  induction d as [|x d IH]; intros Hd s.
  - destruct s; reflexivity.
  - cbn [Str.forallb] in Hd. apply andb_true_iff in Hd. destruct Hd as [Hx Hd].
    destruct s as [|c s]; [reflexivity|].
    rewrite ci_whole_cons. rewrite (host_char_ci x c Hx). rewrite (IH Hd s).
    unfold Str.toLowerCase. cbn [Str.map String.eqb].
    rewrite (Ascii.eqb_sym x). destruct (Ascii.eqb (Char.to_lower c) x); reflexivity.
Qed.

Lemma run_liti :
  forall (R : Type) d prev s cap (k : Re.cont R),
    (forall p1 p2 s1 c1, k p1 s1 c1 = k p2 s1 c1) ->
    Re.run (liti d) prev s cap k
    = match ci_strip d s with
      | Some rest => k None rest cap
      | None => None
      end.
Proof.
  intros R. induction d as [|x d IH]; intros prev s cap k Hk.
  - cbn [liti Re.run ci_strip]. apply Hk.
  - destruct d as [|y d].
    + cbn [liti Re.run ci_strip]. destruct s as [|c s]; [reflexivity|].
      destruct (Char.ci x c); [apply Hk|reflexivity].
    + change (liti (String x (String y d)))
        with (Seq (Chr (Char.ci x)) (liti (String y d))).
      cbn [Re.run]. cbn [ci_strip]. destruct s as [|c s]; [reflexivity|].
      destruct (Char.ci x c); [|reflexivity].
      rewrite (IH (Some c) s cap k Hk). reflexivity.
Qed.

Lemma run_domain_to_end :
  forall d prev s cap,
    Re.run (Seq (liti d) Eol) prev s cap
           (fun _ s1 c1 => Some (s1, c1))
    = if ci_whole d s then Some ("", cap) else None.
Proof.
  intros d prev s cap. cbn [Re.run].
  rewrite run_liti by (intros p1 p2 s1 c1; destruct s1; reflexivity).
  unfold ci_whole. destruct (ci_strip d s) as [[|c rest]|]; reflexivity.
Qed.

Lemma at_pos_host :
  forall d prev s,
    found (Re.at_pos (host_re_i d) prev s)
    = match prev with None => ci_whole d s | Some _ => false end
      || match s with
         | String c s' => Char.eq "." c && ci_whole d s'
         | EmptyString => false
         end.
Proof.
  intros d prev s. unfold Re.at_pos.
  change (host_re_i d) with (Seq (Alt Bol (Chr (Char.eq "."))) (Seq (liti d) Eol)).
  pose proof (run_domain_to_end d) as E.
  cbn [Re.run] in E |- *. unfold Re.orelse.
  destruct prev as [p|].
  - destruct s as [|c s]; [reflexivity|].
    destruct (Char.eq "." c); [|reflexivity].
    rewrite E. cbn [andb orb].
    destruct (ci_whole d s); reflexivity.
  - rewrite E. destruct (ci_whole d s); [reflexivity|].
    destruct s as [|c s]; [reflexivity|].
    destruct (Char.eq "." c); [|reflexivity].
    rewrite E. destruct (ci_whole d s); reflexivity.
Qed.

Lemma found_search_from :
  forall r prev s pre,
    found (Re.search_from r prev s pre)
    = found (Re.at_pos r prev s)
      || match s with
         | String c s' => found (Re.search_from r (Some c) s' (String c pre))
         | EmptyString => false
         end.
Proof.
  intros r prev s pre. destruct s as [|c s]; cbn [Re.search_from];
    destruct (Re.at_pos r prev _) as [[[m rest] cap]|]; reflexivity.
Qed.

Lemma search_host_inside :
  forall d s p pre,
    found (Re.search_from (host_re_i d) (Some p) s pre) = has_dot_suffix d s.
Proof.
  intros d. induction s as [|c s IH]; intros p pre.
  - rewrite found_search_from, at_pos_host. reflexivity.
  - rewrite found_search_from, at_pos_host, IH. reflexivity.
Qed.

Lemma test_host :
  forall d s, Re.test (host_re_i d) s = ci_whole d s || has_dot_suffix d s.
Proof.
  intros d s. change (Re.test (host_re_i d) s)
    with (found (Re.search_from (host_re_i d) None s "")).
  rewrite found_search_from, at_pos_host. destruct s as [|c s].
  - rewrite !orb_false_r. reflexivity.
  - rewrite search_host_inside. cbn [has_dot_suffix].
    destruct (ci_whole d (String c s)); reflexivity.
Qed.

Lemma has_dot_suffix_spec :
  forall d, Str.forallb host_char d = true ->
  forall s,
    has_dot_suffix d s = true
    <-> exists sub, Str.toLowerCase s = sub ++ "." ++ d.
Proof.
  intros d Hd. induction s as [|c s IH].
  - split; [discriminate|]. intros [sub H]. destruct sub; discriminate H.
  - cbn [has_dot_suffix]. rewrite orb_true_iff, andb_true_iff, IH.
    rewrite (ci_whole_lower d Hd). rewrite String.eqb_eq.
    unfold Str.toLowerCase. cbn [Str.map]. split.
    + intros [[Hc Hs]|[sub Hs]].
      * apply Ascii.eqb_eq in Hc. subst c. exists "".
        unfold Str.toLowerCase in Hs. rewrite Hs. reflexivity.
      * exists (String (Char.to_lower c) sub).
        unfold Str.toLowerCase in Hs. rewrite Hs. reflexivity.
    + intros [sub Hs]. destruct sub as [|x sub].
      * injection Hs as Hc Hs. left. split; [|exact Hs].
        apply dot_is_lower_case in Hc. subst c. reflexivity.
      * injection Hs as Hc Hs. right. exists sub. exact Hs.
Qed.

Lemma test_host_re_i :
  forall d, Str.forallb host_char d = true ->
  forall host, Re.test (host_re_i d) host = true <-> in_domain d host.
Proof.
  intros d Hd host. rewrite test_host, orb_true_iff.
  rewrite (ci_whole_lower d Hd), String.eqb_eq, (has_dot_suffix_spec d Hd).
  reflexivity.
Qed.

Lemma tracking_domains_are_names :
  forall d, In d TRACKING_DOMAINS -> Str.forallb host_char d = true.
Proof.
  intros d Hd. unfold TRACKING_DOMAINS in Hd. cbn [In] in Hd.
  repeat (destruct Hd as [<-|Hd]; [reflexivity|]). destruct Hd.
Qed.

(** A link is a tracking link exactly when the host name of its URL, in
    lower case, is one of the seven tracking domains or a subdomain of
    one of them. *)
Theorem isTrackingUrl_iff_tracking_domain :
  forall (P : Platform) rawUrl,
    isTrackingUrl P rawUrl = true
    <-> exists domain,
          In domain TRACKING_DOMAINS /\ in_domain domain (hostForUrl P rawUrl).
Proof.
  intros P rawUrl. unfold isTrackingUrl. cbv zeta.
  change TRACKING_HOST_PATTERNS with (List.map host_re_i TRACKING_DOMAINS).
  rewrite existsb_exists. split.
  - intros [pattern [Hin Htest]]. apply in_map_iff in Hin.
    destruct Hin as [d [<- Hd]]. exists d. split; [exact Hd|].
    apply (test_host_re_i d (tracking_domains_are_names d Hd)). exact Htest.
  - intros [d [Hd Hin]]. exists (host_re_i d). split.
    + apply in_map. exact Hd.
    + apply (test_host_re_i d (tracking_domains_are_names d Hd)). exact Hin.
Qed.

Lemma star_loop_total :
  forall (a : Re.matcher (string * option string)) fuel prev s cap,
    found (Re.star_loop a (fun _ s1 c1 => Some (s1, c1)) fuel prev s cap) = true.
Proof.
  intros a fuel prev s cap. destruct fuel as [|fuel]; [reflexivity|].
  cbn [Re.star_loop]. unfold Re.orelse.
  destruct (a prev s cap _); reflexivity.
Qed.

Lemma test_any_host : forall s, Re.test (Star (Chr Char.dot)) s = true.
Proof.
  intros s. change (Re.test (Star (Chr Char.dot)) s)
    with (found (Re.search_from (Star (Chr Char.dot)) None s "")).
  rewrite found_search_from. apply orb_true_iff. left.
  unfold Re.at_pos. cbn [Re.run].
  pose proof (star_loop_total (Re.run (Chr Char.dot)) (String.length s) None s None) as H.
  destruct (Re.star_loop _ _ _ _ _ _) as [[s1 c1]|]; [reflexivity|discriminate H].
Qed.

Ltac by_domain d host :=
  let H := fresh "Hdomain" in
  let E := fresh "Etest" in
  pose proof (test_host_re_i d eq_refl host) as H;
  destruct (Re.test (host_re_i d) host) eqn:E.

Ltac named_policy H :=
  split;
  [ let domain := fresh "domain" in
    let Hin := fresh "Hin" in
    intros domain Hin; cbn [In PUBLISHER_DOMAINS name] in Hin;
    repeat (destruct Hin as [Hin|Hin];
            [first [discriminate Hin
                   | injection Hin as <-; apply H; reflexivity]|]);
    destruct Hin
  | split;
    [ let Hn := fresh in intros Hn; discriminate Hn
    | let Hnone := fresh in
      intros Hnone; exfalso;
      refine (Hnone _ _ (proj1 H eq_refl));
      cbn [PUBLISHER_DOMAINS List.map snd In]; tauto ] ].

(** The policy applied to a URL is chosen by the host name alone: a policy
    written for a publisher domain is applied only to that domain and its
    subdomains, and the default policy exactly to the hosts of none of the
    eight domains. *)
Theorem policyForUrl_by_host :
  forall (P : Platform) rawUrl,
    (forall domain,
        In (name (policyForUrl P rawUrl), domain) PUBLISHER_DOMAINS ->
        in_domain domain (hostForUrl P rawUrl))
    /\ (name (policyForUrl P rawUrl) = "default"
        <-> forall domain,
              In domain (List.map snd PUBLISHER_DOMAINS) ->
              ~ in_domain domain (hostForUrl P rawUrl)).
Proof.
  intros P rawUrl. unfold policyForUrl, hostForUrl. cbv zeta.
  set (host := match parseURL P rawUrl with Some u => hostname u | None => "" end).
  unfold DOMAIN_POLICIES. cbn [List.find hostPattern].
  by_domain "pubsonline.informs.org" host; [named_policy Hdomain|].
  by_domain "journals.sagepub.com" host; [named_policy Hdomain0|].
  by_domain "onlinelibrary.wiley.com" host; [named_policy Hdomain1|].
  by_domain "link.springer.com" host; [named_policy Hdomain2|].
  by_domain "sciencedirect.com" host; [named_policy Hdomain3|].
  by_domain "academic.oup.com" host; [named_policy Hdomain4|].
  by_domain "journals.aom.org" host; [named_policy Hdomain5|].
  by_domain "doi.org" host; [named_policy Hdomain6|].
  unfold DEFAULT_POLICY. cbn [hostPattern]. rewrite test_any_host. cbn [name].
  split.
  - intros domain Hin. cbn [In PUBLISHER_DOMAINS] in Hin.
    repeat (destruct Hin as [Hin|Hin]; [discriminate Hin|]). destruct Hin.
  - split; [|reflexivity]. intros _ domain Hin.
    cbn [PUBLISHER_DOMAINS List.map snd In] in Hin. intros Hd.
    repeat (destruct Hin as [<-|Hin];
            [match goal with
             | H : false = true <-> in_domain ?d host |- _ =>
                 match type of Hd with
                 | in_domain d host => apply H in Hd; discriminate Hd
                 end
             end|]).
    destruct Hin.
Qed.

(* ------------------------------------------------------------------ *)
(** ** The capture of a pattern that ends with its group *)

Lemma at_pos_seq_group :
  forall a b prev s m rest c,
    Re.at_pos (Seq a (Grp b)) prev s = Some (m, rest, c) ->
    exists m1 g,
      m = m1 ++ g /\ c = Some g
      /\ accepts a prev m1 (g ++ rest)
      /\ accepts b (last_or prev m1) g rest.
Proof.
  intros a b prev s m rest c H. unfold Re.at_pos in H.
  destruct (Re.run (Seq a (Grp b)) prev s None (fun _ s1 c1 => Some (s1, c1)))
    as [[s2 c2]|] eqn:Hrun; [|discriminate H].
  injection H as <- <- <-.
  change (Re.run (Seq a (Grp b)) prev s None (fun _ s1 c1 => Some (s1, c1)))
    with (Re.run a prev s None
            (fun p1 s1 c1 =>
               Re.run b p1 s1 c1
                 (fun _ s3 _ =>
                    Some (s3, Some (Str.take (String.length s1 - String.length s3) s1)))))
    in Hrun.
  apply run_sound in Hrun. destruct Hrun as [m1 [s1 [c1 [Hs [Ha Hrun]]]]].
  apply run_sound in Hrun. destruct Hrun as [g [s3 [c3 [Hs1 [Hb Hk]]]]].
  injection Hk as <- <-. subst s1 s.
  exists m1, g. rewrite take_app. rewrite <- app_assoc_s. rewrite take_app.
  repeat split; assumption.
Qed.

Lemma search_from_at_pos :
  forall r s prev pre h,
    Re.search_from r prev s pre = Some h ->
    exists prev' s',
      Re.at_pos r prev' s' = Some (Re.matched h, Re.after h, Re.group h).
Proof.
  intros r. induction s as [|c s IH]; intros prev pre h H; cbn [Re.search_from] in H.
  - destruct (Re.at_pos r prev "") as [[[m rest] cap]|] eqn:Hat; [|discriminate H].
    injection H as <-. exists prev, "". exact Hat.
  - destruct (Re.at_pos r prev (String c s)) as [[[m rest] cap]|] eqn:Hat.
    + injection H as <-. exists prev, (String c s). exact Hat.
    + exact (IH _ _ _ H).
Qed.

(** ** The ScienceDirect article identifier *)

Lemma pii_of_path :
  forall path m,
    Re.exec RE_PII_PATH path = Some m ->
    exists g, Re.group m = Some g /\ g <> "" /\ Str.forallb Char.alnum g = true.
Proof.
  intros path m H. unfold Re.exec in H. apply search_from_at_pos in H.
  destruct H as [prev [s H]].
  change RE_PII_PATH
    with (Seq (liti "/science/article/pii/") (Grp (Plus (Chr Char.alnum)))) in H.
  apply at_pos_seq_group in H. destruct H as [m1 [g [_ [Hg [_ Hb]]]]].
  apply accepts_plus_class in Hb. exists g. repeat split; [exact Hg|apply Hb|apply Hb].
Qed.

Lemma scienceDirectPii_cases :
  forall (P : Platform) rawUrl,
    Str.forallb Char.alnum (scienceDirectPiiFromUrl P rawUrl) = true.
Proof.
  intros P rawUrl. unfold scienceDirectPiiFromUrl.
  destruct (parseURL P rawUrl) as [u|]; [|reflexivity]. cbv zeta.
  destruct (Re.exec RE_PII_PATH (pathname u)) as [m|] eqn:Hexec.
  - destruct (pii_of_path _ _ Hexec) as [g [-> [Hne Hall]]].
    assert (Ht : Str.truthy g = true) by (destruct g; [contradiction|reflexivity]).
    rewrite Ht. exact Hall.
  - cbn [Str.truthy Str.is_empty negb].
    match goal with
    | |- Str.forallb _ (if ?b then _ else _) = true => destruct b
    end; [apply forallb_filter|reflexivity].
Qed.

(** The article identifier read from a ScienceDirect URL consists of ASCII
    letters and digits only, whether it comes from the path or from the
    query; the canonical article URL is the URL given or the fixed article
    prefix followed by such an identifier. *)
Theorem scienceDirectPii_is_alphanumeric :
  forall (P : Platform) rawUrl,
    Str.forallb Char.alnum (scienceDirectPiiFromUrl P rawUrl) = true
    /\ (canonicalScienceDirectArticleUrl P rawUrl = rawUrl
        \/ exists pii,
             pii <> "" /\ Str.forallb Char.alnum pii = true
             /\ canonicalScienceDirectArticleUrl P rawUrl
                = "https://www.sciencedirect.com/science/article/pii/" ++ pii).
Proof.
  intros P rawUrl. split; [apply scienceDirectPii_cases|].
  unfold canonicalScienceDirectArticleUrl. cbv zeta.
  pose proof (scienceDirectPii_cases P rawUrl) as Hall.
  destruct (scienceDirectPiiFromUrl P rawUrl) as [|c pii] eqn:Hpii.
  - left. reflexivity.
  - right. exists (String c pii). repeat split; [discriminate|exact Hall].
Qed.

(* ------------------------------------------------------------------ *)
(** ** Text without markup *)

Lemma every_code_unit_spec :
  forall p, every_code_unit p = true -> forall c, p c = true.
Proof.
  intros p H c. unfold every_code_unit in H.
  rewrite forallb_forall in H.
  rewrite <- (ascii_nat_embedding c). apply H.
  apply in_seq. pose proof (nat_ascii_bounded c). lia.
Qed.

Lemma starts_in_sound :
  forall p r, starts_in p r = true ->
  forall prev m rest,
    accepts r prev m rest -> exists c m', m = String c m' /\ p c = true.
Proof.
  intros p. induction r as [|q|a IHa b IHb|a IHa b IHb|a IHa|a IHa|lo hi a IHa|a IHa| | |];
    intros Hr prev m rest Hm; try discriminate Hr.
  - destruct Hm as [c [-> Hc]]. exists c, "". split; [reflexivity|].
    cbn [starts_in] in Hr.
    pose proof (every_code_unit_spec _ Hr c) as H. cbv beta in H.
    rewrite Hc in H. exact H.
  - destruct Hm as [m1 [m2 [-> [Ha _]]]].
    destruct (IHa Hr _ _ _ Ha) as [c [m' [-> Hc]]].
    exists c, (m' ++ m2). split; [reflexivity|exact Hc].
  - cbn [starts_in] in Hr. apply andb_true_iff in Hr.
    destruct Hm as [Hm|Hm]; [exact (IHa (proj1 Hr) _ _ _ Hm)|exact (IHb (proj2 Hr) _ _ _ Hm)].
  - exact (IHa Hr _ _ _ Hm).
Qed.

Section FirstCodeUnit.
Variable p : ascii -> bool.
Variable r : re.
Hypothesis r_starts : starts_in p r = true.

Lemma at_pos_needs_first :
  forall prev t, Str.existsb p t = false -> Re.at_pos r prev t = None.
Proof.
  intros prev t Ht. destruct (Re.at_pos r prev t) as [[[m rest] cap]|] eqn:Hat;
    [|reflexivity].
  apply at_pos_sound in Hat. destruct Hat as [-> Hm].
  destruct (starts_in_sound p r r_starts _ _ _ Hm) as [c [m' [-> Hc]]].
  cbn [String.append Str.existsb] in Ht. rewrite Hc in Ht. discriminate Ht.
Qed.

Lemma replace_all_needs_first :
  forall by_ s, Str.existsb p s = false -> Re.replace_all r by_ s = s.
Proof.
  intros by_ s Hs.
  exact (replace_all_misses r (fun t => Str.existsb p t = false)
           (free_tail p) at_pos_needs_first by_ s Hs).
Qed.

Lemma replace_allC_needs_first :
  forall f s, Str.existsb p s = false -> replace_all_withC r f s = Normal s.
Proof.
  intros f s Hs. unfold replace_all_withC. cbn [replace_all_fromC].
  rewrite (search_misses r (fun t => Str.existsb p t = false)
             (free_tail p) at_pos_needs_first s None "" Hs).
  reflexivity.
Qed.
End FirstCodeUnit.

Lemma free_of_markup :
  forall s, Str.existsb markup s = false ->
    Str.existsb (Char.eq "<") s = false /\ Str.existsb (Char.eq "&") s = false.
Proof.
  induction s as [|c s IH]; intros H; [split; reflexivity|].
  cbn [Str.existsb] in H |- *. apply orb_false_iff in H. destruct H as [Hc Hs].
  destruct (IH Hs) as [-> ->]. unfold markup, Char.one_of in Hc.
  unfold Char.eq. apply orb_false_iff in Hc. destruct Hc as [-> Hc].
  apply orb_false_iff in Hc. destruct Hc as [-> _]. split; reflexivity.
Qed.

Ltac finds_nothing p Hs :=
  match goal with
  | |- context [Re.replace_all ?r ?by_ ?s] =>
      rewrite (replace_all_needs_first p r ltac:(vm_compute; reflexivity) by_ s Hs)
  | |- context [replace_all_withC ?r ?f ?s] =>
      rewrite (replace_allC_needs_first p r ltac:(vm_compute; reflexivity) f s Hs)
  end.

Lemma stripHtmlTags_plain :
  forall s, Str.existsb (Char.eq "<") s = false -> stripHtmlTags s = s.
Proof.
  intros s Hs. unfold stripHtmlTags. cbv zeta.
  do 3 finds_nothing (Char.eq "<") Hs. reflexivity.
Qed.

Lemma decodeHtmlEntities_plain :
  forall s, Str.existsb (Char.eq "&") s = false -> decodeHtmlEntities s = Normal s.
Proof.
  intros s Hs. unfold decodeHtmlEntities. cbv zeta.
  do 6 finds_nothing (Char.eq "&") Hs. cbn [bindC].
  finds_nothing (Char.eq "&") Hs. reflexivity.
Qed.

(** Text that holds neither [<] nor [&] passes the tag stripper and the
    entity decoder unchanged; cleaning an abstract candidate of that kind
    does not fail and only normalises the white space and removes the
    leading label. *)
Theorem text_without_markup_is_kept :
  forall s,
    Str.existsb markup s = false ->
    stripHtmlTags s = s
    /\ decodeHtmlEntities s = Normal s
    /\ normalizeAbstractText s
       = Normal (Str.trim (Re.replace RE_ABSTRACT_LABEL "" (cleanText s))).
Proof.
  intros s Hs. destruct (free_of_markup s Hs) as [Htag Hamp].
  split; [exact (stripHtmlTags_plain s Htag)|].
  split; [exact (decodeHtmlEntities_plain s Hamp)|].
  unfold normalizeAbstractText. rewrite (stripHtmlTags_plain s Htag).
  rewrite (decodeHtmlEntities_plain s Hamp). cbn [bindC]. cbv zeta.
  destruct (cleanText s) as [|c t]; reflexivity.
Qed.

Lemma text_without_markup_is_kept_witness :
  Str.existsb markup ("Abstract:  " ++ Sample.ABSTRACT) = false
  /\ stripHtmlTags ("Abstract:  " ++ Sample.ABSTRACT) = "Abstract:  " ++ Sample.ABSTRACT
  /\ decodeHtmlEntities ("Abstract:  " ++ Sample.ABSTRACT)
     = Normal ("Abstract:  " ++ Sample.ABSTRACT)
  /\ normalizeAbstractText ("Abstract:  " ++ Sample.ABSTRACT)
     = Normal (Str.trim (Re.replace RE_ABSTRACT_LABEL ""
                           (cleanText ("Abstract:  " ++ Sample.ABSTRACT)))).
Proof.
  split; [vm_compute; reflexivity|].
  apply (text_without_markup_is_kept ("Abstract:  " ++ Sample.ABSTRACT)).
  vm_compute. reflexivity.
Defined.

(* ------------------------------------------------------------------ *)
(** ** The object literal behind a marker *)

Lemma prefix_split :
  forall p s, String.prefix p s = true -> s = p ++ Str.drop (String.length p) s.
Proof.
  induction p as [|a p IH]; intros s H; [destruct s; reflexivity|].
  destruct s as [|b s]; [discriminate H|]. cbn [String.prefix] in H.
  destruct (ascii_dec a b) as [<-|]; [|discriminate H].
  cbn [String.length Str.drop String.append]. rewrite <- (IH s H). reflexivity.
Qed.

Lemma drop_app :
  forall a b n, Str.drop (String.length a + n) (a ++ b) = Str.drop n b.
Proof.
  induction a as [|c a IH]; intros b n; [reflexivity|].
  cbn [String.length Nat.add String.append Str.drop]. apply IH.
Qed.

Lemma take_length_app :
  forall a b, Str.take (String.length a) (a ++ b) = a.
Proof.
  induction a as [|c a IH]; intros b; [destruct b; reflexivity|].
  cbn [String.length String.append Str.take]. rewrite IH. reflexivity.
Qed.

Lemma index_of_split :
  forall p s i,
    index_of p s = Some i ->
    exists pre post, s = pre ++ p ++ post /\ String.length pre = i.
Proof.
  intros p. induction s as [|c s IH]; intros i H; cbn [index_of] in H.
  - destruct (String.prefix p "") eqn:Hp; [|discriminate H].
    injection H as <-. exists "", (Str.drop (String.length p) "").
    split; [exact (prefix_split p "" Hp)|reflexivity].
  - destruct (String.prefix p (String c s)) eqn:Hp.
    + injection H as <-. exists "", (Str.drop (String.length p) (String c s)).
      split; [exact (prefix_split p _ Hp)|reflexivity].
    + destruct (index_of p s) as [j|] eqn:Hj; [|discriminate H].
      injection H as <-. destruct (IH j eq_refl) as [pre [post [-> <-]]].
      exists (String c pre), post. split; reflexivity.
Qed.

Lemma index_of_brace :
  forall s i,
    index_of "{" s = Some i ->
    exists gap post,
      s = gap ++ "{" ++ post /\ String.length gap = i
      /\ Str.existsb (Char.eq "{") gap = false.
Proof.
  induction s as [|c s IH]; intros i H; [discriminate H|].
  cbn [index_of String.prefix] in H.
  destruct (ascii_dec "{" c) as [<-|Hc].
  - replace (String.prefix "" s) with true in H by (destruct s; reflexivity).
    injection H as <-. exists "", s. repeat split.
  - destruct (index_of "{" s) as [j|] eqn:Hj; [|discriminate H].
    injection H as <-. destruct (IH j eq_refl) as [gap [post [-> [<- Hgap]]]].
    exists (String c gap), post. repeat split.
    cbn [Str.existsb]. rewrite Hgap. unfold Char.eq.
    apply Ascii.eqb_neq in Hc. rewrite Hc. reflexivity.
Qed.

Lemma turn_returns :
  forall st ch, turn st ch = Return_ -> ch = "}"%char.
Proof.
  intros st ch H. unfold turn in H.
  destruct (inString st).
  - destruct (escaped st); [discriminate H|].
    destruct (Char.eq "\" ch); [discriminate H|].
    destruct (match quote st with Some q => Ascii.eqb ch q | None => false end);
      discriminate H.
  - destruct (Char.eq double_quote ch || Char.eq "'" ch); [discriminate H|].
    destruct (Char.eq "{" ch); [discriminate H|].
    destruct (Char.eq "}" ch) eqn:Hch; [|discriminate H].
    symmetry. apply Ascii.eqb_eq. exact Hch.
Qed.

(** The loop returns at a closing brace, and what follows it plays no
    part. *)
Lemma scan_returns :
  forall s st i j,
    scan st s i = Some j ->
    exists t rest,
      s = t ++ "}" ++ rest /\ j = i + String.length t
      /\ forall i', scan st (t ++ "}") i' = Some (i' + String.length t).
Proof.
  induction s as [|ch s IH]; intros st i j H; [discriminate H|].
  cbn [scan] in H. destruct (turn st ch) as [st'|] eqn:Hturn.
  - destruct (IH st' (S i) j H) as [t [rest [-> [-> Hagain]]]].
    exists (String ch t), rest. split; [reflexivity|].
    split; [cbn [String.length]; lia|].
    intros i'. cbn [String.append scan]. rewrite Hturn. rewrite Hagain.
    cbn [String.length]. f_equal. lia.
  - injection H as <-. pose proof (turn_returns st ch Hturn) as ->.
    exists "", s. split; [reflexivity|]. split; [cbn; lia|].
    intros i'. cbn [String.append scan]. rewrite Hturn. cbn. f_equal. lia.
Qed.

Lemma extracted_object :
  forall source marker obj,
    extractJsonObjectAfterMarker source marker = Some obj ->
    exists pre gap body post,
      source = pre ++ marker ++ gap ++ obj ++ post
      /\ Str.existsb (Char.eq "{") gap = false
      /\ obj = "{" ++ body ++ "}"
      /\ forall i,
           scan (MkScanner 0 false None false) obj i = Some (i + String.length body + 1).
Proof.
  intros source marker obj H. unfold extractJsonObjectAfterMarker in H.
  destruct (index_of marker source) as [markerIndex|] eqn:Hmarker; [|discriminate H].
  destruct (index_of_split _ _ _ Hmarker) as [pre [post0 [-> <-]]].
  unfold index_of_from in H.
  assert (Hdrop0 : Str.drop (String.length pre + String.length marker)
                            (pre ++ marker ++ post0) = post0).
  { rewrite drop_app. rewrite <- (Nat.add_0_r (String.length marker)).
    apply drop_app. }
  rewrite Hdrop0 in H.
  destruct (index_of "{" post0) as [offset|] eqn:Hbrace; [|discriminate H].
  destruct (index_of_brace _ _ Hbrace) as [gap [post1 [-> [<- Hgap]]]].
  set (start := String.length pre + String.length marker + String.length gap) in H.
  assert (Hdrop1 : Str.drop start (pre ++ marker ++ gap ++ "{" ++ post1) = "{" ++ post1).
  { unfold start. rewrite <- Nat.add_assoc. rewrite !drop_app.
    rewrite <- (Nat.add_0_r (String.length gap)). apply drop_app. }
  unfold slice in H. rewrite Hdrop1 in H.
  destruct (scan _ ("{" ++ post1) _) as [i|] eqn:Hscan; [|discriminate H].
  injection H as <-.
  destruct (scan_returns _ _ _ _ Hscan) as [t [rest [Ht [-> Hagain]]]].
  destruct t as [|c body].
  { cbn [String.append] in Ht. discriminate Ht. }
  cbn [String.append] in Ht. injection Ht as <- ->.
  assert (Hshape : String "{" (body ++ String "}" rest)
                   = (String "{" body ++ "}") ++ rest)
    by (rewrite app_assoc_s; reflexivity).
  rewrite Hshape.
  replace (start + String.length (String "{" body) + 1 - start)
    with (String.length (String "{" body ++ "}"))
    by (rewrite str_length_app; cbn [String.length]; lia).
  rewrite take_length_app.
  exists pre, gap, body, rest. split.
  { rewrite !app_assoc_s. reflexivity. }
  split; [exact Hgap|]. split; [reflexivity|].
  intros i. rewrite (Hagain i). cbn [String.length]. f_equal. lia.
Qed.

(** The text [extractJsonObjectAfterMarker] returns lies behind the marker,
    with no opening brace between the two; it starts with an opening and
    ends with a closing brace; and it is complete: read again on its own,
    it is returned whole. *)
Theorem extractJsonObjectAfterMarker_returns_object :
  forall source marker obj,
    extractJsonObjectAfterMarker source marker = Some obj ->
    (exists pre gap body post,
        source = pre ++ marker ++ gap ++ obj ++ post
        /\ Str.existsb (Char.eq "{") gap = false
        /\ obj = "{" ++ body ++ "}")
    /\ extractJsonObjectAfterMarker obj "" = Some obj.
Proof.
  intros source marker obj H.
  destruct (extracted_object _ _ _ H) as [pre [gap [body [post [Hs [Hgap [Hobj Hscan]]]]]]].
  split; [exists pre, gap, body, post; repeat split; assumption|].
  unfold extractJsonObjectAfterMarker.
  replace (index_of "" obj) with (Some 0) by (destruct obj; reflexivity).
  unfold index_of_from. cbn [String.length Nat.add Str.drop].
  replace (index_of "{" obj) with (Some 0)
    by (rewrite Hobj; cbn [String.append index_of String.prefix];
        destruct (ascii_dec "{" "{") as [_|Hn]; [|contradiction];
        destruct (body ++ "}"); reflexivity).
  cbn [Nat.add Str.drop]. rewrite (Hscan 0). unfold slice. cbn [Str.drop].
  f_equal.
  replace (0 + String.length body + 1 + 1 - 0) with (String.length obj)
    by (rewrite Hobj; cbn [String.append String.length]; rewrite str_length_app;
        cbn [String.length]; lia).
  apply take_all.
Qed.

Lemma extractJsonObjectAfterMarker_returns_object_witness :
  (exists pre gap body post,
      "<script>window.__PRELOADED_STATE__ = {'a':{'b':'}'}};</script>"
      = pre ++ "window.__PRELOADED_STATE__" ++ gap ++ "{'a':{'b':'}'}}" ++ post
      /\ Str.existsb (Char.eq "{") gap = false
      /\ "{'a':{'b':'}'}}" = "{" ++ body ++ "}")
  /\ extractJsonObjectAfterMarker "{'a':{'b':'}'}}" "" = Some "{'a':{'b':'}'}}".
Proof.
  apply (extractJsonObjectAfterMarker_returns_object
           "<script>window.__PRELOADED_STATE__ = {'a':{'b':'}'}};</script>"
           "window.__PRELOADED_STATE__" "{'a':{'b':'}'}}").
  vm_compute. reflexivity.
Defined.

Lemma existsb_app_false :
  forall p a b,
    Str.existsb p (a ++ b) = false ->
    Str.existsb p a = false /\ Str.existsb p b = false.
Proof.
  intros p a b H. rewrite str_existsb_app in H. apply orb_false_iff in H. exact H.
Qed.

Lemma net_app : forall a b, net (a ++ b) = (net a + net b)%Z.
Proof.
  induction a as [|c a IH]; intros b; [reflexivity|].
  cbn [String.append net]. rewrite IH. lia.
Qed.

(** Outside string literals the loop keeps the count of open braces. *)
Lemma scan_counts :
  forall s d i j,
    (1 <= d)%Z ->
    Str.existsb quote_mark s = false ->
    scan (MkScanner d false None false) s i = Some j ->
    exists t rest,
      s = t ++ rest /\ i + String.length t = j + 1
      /\ (d + net t = 0)%Z
      /\ forall t1 t2, t = t1 ++ t2 -> t2 <> "" -> (1 <= d + net t1)%Z.
Proof.
  induction s as [|ch s IH]; intros d i j Hd Hq H; [discriminate H|].
  cbn [Str.existsb] in Hq. apply orb_false_iff in Hq. destruct Hq as [Hch Hq].
  cbn [scan] in H. unfold turn in H. cbn [inString depth quote escaped] in H.
  unfold quote_mark in Hch. rewrite Hch in H.
  assert (Hstep :
    forall d', (1 <= d')%Z ->
      (d' = d + (if Char.eq "{" ch then 1 else if Char.eq "}" ch then -1 else 0))%Z ->
      scan (MkScanner d' false None false) s (S i) = Some j ->
      exists t rest,
        String ch s = t ++ rest /\ i + String.length t = j + 1
        /\ (d + net t = 0)%Z
        /\ forall t1 t2, t = t1 ++ t2 -> t2 <> "" -> (1 <= d + net t1)%Z).
  { intros d' Hd' Heq Hscan.
    destruct (IH d' (S i) j Hd' Hq Hscan) as [t [rest [-> [Hlen [Hnet Hpre]]]]].
    exists (String ch t), rest. split; [reflexivity|].
    split; [cbn [String.length]; lia|]. split; [cbn [net]; lia|].
    intros t1 t2 Hsplit Ht2. destruct t1 as [|c1 t1]; [cbn [net]; lia|].
    cbn [String.append] in Hsplit. injection Hsplit as <- ->.
    pose proof (Hpre t1 t2 eq_refl Ht2). cbn [net]. lia. }
  destruct (Char.eq "{" ch) eqn:Hopen.
  - apply (Hstep (d + 1)%Z); [lia|lia|exact H].
  - destruct (Char.eq "}" ch) eqn:Hclose.
    + cbv zeta in H. destruct (d - 1 =? 0)%Z eqn:Hzero.
      * injection H as <-. apply Z.eqb_eq in Hzero.
        exists (String ch ""), s. split; [reflexivity|].
        split; [cbn [String.length]; lia|].
        split; [cbn [net]; rewrite Hopen, Hclose; lia|].
        intros t1 t2 Hsplit Ht2. destruct t1 as [|c1 t1]; [cbn [net]; lia|].
        cbn [String.append] in Hsplit. injection Hsplit as _ Hrest.
        destruct t1; [|discriminate Hrest]. cbn in Hrest. subst t2. contradiction.
      * apply Z.eqb_neq in Hzero. apply (Hstep (d - 1)%Z); [lia|lia|exact H].
    + apply (Hstep d); [lia|lia|].
      destruct d; exact H.
Qed.

(** When the text returned holds no quotation mark, its braces are
    balanced, and no shorter part of it from the start is: it is the
    shortest balanced text behind the marker. *)
Theorem extractJsonObjectAfterMarker_is_balanced :
  forall source marker obj,
    extractJsonObjectAfterMarker source marker = Some obj ->
    Str.existsb quote_mark obj = false ->
    net obj = 0%Z
    /\ forall t1 t2, obj = t1 ++ t2 -> t1 <> "" -> t2 <> "" -> (0 < net t1)%Z.
Proof.
  intros source marker obj H Hq.
  destruct (extracted_object _ _ _ H) as [pre [gap [body [post [_ [_ [Hobj Hscan]]]]]]].
  pose proof (Hscan 0) as Hrun. subst obj.
  cbn [String.append Str.existsb] in Hq. apply orb_false_iff in Hq.
  destruct Hq as [_ Hq].
  cbn [String.append scan] in Hrun.
  change (turn (MkScanner 0 false None false) "{")
    with (Continue (MkScanner 1 false None false)) in Hrun.
  destruct (scan_counts _ 1%Z _ _ ltac:(lia) Hq Hrun) as [t [rest [Hs [Hlen [Hnet Hpre]]]]].
  assert (Hrest : rest = "").
  { assert (Hl : String.length (body ++ "}") = String.length (t ++ rest))
      by (rewrite Hs; reflexivity).
    rewrite !str_length_app in Hl. cbn [String.length] in Hl.
    destruct rest; [reflexivity|cbn [String.length] in Hl; lia]. }
  subst rest. rewrite app_empty_r in Hs. subst t.
  split.
  - cbn [String.append net]. change (Char.eq "{" "{") with true. cbv iota. lia.
  - intros t1 t2 Hsplit Ht1 Ht2. destruct t1 as [|c1 t1]; [contradiction|].
    cbn [String.append] in Hsplit. injection Hsplit as <- Hsplit.
    pose proof (Hpre t1 t2 Hsplit Ht2). cbn [net].
    change (Char.eq "{" "{") with true. cbv iota. lia.
Qed.

Lemma extractJsonObjectAfterMarker_is_balanced_witness :
  net "{a:{b:1},c:{}}" = 0%Z
  /\ forall t1 t2, "{a:{b:1},c:{}}" = t1 ++ t2 -> t1 <> "" -> t2 <> "" -> (0 < net t1)%Z.
Proof.
  apply (extractJsonObjectAfterMarker_is_balanced
           "state = {a:{b:1},c:{}}; other = {}" "state" "{a:{b:1},c:{}}").
  - vm_compute. reflexivity.
  - vm_compute. reflexivity.
Defined.

(* ------------------------------------------------------------------ *)
(** ** The worker pool *)

Section PoolRuns.
Context {Item R : Type}.
Variable items : list Item.
Variable limit : nat.
Variable worker : Item -> nat -> completion R.

Set Warnings "-notation-for-abbreviation".
Notation State := (MapLimit.State R).
Notation Awaiting := MapLimit.Awaiting.
Notation Returned := MapLimit.Returned.
Notation Rejected := MapLimit.Rejected.
Notation in_flight := MapLimit.in_flight.
Notation runWorker := (@MapLimit.runWorker Item items).
Notation start := (@MapLimit.start Item items).
Notation initial := (@MapLimit.initial Item R items limit).
Notation settle := (@MapLimit.settle Item R items worker).
Notation run := (@MapLimit.run Item R items worker).
Notation settled := (@MapLimit.settled R).
Notation Invariant := (@MapLimit.Invariant Item R items limit worker).

Lemma replace_split :
  forall (l : list MapLimit.Runner) r y,
    nth_error l r = Some y ->
    exists l1 l2,
      l = (l1 ++ y :: l2)%list
      /\ forall x, MapLimit.replace r x l = (l1 ++ x :: l2)%list.
Proof.
  induction l as [|z l IH]; intros r y H; [destruct r; discriminate H|].
  destruct r as [|r].
  - injection H as ->. exists [], l. split; reflexivity.
  - destruct (IH r y H) as [l1 [l2 [-> Hrep]]].
    exists (z :: l1), l2. split; [reflexivity|].
    intros x. cbn [MapLimit.replace]. rewrite Hrep. reflexivity.
Qed.

Lemma in_middle :
  forall (A : Type) (x a b : A) l1 l2,
    In x (l1 ++ a :: l2) -> x <> a -> In x (l1 ++ b :: l2).
Proof.
  intros A x a b l1 l2 H Hne. apply in_app_or in H. apply in_or_app.
  destruct H as [H|[H|H]]; [left; exact H|congruence|right; right; exact H].
Qed.

Lemma in_without_middle :
  forall (A : Type) (x a : A) l1 l2,
    In x (l1 ++ a :: l2) -> x <> a -> In x (l1 ++ l2).
Proof.
  intros A x a l1 l2 H Hne. apply in_app_or in H. apply in_or_app.
  destruct H as [H|[H|H]]; [left; exact H|congruence|right; exact H].
Qed.

Lemma in_with_middle :
  forall (A : Type) (x a : A) l1 l2, In x (l1 ++ l2) -> In x (l1 ++ a :: l2).
Proof.
  intros A x a l1 l2 H. apply in_app_or in H. apply in_or_app.
  destruct H as [H|H]; [left; exact H|right; right; exact H].
Qed.

Lemma in_flight_app :
  forall a b, in_flight (a ++ b) = (in_flight a ++ in_flight b)%list.
Proof. intros a b. apply flat_map_app. Qed.

Lemma in_flight_awaiting : forall l, in_flight (List.map Awaiting l) = l.
Proof.
  induction l as [|i l IH]; [reflexivity|].
  cbn [List.map MapLimit.in_flight flat_map List.app]. f_equal. exact IH.
Qed.

Lemma in_in_flight :
  forall l i, In i (in_flight l) <-> In (Awaiting i) l.
Proof.
  intros l i. unfold MapLimit.in_flight. rewrite in_flat_map. split.
  - intros [x [Hx Hi]]. destruct x as [j| |e]; cbn in Hi; try contradiction.
    destruct Hi as [<-|[]]. exact Hx.
  - intros H. exists (Awaiting i). split; [exact H|left; reflexivity].
Qed.

Lemma assign_length :
  forall index value (l : list (option R)),
    index < List.length l ->
    List.length (MapLimit.assign index value l) = List.length l.
Proof.
  induction index as [|index IH]; intros value l H; destruct l as [|x l];
    cbn [List.length] in H; try lia; cbn [MapLimit.assign List.length].
  - reflexivity.
  - rewrite IH by lia. reflexivity.
Qed.

Lemma assign_same :
  forall index value (l : list (option R)),
    nth_error (MapLimit.assign index value l) index = Some (Some value).
Proof.
  induction index as [|index IH]; intros value l; destruct l as [|x l];
    cbn [MapLimit.assign nth_error]; try reflexivity; apply IH.
Qed.

Lemma assign_other :
  forall index value (l : list (option R)) i,
    i <> index -> index < List.length l ->
    nth_error (MapLimit.assign index value l) i = nth_error l i.
Proof.
  induction index as [|index IH]; intros value l i Hi H; destruct l as [|x l];
    cbn [List.length] in H; try lia; cbn [MapLimit.assign].
  - destruct i as [|i]; [contradiction|reflexivity].
  - destruct i as [|i]; [reflexivity|]. cbn [nth_error]. apply IH; lia.
Qed.

Lemma start_runners :
  forall len cursor,
    cursor + len <= List.length items ->
    start len cursor = (List.map Awaiting (List.seq cursor len), cursor + len).
Proof.
  induction len as [|len IH]; intros cursor H.
  - cbn [MapLimit.start List.seq List.map]. f_equal. lia.
  - cbn [MapLimit.start]. unfold MapLimit.runWorker. cbv zeta.
    replace (Nat.leb (List.length items) cursor) with false
      by (symmetry; apply Nat.leb_gt; lia).
    rewrite IH by lia. cbn [List.seq List.map]. f_equal; [|lia].
    replace (cursor + 1) with (S cursor) by lia. reflexivity.
Qed.

Lemma invariant_initial : Invariant 0 initial.
Proof.
  unfold MapLimit.initial.
  rewrite start_runners by lia. cbn [Nat.add].
  set (k := Nat.min limit (List.length items)).
  constructor; cbn [MapLimit.results MapLimit.cursor MapLimit.runners MapLimit.rejection].
  - apply repeat_length.
  - rewrite length_map, length_seq. reflexivity.
  - rewrite in_flight_awaiting. apply seq_NoDup.
  - rewrite in_flight_awaiting, length_seq. unfold k. lia.
  - intros i Hi. rewrite in_flight_awaiting in Hi. apply in_seq in Hi. unfold k in *. lia.
  - intros i Hi. left. rewrite in_flight_awaiting. apply in_seq. unfold k in *. lia.
  - intros H. apply in_map_iff in H. destruct H as [i [Hi _]]. discriminate Hi.
  - intros e H. apply in_map_iff in H. destruct H as [i [Hi _]]. discriminate Hi.
  - intros e H. discriminate H.
Qed.

Lemma in_flight_middle :
  forall l1 x l2,
    in_flight (l1 ++ x :: l2)
    = (in_flight l1 ++ in_flight [x] ++ in_flight l2)%list.
Proof.
  intros l1 x l2. rewrite in_flight_app.
  change (x :: l2) with ([x] ++ l2)%list. rewrite in_flight_app. reflexivity.
Qed.

Lemma invariant_settle :
  forall steps st r st',
    Invariant steps st -> settle r st = Some st' -> Invariant (S steps) st'.
Proof.
  intros steps st r st' Hinv H. unfold MapLimit.settle in H.
  destruct (nth_error (MapLimit.runners st) r) as [[index| |e]|] eqn:Hr;
    try discriminate H.
  destruct (nth_error items index) as [item|] eqn:Hitem; [|discriminate H].
  destruct (replace_split _ r _ Hr) as [l1 [l2 [Hl Hrep]]].
  destruct Hinv as [Hres Hrun Hnd Hsteps Hbound Htaken Hret Hrej Hfirst].
  rewrite Hl in Hnd, Hsteps, Hbound, Htaken, Hret, Hrej, Hrun.
  rewrite in_flight_middle in Hnd, Hsteps, Hbound, Htaken.
  change (in_flight [Awaiting index]) with [index] in Hnd, Hsteps, Hbound, Htaken.
  cbn [List.app] in Hnd, Hsteps, Hbound, Htaken.
  rewrite length_app in Hsteps, Hrun. cbn [List.length] in Hsteps, Hrun.
  assert (Hindex : index < Nat.min (MapLimit.cursor st) (List.length items))
    by (apply Hbound; apply in_or_app; right; left; reflexivity).
  apply NoDup_remove in Hnd. destruct Hnd as [Hnd Hfresh].
  destruct (worker item index) as [value|e] eqn:Hworker.
  - assert (Hstored :
      forall i,
        (exists item0 value0,
            nth_error items i = Some item0 /\ worker item0 i = Normal value0
            /\ nth_error (MapLimit.results st) i = Some (Some value0)) ->
        exists item0 value0,
          nth_error items i = Some item0 /\ worker item0 i = Normal value0
          /\ nth_error (MapLimit.assign index value (MapLimit.results st)) i
             = Some (Some value0)).
    { intros i [item0 [value0 [Hi [Hw Hv]]]]. exists item0, value0.
      split; [exact Hi|]. split; [exact Hw|].
      destruct (Nat.eq_dec i index) as [->|Hne].
      - rewrite Hitem in Hi. injection Hi as <-. rewrite Hworker in Hw.
        injection Hw as <-. apply assign_same.
      - rewrite assign_other by lia. exact Hv. }
    assert (Hnow :
      exists item0 value0,
        nth_error items index = Some item0 /\ worker item0 index = Normal value0
        /\ nth_error (MapLimit.assign index value (MapLimit.results st)) index
           = Some (Some value0)).
    { exists item, value. split; [exact Hitem|]. split; [exact Hworker|].
      apply assign_same. }
    unfold MapLimit.runWorker in H. cbv zeta in H.
    destruct (Nat.leb (List.length items) (MapLimit.cursor st)) eqn:Hdone;
      injection H as <-; rewrite Hrep;
      constructor;
      cbn [MapLimit.results MapLimit.cursor MapLimit.runners MapLimit.rejection].
    + rewrite assign_length by lia. exact Hres.
    + rewrite length_app. cbn [List.length]. exact Hrun.
    + rewrite in_flight_middle. exact Hnd.
    + apply Nat.leb_le in Hdone. rewrite in_flight_middle.
      cbn [MapLimit.in_flight flat_map List.app]. rewrite length_app in *. lia.
    + apply Nat.leb_le in Hdone. intros i Hi. rewrite in_flight_middle in Hi.
      cbn [MapLimit.in_flight flat_map List.app] in Hi.
      pose proof (Hbound i (in_with_middle _ _ index _ _ Hi)). lia.
    + apply Nat.leb_le in Hdone. intros i Hi. rewrite in_flight_middle.
      cbn [MapLimit.in_flight flat_map List.app].
      destruct (Nat.eq_dec i index) as [->|Hne]; [right; left; exact Hnow|].
      destruct (Htaken i ltac:(lia)) as [Hin|[Hok|Hko]].
      * left. exact (in_without_middle _ _ _ _ _ Hin Hne).
      * right. left. exact (Hstored i Hok).
      * right. right. exact Hko.
    + apply Nat.leb_le in Hdone. intros _. lia.
    + intros e He. apply (Hrej e). apply (in_middle _ _ _ _ _ _ He). discriminate.
    + exact Hfirst.
    + rewrite assign_length by lia. exact Hres.
    + rewrite length_app. cbn [List.length]. exact Hrun.
    + rewrite in_flight_middle. cbn [MapLimit.in_flight flat_map List.app].
      apply (NoDup_Add (Add_app (MapLimit.cursor st) (in_flight l1) (in_flight l2))).
      split; [exact Hnd|]. intros Hin.
      pose proof (Hbound _ (in_with_middle _ _ index _ _ Hin)). lia.
    + apply Nat.leb_gt in Hdone. rewrite in_flight_middle.
      cbn [MapLimit.in_flight flat_map List.app]. rewrite length_app in *.
      cbn [List.length]. lia.
    + apply Nat.leb_gt in Hdone. intros i Hi. rewrite in_flight_middle in Hi.
      cbn [MapLimit.in_flight flat_map List.app] in Hi.
      destruct (Nat.eq_dec i (MapLimit.cursor st)) as [->|Hne]; [lia|].
      pose proof (Hbound i (in_middle _ _ _ index _ _ Hi Hne)). lia.
    + apply Nat.leb_gt in Hdone. intros i Hi. rewrite in_flight_middle.
      cbn [MapLimit.in_flight flat_map List.app].
      destruct (Nat.eq_dec i (MapLimit.cursor st)) as [->|Hcur].
      { left. apply in_or_app. right. left. reflexivity. }
      destruct (Nat.eq_dec i index) as [->|Hne]; [right; left; exact Hnow|].
      destruct (Htaken i ltac:(lia)) as [Hin|[Hok|Hko]].
      * left. exact (in_middle _ _ _ _ _ _ Hin Hne).
      * right. left. exact (Hstored i Hok).
      * right. right. exact Hko.
    + intros Hin. pose proof (Hret (in_middle _ _ _ _ _ _ Hin ltac:(discriminate))). lia.
    + intros e He. apply (Hrej e). apply (in_middle _ _ _ _ _ _ He). discriminate.
    + exact Hfirst.
  - injection H as <-. rewrite Hrep.
    assert (Hsome :
      match MapLimit.rejection st with Some first => Some first | None => Some e end
      <> None) by (destruct (MapLimit.rejection st); discriminate).
    constructor;
      cbn [MapLimit.results MapLimit.cursor MapLimit.runners MapLimit.rejection].
    + exact Hres.
    + rewrite length_app. cbn [List.length]. exact Hrun.
    + rewrite in_flight_middle. exact Hnd.
    + rewrite in_flight_middle. cbn [MapLimit.in_flight flat_map List.app].
      rewrite length_app in *. lia.
    + intros i Hi. rewrite in_flight_middle in Hi.
      cbn [MapLimit.in_flight flat_map List.app] in Hi.
      exact (Hbound i (in_with_middle _ _ index _ _ Hi)).
    + intros i Hi. rewrite in_flight_middle.
      cbn [MapLimit.in_flight flat_map List.app].
      destruct (Nat.eq_dec i index) as [->|Hne].
      { right. right. exists item, e. repeat split; assumption. }
      destruct (Htaken i Hi) as [Hin|[Hok|[item0 [e0 [Hi0 [Hw0 _]]]]]].
      * left. exact (in_without_middle _ _ _ _ _ Hin Hne).
      * right. left. exact Hok.
      * right. right. exists item0, e0. repeat split; assumption.
    + intros Hin. exact (Hret (in_middle _ _ _ _ _ _ Hin ltac:(discriminate))).
    + intros e' _. exact Hsome.
    + intros e' He'. destruct (MapLimit.rejection st) as [first|] eqn:Hrejection.
      * injection He' as <-. exact (Hfirst first eq_refl).
      * injection He' as <-. exists index, item. split; assumption.
Qed.

Lemma invariant_run :
  forall schedule steps st st',
    Invariant steps st -> run schedule st = Some st' ->
    Invariant (steps + List.length schedule) st'.
Proof.
  induction schedule as [|r schedule IH]; intros steps st st' Hinv H.
  - injection H as <-. cbn [List.length]. rewrite Nat.add_0_r. exact Hinv.
  - cbn [MapLimit.run] in H. destruct (settle r st) as [st1|] eqn:Hstep; [|discriminate H].
    cbn [List.length]. rewrite <- Nat.add_succ_comm.
    exact (IH _ _ _ (invariant_settle _ _ _ _ Hinv Hstep) H).
Qed.

Lemma invariant_reached :
  forall schedule st,
    run schedule initial = Some st -> Invariant (List.length schedule) st.
Proof.
  intros schedule st H. exact (invariant_run schedule 0 _ _ invariant_initial H).
Qed.

Lemma all_returned :
  forall l, List.forallb MapLimit.is_returned l = true ->
            in_flight l = [] /\ (l <> [] -> In Returned l).
Proof.
  induction l as [|x l IH]; intros H; [split; [reflexivity|congruence]|].
  cbn [List.forallb] in H. apply andb_true_iff in H. destruct H as [Hx Hl].
  destruct x; try discriminate Hx. destruct (IH Hl) as [Hnone _].
  split; [exact Hnone|]. intros _. left. reflexivity.
Qed.

Lemma run_app :
  forall a b st,
    run (a ++ b) st
    = match run a st with Some st' => run b st' | None => None end.
Proof.
  induction a as [|r a IH]; intros b st; [reflexivity|].
  cbn [List.app MapLimit.run]. destruct (settle r st); [apply IH|reflexivity].
Qed.

Lemma settle_enabled :
  forall steps st r index,
    Invariant steps st ->
    nth_error (MapLimit.runners st) r = Some (Awaiting index) ->
    exists st', settle r st = Some st'.
Proof.
  intros steps st r index Hinv Hr. unfold MapLimit.settle. rewrite Hr.
  assert (Hin : In index (in_flight (MapLimit.runners st)))
    by (apply in_in_flight; exact (nth_error_In _ _ Hr)).
  pose proof (MapLimit.inv_bound Hinv index Hin) as Hindex.
  destruct (nth_error items index) as [item|] eqn:Hitem.
  - destruct (worker item index); [|eexists; reflexivity].
    destruct (runWorker (MapLimit.cursor st)). eexists. reflexivity.
  - apply nth_error_None in Hitem. lia.
Qed.

Lemma unsettled_awaits :
  forall steps st,
    Invariant steps st -> settled st = None ->
    exists r index, nth_error (MapLimit.runners st) r = Some (Awaiting index).
Proof.
  intros steps st Hinv H. unfold MapLimit.settled in H.
  destruct (MapLimit.rejection st) eqn:Hrejection; [discriminate H|].
  destruct (List.forallb MapLimit.is_returned (MapLimit.runners st)) eqn:Hall;
    [discriminate H|].
  assert (Hsome : exists x, In x (MapLimit.runners st) /\ MapLimit.is_returned x = false).
  { clear - Hall. induction (MapLimit.runners st) as [|x l IH]; [discriminate Hall|].
    cbn [List.forallb] in Hall. destruct (MapLimit.is_returned x) eqn:Hx.
    - destruct (IH Hall) as [y [Hy Hr]]. exists y. split; [right; exact Hy|exact Hr].
    - exists x. split; [left; reflexivity|exact Hx]. }
  destruct Hsome as [x [Hx Hnot]]. destruct x as [index| |e].
  - destruct (In_nth_error _ _ Hx) as [r Hr]. exists r, index. exact Hr.
  - discriminate Hnot.
  - exfalso. exact (MapLimit.inv_rejected Hinv e Hx Hrejection).
Qed.

Lemma run_completes :
  forall fuel schedule st,
    run schedule initial = Some st ->
    List.length items - List.length schedule <= fuel ->
    exists more st',
      run (schedule ++ more) initial = Some st' /\ settled st' <> None.
Proof.
  induction fuel as [|fuel IH]; intros schedule st Hrun Hfuel;
    pose proof (invariant_reached _ _ Hrun) as Hinv;
    (destruct (settled st) eqn:Hsettled;
     [exists [], st; rewrite app_nil_r; split; [exact Hrun|congruence]|]);
    destruct (unsettled_awaits _ _ Hinv Hsettled) as [r [index Hr]];
    destruct (settle_enabled _ _ _ _ Hinv Hr) as [st1 Hstep];
    assert (Hrun1 : run (schedule ++ [r]) initial = Some st1)
      by (rewrite run_app, Hrun; cbn [MapLimit.run]; rewrite Hstep; reflexivity).
  - exfalso. pose proof (invariant_reached _ _ Hrun1) as Hinv1.
    pose proof (MapLimit.inv_steps Hinv1) as Hsteps.
    rewrite length_app in Hsteps. cbn [List.length] in Hsteps. lia.
  - destruct (IH (schedule ++ [r])%list st1 Hrun1) as [more [st' [Hmore Hdone]]].
    { rewrite length_app. cbn [List.length]. lia. }
    exists (r :: more), st'. rewrite <- app_assoc in Hmore. split; assumption.
Qed.

(** When [mapLimit] returns, the array it returns has one entry for each
    item, in the order of the items, whatever the order in which the
    workers have finished: entry [i] is the value of the worker for
    item [i]. *)
Theorem mapLimit_results_follow_items :
  forall schedule st rs,
    1 <= limit ->
    run schedule initial = Some st ->
    settled st = Some (Normal rs) ->
    List.length rs = List.length items
    /\ forall i item,
         nth_error items i = Some item ->
         exists value, worker item i = Normal value
                       /\ nth_error rs i = Some (Some value).
Proof.
  intros schedule st rs Hlimit Hrun Hsettled.
  destruct (invariant_reached _ _ Hrun)
    as [Hres Hlen Hnd Hsteps Hbound Htaken Hret Hrej Hfirst].
  unfold MapLimit.settled in Hsettled.
  destruct (MapLimit.rejection st) as [e|] eqn:Hrejection; [discriminate Hsettled|].
  destruct (List.forallb MapLimit.is_returned (MapLimit.runners st)) eqn:Hall;
    [|discriminate Hsettled].
  injection Hsettled as <-. split; [exact Hres|].
  intros i item Hitem.
  assert (Hi : i < List.length items) by (apply nth_error_Some; congruence).
  destruct (all_returned _ Hall) as [Hnone Hsome].
  assert (Hcursor : List.length items <= MapLimit.cursor st).
  { apply Hret. apply Hsome. intros Hempty. rewrite Hempty in Hlen.
    cbn [List.length] in Hlen. lia. }
  destruct (Htaken i ltac:(lia)) as [Hin|[[item0 [value [Hi0 [Hw Hv]]]]|[item0 [e [_ [_ Hko]]]]]].
  - rewrite Hnone in Hin. destruct Hin.
  - rewrite Hitem in Hi0. injection Hi0 as <-. exists value. split; assumption.
  - contradiction.
Qed.

(** [mapLimit] fails only with the exception of a worker; and once no
    worker call is in flight, it has failed if the worker fails for any
    item at all, also for one that was never handed out: one failure loses
    the results of the whole batch. *)
Theorem mapLimit_fails_with_a_worker :
  forall schedule st,
    run schedule initial = Some st ->
    (forall e,
        settled st = Some (Throw e) ->
        exists i item, nth_error items i = Some item /\ worker item i = Throw e)
    /\ (1 <= limit ->
        in_flight (MapLimit.runners st) = [] ->
        (exists i item e, nth_error items i = Some item /\ worker item i = Throw e) ->
        exists e, settled st = Some (Throw e)).
Proof.
  intros schedule st Hrun.
  destruct (invariant_reached _ _ Hrun)
    as [Hres Hlen Hnd Hsteps Hbound Htaken Hret Hrej Hfirst].
  split.
  - intros e H. unfold MapLimit.settled in H.
    destruct (MapLimit.rejection st) as [first|] eqn:Hrejection.
    + injection H as <-. exact (Hfirst first eq_refl).
    + destruct (List.forallb _ _); discriminate H.
  - intros Hlimit Hidle [i [item [e [Hitem Hworker]]]].
    assert (Hi : i < List.length items) by (apply nth_error_Some; congruence).
    assert (Hsome : MapLimit.rejection st <> None).
    { destruct (Nat.lt_ge_cases i (MapLimit.cursor st)) as [Hlt|Hge].
      - destruct (Htaken i ltac:(lia))
          as [Hin|[[item0 [value [Hi0 [Hw _]]]]|[_ [_ [_ [_ Hko]]]]]].
        + rewrite Hidle in Hin. destruct Hin.
        + rewrite Hitem in Hi0. injection Hi0 as <-. congruence.
        + exact Hko.
      - destruct (MapLimit.runners st) as [|x l] eqn:Hrunners.
        { cbn [List.length] in Hlen. lia. }
        destruct x as [index| |e0].
        + discriminate Hidle.
        + pose proof (Hret (or_introl eq_refl)). lia.
        + exact (Hrej e0 (or_introl eq_refl)). }
    unfold MapLimit.settled. destruct (MapLimit.rejection st) as [first|];
      [exists first; reflexivity|contradiction].
Qed.

(** Every run of the pool comes to an end: no more promises settle than
    there are items, no more worker calls are in flight than the limit
    allows, no index is handed out twice, a runner that awaits its worker
    can always go on, and every run can be continued to a state in which
    [mapLimit] has returned or failed. *)
Theorem mapLimit_always_settles :
  forall schedule st,
    run schedule initial = Some st ->
    List.length schedule <= List.length items
    /\ List.length (in_flight (MapLimit.runners st)) <= limit
    /\ NoDup (in_flight (MapLimit.runners st))
    /\ (forall r index,
          nth_error (MapLimit.runners st) r = Some (Awaiting index) ->
          exists st', settle r st = Some st')
    /\ exists more st',
         run (schedule ++ more) initial = Some st' /\ settled st' <> None.
Proof.
  intros schedule st Hrun. pose proof (invariant_reached _ _ Hrun) as Hinv.
  split; [pose proof (MapLimit.inv_steps Hinv); lia|].
  split.
  { pose proof (MapLimit.inv_runners Hinv) as Hlen.
    assert (Hle : forall l, List.length (in_flight l) <= List.length l).
    { induction l as [|x l IH]; [apply Nat.le_refl|].
      change (x :: l) with ([x] ++ l)%list. rewrite in_flight_app, !length_app.
      destruct x; cbn [MapLimit.in_flight flat_map List.app List.length]; lia. }
    pose proof (Hle (MapLimit.runners st)). lia. }
  split; [exact (MapLimit.inv_distinct Hinv)|].
  split; [intros r index Hr; exact (settle_enabled _ _ _ _ Hinv Hr)|].
  exact (run_completes _ schedule st Hrun (Nat.le_refl _)).
Qed.
End PoolRuns.

Lemma mapLimit_results_follow_items_witness :
  List.length [Some "A"; Some "B"; Some "C"] = List.length ["a"; "b"; "c"]
  /\ forall i item,
       nth_error ["a"; "b"; "c"] i = Some item ->
       exists value,
         (fun (item : string) (_ : nat) => Normal (Str.toUpperCase item)) item i
         = Normal value
         /\ nth_error [Some "A"; Some "B"; Some "C"] i = Some (Some value).
Proof.
  apply (mapLimit_results_follow_items ["a"; "b"; "c"] 2
           (fun (item : string) (_ : nat) => Normal (Str.toUpperCase item))
           [1; 0; 1]
           (MapLimit.MkState [Some "A"; Some "B"; Some "C"] 5
                             [MapLimit.Returned; MapLimit.Returned] None)).
  - lia.
  - vm_compute. reflexivity.
  - vm_compute. reflexivity.
Defined.

Lemma mapLimit_fails_with_a_worker_witness :
  (forall e,
      MapLimit.settled
        (MapLimit.MkState [Some "A"; None; None] 2 [MapLimit.Rejected URIError]
                          (Some URIError))
      = Some (Throw e) ->
      exists i item,
        nth_error ["a"; "%"; "c"] i = Some item
        /\ (fun (item : string) (_ : nat) =>
              bindC (normalizeDoi item) (fun _ => Normal (Str.toUpperCase item)))
             item i
           = Throw e)
  /\ (1 <= 1 ->
      MapLimit.in_flight [MapLimit.Rejected URIError] = [] ->
      (exists i item e,
          nth_error ["a"; "%"; "c"] i = Some item
          /\ (fun (item : string) (_ : nat) =>
                bindC (normalizeDoi item) (fun _ => Normal (Str.toUpperCase item)))
               item i
             = Throw e) ->
      exists e,
        MapLimit.settled
          (MapLimit.MkState [Some "A"; None; None] 2 [MapLimit.Rejected URIError]
                            (Some URIError))
        = Some (Throw e)).
Proof.
  apply (mapLimit_fails_with_a_worker ["a"; "%"; "c"] 1
           (fun (item : string) (_ : nat) =>
              bindC (normalizeDoi item) (fun _ => Normal (Str.toUpperCase item)))
           [0; 0]).
  vm_compute. reflexivity.
Defined.

Lemma mapLimit_always_settles_witness :
  List.length [1] <= List.length ["a"; "b"; "c"]
  /\ List.length (MapLimit.in_flight [MapLimit.Awaiting 0; MapLimit.Awaiting 2]) <= 2
  /\ NoDup (MapLimit.in_flight [MapLimit.Awaiting 0; MapLimit.Awaiting 2])
  /\ (forall r index,
        nth_error [MapLimit.Awaiting 0; MapLimit.Awaiting 2] r
        = Some (MapLimit.Awaiting index) ->
        exists st',
          MapLimit.settle ["a"; "b"; "c"]
            (fun (item : string) (_ : nat) => Normal (Str.toUpperCase item)) r
            (MapLimit.MkState [None; Some "B"; None] 3
                              [MapLimit.Awaiting 0; MapLimit.Awaiting 2] None)
          = Some st')
  /\ exists more st',
       MapLimit.run ["a"; "b"; "c"]
         (fun (item : string) (_ : nat) => Normal (Str.toUpperCase item))
         ([1] ++ more) (MapLimit.initial string ["a"; "b"; "c"] 2)
       = Some st'
       /\ MapLimit.settled st' <> None.
Proof.
  apply (mapLimit_always_settles ["a"; "b"; "c"] 2
           (fun (item : string) (_ : nat) => Normal (Str.toUpperCase item)) [1]
           (MapLimit.MkState [None; Some "B"; None] 3
                             [MapLimit.Awaiting 0; MapLimit.Awaiting 2] None)).
  vm_compute. reflexivity.
Defined.

(** ** A DOI whose suffix is closing punctuation *)

(** C3.  [normalizeDoi] is not idempotent on every DOI it accepts: the DOI
    [10.1234/.] matches the DOI pattern of the function, behind each of the
    accepted prefixes; the function trims the closing punctuation from the
    end of what was matched, here the whole suffix, and returns
    [https://doi.org/10.1234/], which its own pattern does not match: a
    second pass returns the empty string. *)
Theorem normalizeDoi_drops_whole_suffix :
  Re.test RE_DOI "10.1234/." = true
  /\ Forall (fun pre => normalizeDoi (pre ++ "10.1234/.")
                        = Normal "https://doi.org/10.1234/") DOI_PREFIXES
  /\ Re.test RE_DOI "https://doi.org/10.1234/" = false
  /\ normalizeDoi "https://doi.org/10.1234/" = Normal ""
  /\ (x <- normalizeDoi "10.1234/." ;; normalizeDoi x) <> normalizeDoi "10.1234/.".
Proof.
  split; [vm_compute; reflexivity|].
  split.
  { unfold DOI_PREFIXES. repeat constructor; vm_compute; reflexivity. }
  split; [vm_compute; reflexivity|].
  split; [vm_compute; reflexivity|].
  vm_compute. discriminate.
Qed.

(** ** Overrides and title hints *)

Lemma first_rule_named :
  forall rules text n,
    first_rule rules text = Some n -> In n (List.map snd rules).
Proof.
  intros rules text n. unfold first_rule.
  destruct (List.find _ rules) as [rule|] eqn:Hf; [|discriminate].
  intros H. injection H as <-. apply find_some in Hf.
  apply in_map. exact (proj1 Hf).
Qed.

(** A raw hint that maps to no type under a policy maps to none without the
    overrides of the policy: an override only adds a type. *)
Lemma unmapped_without_policy :
  forall p value,
    maps_to p value "" -> maps_to "" value "".
Proof.
  intros p value [r [Hr Hn]]. unfold maps_to, normalizeArticleTypeValue in *.
  destruct (negb (Str.truthy (Str.toLowerCase (cleanText value)))).
  { eexists. split; reflexivity. }
  change (policy_overrides (Str.toLowerCase "")) with (@Normal (list (re * string)) []).
  cbn [bindC first_rule List.find].
  destruct (policy_overrides (Str.toLowerCase p)) as [overrides|] eqn:Ho;
    [|discriminate Hr].
  cbn [bindC] in Hr.
  destruct (first_rule overrides (Str.toLowerCase (cleanText value))) as [n|] eqn:Hf.
  { exfalso. injection Hr as <-. cbn [normalized] in Hn. subst n.
    apply first_rule_named in Hf. unfold policy_overrides in Ho.
    destruct (String.eqb (Str.toLowerCase p) "springer_link").
    - injection Ho as <-. cbn in Hf. destruct Hf as [Hf|[Hf|[]]]; discriminate Hf.
    - destruct (_ || _); [discriminate Ho|]. injection Ho as <-. destruct Hf. }
  destruct (first_rule ARTICLE_TYPE_RULES _) as [m|].
  - injection Hr as <-. cbn [normalized] in Hn. subst m.
    eexists. split; reflexivity.
  - eexists. split; reflexivity.
Qed.

Lemma raw_pass_without_policy :
  forall p hints,
    (forall x, In x hints -> maps_to p (hvalue x) "") ->
    classify_first p true hints = Normal None
    /\ classify_first "" true hints = Normal None.
Proof.
  intros p hints. induction hints as [|h hints IH]; intros H.
  - split; reflexivity.
  - assert (Hh := H h (or_introl eq_refl)).
    destruct (IH (fun x Hx => H x (or_intror Hx))) as [IHp IHe].
    destruct Hh as [r [Hr Hn]].
    destruct (unmapped_without_policy p (hvalue h) (ex_intro _ r (conj Hr Hn)))
      as [r' [Hr' Hn']].
    cbn [classify_first]. unfold classifyOne.
    rewrite Hr, Hr'. cbn [bindC]. rewrite Hn, Hn'. cbn.
    split; assumption.
Qed.

(** C5, amended.  When the first raw hint that maps to a type (after cleaning
    and removal of repeats, in the order supplied) maps to research-article,
    the classifier returns research-article with an include decision and
    names that hint, whatever the semantic hints are.  The overrides of a
    policy never reach a title hint: as soon as a raw hint maps to a type,
    the title hints are not read, and the result is the one for no title
    hint at all; and when no raw hint maps to a type, the result is the one
    of the policy without overrides (the empty policy name), whatever the
    policy is. *)
Theorem raw_research_article_wins :
  (forall policyName rawTypeHints semanticHints pre c post r,
      fst (collect_hints "publisher_raw_type" rawTypeHints []) = (pre ++ c :: post)%list ->
      (forall x, In x pre -> maps_to policyName (hvalue x) "") ->
      normalizeArticleTypeValue (hvalue c) policyName true = Normal r ->
      normalized r = "research-article" ->
      classifyArticleType policyName rawTypeHints semanticHints
      = Normal (MkClassification "research-article" "include"
                  "included_by_type:research-article" (hlabel c)
                  (Str.or_else (matchedHint r) (hvalue c))))
  /\ (forall policyName rawTypeHints semanticHints pre c post t,
         fst (collect_hints "publisher_raw_type" rawTypeHints []) = (pre ++ c :: post)%list ->
         (forall x, In x pre -> maps_to policyName (hvalue x) "") ->
         maps_to policyName (hvalue c) t ->
         t <> "" ->
         classifyArticleType policyName rawTypeHints semanticHints
         = classifyArticleType policyName rawTypeHints [])
  /\ (forall policyName rawTypeHints semanticHints,
         (forall x, In x (fst (collect_hints "publisher_raw_type" rawTypeHints [])) ->
                    maps_to policyName (hvalue x) "") ->
         classifyArticleType policyName rawTypeHints semanticHints
         = classifyArticleType "" rawTypeHints semanticHints).
Proof.
  split; [|split].
  - intros policyName rawTypeHints semanticHints pre c post r Hraw Hpre Hr Hn.
    unfold classifyArticleType.
    destruct (collect_hints "publisher_raw_type" rawTypeHints []) as [rawHints seen].
    simpl in Hraw. subst rawHints.
    destruct (collect_hints "title_heuristic" semanticHints seen) as [sem seen'].
    rewrite classify_first_skips.
    + simpl. rewrite (classifyOne_research_article policyName c true r Hr Hn).
      reflexivity.
    + intros x Hx. destruct (Hpre x Hx) as [rx [Hrx Hnx]].
      unfold classifyOne. rewrite Hrx. simpl. rewrite Hnx. reflexivity.
  - intros policyName rawTypeHints semanticHints pre c post t Hraw Hpre [r [Hr Hn]] Ht.
    unfold classifyArticleType.
    destruct (collect_hints "publisher_raw_type" rawTypeHints []) as [rawHints seen].
    simpl in Hraw. subst rawHints.
    destruct (collect_hints "title_heuristic" semanticHints seen) as [sem seen'].
    destruct (collect_hints "title_heuristic" [] seen) as [sem0 seen0] eqn:H0.
    cbn [collect_hints] in H0. injection H0 as <- <-.
    rewrite classify_first_skips.
    2:{ intros x Hx. destruct (Hpre x Hx) as [rx [Hrx Hnx]].
        unfold classifyOne. rewrite Hrx. simpl. rewrite Hnx. reflexivity. }
    cbn [classify_first]. unfold classifyOne. rewrite Hr. cbn [bindC].
    rewrite Hn.
    assert (Htruthy : Str.truthy t = true) by (destruct t; [contradiction|reflexivity]).
    rewrite Htruthy. cbn [negb].
    destruct (mem_string t EXCLUDE_ARTICLE_TYPES) eqn:Hexc; [reflexivity|].
    destruct (mem_string t INCLUDE_ARTICLE_TYPES) eqn:Hinc; [reflexivity|].
    exfalso.
    unfold normalizeArticleTypeValue in Hr.
    destruct (negb (Str.truthy (Str.toLowerCase (cleanText (hvalue c))))).
    { injection Hr as <-. cbn in Hn. subst t. contradiction. }
    destruct (policy_overrides (Str.toLowerCase policyName)) as [overrides|] eqn:Ho;
      [|discriminate Hr].
    cbn [bindC] in Hr.
    assert (Hnamed : forall n, In n (List.map snd overrides) -> n = "research-article").
    { unfold policy_overrides in Ho.
      destruct (String.eqb (Str.toLowerCase policyName) "springer_link").
      - injection Ho as <-. cbn. intros n [<-|[<-|[]]]; reflexivity.
      - destruct (_ || _); [discriminate Ho|]. injection Ho as <-. intros n []. }
    destruct (first_rule overrides _) as [n|] eqn:Hf.
    { injection Hr as <-. cbn [normalized] in Hn. subst n.
      rewrite (Hnamed t (first_rule_named _ _ _ Hf)) in Hinc. discriminate Hinc. }
    destruct (first_rule ARTICLE_TYPE_RULES _) as [m|] eqn:Hm.
    + injection Hr as <-. cbn [normalized] in Hn. subst m.
      apply first_rule_named in Hm. cbn in Hm.
      revert Hinc Hexc. clear - Hm.
      repeat (destruct Hm as [<-|Hm]; [vm_compute; intros; discriminate|]).
      contradiction.
    + injection Hr as <-. cbn in Hn. subst t. contradiction.
  - intros policyName rawTypeHints semanticHints Hraw.
    unfold classifyArticleType.
    destruct (collect_hints "publisher_raw_type" rawTypeHints []) as [rawHints seen].
    cbn [fst] in Hraw.
    destruct (collect_hints "title_heuristic" semanticHints seen) as [sem seen'].
    destruct (raw_pass_without_policy policyName rawHints Hraw) as [-> ->].
    cbn [bindC].
    rewrite (semantic_pass_ignores_policy policyName "" sem). reflexivity.
Qed.

(** The example of the specification: under the Springer policy the raw type
    "Original Paper" wins over a title with "Perspective" in it, with or
    without the title; and with the raw type "Letter", which maps to no
    type, the title "Original Paper on Things" is read without the Springer
    override for "original paper". *)
Lemma raw_research_article_wins_witness :
  classifyArticleType "springer_link"
    [ HintObject (Some "Original Paper") "publisher_raw_type" ]
    [ HintObject (Some "A Perspective on Things") "title_heuristic" ]
  = Normal (MkClassification "research-article" "include"
              "included_by_type:research-article" "publisher_raw_type"
              "Original Paper")
  /\ classifyArticleType "springer_link"
       [ HintObject (Some "Original Paper") "publisher_raw_type" ]
       [ HintObject (Some "A Perspective on Things") "title_heuristic" ]
     = classifyArticleType "springer_link"
         [ HintObject (Some "Original Paper") "publisher_raw_type" ] []
  /\ classifyArticleType "springer_link"
       [ HintObject (Some "Letter") "publisher_raw_type" ]
       [ HintObject (Some "Original Paper on Things") "title_heuristic" ]
     = classifyArticleType ""
         [ HintObject (Some "Letter") "publisher_raw_type" ]
         [ HintObject (Some "Original Paper on Things") "title_heuristic" ].
Proof.
  destruct raw_research_article_wins as [Hfirst [Hraw Hnone]].
  split; [|split].
  - refine (Hfirst "springer_link"
              [ HintObject (Some "Original Paper") "publisher_raw_type" ]
              [ HintObject (Some "A Perspective on Things") "title_heuristic" ]
              [] (MkCleanHint "Original Paper" "publisher_raw_type") []
              (MkNormalized "research-article" "Original Paper")
              _ _ _ _).
    + vm_compute. reflexivity.
    + intros x Hx. destruct Hx.
    + vm_compute. reflexivity.
    + reflexivity.
  - refine (Hraw "springer_link"
              [ HintObject (Some "Original Paper") "publisher_raw_type" ]
              [ HintObject (Some "A Perspective on Things") "title_heuristic" ]
              [] (MkCleanHint "Original Paper" "publisher_raw_type") []
              "research-article" _ _ _ _).
    + vm_compute. reflexivity.
    + intros x Hx. destruct Hx.
    + eexists. split; vm_compute; reflexivity.
    + discriminate.
  - refine (Hnone "springer_link"
              [ HintObject (Some "Letter") "publisher_raw_type" ]
              [ HintObject (Some "Original Paper on Things") "title_heuristic" ] _).
    intros x Hx. vm_compute in Hx. destruct Hx as [<-|[]].
    eexists. split; vm_compute; reflexivity.
Defined.

(** ** The family name and the formatted name, as written *)







(** ** A journal that is not verified, in a verified record *)

(** The record builder reads the platform for one thing only: the host name
    of the final URL. *)
Lemma builder_reads_the_host :
  forall P x sourceUrl policyName host,
    hostForUrl P (x_finalUrl x) = host ->
    buildRecordFromExtracted P x sourceUrl policyName
    = buildRecordFromExtracted
        (MkPlatform (fun _ => Some (MkURL "" host "" "" [] "")) (serializeParams P))
        x sourceUrl policyName.
Proof.
  intros P x sourceUrl policyName host Hhost.
  unfold buildRecordFromExtracted, inferJournalFallback.
  unfold hostForUrl in *. cbn [parseURL hostname].
  destruct (parseURL P (x_finalUrl x)) as [u|]; subst host; reflexivity.
Qed.

(** C1.  The status can be verified while a required field is not: for a
    page of the Academy of Management site that names no journal,
    [inferJournalFallback] writes the journal
    [Academy of Management [Not verified]]; [requiredMissing] tests each required
    field for the exact mark [[Not verified]] only, finds nothing missing,
    and the record, with that journal also in its citation, has the status
    verified.  This holds for the record builder on every platform that
    reads the host name of the address, and for the record that the per-URL
    function returns for the address. *)
Theorem unverified_journal_passes_the_gate :
  (forall P,
      hostForUrl P Proceedings.ARTICLE = "journals.aom.org" ->
      exists r,
        buildRecordFromExtracted P Proceedings.EXTRACTED Proceedings.ARTICLE "default"
        = Normal r
        /\ journal r = PARTIAL_JOURNAL
        /\ Str.includes NOT_VERIFIED (journal r) = true
        /\ isNotVerifiedValue (journal r) = false
        /\ Str.includes PARTIAL_JOURNAL (citation r) = true
        /\ requiredMissing r = []
        /\ missingFields r = []
        /\ status r = "verified")
  /\ (exists o st',
         verifySingleUrl Plain.platform Proceedings.web Proceedings.ARTICLE
                         Sample.ARGS Sample.FRESH
         = (Normal o, st')
         /\ ok o = true
         /\ journal (record o) = PARTIAL_JOURNAL
         /\ missingFields (record o) = []
         /\ status (record o) = "verified").
Proof.
  split.
  - intros P Hhost.
    rewrite (builder_reads_the_host P Proceedings.EXTRACTED Proceedings.ARTICLE
               "default" "journals.aom.org" Hhost).
    match goal with
    | |- exists r, ?b = Normal r /\ _ =>
        let v := eval vm_compute in b in
        change b with v
    end.
    eexists. split; [reflexivity|].
    repeat split; vm_compute; reflexivity.
  - match goal with
    | |- exists o st', ?b = (Normal o, st') /\ _ =>
        let v := eval vm_compute in b in
        change b with v
    end.
    eexists. eexists. split; [reflexivity|].
    repeat split; vm_compute; reflexivity.
Qed.

(** C1 on the reference platform. *)
Lemma unverified_journal_passes_the_gate_witness :
  exists r,
    buildRecordFromExtracted Plain.platform Proceedings.EXTRACTED
                             Proceedings.ARTICLE "default"
    = Normal r
    /\ journal r = PARTIAL_JOURNAL
    /\ Str.includes NOT_VERIFIED (journal r) = true
    /\ isNotVerifiedValue (journal r) = false
    /\ Str.includes PARTIAL_JOURNAL (citation r) = true
    /\ requiredMissing r = []
    /\ missingFields r = []
    /\ status r = "verified".
Proof.
  apply (proj1 unverified_journal_passes_the_gate Plain.platform).
  vm_compute. reflexivity.
Defined.

(** ** The full abstract and the teasers *)

Lemma score_at_most_length :
  forall t, (abstract_score t <= Z.of_nat (String.length t))%Z.
Proof.
  intros t. unfold abstract_score.
  destruct (Re.test RE_ELLIPSIS_END t); destruct (Re.test RE_CLICK_ARTICLE t);
    destruct (Re.test RE_CLICK_ISSUE t); lia.
Qed.





(** ** A second arrival at a final URL *)




Section DuplicateOfRun.
Variable P : Platform.
Variable W : World.
Variable k : string.
Variable inputUrl : string.
Hypothesis key_given : Str.truthy k = true.
Hypothesis key_of_input : normalizeFinalUrlForRunDedupe P inputUrl <> k.











End DuplicateOfRun.




(** ** The pre-navigation check, in the per-URL function and in the reader *)

(** [normalizeDoi] throws on a malformed escape only. *)
Lemma normalizeDoi_returns :
  forall s, well_escaped s -> exists d, normalizeDoi s = Normal d.
Proof.
  intros s [units Hunits]. unfold normalizeDoi.
  destruct (negb (Str.truthy s)); [eexists; reflexivity|].
  unfold decoded. rewrite Hunits. cbn [bindC].
  destruct (Re.exec RE_DOI _); eexists; reflexivity.
Qed.

(** Induction on a parsed value. *)
Section JsonInduction.
Variable Q : Json -> Prop.
Hypothesis Q_null : Q JNull.
Hypothesis Q_bool : forall b, Q (JBool b).
Hypothesis Q_number : forall t, Q (JNumber t).
Hypothesis Q_string : forall s, Q (JString s).
Hypothesis Q_array : forall items, Forall Q items -> Q (JArray items).
Hypothesis Q_object :
  forall fields, Forall (fun kv => Q (snd kv)) fields -> Q (JObject fields).

Fixpoint Json_induction (j : Json) : Q j :=
  match j with
  | JNull => Q_null
  | JBool b => Q_bool b
  | JNumber t => Q_number t
  | JString s => Q_string s
  | JArray items =>
      Q_array items
        ((fix each (l : list Json) : Forall Q l :=
            match l with
            | [] => Forall_nil Q
            | item :: rest => Forall_cons item (Json_induction item) (each rest)
            end) items)
  | JObject fields =>
      Q_object fields
        ((fix each (l : list (string * Json)) : Forall (fun kv => Q (snd kv)) l :=
            match l with
            | [] => Forall_nil _
            | (key, value) :: rest =>
                Forall_cons (key, value) (Json_induction value) (each rest)
            end) fields)
  end.
End JsonInduction.

Section ReaderPasses.
Variable P : Platform.

(** An address that passes the check with its anchor text passes it
    without. *)
Lemma safe_without_text :
  forall href text,
    classifyUnsafePreNavigationLink P href text = None ->
    classifyUnsafePreNavigationLink P href "" = None.
Proof.
  intros href text. unfold classifyUnsafePreNavigationLink.
  destruct (classifyUnsafeAlertManagementLink href text) as [reason|] eqn:Hc;
    [discriminate|].
  intros Hscheme. rewrite Hscheme.
  replace (classifyUnsafeAlertManagementLink href "") with (@None string);
    [reflexivity|].
  symmetry. revert Hc. unfold classifyUnsafeAlertManagementLink. cbv zeta.
  replace (Str.toLowerCase (cleanText "")) with "" by (vm_compute; reflexivity).
  replace (some_test TEXT_UNSUBSCRIBE "") with false by (vm_compute; reflexivity).
  replace (some_test TEXT_MANAGEMENT "") with false by (vm_compute; reflexivity).
  rewrite !orb_false_r.
  destruct (negb (Str.truthy (Str.toLowerCase href)));
    destruct (some_test HREF_UNSUBSCRIBE (Str.toLowerCase href));
    destruct (some_test HREF_MANAGEMENT (Str.toLowerCase href));
    destruct (negb (Str.truthy (Str.toLowerCase (cleanText text))));
    destruct (some_test TEXT_UNSUBSCRIBE (Str.toLowerCase (cleanText text)));
    destruct (some_test TEXT_MANAGEMENT (Str.toLowerCase (cleanText text)));
    cbn [Str.truthy Str.is_empty negb andb orb];
    intros H; try discriminate H; reflexivity.
Qed.

Lemma clean_is_clean : forall value, cleanText (Reader.clean value) = Reader.clean value.
Proof.
  intros [j|]; [|vm_compute; reflexivity]. unfold Reader.clean.
  destruct (Reader.falsy j); [vm_compute; reflexivity|]. apply cleanText_idempotent.
Qed.

Lemma passes_block : forall note r, passes P r -> passes P (Reader.block note r).
Proof. intros note r H. exact H. Qed.

Lemma passes_push :
  forall url r,
    classifyUnsafePreNavigationLink P url "" = None ->
    cleanText url = url ->
    passes P r -> passes P (Reader.push url r).
Proof.
  intros url r Hsafe Hclean H u Hu. cbn [Reader.push Reader.urls] in Hu.
  apply in_app_or in Hu. destruct Hu as [Hu|[<-|[]]]; [exact (H u Hu)|].
  split; assumption.
Qed.

Lemma keeps_pushUrl : forall value, keeps P (Reader.pushUrl P value).
Proof.
  intros value r H. unfold Reader.pushUrl. cbv zeta.
  destruct (negb (Str.truthy (Reader.clean value))); [exact H|].
  destruct (classifyUnsafePreNavigationLink P (Reader.clean value) "") eqn:Hc.
  - apply passes_block. exact H.
  - apply passes_push; [exact Hc|apply clean_is_clean|exact H].
Qed.

Lemma keeps_pushLinkDetail : forall entry, keeps P (Reader.pushLinkDetail P entry).
Proof.
  intros entry r H. destruct entry as [| | | | |fields]; try exact H.
  unfold Reader.pushLinkDetail. cbv zeta.
  destruct (negb (Str.truthy (Reader.detail_href fields))); [exact H|].
  destruct (classifyUnsafePreNavigationLink P _ _) eqn:Hc.
  - apply passes_block. exact H.
  - apply passes_push; [|apply clean_is_clean|exact H].
    exact (safe_without_text _ _ Hc).
Qed.

Lemma keeps_fold :
  forall (A : Type) (f : Reader.Reading -> A -> Reader.Reading) l,
    (forall a, keeps P (fun r => f r a)) ->
    keeps P (fun r => List.fold_left f l r).
Proof.
  intros A f l Hf. induction l as [|a l IH]; intros r H; [exact H|].
  cbn [List.fold_left]. apply IH. apply (Hf a). exact H.
Qed.

Lemma keeps_each_url : forall values, keeps P (Reader.each_url P values).
Proof.
  intros values. unfold Reader.each_url.
  apply (keeps_fold _ (fun r value => Reader.pushUrl P (Some value) r)).
  intros a. apply keeps_pushUrl.
Qed.

Lemma keeps_each_detail : forall entries, keeps P (Reader.each_detail P entries).
Proof.
  intros entries. unfold Reader.each_detail.
  apply (keeps_fold _ (fun r entry => Reader.pushLinkDetail P entry r)).
  intros a. apply keeps_pushLinkDetail.
Qed.

Lemma keeps_member :
  forall key fields inner,
    Forall (fun kf => keeps P (snd kf)) inner ->
    keeps P (Reader.ingest_member key fields inner).
Proof.
  intros key fields inner Hinner r H. unfold Reader.ingest_member.
  destruct (Reader.is_array _); [|exact H].
  destruct (List.find _ (List.rev inner)) as [kf|] eqn:Hf; [|exact H].
  apply find_some in Hf. destruct Hf as [Hin _]. apply in_rev in Hin.
  rewrite Forall_forall in Hinner. exact (Hinner kf Hin r H).
Qed.

Lemma keeps_object :
  forall fields inner,
    Forall (fun kf => keeps P (snd kf)) inner ->
    keeps P (Reader.ingest_object P fields inner).
Proof.
  intros fields inner Hinner r H. unfold Reader.ingest_object. cbv zeta.
  apply keeps_member; [exact Hinner|].
  apply keeps_member; [exact Hinner|].
  assert (Hif : forall (b : bool) f r0, keeps P f -> passes P r0 ->
                                        passes P (if b then f r0 else r0)).
  { intros b f r0 Hf H0. destruct b; [apply Hf|]; exact H0. }
  apply (Hif _ (Reader.each_url P _)); [apply keeps_each_url|].
  apply (Hif _ (Reader.each_url P _)); [apply keeps_each_url|].
  apply keeps_pushUrl. apply keeps_pushUrl. apply keeps_pushUrl.
  apply (Hif _ (Reader.pushUrl P _)); [apply keeps_pushUrl|].
  apply (Hif _ (Reader.each_detail P _)); [apply keeps_each_detail|].
  apply keeps_member; [exact Hinner|]. exact H.
Qed.

Lemma keeps_ingest : forall node, keeps P (Reader.ingest P node).
Proof.
  apply (Json_induction (fun node => keeps P (Reader.ingest P node))).
  - intros r H. exact H.
  - intros b r H. exact H.
  - intros t r H. exact H.
  - intros s r H. cbn [Reader.ingest]. destruct (Str.truthy s); [|exact H].
    apply keeps_pushUrl. exact H.
  - intros items Hitems. cbn [Reader.ingest].
    induction Hitems as [|item rest Hitem Hrest IH]; intros r H; [exact H|].
    apply IH. apply Hitem. exact H.
  - intros fields Hfields. cbn [Reader.ingest]. apply keeps_object.
    induction Hfields as [|[key value] rest Hvalue Hrest IH]; constructor.
    + exact Hvalue.
    + exact IH.
Qed.

(** Every address that [readInputUrls] returns passes the check on its
    text. *)
Lemma read_urls_pass :
  forall parsed url,
    In url (Reader.readInputUrls P parsed) ->
    classifyUnsafePreNavigationLink P url "" = None.
Proof.
  intros parsed url Hin. unfold Reader.readInputUrls, uniqueStrings in Hin.
  apply uniqueStrings_from_In in Hin. destruct Hin as [_ [_ [v [Hv Hc]]]].
  assert (Hpass : passes P (Reader.ingest P parsed (Reader.MkReading [] []))).
  { apply keeps_ingest. intros u []. }
  destruct (Hpass v Hv) as [Hsafe Hclean]. rewrite Hclean in Hc. subst v.
  exact Hsafe.
Qed.
End ReaderPasses.

(** C7, as stated, fails.  A file URL has a scheme that is neither http nor
    https; the scheme test lets it through on purpose, and the run goes on
    to open a page and navigate to it.  And an address whose anchor text
    reads "Unsubscribe" is dropped where the entry with the anchor text is
    read, no record is made for it, and the same address listed without the
    anchor text is handed on, navigated to and verified: the per-URL
    function is given no anchor text. *)
Lemma safety_short_circuit_counterexample :
  ~ safety_short_circuit_as_stated Plain.platform Sample.open_web
      "file:///tmp/fixture.html" Sample.ARGS Sample.FRESH
  /\ classifyUnsafePreNavigationLink Plain.platform Alert.LINK "Unsubscribe"
     = Some "alert_unsubscribe_link"
  /\ Reader.readInputUrls Plain.platform Alert.DETAILS_ONLY = []
  /\ Reader.readInputUrls Plain.platform Alert.PARSED = [Alert.LINK]
  /\ exists o st',
       verifySingleUrl Plain.platform Sample.open_web Alert.LINK
                       Sample.ARGS Sample.FRESH
       = (Normal o, st')
       /\ status (record o) = "verified"
       /\ List.existsb is_network (trace st') = true.
Proof.
  split; [|split; [|split; [|split]]].
  - unfold safety_short_circuit_as_stated. intros H.
    replace (verifySingleUrl Plain.platform Sample.open_web
               "file:///tmp/fixture.html" Sample.ARGS Sample.FRESH)
      with Sample.FIXTURE_RUN in H by (vm_compute; reflexivity).
    unfold Sample.FIXTURE_RUN in H.
    destruct H as [o [st' [Hrun [Hstatus Htrace]]]].
    + right. eexists. split; [vm_compute; reflexivity|].
      split; vm_compute; discriminate.
    + injection Hrun as <- <-. discriminate Hstatus.
  - vm_compute. reflexivity.
  - vm_compute. reflexivity.
  - vm_compute. reflexivity.
  - replace (verifySingleUrl Plain.platform Sample.open_web Alert.LINK
               Sample.ARGS Sample.FRESH)
      with Sample.ARTICLE_RUN by (vm_compute; reflexivity).
    unfold Sample.ARTICLE_RUN. eexists. eexists.
    split; [reflexivity|]. split; vm_compute; reflexivity.
Qed.

(** C7, amended.  When the pre-navigation classifier names a reason for the
    input URL from its text alone (the text matches an unsubscribe or
    alert-management pattern, or the URL parses with a scheme other than
    http, https and file), the retry ceiling is at least one, and the URL,
    as given and as cleaned, holds no malformed escape, the per-URL function
    returns an excluded record with that reason and does nothing else: no
    effect is performed and the run state is unchanged.  Anchor text is no
    input of the per-URL function.  It is read where the input file is
    read: an entry of [link_details] whose address or anchor text is unsafe
    adds no address, and every address that the reader returns passes the
    check on its text. *)
Theorem unsafe_link_short_circuit :
  (forall P W inputUrl args st reason,
      1 <= maxRetries args ->
      well_escaped inputUrl ->
      well_escaped (cleanText inputUrl) ->
      classifyUnsafePreNavigationLink P (cleanText inputUrl) "" = Some reason ->
      exists o,
        verifySingleUrl P W inputUrl args st = (Normal o, st)
        /\ ok o = true
        /\ status (record o) = "excluded"
        /\ ingestDecision (record o) = "exclude"
        /\ ingestReason (record o) = reason)
  /\ (forall P fields r reason,
         Reader.detail_href fields <> "" ->
         classifyUnsafePreNavigationLink P (Reader.detail_href fields)
                                         (Reader.detail_text fields)
         = Some reason ->
         Reader.urls (Reader.pushLinkDetail P (JObject fields) r) = Reader.urls r)
  /\ (forall P parsed url,
         In url (Reader.readInputUrls P parsed) ->
         classifyUnsafePreNavigationLink P url "" = None).
Proof.
  split; [|split].
  - intros P W inputUrl args st reason Hretries Hgiven Hcleaned Hclass.
    destruct (normalizeDoi_returns _ Hgiven) as [canonical Hcanonical].
    destruct (normalizeDoi_returns _ Hcleaned) as [d Hd].
    assert (Htruthy : Str.truthy (cleanText inputUrl) = true).
    { destruct (cleanText inputUrl) eqn:Hc; [|reflexivity].
      rewrite nothing_to_classify in Hclass. discriminate Hclass. }
    assert (Hreason : Str.or_else reason "non_article_link" = reason).
    { apply or_else_truthy. revert Hclass.
      unfold classifyUnsafePreNavigationLink, classifyUnsafeAlertManagementLink,
        classifyUnsupportedUrlScheme. cbv zeta.
      repeat match goal with
             | |- context [if ?b then _ else _] => destruct b
             | |- context [match parseURL P ?x with _ => _ end] =>
                 destruct (parseURL P x)
             end;
        intros H; try discriminate H; injection H as <-; reflexivity. }
    destruct (excluded_returns inputUrl (cleanText inputUrl)
                (policyForUrl P (cleanText inputUrl)) reason None d canonical
                Hd Hcanonical)
      as [o [Ho [Hok [Hst [Hdec [Hr _]]]]]].
    exists o. split; [|repeat split; try assumption; rewrite Hr; exact Hreason].
    unfold verifySingleUrl. rewrite Hcanonical.
    unfold uniqueStrings. cbn [uniqueStrings_from]. rewrite Htruthy.
    cbn [negb mem_string List.existsb].
    destruct (maxRetries args) as [|n]; [inversion Hretries|].
    cbn [attempts_loop targets_loop]. unfold try_target.
    rewrite Hclass. rewrite Ho. reflexivity.
  - intros P fields r reason Hhref Hclass. unfold Reader.pushLinkDetail. cbv zeta.
    apply truthy_iff in Hhref. rewrite Hhref. cbn [negb]. rewrite Hclass.
    reflexivity.
  - intros P parsed url. apply read_urls_pass.
Qed.

(** C7, amended, at an unsubscribe link with no network at all, at the
    entry of the alert that names the article under the anchor text
    "Unsubscribe", and at what is read from the alert. *)
Lemma unsafe_link_short_circuit_witness :
  (exists o,
      verifySingleUrl Plain.platform Sample.offline
        "https://pub.example/alerts/unsubscribe?u=%E2%82%AC" Sample.ARGS Sample.FRESH
      = (Normal o, Sample.FRESH)
      /\ ok o = true
      /\ status (record o) = "excluded"
      /\ ingestDecision (record o) = "exclude"
      /\ ingestReason (record o) = "alert_unsubscribe_link")
  /\ Reader.urls
       (Reader.pushLinkDetail Plain.platform
          (JObject [ ("href", JString Alert.LINK); ("text", JString "Unsubscribe") ])
          (Reader.MkReading [] []))
     = []
  /\ classifyUnsafePreNavigationLink Plain.platform Alert.LINK "" = None.
Proof.
  destruct unsafe_link_short_circuit as [Hmachine [Hentry Hreader]].
  split; [|split].
  - apply (Hmachine Plain.platform Sample.offline
             "https://pub.example/alerts/unsubscribe?u=%E2%82%AC"
             Sample.ARGS Sample.FRESH "alert_unsubscribe_link").
    + vm_compute. lia.
    + eexists. vm_compute. reflexivity.
    + eexists. vm_compute. reflexivity.
    + vm_compute. reflexivity.
  - apply (Hentry Plain.platform
             [ ("href", JString Alert.LINK); ("text", JString "Unsubscribe") ]
             (Reader.MkReading [] []) "alert_unsubscribe_link").
    + vm_compute. discriminate.
    + vm_compute. reflexivity.
  - apply (Hreader Plain.platform Alert.PARSED Alert.LINK).
    vm_compute. left. reflexivity.
Defined.
